(* ===== verification/_CoqProject ===== *)
-Q . S2P
Prelude.v
Keys.v
Slice.v
Node.v
Leaf.v
Codec.v
NodeCodec.v
Storage.v
BTree.v
TreeFrame.v
Tree.v
TreeMap.v
TreeLimits.v
Flush.v
Faults.v
Proto.v
Wal.v
RaftLog.v
Raft.v
Election.v
Replication.v
Growth.v
RaftNode.v
Cluster.v
Steady.v
Agreement.v
Progress.v
Reigns.v
Handover.v
Generator.v
Wait.v
Scheduler.v
Replay.v
Db.v
DbSpec.v
Restart.v
System.v
Replicas.v
OneLog.v
Succession.v
Lone.v
Config.v
Api.v
HttpServer.v
Logging.v
