(* ===== verification/Prelude.v ===== *)
(** * HarmonyDB: a verification library

    HarmonyDB is a replicated key-value store.  A client sends a put or a get to
    the HTTP server of a node; a put becomes a proposal to the node's Raft state
    machine; the run loop persists the Raft log in a write-ahead log, exchanges
    messages with the other nodes and hands committed entries to the database;
    a FIFO scheduler applies them to a B+tree, whose pages a flusher writes to a
    file; a waiter wakes the put when its entry was applied.  This library
    models these parts as executable functions and step relations, proves what
    each promises, and composes them up to the answer of an HTTP request.

    ** The program and its model

    Foundations
    - this file: bytes, widths, the results of Go code ([outcome]: a value, an
      [error], a panic), little-endian numbers, the tactics [inv_outcome] and
      [follow] that take a function's run apart;
    - [Keys]: the order of [bytes.Compare], sorted lists of pairs and the map
      they stand for; [Slice]: Go slices with capacity; [Codec]: fields of
      [encoding/binary] and the class of formats that are read back.

    Storage
    - [Node] (src/node.go): pages, their cells and offsets, split, searches;
      [Leaf]: a leaf page is a sorted list, and the binary search is a scan;
      [NodeCodec]: pages on disk;
    - [Storage] (src/storage.go): the page cache, the file, the flusher;
    - [BTree] (src/btree.go): metadata, page allocation, [Get], [put];
      [Tree]: they refine a finite map; [TreeFrame]: what a put leaves alone,
      the metadata file; [TreeMap]: runs of puts, gets and flushes;
      [TreeLimits]: what happens outside the bounds, and to a flushed file;
      [Flush]: what a flush writes; [Faults]: a flush and the metadata file when
      writes and syncs fail.

    Consensus
    - [Proto] (src/repl/proto/repl/raft.pb.go): the messages;
    - [Wal] (src/wal/wal.go): the write-ahead log, its format and its sync
      policy, and the interface [Storage] with its laws [StorageSpec];
    - [RaftLog] (src/repl/log.go), [Raft] (src/repl/sm.go): the log in memory and
      the state machine; [Election], [Replication], [Growth]: what one call does
      to votes and roles, to the log and the progress, and that logs only grow;
    - [RaftNode] (src/repl/raft.go): the channels and the run loop, a turn of its
      [select] at a time;
    - [Cluster]: any number of nodes and a network that loses, repeats and
      reorders; [Steady]: its runs under one leader, with no message repeated
      and one proposal at a time; [Agreement]: on these, nodes agree; [Progress]:
      and proposals can be committed; [Reigns]: leaders that follow one another;
      [Handover]: that one can follow another.

    Database
    - [Generator] (src/generator.go): request ids; [Wait] (src/wait.go,
      src/wait_time.go): waiting puts and gets; [Scheduler]
      (src/scheduler/scheduler.go); [Replay] (src/replay.go);
    - [Db] (src/db.go): [Open], the apply loop and its jobs in steps, [Put] and
      [Get]; [DbSpec]: a database with its history, every interleaving of calls,
      jobs and flushes; [Restart]: runs, and what a restart keeps;
    - [System]: the Raft node and the database of one server, side by side;
    - [Replicas]: several such servers, their queues and the network, whose runs
      are runs of [Cluster]; [OneLog]: the same under one leader; [Succession]:
      under leaders that follow one another; [Lone]: a cluster of one server;
    - [Config] (src/cmd/server.go, src/repl/bootstrap.go): ports, configuration
      files, the start of a node; [Api] (src/api/server.go): the HTTP handlers
      over the running server; [HttpServer] (src/api/server.go,
      src/cmd/server.go): routes, [Start], [Stop], [main]; [Logging]
      (src/logger.go): the debug mode, the component filter, log files.

    A Go struct is a [Record] with the same fields and a method a function from
    the state to the new state, named like the method; where one name serves two
    types of the code the receiver comes first ([waiter_Trigger]).  A function
    that can return an error or panic gives an [outcome]; one that can block
    gives an [option], [None] while it waits.  What the code leaves open is an
    argument: the order in which a map is ranged over, the answers of disk and
    network, the growth of a slice ([GrowPolicy]), the case a [select] takes.

    ** What is proved

    - One server, from the request to the log: a get that is not timed out is
      answered with what the puts of a prefix of the committed entries of the
      server's own Raft log wrote last; a client whose put was applied is answered
      so, unless it was timed out, and reads its value; the statuses of the
      handlers ([Api]); what is applied is a prefix of what is committed
      ([System]).  For the Raft log these theorems assume that each step of the
      node leaves it well formed, as [RaftNode] does: the code does not see to it
      ([append_again]).
    - The database: a put returns success exactly if its entry was applied after
      it registered and its [select]s see it; in every interleaving the tree is
      the map of the applied entries; what a job does to the tree, the metadata
      and the waiters, in steps as at once ([DbSpec], [Db]); replay applies what
      was committed and not applied, and doing it again changes nothing
      ([Replay]); jobs run in order ([Scheduler]); waiters are woken exactly
      when they should ([Wait]); ids are unique, over restarts too
      ([Generator]).
    - The B+tree: get refines lookup of a finite map, and put insertion, within
      the bounds below, end to end from an empty file ([Tree], [TreeMap]); what a
      page is read back as ([NodeCodec]), and the metadata ([TreeFrame]); decoding
      never panics ([NodeCodec]); a flush writes the dirty pages to their places
      ([Flush]); whatever fails, a page is marked clean only once it is in its
      place and synced, and the metadata file holds a first part of the new pair
      over the old one ([Faults]); the search is a scan ([Leaf]).
    - Several servers: election safety holds of the whole servers ([Replicas]);
      while one leader stays ([OneLog]), and over leaders that follow one
      another ([Succession]), every server has applied a prefix of the leader's
      committed entries and reads of any server answer from it, and a put that
      was answered with success is on a majority.  The runs of the last two are
      restricted, as their relations say: a message does not arrive twice under a
      leader, a proposal waits for the answers before it, and a leader is elected
      while nobody proposes, with no log longer and no commit index higher than
      its own, all others following and only votes under way.
    - Raft: election safety, no panic, and states that are well typed in every
      reachable cluster ([Cluster]); what proposals, append messages, commits
      and [Ready] do, and what is refused ([Replication]); votes are kept and
      timeouts fire ([Election]); the run loop persists before it sends and
      delivers in order ([RaftNode]); while one leader stays and proposals wait
      for their answers, a majority stores what is committed and nobody stores
      anything else there ([Agreement]), and with a majority up to date the next
      proposal can be committed ([Progress]); what is committed stays under later
      leaders whose logs reach as far as any ([Reigns]), and leadership can pass
      to any such follower ([Handover]).
    - The write-ahead log: it is read back, a cut file gives a prefix or an
      error, decoding ends, and what was appended past the sync threshold
      survives a crash ([Wal]).
    - What does not hold is shown by runs of the model: two nodes can commit
      different commands, a leader can commit too early, a restart can elect two
      leaders ([Cluster]), a new leader can overwrite what is committed
      ([Agreement]), an old leader takes the entries of a newer one for proposals
      and the logs part ([Reigns]), a server alone never answers a put ([Lone]), the
      run loop can block for ever ([RaftNode]), the tree
      loses keys below the first separator and panics when the root is full, and
      a flushed tree is not found again ([TreeLimits], [Restart]) and its first page
      is overwritten ([Flush]), a header that could not be written is not
      reported ([Faults]), a server with
      its default port does not start ([Api]), the component filter of the logger
      filters nothing ([Logging]).

    ** Bounds and fuel

    Fuel bounds the depth of the recursion in the tree and the turns of the
    loops that Go writes as [for]; running out is the panic [OutOfFuel], which
    no function of the code has, and the theorems that a function returns rule
    it out.  A tree has at most two levels as long as it works, so fuel 2 is
    enough for [Get] and 1 for [put]; the binary search has one turn per offset
    at most; decoding the log one per byte at most.  The theorems on trees bound
    the puts to 1160, the first being the smallest key: 290 leaves fit under a
    root and a leaf keeps four pairs at least; what reads of a whole database or
    server answer is stated for puts within these bounds, too.  Cluster theorems
    bound the steps below 2^63, so that terms, which are wrapped, do not.

    ** Not modelled

    - Log calls are dropped.  The logger itself is in [Logging], but for the
      library zap, an argument there, and src/logger/logger.go, which is glue.
    - The gRPC transport and the generated code but for the messages: sending is
      the list of sent messages; a message arrives by [stepSM].
    - The JSON and YAML parsers, [net/http], dialling and listening: arguments,
      or left out where they only stop ([Node.stop]).
    - Mutexes: a method that holds one is one step.  A flush, and an access of
      the tree or of [lastCommitIndex] that has no lock in the code, is taken as
      one step too.
    - Errors of writes to the page file and the metadata file, and [Sync], outside
      [Faults]: the other files take these calls as succeeding.
    - Allocation sizes and times; numbers in the texts of errors, but where a
      client sees them.
    - Mocks, tests, test helpers, and [generateCorrelationID], which nothing
      calls. *)
From stdpp Require Export base gmap list strings sorting.
From Stdlib Require Export ZArith Lia.
From Stdlib Require Import Init.Byte.

Declare Scope harmony_scope.
Delimit Scope harmony_scope with harmony.

(** ** Bytes and fixed-width integers *)

Abbreviation byte := Byte.byte.
Abbreviation bytes := (list Byte.byte).

#[global] Instance byte_eq_dec : EqDecision byte := Byte.byte_eq_dec.

#[global] Program Instance byte_countable : Countable byte :=
  inj_countable Byte.to_N Byte.of_N _.
Next Obligation. intros b. apply Byte.of_to_N. Qed.

(** The value of a byte, and the byte a value is truncated to. *)
Definition b2z (b : byte) : Z := Z.of_N (Byte.to_N b).
Definition z2b (z : Z) : byte :=
  default Byte.x00 (Byte.of_N (Z.to_N (z mod 256))).

(** Go's conversions to the unsigned widths and to [int64]. *)
Definition u16 (z : Z) : Z := (z mod 2 ^ 16)%Z.
Definition u32 (z : Z) : Z := (z mod 2 ^ 32)%Z.
Definition u64 (z : Z) : Z := (z mod 2 ^ 64)%Z.
Definition i64 (z : Z) : Z := ((z + 2 ^ 63) mod 2 ^ 64 - 2 ^ 63)%Z.

(** A Go string literal: strings are byte sequences. *)
Definition go_string (s : string) : bytes := String.list_byte_of_string s.

(** [len(x)] of the code, as an [int]. *)
Definition zlen {A} (l : list A) : Z := Z.of_nat (length l).

(** ** Results of Go code

    A function returns, returns an [error], or panics.  [OutOfFuel] is not a
    behaviour of the code: it marks a bounded loop of the model that ran
    out of steps, and the termination theorems rule it out. *)
Inductive goerr :=
  | ErrEOF
  | ErrUnexpectedEOF
  | ErrMsg (s : string)
  | ErrWrap (s : string) (e : goerr).

Inductive gopanic :=
  | NilDeref
  | NilMapWrite
  | IndexOutOfRange
  | SliceOutOfRange
  | CloseOfClosedChannel
  | PanicMsg (s : string)
  | PanicErr (s : string) (e : goerr)
  | OutOfFuel.

Inductive outcome (A : Type) :=
  | Ok (a : A)
  | Err (e : goerr)
  | Panic (p : gopanic).
Arguments Ok {A} _.
Arguments Err {A} _.
Arguments Panic {A} _.

#[global] Instance goerr_eq_dec : EqDecision goerr.
Proof. solve_decision. Defined.
#[global] Instance gopanic_eq_dec : EqDecision gopanic.
Proof. solve_decision. Defined.

#[global] Instance outcome_ret : MRet outcome := fun A a => Ok a.
#[global] Instance outcome_bind : MBind outcome := fun A B f m =>
  match m with
  | Ok a => f a
  | Err e => Err e
  | Panic p => Panic p
  end.
#[global] Instance outcome_fmap : FMap outcome := fun A B f m =>
  match m with
  | Ok a => Ok (f a)
  | Err e => Err e
  | Panic p => Panic p
  end.

(** [fmt.Errorf("s: %w", err)] around a call, and [panic(fmt.Errorf(..))]. *)
Definition wrap_err {A} (s : string) (m : outcome A) : outcome A :=
  match m with Err e => Err (ErrWrap s e) | _ => m end.
Definition panic_err {A} (s : string) (m : outcome A) : outcome A :=
  match m with Err e => Panic (PanicErr s e) | _ => m end.

Definition is_ok {A} (m : outcome A) : bool :=
  match m with Ok _ => true | _ => false end.

(** [p != nil] dereference, and an index expression [l[i]]. *)
Definition deref {A} (o : option A) : outcome A :=
  match o with Some a => Ok a | None => Panic NilDeref end.
Definition index {A} (l : list A) (i : Z) : outcome A :=
  if (i <? 0)%Z then Panic IndexOutOfRange else
  match l !! Z.to_nat i with Some a => Ok a | None => Panic IndexOutOfRange end.

(** Inverts a chain of binds that ended in [Ok]. *)
Lemma bind_Ok_inv {A B} (m : outcome A) (f : A -> outcome B) b :
  m ≫= f = Ok b -> exists a, m = Ok a /\ f a = Ok b.
Proof. destruct m; cbn; try discriminate. eauto. Qed.

Ltac inv_outcome :=
  repeat match goal with
  | H : Ok _ = Ok _ |- _ => injection H as H
  | H : Err _ = Ok _ |- _ => discriminate H
  | H : Panic _ = Ok _ |- _ => discriminate H
  | H : mret _ = Ok _ |- _ => injection H as H
  | H : _ ≫= _ = Ok _ |- _ =>
      let a := fresh "r" in let Ha := fresh "H" a in
      apply bind_Ok_inv in H as (a & Ha & H)
  end.

(** Follows a function through its tests and binds. *)
Ltac follow :=
  repeat match goal with
  | H : Ok _ = Ok _ |- _ => injection H as H
  | H : Err _ = Ok _ |- _ => discriminate H
  | H : Panic _ = Ok _ |- _ => discriminate H
  | H : _ ≫= _ = Ok _ |- _ => apply bind_Ok_inv in H as (? & ? & H)
  | H : (if ?c then _ else _) = Ok _ |- _ => destruct c
  | H : (let '(_, _) := ?x in _) = Ok _ |- _ => destruct x eqn:?
  | H : match ?x with _ => _ end = Ok _ |- _ => destruct x eqn:?
  end.

Lemma index_Some {A} (l : list A) (i : nat) a :
  l !! i = Some a -> index l (Z.of_nat i) = Ok a.
Proof.
  intros H. unfold index. destruct (Z.ltb_spec (Z.of_nat i) 0); [lia|].
  by rewrite Nat2Z.id, H.
Qed.

Lemma index_Ok_inv {A} (l : list A) i a :
  index l i = Ok a -> (0 <= i < zlen l)%Z /\ l !! Z.to_nat i = Some a.
Proof.
  unfold index, zlen. destruct (Z.ltb_spec i 0); [discriminate|].
  destruct (l !! Z.to_nat i) eqn:E; [|discriminate]. intros [= ->].
  apply lookup_lt_Some in E as ?. split; [lia|done].
Qed.

Lemma index_in_range {A} (l : list A) i :
  (0 <= i < zlen l)%Z -> exists a, index l i = Ok a /\ l !! Z.to_nat i = Some a.
Proof.
  intros [H0 H1]. unfold zlen in H1.
  destruct (lookup_lt_is_Some_2 l (Z.to_nat i)) as [a Ha]; [lia|].
  exists a. split; [|done]. rewrite <- (Z2Nat.id i) by done. by apply index_Some.
Qed.

(** ** Little-endian encoding of integers ([encoding/binary]) *)

Fixpoint le_bytes (n : nat) (z : Z) : bytes :=
  match n with
  | O => []
  | S n => z2b z :: le_bytes n (z / 256)
  end.

Fixpoint le_val (l : bytes) : Z :=
  match l with
  | [] => 0
  | b :: l => b2z b + 256 * le_val l
  end%Z.

Lemma b2z_range b : (0 <= b2z b < 256)%Z.
Proof. unfold b2z. pose proof (Byte.to_N_bounded b). lia. Qed.

Lemma b2z_z2b z : b2z (z2b z) = (z mod 256)%Z.
Proof.
  unfold b2z, z2b. pose proof (Z.mod_pos_bound z 256 ltac:(lia)) as Hb.
  destruct (Byte.of_N (Z.to_N (z mod 256))) as [b|] eqn:E; cbn.
  - apply Byte.to_of_N in E. rewrite E. lia.
  - exfalso. apply Byte.of_N_None_iff in E. lia.
Qed.

Lemma z2b_b2z b : z2b (b2z b) = b.
Proof.
  unfold z2b, b2z. pose proof (Byte.to_N_bounded b).
  rewrite Z.mod_small, N2Z.id, Byte.of_to_N by lia. done.
Qed.

Lemma length_le_bytes n z : length (le_bytes n z) = n.
Proof. revert z. induction n; intros; cbn; auto. Qed.

Lemma le_val_le_bytes n z : le_val (le_bytes n z) = (z mod 2 ^ (8 * Z.of_nat n))%Z.
Proof.
  revert z. induction n as [|n IH]; intros z.
  - by rewrite Z.mod_1_r.
  - cbn [le_bytes le_val]. rewrite IH, b2z_z2b.
    replace (8 * Z.of_nat (S n))%Z with (8 + 8 * Z.of_nat n)%Z by lia.
    rewrite Z.pow_add_r by lia. change (2 ^ 8)%Z with 256%Z.
    rewrite Z.rem_mul_r by (try apply Z.pow_pos_nonneg; lia). done.
Qed.

Lemma le_bytes_mod n z : le_bytes n (z mod 2 ^ (8 * Z.of_nat n)) = le_bytes n z.
Proof.
  revert z. induction n as [|n IH]; intros z; [done|].
  cbn [le_bytes]. 
  replace (8 * Z.of_nat (S n))%Z with (8 + 8 * Z.of_nat n)%Z by lia.
  rewrite Z.pow_add_r by lia. change (2 ^ 8)%Z with 256%Z.
  rewrite Z.rem_mul_r by (try apply Z.pow_pos_nonneg; lia).
  f_equal.
  - unfold z2b. do 3 f_equal. rewrite Z.mul_comm, Z.mod_add, Z.mod_mod by lia. done.
  - rewrite Z.mul_comm, Z.div_add, Z.div_small by (try apply Z.mod_pos_bound; lia).
    apply IH.
Qed.

Lemma le_val_bound l : (0 <= le_val l < 2 ^ (8 * Z.of_nat (length l)))%Z.
Proof.
  induction l as [|b l IH]; cbn [le_val length]; [cbn; lia|].
  replace (8 * Z.of_nat (S (length l)))%Z with (8 + 8 * Z.of_nat (length l))%Z by lia.
  rewrite Z.pow_add_r by lia. change (2 ^ 8)%Z with 256%Z.
  pose proof (b2z_range b). nia.
Qed.

Lemma le_bytes_le_val l : le_bytes (length l) (le_val l) = l.
Proof.
  induction l as [|b l IH]; cbn [le_val le_bytes length]; [done|].
  pose proof (b2z_range b). f_equal.
  - rewrite <- (z2b_b2z b) at 2. unfold z2b. do 3 f_equal.
    rewrite (Z.mul_comm 256), Z.mod_add by lia. done.
  - rewrite (Z.mul_comm 256), Z.div_add, Z.div_small by lia. apply IH.
Qed.

#[global] Arguments le_bytes : simpl never.
#[global] Arguments le_val : simpl never.

Lemma i64_id z : (- 2 ^ 63 <= z < 2 ^ 63)%Z -> i64 z = z.
Proof. intros. unfold i64. rewrite Z.mod_small; lia. Qed.

Lemma i64_range z : (- 2 ^ 63 <= i64 z < 2 ^ 63)%Z.
Proof. unfold i64. pose proof (Z.mod_pos_bound (z + 2 ^ 63) (2 ^ 64) ltac:(lia)). lia. Qed.

Lemma i64_u64 z : i64 (u64 z) = i64 z.
Proof.
  unfold i64, u64. f_equal. rewrite Zplus_mod_idemp_l. done.
Qed.

(** ** Finite maps *)

(** What the values of a map hold between them, with one of them apart. *)
Lemma map_bind_split {K} `{Countable K} {A B} (m : gmap K A) (k : K) (a : A) (f : A -> list B) :
  m !! k = Some a ->
  exists rest, (map_to_list m ≫= fun kv => f kv.2) ≡ₚ f a ++ rest /\
    forall a', (map_to_list (<[k := a']> m) ≫= fun kv => f kv.2) ≡ₚ f a' ++ rest.
Proof.
  intros Hk. exists (map_to_list (delete k m) ≫= fun kv => f kv.2). split.
  - by rewrite <- (map_to_list_delete m k a) by done.
  - intros a'. by rewrite <- insert_delete_eq, map_to_list_insert by apply lookup_delete_eq.
Qed.

Lemma filter_none {A} (P : A -> Prop) `{!forall x, Decision (P x)} (l : list A) :
  (forall x, x ∈ l -> ~ P x) -> filter P l = [].
Proof.
  intros Hl. induction l as [|x l IH]; [done|].
  rewrite filter_cons_False by (apply Hl; left). apply IH. intros y Hy. apply Hl. by right.
Qed.
