(* ===== verification/Keys.v ===== *)
(** * Keys and sorted key-value lists

    The order of [bytes.Compare] on keys, and the abstract content of a
    B+tree: a list of pairs with strictly increasing keys.  [sput] is what an
    insertion or update means there; the tree's operations are proved against
    it, and against the finite map it stands for. *)
From S2P Require Import Prelude.

Local Open Scope Z_scope.

(** [bytes.Compare]. *)
Fixpoint bytes_compare (a b : bytes) : comparison :=
  match a, b with
  | [], [] => Eq
  | [], _ => Lt
  | _, [] => Gt
  | x :: a, y :: b =>
      match b2z x ?= b2z y with
      | Eq => bytes_compare a b
      | c => c
      end
  end.

Definition klt (a b : bytes) : Prop := bytes_compare a b = Lt.
Definition kle (a b : bytes) : Prop := bytes_compare a b <> Gt.

Declare Scope key_scope.
Delimit Scope key_scope with key.
Infix "<" := klt : key_scope.
Infix "<=" := kle : key_scope.

#[global] Instance klt_dec a b : Decision (klt a b).
Proof. unfold klt. apply _. Defined.
#[global] Instance kle_dec a b : Decision (kle a b).
Proof. unfold kle. apply _. Defined.

Lemma b2z_inj x y : b2z x = b2z y -> x = y.
Proof. intros E. rewrite <- (z2b_b2z x), E. apply z2b_b2z. Qed.

Lemma bytes_compare_refl a : bytes_compare a a = Eq.
Proof. induction a as [|x a IH]; cbn; [done|]. by rewrite Z.compare_refl. Qed.

Lemma bytes_compare_eq a b : bytes_compare a b = Eq <-> a = b.
Proof.
  split; [|intros ->; apply bytes_compare_refl].
  revert b. induction a as [|x a IH]; intros [|y b]; cbn; try done.
  destruct (Z.compare_spec (b2z x) (b2z y)) as [E| |]; try done.
  intros H%IH. apply b2z_inj in E. by subst.
Qed.

Lemma bytes_compare_opp a b : bytes_compare b a = CompOpp (bytes_compare a b).
Proof.
  revert b. induction a as [|x a IH]; intros [|y b]; cbn; try done.
  rewrite (Z.compare_antisym (b2z x)). destruct (b2z x ?= b2z y); cbn; auto.
Qed.

Lemma klt_trans a b c : klt a b -> klt b c -> klt a c.
Proof.
  unfold klt. revert b c. induction a as [|x a IH]; intros [|y b] [|z c]; cbn; try done.
  destruct (Z.compare_spec (b2z x) (b2z y)) as [E1|H1|H1]; try done;
  destruct (Z.compare_spec (b2z y) (b2z z)) as [E2|H2|H2]; try done.
  - rewrite E1, E2, Z.compare_refl. apply IH.
  - intros _ _. rewrite E1. by rewrite (proj2 (Z.compare_lt_iff _ _)).
  - intros _ _. rewrite <- E2. by rewrite (proj2 (Z.compare_lt_iff _ _)).
  - intros _ _. by rewrite (proj2 (Z.compare_lt_iff _ _)) by lia.
Qed.

#[global] Instance klt_strict : StrictOrder klt.
Proof.
  split.
  - intros a H. unfold klt in H. by rewrite bytes_compare_refl in H.
  - intros a b c. apply klt_trans.
Qed.

Lemma klt_irrefl a : ~ klt a a.
Proof. apply irreflexivity, klt_strict. Qed.

Lemma kle_spec a b : kle a b <-> a = b \/ klt a b.
Proof.
  unfold kle, klt. rewrite <- bytes_compare_eq. destruct (bytes_compare a b); naive_solver.
Qed.

Lemma not_kle a b : ~ kle a b <-> klt b a.
Proof.
  unfold kle, klt. rewrite bytes_compare_opp. destruct (bytes_compare b a); cbn; naive_solver.
Qed.

Lemma not_klt a b : ~ klt a b <-> kle b a.
Proof. rewrite <- not_kle. destruct (decide (kle b a)); naive_solver. Qed.

Lemma kle_refl a : kle a a.
Proof. apply kle_spec. by left. Qed.

Lemma klt_kle a b : klt a b -> kle a b.
Proof. intros. apply kle_spec. by right. Qed.

Lemma kle_lt_trans a b c : kle a b -> klt b c -> klt a c.
Proof. rewrite kle_spec. intros [->|H]; [done|]. by apply klt_trans. Qed.

Lemma klt_le_trans a b c : klt a b -> kle b c -> klt a c.
Proof. rewrite kle_spec. intros H [<-|H']; [done|]. by apply (klt_trans a b). Qed.

Lemma kle_trans a b c : kle a b -> kle b c -> kle a c.
Proof.
  rewrite (kle_spec b c). intros H [<-|H']; [done|]. apply klt_kle. by apply (kle_lt_trans a b).
Qed.

Lemma kcase a b : klt a b \/ a = b \/ klt b a.
Proof.
  unfold klt. rewrite (bytes_compare_opp a b), <- bytes_compare_eq.
  destruct (bytes_compare a b); cbn; auto.
Qed.

(** ** Sorted key-value lists *)

Abbreviation pair_list := (list (bytes * bytes)).

Definition pair_lt (p q : bytes * bytes) : Prop := klt p.1 q.1.

Abbreviation sorted := (StronglySorted pair_lt).

Fixpoint sput (k v : bytes) (l : pair_list) : pair_list :=
  match l with
  | [] => [(k, v)]
  | p :: l =>
      match bytes_compare k p.1 with
      | Lt => (k, v) :: p :: l
      | Eq => (k, v) :: l
      | Gt => p :: sput k v l
      end
  end.

Definition to_map (l : pair_list) : gmap bytes bytes := list_to_map l.

(** Every key of [l] is below [k], or at least [k]. *)
Definition all_lt (l : pair_list) (k : bytes) : Prop := Forall (fun p => klt p.1 k) l.
Definition all_ge (l : pair_list) (k : bytes) : Prop := Forall (fun p => kle k p.1) l.
Definition all_gt (l : pair_list) (k : bytes) : Prop := Forall (fun p => klt k p.1) l.

Lemma sput_map k v l : sorted l -> to_map (sput k v l) = <[k := v]> (to_map l).
Proof.
  unfold to_map. induction 1 as [|[k' v'] l Hs IH Hall]; [done|]. cbn.
  destruct (bytes_compare k k') eqn:E.
  - apply bytes_compare_eq in E as ->. cbn. by rewrite insert_insert_eq.
  - done.
  - cbn. rewrite IH. rewrite insert_insert_ne; [done|].
    intros ->. by rewrite bytes_compare_refl in E.
Qed.

Lemma sput_app_r k v l1 l2 : all_lt l1 k -> sput k v (l1 ++ l2) = l1 ++ sput k v l2.
Proof.
  induction 1 as [|p l1 Hp _ IH]; [done|]. cbn.
  rewrite (bytes_compare_opp p.1 k), Hp. cbn. by rewrite IH.
Qed.

Lemma sput_head k v p l : klt k p.1 -> sput k v (p :: l) = (k, v) :: p :: l.
Proof. cbn. by intros ->. Qed.

Lemma sput_app_l k v l1 l2 : all_gt l2 k -> sput k v (l1 ++ l2) = sput k v l1 ++ l2.
Proof.
  intros H. induction l1 as [|p l1 IH]; cbn.
  - destruct H as [|p l2 Hp _]; [done|]. by apply sput_head.
  - destruct (bytes_compare k p.1); [done|done|]. cbn. by rewrite IH.
Qed.

Lemma sput_fresh k v l1 l2 :
  all_lt l1 k -> all_gt l2 k -> sput k v (l1 ++ l2) = l1 ++ (k, v) :: l2.
Proof.
  intros H1 H2. rewrite sput_app_r by done. f_equal.
  destruct H2 as [|p l2 Hp _]; [done|]. by apply sput_head.
Qed.

Lemma sput_update k v v0 l1 l2 :
  all_lt l1 k -> sput k v (l1 ++ (k, v0) :: l2) = l1 ++ (k, v) :: l2.
Proof. intros H. rewrite sput_app_r by done. cbn. by rewrite bytes_compare_refl. Qed.

Lemma sorted_app l1 l2 :
  sorted (l1 ++ l2) <->
  sorted l1 /\ sorted l2 /\ forall p q, p ∈ l1 -> q ∈ l2 -> pair_lt p q.
Proof.
  induction l1 as [|p l1 IH]; cbn.
  - split; [intros H; split_and!; [constructor|done|]|naive_solver].
    intros p q Hp. by apply not_elem_of_nil in Hp.
  - split.
    + intros H. inversion_clear H as [|? ? Hs Hall]. apply IH in Hs as (H1 & H2 & H3).
      apply Forall_app in Hall as [Ha1 Ha2]. split_and!; [by constructor|done|].
      intros a q [->|Ha]%elem_of_cons Hq; [|by apply H3]. by apply (proj1 (Forall_forall _ _) Ha2).
    + intros (H1 & H2 & H3). inversion_clear H1 as [|? ? Hs Hall]. constructor.
      * apply IH. split_and!; [done|done|]. intros. apply H3; [by right|done].
      * apply Forall_app. split; [done|]. apply Forall_forall. intros q Hq. apply H3; [by left|done].
Qed.

Lemma sorted_sput k v l : sorted l -> sorted (sput k v l).
Proof.
  induction 1 as [|[k' v'] l Hs IH Hall]; [repeat constructor|]. cbn.
  destruct (bytes_compare k k') eqn:E.
  - apply bytes_compare_eq in E as ->. by constructor.
  - constructor; [by constructor|]. constructor; [done|].
    eapply Forall_impl; [exact Hall|]. intros p Hp. unfold pair_lt in *. cbn in *.
    by apply (klt_trans k k').
  - constructor; [done|]. clear IH Hs. unfold pair_lt in *. cbn in *.
    assert (klt k' k) as Hlt by (unfold klt; by rewrite bytes_compare_opp, E).
    induction Hall as [|p l Hp Hall IH]; cbn; [by repeat constructor|].
    destruct (bytes_compare k p.1); by repeat constructor.
Qed.

(** Where a key belongs in a sorted list: it is there, or it splits the list. *)
Lemma sorted_cases k l :
  sorted l ->
  (exists l1 v l2, l = l1 ++ (k, v) :: l2 /\ all_lt l1 k /\ all_gt l2 k) \/
  (exists l1 l2, l = l1 ++ l2 /\ all_lt l1 k /\ all_gt l2 k).
Proof.
  induction 1 as [|[k' v'] l Hs IH Hall].
  - right. exists [], []. split_and!; [done|constructor|constructor].
  - destruct (kcase k k') as [Hlt|[->|Hgt]].
    + right. exists [], ((k', v') :: l). split_and!; [done|constructor|].
      constructor; [done|]. eapply Forall_impl; [exact Hall|].
      intros p Hp. by apply (klt_trans k k').
    + left. exists [], v', l. split_and!; [done|constructor|done].
    + destruct IH as [(l1 & v & l2 & -> & H1 & H2)|(l1 & l2 & -> & H1 & H2)].
      * left. exists ((k', v') :: l1), v, l2. split_and!; [done|by constructor|done].
      * right. exists ((k', v') :: l1), l2. split_and!; [done|by constructor|done].
Qed.

Lemma to_map_app l1 l2 k :
  to_map (l1 ++ l2) !! k = match to_map l1 !! k with Some v => Some v | None => to_map l2 !! k end.
Proof. unfold to_map. rewrite list_to_map_app, lookup_union. by destruct (list_to_map l1 !! k), (list_to_map l2 !! k). Qed.

Lemma to_map_lt l k : all_lt l k -> to_map l !! k = None.
Proof.
  intros H. unfold to_map. apply not_elem_of_list_to_map_1. intros ([k' v] & E & Hin)%list_elem_of_fmap.
  cbn in E. subst. eapply Forall_forall in H; [|done]. by apply klt_irrefl in H.
Qed.

Lemma to_map_gt l k : all_gt l k -> to_map l !! k = None.
Proof.
  intros H. unfold to_map. apply not_elem_of_list_to_map_1. intros ([k' v] & E & Hin)%list_elem_of_fmap.
  cbn in E. subst. eapply Forall_forall in H; [|done]. by apply klt_irrefl in H.
Qed.
