(* ===== verification/Slice.v ===== *)
(** * Go slices with their spare capacity

    A slice is its elements and the contents of the backing array behind them:
    [s[:n]] may reach up to the capacity, and [append] writes in place as long
    as the capacity lasts.  The slices modelled here (the [offsets] of a page)
    are never shared between two variables, so no other slice sees the writes.
    How much capacity a growing [append] allocates is the runtime's choice,
    the parameter [GrowPolicy]. *)
From S2P Require Import Prelude.

Local Open Scope Z_scope.

(** The spare elements a reallocation to [n] elements leaves behind them. *)
Class GrowPolicy := grow_spare : nat -> nat.

Record slice := mkSlice {
  sl_elems : list Z;
  sl_spare : list Z;
}.

#[global] Instance slice_eq_dec : EqDecision slice.
Proof. solve_decision. Defined.

Definition sl_nil : slice := mkSlice [] [].
Definition sl_cap (s : slice) : nat := length (sl_elems s) + length (sl_spare s).
Definition sl_of (l : list Z) : slice := mkSlice l [].

(** [append(s, xs...)]. *)
Definition sl_append `{GrowPolicy} (s : slice) (xs : list Z) : slice :=
  let elems := sl_elems s ++ xs in
  if (length xs <=? length (sl_spare s))%nat then mkSlice elems (drop (length xs) (sl_spare s))
  else mkSlice elems (repeat 0 (grow_spare (length elems))).

(** [s[:n]] and the elements of [s[n:]]. *)
Definition sl_prefix (s : slice) (n : Z) : outcome slice :=
  if (0 <=? n) && (n <=? Z.of_nat (sl_cap s)) then
    let all := sl_elems s ++ sl_spare s in
    Ok (mkSlice (take (Z.to_nat n) all) (drop (Z.to_nat n) all))
  else Panic SliceOutOfRange.

Definition sl_suffix (s : slice) (n : Z) : outcome (list Z) :=
  if (0 <=? n) && (n <=? zlen (sl_elems s)) then Ok (drop (Z.to_nat n) (sl_elems s))
  else Panic SliceOutOfRange.

(** [s[i] = x]. *)
Definition sl_set (s : slice) (i x : Z) : outcome slice :=
  if (0 <=? i) && (i <? zlen (sl_elems s)) then
    Ok (mkSlice (<[Z.to_nat i := x]> (sl_elems s)) (sl_spare s))
  else Panic IndexOutOfRange.

(** [s = append(s[:i+1], s[i:]...); s[i] = x] for a [uint16] index: room is
    made at [i]. *)
Definition sl_insert `{GrowPolicy} (s : slice) (i x : Z) : outcome slice :=
  hd ← sl_prefix s (u16 (i + 1));
  tl ← sl_suffix s i;
  sl_set (sl_append hd tl) i x.

Section slice.
Context `{GrowPolicy}.

Lemma sl_append_elems s xs : sl_elems (sl_append s xs) = sl_elems s ++ xs.
Proof. unfold sl_append. by destruct (_ <=? _)%nat. Qed.

Lemma sl_append_cap s xs : (sl_cap s <= sl_cap (sl_append s xs))%nat.
Proof.
  unfold sl_append, sl_cap. destruct (Nat.leb_spec (length xs) (length (sl_spare s))); cbn;
    rewrite !length_app, ?length_drop; lia.
Qed.

(** Inserting inside the slice, or at its end with capacity to spare. *)
Lemma sl_insert_spec s (i : nat) x :
  Z.of_nat i < 2 ^ 16 - 1 ->
  (i < length (sl_elems s))%nat \/ (i = length (sl_elems s) /\ i < sl_cap s)%nat ->
  exists s', sl_insert s (Z.of_nat i) x = Ok s' /\
    sl_elems s' = take i (sl_elems s) ++ x :: drop i (sl_elems s) /\ (sl_cap s <= sl_cap s')%nat.
Proof.
  intros Hw Hi. unfold sl_insert, sl_prefix, sl_suffix, sl_set, zlen.
  unfold u16. rewrite (Z.mod_small (Z.of_nat i + 1)) by lia.
  assert (i <= length (sl_elems s) /\ S i <= sl_cap s)%nat as [Hle Hcap] by (unfold sl_cap in *; lia).
  rewrite (proj2 (Z.leb_le 0 (Z.of_nat i + 1))), (proj2 (Z.leb_le _ (Z.of_nat (sl_cap s)))) by lia. cbn [andb mbind outcome_bind].
  rewrite (proj2 (Z.leb_le 0 (Z.of_nat i))), (proj2 (Z.leb_le (Z.of_nat i) _)) by lia.
  cbn [andb mbind outcome_bind].
  set (hd := mkSlice _ _). rewrite sl_append_elems.
  replace (Z.to_nat (Z.of_nat i + 1)) with (S i) in hd by lia. rewrite Nat2Z.id.
  assert (length (sl_elems hd) = S i) as Hhd.
  { unfold hd. cbn. rewrite length_take, length_app. unfold sl_cap in Hcap. lia. }
  rewrite (proj2 (Z.ltb_lt _ _)) by (rewrite length_app; lia).
  eexists. split; [done|]. cbn [sl_elems]. split.
  - unfold hd. cbn [sl_elems]. rewrite insert_app_l by (unfold hd in Hhd; cbn in Hhd; lia).
    change (x :: drop i (sl_elems s)) with ([x] ++ drop i (sl_elems s)). rewrite app_assoc. f_equal.
    apply (list_eq_same_length _ _ (S i)).
    + rewrite length_app, length_take. cbn. lia.
    + rewrite length_insert. unfold hd in Hhd. cbn in Hhd. done.
    + intros j a b Hj Ha Hb. destruct (decide (j = i)) as [->|Hne].
      * rewrite list_lookup_insert_eq in Ha by (unfold hd in Hhd; cbn in Hhd; lia).
        rewrite lookup_app_r in Hb by (rewrite length_take; lia).
        rewrite length_take, Nat.min_l, Nat.sub_diag in Hb by lia. cbn in Hb. congruence.
      * rewrite list_lookup_insert_ne in Ha by done.
        rewrite lookup_app_l in Hb by (rewrite length_take; lia).
        rewrite lookup_take_lt in Ha by lia. rewrite lookup_take_lt in Hb by lia.
        rewrite lookup_app_l in Ha by lia. congruence.
  - etransitivity; [|etransitivity; [apply (sl_append_cap hd (drop i (sl_elems s)))|]].
    + unfold sl_cap, hd. cbn. rewrite length_take, length_drop, length_app. lia.
    + unfold sl_cap. cbn. rewrite length_insert, sl_append_elems. done.
Qed.

End slice.
