(* ===== verification/Node.v ===== *)
(** * The pages of the B+tree ([node.go])

    A page holds its cells in the order they came, and [offsets], the indexes
    of the live cells in key order.  A split takes indexes off [offsets] and
    leaves the cells behind, so a leaf may hold cells of keys that moved away. *)
From S2P Require Import Prelude Keys Slice.

Local Open Scope Z_scope.

Definition pageSize : Z := 4096.
Definition maxLeafNodeCells : Z := 9.
Definition maxInternalNodeCells : Z := 290.

Record internalCell := mkInternalCell {
  ic_key : bytes;
  ic_fileOffset : Z;
}.

Record leafCell := mkLeafCell {
  lc_keySize : Z;
  lc_valSize : Z;
  lc_key : bytes;
  lc_val : bytes;
}.

Record Node := mkNode {
  isDirty : bool;
  isLeaf : bool;
  fileOffset : Z;
  offsets : slice;
  n_internalCell : list internalCell;
  n_leafCell : list leafCell;
}.

#[global] Instance internalCell_eq_dec : EqDecision internalCell.
Proof. solve_decision. Defined.
#[global] Instance leafCell_eq_dec : EqDecision leafCell.
Proof. solve_decision. Defined.

(** [&Node{}]. *)
Definition emptyNode : Node := mkNode false false 0 sl_nil [] [].

Definition set_isLeaf (b : bool) (n : Node) : Node :=
  mkNode (isDirty n) b (fileOffset n) (offsets n) (n_internalCell n) (n_leafCell n).
Definition set_offsets (s : slice) (n : Node) : Node :=
  mkNode (isDirty n) (isLeaf n) (fileOffset n) s (n_internalCell n) (n_leafCell n).
Definition set_internalCell (l : list internalCell) (n : Node) : Node :=
  mkNode (isDirty n) (isLeaf n) (fileOffset n) (offsets n) l (n_leafCell n).
Definition set_leafCell (l : list leafCell) (n : Node) : Node :=
  mkNode (isDirty n) (isLeaf n) (fileOffset n) (offsets n) (n_internalCell n) l.
Definition setFileOffsetForNode (fo : Z) (n : Node) : Node :=
  mkNode (isDirty n) (isLeaf n) fo (offsets n) (n_internalCell n) (n_leafCell n).
Definition markDirty (n : Node) : Node :=
  mkNode true (isLeaf n) (fileOffset n) (offsets n) (n_internalCell n) (n_leafCell n).
Definition markClean (n : Node) : Node :=
  mkNode false (isLeaf n) (fileOffset n) (offsets n) (n_internalCell n) (n_leafCell n).

(** [len(n.offsets)]. *)
Definition noffsets (n : Node) : Z := zlen (sl_elems (offsets n)).

Definition isFull (n : Node) : bool :=
  if isLeaf n then maxLeafNodeCells <=? noffsets n
  else maxInternalNodeCells <? noffsets n.

Definition newLeafCell (key value : bytes) : leafCell :=
  mkLeafCell (u32 (zlen key)) (u32 (zlen value)) key value.

Section growing.
Context `{GrowPolicy}.

Definition appendInternalCell (fo : Z) (key : bytes) (n : Node) : Node :=
  let n := set_offsets (sl_append (offsets n) [u16 (noffsets n)]) n in
  set_internalCell (n_internalCell n ++ [mkInternalCell key fo]) n.

Definition insertInternalCell (offset fo : Z) (key : bytes) (n : Node) : outcome Node :=
  s ← sl_insert (offsets n) offset (u16 (zlen (n_internalCell n)));
  let n := set_offsets s n in
  Ok (set_internalCell (n_internalCell n ++ [mkInternalCell key fo]) n).

Definition appendLeafCell (key value : bytes) (n : Node) : Node :=
  let n := set_offsets (sl_append (offsets n) [u16 (noffsets n)]) n in
  set_leafCell (n_leafCell n ++ [newLeafCell key value]) n.

Definition insertLeafCell (offset : Z) (key value : bytes) (n : Node) : outcome Node :=
  s ← (if offset =? u16 (zlen (n_leafCell n)) then Ok (sl_append (offsets n) [offset])
       else sl_insert (offsets n) offset (u16 (zlen (n_leafCell n))));
  let n := set_offsets s n in
  Ok (set_leafCell (n_leafCell n ++ [newLeafCell key value]) n).

(** The loops of [split] over the offsets from the split point on. *)
Fixpoint move_leaf (ofs : list Z) (cells : list leafCell) (newpg : Node) : outcome Node :=
  match ofs with
  | [] => Ok newpg
  | o :: ofs =>
      c ← index cells o;
      move_leaf ofs cells (appendLeafCell (lc_key c) (lc_val c) newpg)
  end.

Fixpoint move_internal (ofs : list Z) (cells : list internalCell) (newpg : Node) : outcome Node :=
  match ofs with
  | [] => Ok newpg
  | o :: ofs =>
      c ← index cells o;
      move_internal ofs cells (appendInternalCell (ic_fileOffset c) (ic_key c) newpg)
  end.

(** Returns the page that keeps the lower half, the new page, and the
    separator key. *)
Definition split (n newpg : Node) : outcome (Node * Node * bytes) :=
  let newpg := set_isLeaf (isLeaf n) newpg in
  let splitpt := Z.quot (noffsets n) 2 in
  let moved := drop (Z.to_nat splitpt) (sl_elems (offsets n)) in
  if isLeaf n then
    newpg ← move_leaf moved (n_leafCell n) newpg;
    s ← sl_prefix (offsets n) splitpt;
    o ← index (sl_elems (offsets newpg)) 0;
    c ← index (n_leafCell newpg) o;
    Ok (set_offsets s n, newpg, lc_key c)
  else
    newpg ← move_internal moved (n_internalCell n) newpg;
    s ← sl_prefix (offsets n) splitpt;
    o ← index (sl_elems (offsets newpg)) 0;
    c ← index (n_internalCell newpg) o;
    Ok (set_offsets s n, newpg, ic_key c).

End growing.

(** ** Searching *)

Definition cellKey (offset : Z) (n : Node) : outcome bytes :=
  if isLeaf n then lc_key <$> index (n_leafCell n) offset
  else ic_key <$> index (n_internalCell n) offset.

Fixpoint findInsPoint_loop (fuel : nat) (key : bytes) (n : Node) (low high : Z) : outcome Z :=
  match fuel with
  | O => Panic OutOfFuel
  | S fuel =>
      if low <=? high then
        let mid := low + Z.quot (high - low) 2 in
        o ← index (sl_elems (offsets n)) mid;
        k ← cellKey o n;
        match bytes_compare key k with
        | Lt => findInsPoint_loop fuel key n low (mid - 1)
        | Gt => findInsPoint_loop fuel key n (mid + 1) high
        | Eq => Ok (u16 mid)
        end
      else Ok (u16 low)
  end.

(** The interval shrinks by one each turn, so its first length bounds the turns. *)
Definition findInsPointForKey (key : bytes) (n : Node) : outcome Z :=
  findInsPoint_loop (S (length (sl_elems (offsets n)))) key n 0 (noffsets n - 1).

Fixpoint findChildPage_loop (key : bytes) (cells : list internalCell) (ofs : list Z) (found : Z)
    : outcome Z :=
  match ofs with
  | [] => Ok found
  | o :: ofs =>
      c ← index cells o;
      match bytes_compare key (ic_key c) with
      | Lt => Ok found
      | _ => findChildPage_loop key cells ofs o
      end
  end.

Definition findChildPage (key : bytes) (n : Node) : outcome Z :=
  findChildPage_loop key (n_internalCell n) (sl_elems (offsets n)) 0.

(** The index of the first cell with the key, live or not. *)
Definition findLeafCell (key : bytes) (n : Node) : option (nat * leafCell) :=
  list_find (fun c => lc_key c = key) (n_leafCell n).

(** [existingCell.val = value], [existingCell.valSize = ...]. *)
Definition updateLeafCell (i : nat) (value : bytes) (n : Node) : Node :=
  set_leafCell (alter (fun c => mkLeafCell (lc_keySize c) (u32 (zlen value)) (lc_key c) value) i
                  (n_leafCell n)) n.
