(* ===== verification/Leaf.v ===== *)
(** * A leaf page is a sorted list of pairs

    [leaf_rep hi g n kvs]: the live cells of [n], read through [offsets], are
    [kvs], which is sorted and below the page's upper bound [hi]; at most [g]
    cells are left over from splits, and their keys lie outside the page's
    range, so a search over all the cells, as [findLeafCell] makes, finds live
    ones only.  Every operation of a leaf page is proved against it. *)
From S2P Require Import Prelude Keys Slice Node.

Local Open Scope Z_scope.

(** ** Reading cells through offsets *)

Definition points {A} (cells : list A) (ofs : list Z) (cs : list A) : Prop :=
  Forall2 (fun o c => index cells o = Ok c) ofs cs.

Definition below (hi : option bytes) (k : bytes) : Prop :=
  match hi with None => True | Some h => klt k h end.

Definition cell_pair (c : leafCell) : bytes * bytes := (lc_key c, lc_val c).

Record leaf_rep (hi : option bytes) (g : nat) (n : Node) (kvs : pair_list) : Prop := {
  lr_leaf : isLeaf n = true;
  lr_live : exists cs, points (n_leafCell n) (sl_elems (offsets n)) cs /\ cell_pair <$> cs = kvs;
  lr_sorted : sorted kvs;
  lr_below : Forall (fun p => below hi p.1) kvs;
  lr_unused i c : n_leafCell n !! i = Some c -> below hi (lc_key c) ->
    Z.of_nat i ∈ sl_elems (offsets n);
  lr_cap : length (n_leafCell n) = length kvs \/ (9 <= sl_cap (offsets n))%nat;
  lr_len : (length kvs <= length (n_leafCell n) <= length kvs + g)%nat;
}.

Section points.
Context {A : Type}.
Implicit Types (cells cs : list A) (ofs : list Z).

Lemma points_length cells ofs cs : points cells ofs cs -> length ofs = length cs.
Proof. apply Forall2_length. Qed.

Lemma points_lookup cells ofs cs i o :
  points cells ofs cs -> ofs !! i = Some o -> exists c, index cells o = Ok c /\ cs !! i = Some c.
Proof. intros H Ho. destruct (Forall2_lookup_l _ _ _ _ _ H Ho) as (c & Hc & ?). by exists c. Qed.

Lemma points_lookup_r cells ofs cs i c :
  points cells ofs cs -> cs !! i = Some c -> exists o, index cells o = Ok c /\ ofs !! i = Some o.
Proof. intros H Hc. destruct (Forall2_lookup_r _ _ _ _ _ H Hc) as (o & Ho & ?). by exists o. Qed.

Lemma index_app_l cells more o c : index cells o = Ok c -> index (cells ++ more) o = Ok c.
Proof.
  intros [Hr Hc]%index_Ok_inv. unfold index. rewrite (proj2 (Z.ltb_ge _ _)) by lia.
  by rewrite (lookup_app_l_Some _ _ _ _ Hc).
Qed.

Lemma points_more cells more ofs cs : points cells ofs cs -> points (cells ++ more) ofs cs.
Proof. intros H. eapply Forall2_impl; [exact H|]. intros o c. apply index_app_l. Qed.

Lemma index_last cells c : index (cells ++ [c]) (Z.of_nat (length cells)) = Ok c.
Proof. apply index_Some. by rewrite lookup_app_r, Nat.sub_diag by lia. Qed.

(** Adding a cell, and its index somewhere among the offsets. *)
Lemma points_insert cells ofs1 ofs2 cs1 cs2 c :
  points cells ofs1 cs1 -> points cells ofs2 cs2 ->
  points (cells ++ [c]) (ofs1 ++ Z.of_nat (length cells) :: ofs2) (cs1 ++ c :: cs2).
Proof.
  intros H1 H2. apply Forall2_app; [by apply points_more|].
  constructor; [apply index_last|by apply points_more].
Qed.

Lemma points_app_inv cells ofs cs1 cs2 :
  points cells ofs (cs1 ++ cs2) ->
  points cells (take (length cs1) ofs) cs1 /\ points cells (drop (length cs1) ofs) cs2.
Proof.
  intros H. apply Forall2_app_inv_r in H as (o1 & o2 & H1 & H2 & ->).
  apply Forall2_length in H1 as E. rewrite <- E, take_app_length, drop_app_length. done.
Qed.
End points.

(** ** Binary search *)

(** The keys of a page in offset order. *)
Definition keys_at (n : Node) (ks : list bytes) : Prop :=
  Forall2 (fun o k => cellKey o n = Ok k) (sl_elems (offsets n)) ks.

(** The keys from some position on: above the one sought, or that key first. *)
Definition from_key (key : bytes) (ks : list bytes) : Prop :=
  forall i k, ks !! i = Some k -> klt key k \/ (k = key /\ i = 0%nat).

Lemma findInsPoint_loop_spec fuel key n ks1 ks2 low high :
  keys_at n (ks1 ++ ks2) -> Forall (fun k => klt k key) ks1 -> from_key key ks2 ->
  Z.of_nat (length ks1 + length ks2) < 2 ^ 16 ->
  0 <= low <= Z.of_nat (length ks1) -> Z.of_nat (length ks1) - 1 <= high ->
  high < Z.of_nat (length ks1 + length ks2) -> high - low + 1 < Z.of_nat fuel ->
  findInsPoint_loop fuel key n low high = Ok (Z.of_nat (length ks1)).
Proof.
  intros Hk H1 H2 Hw. revert low high. induction fuel as [|fuel IH]; intros low high Hlow Hhigh Hmax Hf;
    [lia|]. cbn [findInsPoint_loop]. destruct (Z.leb_spec low high) as [Hle|Hgt].
  2: { unfold u16. rewrite Z.mod_small by lia. f_equal. lia. }
  cbv zeta. set (mid := low + Z.quot (high - low) 2).
  assert (low <= mid <= high) as Hmid.
  { unfold mid. rewrite Z.quot_div_nonneg by lia.
    pose proof (Z.div_mod (high - low) 2 ltac:(lia)).
    pose proof (Z.mod_pos_bound (high - low) 2 ltac:(lia)). lia. }
  assert (length (sl_elems (offsets n)) = length (ks1 ++ ks2)) as Hlen by by eapply Forall2_length.
  destruct (index_in_range (sl_elems (offsets n)) mid) as (o & -> & Ho).
  { unfold zlen. rewrite Hlen, length_app. lia. }
  destruct (Forall2_lookup_l _ _ _ _ _ Hk Ho) as (k & Hkm & Hck).
  cbn [mbind outcome_bind]. rewrite Hck. cbn [mbind outcome_bind].
  destruct (decide (mid < Z.of_nat (length ks1))) as [Hl|Hl].
  - rewrite lookup_app_l in Hkm by lia. eapply Forall_lookup_1 in H1; [|done].
    unfold klt in H1. rewrite bytes_compare_opp, H1. cbn. apply IH; lia.
  - rewrite lookup_app_r in Hkm by lia. apply H2 in Hkm as [->|[-> Hi]]; [apply IH; lia|].
    rewrite bytes_compare_refl. unfold u16. rewrite Z.mod_small by lia. f_equal. lia.
Qed.

Lemma findInsPoint_at key n ks1 ks2 :
  keys_at n (ks1 ++ ks2) -> Forall (fun k => klt k key) ks1 -> from_key key ks2 ->
  Z.of_nat (length ks1 + length ks2) < 2 ^ 16 ->
  findInsPointForKey key n = Ok (Z.of_nat (length ks1)).
Proof.
  intros Hk H1 H2 Hw. unfold findInsPointForKey, noffsets, zlen.
  apply Forall2_length in Hk as Hlen. rewrite length_app in Hlen. rewrite Hlen.
  apply (findInsPoint_loop_spec _ _ _ _ ks2); done || lia.
Qed.

(** The search returns the position of the first key above one that is not there. *)
Lemma findInsPoint_spec key n ks1 ks2 :
  keys_at n (ks1 ++ ks2) -> Forall (fun k => klt k key) ks1 -> Forall (fun k => klt key k) ks2 ->
  Z.of_nat (length ks1 + length ks2) < 2 ^ 16 ->
  findInsPointForKey key n = Ok (Z.of_nat (length ks1)).
Proof.
  intros Hk H1 H2. apply (findInsPoint_at key n ks1 ks2 Hk H1).
  intros i k Hi. left. by eapply Forall_lookup_1 in H2.
Qed.

(** The same search as a scan from the left. *)
Fixpoint scan (key : bytes) (ks : list bytes) : nat :=
  match ks with
  | [] => 0
  | k :: ks => match bytes_compare k key with Lt => S (scan key ks) | _ => 0 end
  end.

Lemma scan_split key ks :
  StronglySorted klt ks ->
  Forall (fun k => klt k key) (take (scan key ks) ks) /\ from_key key (drop (scan key ks) ks) /\
  (scan key ks <= length ks)%nat.
Proof.
  induction 1 as [|k ks Hs IH Hall]; cbn [scan].
  { split_and!; [by apply Forall_nil|by intros [|i] k Hi|done]. }
  destruct (bytes_compare k key) eqn:E.
  - apply bytes_compare_eq in E as ->. split_and!; [by apply Forall_nil| |cbn; lia].
    intros [|i] k Hi; cbn in Hi; [by right; simplify_eq|left]. by eapply Forall_lookup_1 in Hall.
  - destruct IH as (H1 & H2 & H3). split_and!; [by constructor|done|cbn; lia].
  - split_and!; [by apply Forall_nil| |cbn; lia]. assert (klt key k) as Hk by (unfold klt; by rewrite bytes_compare_opp, E).
    intros [|i] k' Hi; cbn in Hi; left; [by simplify_eq|]. eapply Forall_lookup_1 in Hall; [|done]. by eapply klt_trans.
Qed.

(** C23: the binary search is the scan: on every page with its keys in strictly
    ascending order, whatever the key sought, whether it is there or not,
    [findInsPointForKey] returns the position at which a scan from the left
    stops, the number of keys below it. *)
Theorem search_is_scan key n ks :
  keys_at n ks -> StronglySorted klt ks -> zlen ks < 2 ^ 16 ->
  findInsPointForKey key n = Ok (Z.of_nat (scan key ks)).
Proof.
  intros Hk Hs Hw. destruct (scan_split key ks Hs) as (H1 & H2 & H3). unfold zlen in Hw.
  rewrite <- (take_drop (scan key ks) ks) in Hk.
  rewrite (findInsPoint_at key n _ _ Hk H1 H2); rewrite length_take; [do 2 f_equal; lia|].
  rewrite length_drop. lia.
Qed.

Lemma points_keys_at n cs :
  isLeaf n = true -> points (n_leafCell n) (sl_elems (offsets n)) cs ->
  keys_at n (lc_key <$> cs).
Proof.
  intros Hl H. apply Forall2_fmap_r. eapply Forall2_impl; [exact H|].
  intros o c Hc. unfold cellKey. rewrite Hl, Hc. done.
Qed.

(** ** Finding, updating *)

Lemma pair_keys (cs : list leafCell) : lc_key <$> cs = (cell_pair <$> cs).*1.
Proof. by rewrite <- list_fmap_compose. Qed.

Lemma sorted_positions (l : pair_list) i j p q :
  sorted l -> l !! i = Some p -> l !! j = Some q -> p.1 = q.1 -> i = j.
Proof.
  intros Hs. revert i j. induction Hs as [|a l Hs IH Hall]; intros [|i] [|j] Hi Hj E; try done.
  - cbn in *. simplify_eq. eapply Forall_lookup_1 in Hall; [|done].
    unfold pair_lt in Hall. rewrite E in Hall. by apply klt_irrefl in Hall.
  - cbn in *. simplify_eq. eapply Forall_lookup_1 in Hall; [|done].
    unfold pair_lt in Hall. rewrite E in Hall. by apply klt_irrefl in Hall.
  - f_equal. by apply (IH i j).
Qed.

Section leaf.
Context (hi : option bytes) (g : nat) (n : Node).

(** The cell behind a live pair. *)
Lemma leaf_cell_of kvs i p :
  leaf_rep hi g n kvs -> kvs !! i = Some p ->
  exists o c, sl_elems (offsets n) !! i = Some (Z.of_nat o) /\ n_leafCell n !! o = Some c /\ cell_pair c = p.
Proof.
  intros [_ (cs & Hp & Hkv) _ _ _ _ _] Hi. rewrite <- Hkv in Hi.
  apply list_lookup_fmap_Some in Hi as (c & -> & Hc).
  destruct (points_lookup_r _ _ _ _ _ Hp Hc) as (o & [Hr Ho]%index_Ok_inv & He).
  exists (Z.to_nat o), c. rewrite Z2Nat.id by lia. done.
Qed.

(** A live offset leads to the pair at its position. *)
Lemma leaf_pair_of kvs i o c :
  leaf_rep hi g n kvs -> sl_elems (offsets n) !! i = Some (Z.of_nat o) -> n_leafCell n !! o = Some c ->
  kvs !! i = Some (cell_pair c).
Proof.
  intros [_ (cs & Hp & <-) _ _ _ _ _] Hi Hc.
  destruct (points_lookup _ _ _ _ _ Hp Hi) as (c' & [_ Hc']%index_Ok_inv & Hcs).
  rewrite Nat2Z.id in Hc'. rewrite list_lookup_fmap, Hcs. cbn. congruence.
Qed.

Lemma findLeafCell_live kvs l1 k v l2 :
  leaf_rep hi g n kvs -> kvs = l1 ++ (k, v) :: l2 ->
  exists o c, findLeafCell k n = Some (o, c) /\ cell_pair c = (k, v) /\
    sl_elems (offsets n) !! length l1 = Some (Z.of_nat o).
Proof.
  intros Hr ->. pose proof Hr as [_ _ Hs Hb Hu _ _].
  destruct (leaf_cell_of _ (length l1) (k, v) Hr) as (o & c & Ho & Hc & Ec); [by apply list_lookup_middle|].
  destruct (findLeafCell k n) as [[j cj]|] eqn:Ef.
  - pose proof Ef as (Hj & Ek & _)%list_find_Some.
    assert (below hi k) as Hbk.
    { apply (Forall_lookup_1 _ _ (length l1) (k, v) Hb). by apply list_lookup_middle. }
    assert (Z.of_nat j ∈ sl_elems (offsets n)) as [i Hi]%list_elem_of_lookup_1
      by (apply (Hu j cj); [done|congruence]).
    pose proof (leaf_pair_of _ i j cj Hr Hi Hj) as Hpj.
    assert (i = length l1) as ->.
    { apply (sorted_positions _ i (length l1) (cell_pair cj) (k, v) Hs Hpj);
        [by apply list_lookup_middle|done]. }
    exists j, cj. split; [done|]. rewrite list_lookup_middle in Hpj by done.
    split; [congruence|done].
  - exfalso. unfold findLeafCell in Ef. apply list_find_None in Ef.
    eapply Forall_lookup_1 in Ef; [|exact Hc]. apply Ef. by injection Ec.
Qed.

Lemma findLeafCell_none kvs l1 k l2 :
  leaf_rep hi g n kvs -> kvs = l1 ++ l2 -> all_lt l1 k -> all_gt l2 k -> below hi k ->
  findLeafCell k n = None.
Proof.
  intros Hr -> H1 H2 Hbk. pose proof Hr as [_ _ Hs Hb Hu _ _].
  apply list_find_None, Forall_forall. intros c [j Hj]%list_elem_of_lookup_1 Ek.
  assert (Z.of_nat j ∈ sl_elems (offsets n)) as [i Hi]%list_elem_of_lookup_1
    by (apply (Hu j c); [done|congruence]).
  pose proof (leaf_pair_of _ i j c Hr Hi Hj) as Hp.
  apply lookup_app_Some in Hp as [Hp|[_ Hp]].
  - eapply Forall_lookup_1 in H1; [|done]. cbn in H1. rewrite Ek in H1. by apply klt_irrefl in H1.
  - eapply Forall_lookup_1 in H2; [|done]. cbn in H2. rewrite Ek in H2. by apply klt_irrefl in H2.
Qed.

Lemma sorted_replace (l1 l2 : pair_list) k v0 v :
  sorted (l1 ++ (k, v0) :: l2) -> sorted (l1 ++ (k, v) :: l2).
Proof.
  intros (S1 & S2 & S3)%sorted_app. apply sorted_app. split_and!; [done| |].
  - inversion_clear S2. by constructor.
  - intros p q Hp' [->|Hq]%elem_of_cons; [|apply S3; [done|by right]].
    unfold pair_lt. apply (S3 p (k, v0)); [done|by left].
Qed.

Lemma updateLeafCell_rep kvs l1 k v0 l2 o v :
  leaf_rep hi g n kvs -> kvs = l1 ++ (k, v0) :: l2 ->
  sl_elems (offsets n) !! length l1 = Some (Z.of_nat o) ->
  leaf_rep hi g (updateLeafCell o v n) (l1 ++ (k, v) :: l2).
Proof.
  intros Hr -> Ho. pose proof Hr as [Hl (cs & Hp & Hkv) Hs Hb Hu Hcap Hlen].
  set (f := fun c => mkLeafCell (lc_keySize c) (u32 (zlen v)) (lc_key c) v).
  assert (Hkeys : forall p, p ∈ l1 ++ (k, v) :: l2 -> exists q, q ∈ l1 ++ (k, v0) :: l2 /\ q.1 = p.1).
  { intros p. rewrite elem_of_app, elem_of_cons. intros [Hin|[->|Hin]].
    - exists p. split; [|done]. apply elem_of_app. by left.
    - exists (k, v0). split; [|done]. apply elem_of_app. right. by left.
    - exists p. split; [|done]. apply elem_of_app. right. by right. }
  split; cbn; try done.
  - exists (alter f (length l1) cs). split.
    + apply (Forall2_same_length_lookup_2 _ _ _).
      { rewrite length_alter. by eapply points_length. }
      intros i oi c Hi Hci. destruct (points_lookup _ _ _ _ _ Hp Hi) as (c0 & Hc0 & Hcs).
      apply index_Ok_inv in Hc0 as [Hr0 Hc0].
      destruct (decide (i = length l1)) as [->|Hne].
      * assert (oi = Z.of_nat o) as -> by congruence. rewrite Nat2Z.id in Hc0.
        rewrite list_lookup_alter_eq, Hcs in Hci. cbn in Hci. injection Hci as <-.
        apply index_Some. rewrite list_lookup_alter_eq, Hc0. done.
      * rewrite list_lookup_alter_ne in Hci by done. assert (c = c0) as -> by congruence.
        unfold index. rewrite (proj2 (Z.ltb_ge _ _)) by lia.
        rewrite list_lookup_alter_ne; [by rewrite Hc0|].
        intros ->. apply Hne. apply (sorted_positions _ i (length l1) (cell_pair c0) (k, v0) Hs);
          [|by apply list_lookup_middle|].
        -- apply (leaf_pair_of _ i (Z.to_nat oi) c0 Hr); [by rewrite Z2Nat.id by lia|done].
        -- assert (kc : (l1 ++ (k, v0) :: l2) !! length l1 = Some (cell_pair c0)).
           { apply (leaf_pair_of _ _ (Z.to_nat oi) c0 Hr); done. }
           rewrite list_lookup_middle in kc by done. congruence.
    + rewrite (list_fmap_alter cell_pair f (fun p => (p.1, v))) by (apply Forall_forall; intros; reflexivity).
      rewrite Hkv. rewrite <- (Nat.add_0_r (length l1)), alter_app_r. done.
  - by eapply sorted_replace.
  - apply Forall_forall. intros p Hin. destruct (Hkeys p Hin) as (q & Hq & <-).
    by apply (proj1 (Forall_forall _ _) Hb).
  - intros i c Hc Hbc. destruct (decide (i = o)) as [->|Hne].
    + by eapply list_elem_of_lookup_2.
    + rewrite list_lookup_alter_ne in Hc by done. by apply (Hu i c).
  - rewrite length_alter. rewrite !length_app in *. cbn in *. done.
  - rewrite length_alter. rewrite !length_app in *. cbn in *. done.
Qed.

End leaf.

(** ** Inserting *)

Lemma sorted_insert l1 l2 k v :
  sorted (l1 ++ l2) -> all_lt l1 k -> all_gt l2 k -> sorted (l1 ++ (k, v) :: l2).
Proof. intros Hs H1 H2. rewrite <- sput_fresh by done. by apply sorted_sput. Qed.

Section insert.
Context `{GrowPolicy}.

Lemma u16_id z : 0 <= z < 2 ^ 16 -> u16 z = z.
Proof. intros. unfold u16. by rewrite Z.mod_small. Qed.

(** What [insertLeafCell] does to the two lists. *)
Lemma insertLeafCell_lists (n : Node) (i : nat) k v :
  (length (sl_elems (offsets n)) <= length (n_leafCell n))%nat ->
  Z.of_nat (length (n_leafCell n)) < 2 ^ 16 - 1 ->
  (i <= length (sl_elems (offsets n)))%nat ->
  length (n_leafCell n) = length (sl_elems (offsets n)) \/ (length (sl_elems (offsets n)) < sl_cap (offsets n))%nat ->
  exists s, insertLeafCell (Z.of_nat i) k v n =
      Ok (set_leafCell (n_leafCell n ++ [newLeafCell k v]) (set_offsets s n)) /\
    sl_elems s = take i (sl_elems (offsets n)) ++
                 Z.of_nat (length (n_leafCell n)) :: drop i (sl_elems (offsets n)) /\
    (sl_cap (offsets n) <= sl_cap s)%nat.
Proof.
  intros Hle Hw Hi Hcap. unfold insertLeafCell, zlen. rewrite u16_id by lia.
  destruct (Z.eqb_spec (Z.of_nat i) (Z.of_nat (length (n_leafCell n)))) as [E|E].
  - eexists. split; [done|]. split; [|apply sl_append_cap].
    rewrite sl_append_elems, take_ge, drop_ge by lia. by rewrite E.
  - destruct (sl_insert_spec (offsets n) i (Z.of_nat (length (n_leafCell n)))) as (s & -> & Es & Hs);
      [lia|destruct (decide (i = length (sl_elems (offsets n)))); lia|].
    by exists s.
Qed.

Lemma insertLeafCell_rep hi g n l1 l2 k v :
  leaf_rep hi g n (l1 ++ l2) -> all_lt l1 k -> all_gt l2 k -> below hi k ->
  (length (l1 ++ l2) <= 8)%nat -> Z.of_nat (length (n_leafCell n)) < 2 ^ 16 - 1 ->
  exists n', insertLeafCell (Z.of_nat (length l1)) k v n = Ok n' /\
    leaf_rep hi g n' (l1 ++ (k, v) :: l2) /\ fileOffset n' = fileOffset n /\ isDirty n' = isDirty n.
Proof.
  intros Hr H1 H2 Hbk H8 Hw. pose proof Hr as [Hl (cs & Hp & Hkv) Hs Hb Hu Hcap Hlen].
  pose proof (points_length _ _ _ Hp) as Hol.
  assert (length cs = length (l1 ++ l2)) as Hcl by (rewrite <- Hkv; by rewrite length_fmap).
  rewrite length_app in *.
  destruct (insertLeafCell_lists n (length l1) k v) as (s & -> & Es & Hsc); [lia..|].
  eexists. split; [done|]. split; [|done]. apply fmap_app_inv in Hkv as (cs1 & cs2 & E1 & E2 & ->).
  assert (length cs1 = length l1) as Hc1 by (rewrite E1; by rewrite length_fmap).
  split; cbn; try done.
  - exists (cs1 ++ newLeafCell k v :: cs2). split.
    + rewrite Es, <- Hc1. apply points_app_inv in Hp as [Hp1 Hp2]. by apply points_insert.
    + rewrite fmap_app, E1, E2. done.
  - by apply sorted_insert.
  - apply Forall_app in Hb as [Hb1 Hb2]. apply Forall_app. split; [done|]. by constructor.
  - intros i c Hc Hbc. rewrite Es. apply lookup_app_Some in Hc as [Hc|[Hi Hc]].
    + apply (Hu i c Hc) in Hbc. rewrite <- (take_drop (length l1) (sl_elems (offsets n))) in Hbc.
      apply elem_of_app in Hbc as [Hin|Hin]; apply elem_of_app; [by left|right; by right].
    + apply list_lookup_singleton_Some in Hc as [Hc _].
      replace i with (length (n_leafCell n)) by lia. apply elem_of_app. right. by left.
  - rewrite !length_app. cbn. lia.
  - rewrite !length_app. cbn. lia.
Qed.

(** ** Splitting *)

Definition fresh_offsets (m : nat) : list Z := Z.of_nat <$> seq 0 m.
#[local] Arguments fresh_offsets : simpl never.

Lemma points_fresh {A} (cells : list A) : points cells (fresh_offsets (length cells)) cells.
Proof.
  apply Forall2_same_length_lookup_2; [unfold fresh_offsets; by rewrite length_fmap, length_seq|].
  intros i o c Ho Hc. apply list_lookup_fmap_Some in Ho as (j & -> & Hj).
  apply lookup_seq in Hj as [-> _]. by apply index_Some.
Qed.

Lemma length_fresh m : length (fresh_offsets m) = m.
Proof. unfold fresh_offsets. by rewrite length_fmap, length_seq. Qed.

Lemma fresh_offsets_S m : fresh_offsets (S m) = fresh_offsets m ++ [Z.of_nat m].
Proof. unfold fresh_offsets. by rewrite seq_S, fmap_app. Qed.

Lemma move_leaf_spec cells ofs cs newpg :
  points cells ofs cs ->
  sl_elems (offsets newpg) = fresh_offsets (length (n_leafCell newpg)) ->
  Z.of_nat (length (n_leafCell newpg) + length ofs) < 2 ^ 16 ->
  exists n', move_leaf ofs cells newpg = Ok n' /\
    n_leafCell n' = n_leafCell newpg ++ ((fun c => newLeafCell (lc_key c) (lc_val c)) <$> cs) /\
    sl_elems (offsets n') = fresh_offsets (length (n_leafCell n')) /\
    isLeaf n' = isLeaf newpg /\ fileOffset n' = fileOffset newpg /\ isDirty n' = isDirty newpg.
Proof.
  intros Hp. revert newpg. induction Hp as [|o c ofs cs Hc _ IH]; intros newpg Ho Hw.
  - exists newpg. cbn. rewrite app_nil_r. done.
  - cbn [move_leaf]. rewrite Hc. cbn [mbind outcome_bind].
    destruct (IH (appendLeafCell (lc_key c) (lc_val c) newpg)) as (n' & -> & E1 & E2 & E3 & E4 & E5).
    + cbn. rewrite sl_append_elems. unfold noffsets, zlen. rewrite Ho, length_fresh.
      rewrite u16_id by (cbn in Hw; lia). rewrite length_app. cbn.
      by rewrite Nat.add_1_r, fresh_offsets_S.
    + cbn in *. rewrite length_app. cbn. lia.
    + exists n'. split; [done|]. split; [|done]. rewrite E1. cbn. by rewrite <- app_assoc.
Qed.

Lemma copy_pairs (cs : list leafCell) :
  cell_pair <$> ((fun c => newLeafCell (lc_key c) (lc_val c)) <$> cs) = cell_pair <$> cs.
Proof. rewrite <- list_fmap_compose. done. Qed.

Lemma leaf_rep_fresh hi n kvs :
  isLeaf n = true -> sl_elems (offsets n) = fresh_offsets (length (n_leafCell n)) ->
  cell_pair <$> n_leafCell n = kvs -> sorted kvs -> Forall (fun p => below hi p.1) kvs ->
  leaf_rep hi 0 n kvs.
Proof.
  intros Hl Ho Hkv Hs Hb. assert (length (n_leafCell n) = length kvs) as Hlen
    by (rewrite <- Hkv; by rewrite length_fmap).
  split; [done| |done|done| |by left|lia].
  - exists (n_leafCell n). split; [|done]. rewrite Ho. apply points_fresh.
  - intros i c Hc _. rewrite Ho. apply list_elem_of_fmap. exists i. split; [done|].
    apply elem_of_seq. apply lookup_lt_Some in Hc. lia.
Qed.

(** What is left of a page that gave its upper half away: the cells stay, their
    offsets go. *)
Lemma keep_lower hi g n l1 k v l2 s :
  leaf_rep hi g n (l1 ++ (k, v) :: l2) -> length l1 = 4%nat -> length l2 = 4%nat ->
  sl_elems s = take 4 (sl_elems (offsets n)) -> (9 <= sl_cap s)%nat ->
  leaf_rep (Some k) (g + 5) (set_offsets s n) l1.
Proof.
  intros Hr L1 L2 Es Hcap. pose proof Hr as [Hl (cs & Hp & Hkv) Hs Hb Hu _ Hlen].
  apply fmap_app_inv in Hkv as (cs1 & cs2 & E1 & E2 & ->).
  assert (length cs1 = 4%nat) as Hc1 by (rewrite <- L1, E1; by rewrite length_fmap).
  apply points_app_inv in Hp as [Hp1 Hp2]. rewrite Hc1 in Hp1, Hp2.
  apply sorted_app in Hs as (S1 & S2 & S3). apply Forall_app in Hb as [B1 B2].
  split; cbn; rewrite ?Es; try done.
  - by exists cs1.
  - apply Forall_forall. intros q Hq. apply (S3 q (k, v)); [done|by left].
  - intros i c Hc Hck. assert (below hi (lc_key c)) as Hbc.
    { apply Forall_cons in B2 as [B2 _]. destruct hi; [|done]. by apply (klt_trans _ k). }
    specialize (Hu i c Hc Hbc). rewrite <- (take_drop 4 (sl_elems (offsets n))) in Hu.
    apply elem_of_app in Hu as [Hin|Hin]; [done|]. exfalso.
    apply list_elem_of_lookup_1 in Hin as [j Hj].
    destruct (points_lookup _ _ _ _ _ Hp2 Hj) as (c' & [_ Hc']%index_Ok_inv & Hcs).
    rewrite Nat2Z.id in Hc'. assert (c' = c) as -> by congruence.
    assert (cell_pair c ∈ (k, v) :: l2) as Hin.
    { rewrite E2. apply list_elem_of_fmap_2. by eapply list_elem_of_lookup_2. }
    inversion_clear S2 as [|? ? _ Hall]. apply elem_of_cons in Hin as [Ec|Hin].
    + injection Ec as Ec _. rewrite Ec in Hck. by apply klt_irrefl in Hck.
    + eapply Forall_forall in Hall; [|exact Hin]. unfold pair_lt in Hall. cbn in Hall.
      apply (klt_irrefl k). by apply (klt_trans k (lc_key c)).
  - by right.
  - rewrite length_app in Hlen. cbn in Hlen. lia.
Qed.

Lemma split_rep hi g n l1 k v l2 :
  leaf_rep hi g n (l1 ++ (k, v) :: l2) -> length l1 = 4%nat -> length l2 = 4%nat ->
  exists n' newpg, split n emptyNode = Ok (n', newpg, k) /\
    leaf_rep (Some k) (g + 5) n' l1 /\ leaf_rep hi 0 newpg ((k, v) :: l2) /\
    fileOffset n' = fileOffset n /\ isDirty n' = isDirty n /\
    n_leafCell n' = n_leafCell n /\ fileOffset newpg = 0 /\ isDirty newpg = false /\
    length (n_leafCell newpg) = 5%nat.
Proof.
  intros Hr L1 L2. pose proof Hr as [Hl (cs & Hp & Hkv) Hs Hb Hu Hcap Hlen].
  pose proof (points_length _ _ _ Hp) as Hol.
  assert (length cs = 9%nat) as Hcl.
  { transitivity (length (l1 ++ (k, v) :: l2)); [rewrite <- Hkv; by rewrite length_fmap|].
    rewrite length_app. cbn. lia. }
  apply fmap_app_inv in Hkv as (cs1 & cs2 & E1 & E2 & ->).
  assert (length cs1 = 4%nat) as Hc1 by (rewrite <- L1, E1; by rewrite length_fmap).
  apply points_app_inv in Hp as [Hp1 Hp2]. rewrite Hc1 in Hp1, Hp2.
  unfold split. rewrite Hl. cbn [set_isLeaf].
  assert (Z.quot (noffsets n) 2 = 4) as -> by (unfold noffsets, zlen; rewrite Hol, Hcl; done).
  change (Z.to_nat 4) with 4%nat. cbv zeta.
  destruct (move_leaf_spec _ _ _ (set_isLeaf true emptyNode) Hp2 eq_refl)
    as (new & -> & N1 & N2 & N3 & N4 & N5); [cbn; rewrite length_drop; lia|].
  cbn [mbind outcome_bind]. unfold sl_prefix.
  rewrite (proj2 (Z.leb_le 4 _)) by (unfold sl_cap; lia). cbn [Z.leb andb mbind outcome_bind].
  change (Z.to_nat 4) with 4%nat. rewrite take_app_le by lia.
  set (s := mkSlice _ _). cbn in N1. destruct cs2 as [|c4 cs2]; [done|]. cbn in E2, N1.
  unfold cell_pair at 1 in E2. injection E2 as Ek Ev E2.
  rewrite N2, N1. cbn [length fmap list_fmap fresh_offsets seq]. cbn [index Z.ltb Z.compare Z.of_nat Z.to_nat lookup list_lookup mbind outcome_bind fmap list_fmap].
  exists (set_offsets s n), new.
  split; [cbn; by rewrite Ek|].
  apply sorted_app in Hs as (S1 & S2 & S3). apply Forall_app in Hb as [B1 B2].
  assert (length (n_leafCell new) = 5%nat) as Hnl.
  { rewrite N1. cbn. rewrite length_fmap. rewrite length_app in Hcl. cbn in Hcl. lia. }
  split; [|split; [|split_and!; done]].
  - apply (keep_lower hi g n l1 k v l2); [done|done|done|done|].
    unfold sl_cap, s in *. cbn. rewrite length_take, length_drop, length_app. lia.
  - apply leaf_rep_fresh; try done. rewrite N1. cbn. rewrite copy_pairs. by rewrite Ek, Ev, E2.
Qed.

End insert.

(** ** Witness *)

(** A leaf that took "c" before "a". *)
Definition leaf_ca : Node :=
  mkNode true true 4096 (mkSlice [1; 0] []) []
    [newLeafCell (go_string "c") (go_string "1"); newLeafCell (go_string "a") (go_string "2")].

Lemma search_is_scan_witness :
  findInsPointForKey (go_string "b") leaf_ca = Ok 1 /\ findInsPointForKey (go_string "c") leaf_ca = Ok 1.
Proof.
  assert (Hk : keys_at leaf_ca [go_string "a"; go_string "c"]) by (repeat constructor).
  assert (Hs : StronglySorted klt [go_string "a"; go_string "c"]) by (repeat constructor).
  split; [exact (search_is_scan _ _ _ Hk Hs eq_refl)|exact (search_is_scan _ _ _ Hk Hs eq_refl)].
Defined.
