(* ===== verification/Codec.v ===== *)
(** * Reading and writing little-endian fields

    [binary.Write]/[binary.Read] of [encoding/binary] over an in-memory
    buffer, as [node.go], [storage.go], [btree.go] and [wal/wal.go] use them,
    and the interface [Codec] that the formats built on them satisfy. *)
From S2P Require Import Prelude.

Local Open Scope Z_scope.

(** [io.ReadFull(r, buf)] with [len(buf) = n]: [EOF] when nothing is left,
    [ErrUnexpectedEOF] when something is left but not enough. *)
Definition read_full (n : Z) (buf : bytes) : outcome (bytes * bytes) :=
  if n =? 0 then Ok ([], buf)
  else if zlen buf =? 0 then Err ErrEOF
  else if zlen buf <? n then Err ErrUnexpectedEOF
  else Ok (take (Z.to_nat n) buf, drop (Z.to_nat n) buf).

(** [binary.Read] of an unsigned integer of [w] bytes, and of an [int64]. *)
Definition read_uint (w : nat) (buf : bytes) : outcome (Z * bytes) :=
  '(bs, rest) ← read_full (Z.of_nat w) buf;
  Ok (le_val bs, rest).
Definition read_int64 (buf : bytes) : outcome (Z * bytes) :=
  '(z, rest) ← read_uint 8 buf;
  Ok (i64 z, rest).

(** A loop of [n] reads, each appended to the result. *)
Fixpoint read_list {A} (rd : bytes -> outcome (A * bytes)) (n : nat) (buf : bytes)
    : outcome (list A * bytes) :=
  match n with
  | O => Ok ([], buf)
  | S n =>
      '(a, buf) ← rd buf;
      '(l, buf) ← read_list rd n buf;
      Ok (a :: l, buf)
  end.

(** The errors a read from a buffer that ends too early can return. *)
Definition eof_like (e : goerr) : Prop := e = ErrEOF \/ e = ErrUnexpectedEOF.

(** What a format promises its clients: a value that was written is read back
    with the rest of the buffer untouched, and a buffer cut inside the value
    is reported as an error, never as a value. *)
Class Codec {A : Type} (wf : A -> Prop) (enc : A -> bytes)
    (dec : bytes -> outcome (A * bytes)) : Prop := {
  codec_read (a : A) (rest : bytes) : wf a -> dec (enc a ++ rest) = Ok (a, rest);
  codec_cut (a : A) (p q : bytes) :
    wf a -> enc a = p ++ q -> q <> [] -> exists e, dec p = Err e /\ eof_like e
}.

Create Rewrite HintDb codec.

Lemma read_full_app n (bs rest : bytes) :
  n = zlen bs -> read_full n (bs ++ rest) = Ok (bs, rest).
Proof.
  intros ->. unfold read_full, zlen. rewrite length_app.
  destruct (Z.eqb_spec (Z.of_nat (length bs)) 0) as [E|E].
  - destruct bs; [done|cbn in E; lia].
  - rewrite (proj2 (Z.eqb_neq _ _)), (proj2 (Z.ltb_ge _ _)) by lia.
    by rewrite Nat2Z.id, take_app_length, drop_app_length.
Qed.

Lemma read_full_short n (buf : bytes) :
  zlen buf < n -> exists e, read_full n buf = Err e /\ eof_like e.
Proof.
  intros H. unfold read_full, zlen in *. rewrite (proj2 (Z.eqb_neq _ _)) by lia.
  destruct (Z.eqb_spec (Z.of_nat (length buf)) 0); [eexists; split; [done|by left]|].
  rewrite (proj2 (Z.ltb_lt _ _)) by lia. eexists; split; [done|by right].
Qed.

(** [io.ReadFull] fails with the plain [EOF] only at the end of the buffer. *)
Lemma read_full_eof n (buf : bytes) : read_full n buf = Err ErrEOF -> buf = [].
Proof.
  unfold read_full, zlen. destruct (n =? 0); [done|].
  destruct (Z.eqb_spec (Z.of_nat (length buf)) 0).
  - intros _. apply nil_length_inv. lia.
  - by destruct (Z.of_nat (length buf) <? n).
Qed.

#[export] Instance uint_codec w :
  Codec (fun z => 0 <= z < 2 ^ (8 * Z.of_nat w)) (le_bytes w) (read_uint w).
Proof.
  split.
  - intros z rest Hz. unfold read_uint.
    rewrite read_full_app by (unfold zlen; by rewrite length_le_bytes).
    cbn. by rewrite le_val_le_bytes, Z.mod_small.
  - intros z p q Hz Hpq Hq. unfold read_uint.
    destruct (read_full_short (Z.of_nat w) p) as (e & -> & He); [|by exists e].
    apply (f_equal length) in Hpq. rewrite length_le_bytes, length_app in Hpq.
    destruct q; [done|]. unfold zlen. cbn in Hpq. lia.
Qed.

#[export] Instance int64_codec :
  Codec (fun z => - 2 ^ 63 <= z < 2 ^ 63) (le_bytes 8) read_int64.
Proof.
  assert (Hmod : forall z, le_bytes 8 z = le_bytes 8 (u64 z))
    by (intros z; symmetry; apply (le_bytes_mod 8)).
  assert (Hwf : forall z, 0 <= u64 z < 2 ^ (8 * Z.of_nat 8))
    by (intros z; apply Z.mod_pos_bound; lia).
  split.
  - intros z rest Hz. unfold read_int64.
    rewrite Hmod, (codec_read (u64 z) rest) by apply Hwf.
    cbn. by rewrite i64_u64, i64_id.
  - intros z p q Hz Hpq Hq. unfold read_int64. rewrite Hmod in Hpq.
    destruct (codec_cut (u64 z) p q (Hwf z) Hpq Hq) as (e & He & ?).
    rewrite He. by exists e.
Qed.

(** A field of bytes whose length was read before it. *)
Lemma read_full_cut n (p q : bytes) (bs : bytes) :
  n = zlen bs -> bs = p ++ q -> q <> [] -> exists e, read_full n p = Err e /\ eof_like e.
Proof.
  intros -> -> Hq. apply read_full_short. unfold zlen. rewrite length_app.
  destruct q; [done|cbn; lia].
Qed.

(** Where a cut of [a ++ b] falls. *)
Lemma cut_app (a b p q : bytes) :
  a ++ b = p ++ q -> q <> [] ->
  (exists q', a = p ++ q' /\ q' <> []) \/ (exists p', p = a ++ p' /\ b = p' ++ q).
Proof.
  revert p. induction a as [|x a IH]; intros p H Hq; [right; exists p; done|].
  destruct p as [|y p]; [left; exists (x :: a); done|].
  injection H as -> H. destruct (IH p H Hq) as [(q' & -> & ?)|(p' & -> & ?)].
  - left. by exists q'.
  - right. by exists p'.
Qed.

Section read_list.
Context {A : Type} (wf : A -> Prop) (enc : A -> bytes)
  (dec : bytes -> outcome (A * bytes)) `{!Codec wf enc dec}.

Lemma read_list_app (l : list A) rest :
  Forall wf l -> read_list dec (length l) (concat (enc <$> l) ++ rest) = Ok (l, rest).
Proof using All.
  induction 1 as [|a l Ha Hl IH]; [done|].
  cbn. rewrite <- app_assoc, codec_read by done. cbn. by rewrite IH.
Qed.

Lemma read_list_cut (l : list A) p q :
  Forall wf l -> concat (enc <$> l) = p ++ q -> q <> [] ->
  exists e, read_list dec (length l) p = Err e /\ eof_like e.
Proof using All.
  intros Hl. revert p. induction Hl as [|a l Ha Hl IH]; intros p Hpq Hq.
  - by destruct p, q.
  - cbn in Hpq |- *.
    destruct (cut_app _ _ _ _ Hpq Hq) as [(q' & Ea & Hq')|(p' & -> & Eb)].
    + destruct (codec_cut a p q' Ha Ea Hq') as (e & -> & He). by exists e.
    + rewrite codec_read by done. cbn.
      destruct (IH p' Eb Hq) as (e & -> & He). by exists e.
Qed.
End read_list.

(** Rewrites a read of a field that stands at the front of the buffer. *)
Lemma read_uint_app w z rest :
  0 <= z < 2 ^ (8 * Z.of_nat w) -> read_uint w (le_bytes w z ++ rest) = Ok (z, rest).
Proof. apply (codec_read (Codec := uint_codec w)). Qed.

Lemma read_int64_app z rest :
  - 2 ^ 63 <= z < 2 ^ 63 -> read_int64 (le_bytes 8 z ++ rest) = Ok (z, rest).
Proof. apply (codec_read (Codec := int64_codec)). Qed.

Lemma read_int64_eof buf : read_int64 buf = Err ErrEOF -> buf = [].
Proof.
  unfold read_int64, read_uint. intros H.
  destruct (read_full (Z.of_nat 8) buf) as [[]|e|] eqn:E; cbn in H; try done.
  apply (read_full_eof (Z.of_nat 8)). by injection H as ->.
Qed.

#[export] Hint Rewrite @read_full_app read_uint_app read_int64_app
  using (first [assumption | reflexivity | lia]) : codec.

Lemma read_uint_cut w z p q :
  0 <= z < 2 ^ (8 * Z.of_nat w) -> le_bytes w z = p ++ q -> q <> [] ->
  exists e, read_uint w p = Err e /\ eof_like e.
Proof. apply (codec_cut (Codec := uint_codec w)). Qed.

Lemma read_int64_cut z p q :
  - 2 ^ 63 <= z < 2 ^ 63 -> le_bytes 8 z = p ++ q -> q <> [] ->
  exists e, read_int64 p = Err e /\ eof_like e.
Proof. apply (codec_cut (Codec := int64_codec)). Qed.

(** [H : field ++ more = p ++ q], where the goal reads [field] from [p]: closes
    the case of a cut inside the field, and moves past it otherwise. *)
Ltac field_is_cut :=
  match goal with
  | E : _ = ?p ++ ?q, Hq : ?q <> [] |- ex _ =>
      let X := fresh "X" in
      first
        [ pose proof (fun w => read_int64_cut _ p q w E Hq) as X;
          destruct (X ltac:(eassumption)) as (? & -> & ?)
        | pose proof (fun w => read_uint_cut _ _ p q w E Hq) as X;
          destruct (X ltac:(eassumption)) as (? & -> & ?)
        | destruct (read_full_cut _ p q _ eq_refl E Hq) as (? & -> & ?) ];
      cbn; eexists; split; [reflexivity|assumption]
  end.

Ltac cut_field H Hq :=
  destruct (cut_app _ _ _ _ H Hq) as [(? & ? & ?)|(? & -> & ?)];
  clear H; [field_is_cut|autorewrite with codec; cbn -[Z.pow]].

(** ** Reading never panics, and never gives back more than it was given *)

Lemma read_full_length n buf bs rest :
  read_full n buf = Ok (bs, rest) -> (length rest <= length buf)%nat.
Proof.
  unfold read_full. destruct (n =? 0); [by intros [= <- <-]|].
  destruct (zlen buf =? 0); [done|]. destruct (zlen buf <? n); [done|].
  intros [= <- <-]. rewrite length_drop. lia.
Qed.

Lemma read_full_no_panic n buf p : read_full n buf <> Panic p.
Proof. unfold read_full. by repeat destruct (_ : bool). Qed.

Lemma read_uint_length w buf z rest :
  read_uint w buf = Ok (z, rest) -> (length rest <= length buf)%nat.
Proof.
  unfold read_uint. intros ([bs r] & H & E)%bind_Ok_inv. injection E as _ <-.
  by eapply read_full_length.
Qed.

Lemma read_int64_length buf z rest :
  read_int64 buf = Ok (z, rest) -> (length rest < length buf)%nat.
Proof.
  unfold read_int64, read_uint. intros ([y r] & H & E)%bind_Ok_inv. injection E as _ <-.
  apply bind_Ok_inv in H as ([bs r'] & H & E). injection E as _ <-.
  change (Z.of_nat 8) with 8 in H. unfold read_full, zlen in H.
  change (8 =? 0) with false in H. cbv iota in H.
  destruct (Z.eqb_spec (Z.of_nat (length buf)) 0); [done|].
  destruct (Z.ltb_spec (Z.of_nat (length buf)) 8); [done|].
  injection H as _ <-. rewrite length_drop. lia.
Qed.

Lemma read_int64_no_panic buf p : read_int64 buf <> Panic p.
Proof.
  unfold read_int64, read_uint.
  pose proof (read_full_no_panic (Z.of_nat 8) buf p).
  destruct (read_full (Z.of_nat 8) buf) as [[]| |]; cbn; congruence.
Qed.

Lemma read_uint_no_panic w buf p : read_uint w buf <> Panic p.
Proof.
  unfold read_uint. pose proof (read_full_no_panic (Z.of_nat w) buf p).
  destruct (read_full (Z.of_nat w) buf) as [[]| |]; cbn; congruence.
Qed.

(** Splits the next read of a sequence of reads, dropping the panics. *)
Ltac next_read :=
  let go rd len nopanic :=
    (let E := fresh "E" in
     destruct rd as [[? ?]|?|?] eqn:E; cbn;
     [apply len in E| |exfalso; eapply nopanic; exact E]) in
  match goal with
  | |- context [ read_int64 ?b ] => go (read_int64 b) read_int64_length read_int64_no_panic
  | |- context [ read_uint ?w ?b ] => go (read_uint w b) read_uint_length read_uint_no_panic
  | |- context [ read_full ?n ?b ] => go (read_full n b) read_full_length read_full_no_panic
  end.

Lemma bind_no_panic {A B} (m : outcome A) (f : A -> outcome B) :
  (forall p, m <> Panic p) -> (forall a p, f a <> Panic p) -> forall p, m ≫= f <> Panic p.
Proof.
  intros H1 H2 p. destruct m as [a|e|p0]; cbn; [apply H2|done|]. intros [= ->]. by apply (H1 p).
Qed.

Lemma read_list_no_panic {A} (rd : bytes -> outcome (A * bytes)) n buf :
  (forall b p, rd b <> Panic p) -> forall p, read_list rd n buf <> Panic p.
Proof.
  intros H. revert buf. induction n as [|n IH]; intros buf p; [done|]. cbn.
  apply bind_no_panic; [apply H|]. intros [a b] q. apply bind_no_panic; [apply IH|].
  by intros [l c] ?.
Qed.

(** ** Files

    A file is the list of its bytes.  [ReadAt] fills the whole buffer or
    fails with [EOF]; [WriteAt] past the end fills the gap with zeros. *)
Definition read_at (file : bytes) (off n : Z) : outcome bytes :=
  if off <? 0 then Err (ErrMsg "negative offset"%string) else
  if off + n <=? zlen file then Ok (take (Z.to_nat n) (drop (Z.to_nat off) file))
  else Err ErrEOF.

Definition write_at (file : bytes) (off : Z) (data : bytes) : outcome bytes :=
  if off <? 0 then Err (ErrMsg "negative offset"%string) else
  let o := Z.to_nat off in
  let padded := file ++ replicate (o - length file) Byte.x00 in
  Ok (take o padded ++ data ++ drop (o + length data) padded).

Lemma read_write_at file off data file' :
  write_at file off data = Ok file' -> read_at file' off (zlen data) = Ok data.
Proof.
  unfold write_at, read_at, zlen. destruct (Z.ltb_spec off 0); [done|].
  intros [= <-]. set (pad := file ++ _).
  assert (Hpad : (Z.to_nat off <= length pad)%nat)
    by (unfold pad; rewrite length_app, length_replicate; lia).
  rewrite Nat2Z.id, !length_app, length_take, length_drop, Nat.min_l by done.
  rewrite (proj2 (Z.leb_le _ _)) by lia.
  by rewrite drop_app_length', take_app_length' by (rewrite ?length_take; lia).
Qed.
