(* ===== verification/NodeCodec.v ===== *)
(** * Pages on disk ([encode], [decode] of [node.go])

    A page is written with its live cells in offset order, and with the
    offsets as they are; both decoders fill the cells in file order. *)
From S2P Require Import Prelude Keys Slice Codec Node Leaf.

Local Open Scope Z_scope.

(** ** Writing *)

Definition encode_leaf_cell (c : leafCell) : bytes :=
  le_bytes 4 (lc_keySize c) ++ le_bytes 4 (lc_valSize c) ++ lc_key c ++ lc_val c.

Definition encode_internal_cell (c : internalCell) : bytes :=
  le_bytes 4 (u32 (zlen (ic_key c))) ++ ic_key c ++ le_bytes 8 (ic_fileOffset c).

(** Fills the page up: two bytes that hold the free size, then zeros. *)
Definition pad_page (err : string) (body : bytes) : outcome bytes :=
  let currentSize := zlen body in
  if pageSize <? currentSize + 2 then Err (ErrMsg err)
  else
    let freeSize := u16 (pageSize - currentSize - 2) in
    let buf := body ++ le_bytes 2 freeSize ++ repeat Byte.x00 (Z.to_nat freeSize) in
    if negb (zlen buf =? pageSize) then Panic (PanicMsg "page size") else Ok buf.

Definition leaf_body (n : Node) (cells : list leafCell) : bytes :=
  le_bytes 1 1 ++ le_bytes 2 (u16 (noffsets n)) ++ concat (le_bytes 2 <$> sl_elems (offsets n)) ++
  concat (encode_leaf_cell <$> cells).

Definition encodeLeaf (n : Node) : outcome bytes :=
  cells ← mapM (index (n_leafCell n)) (sl_elems (offsets n));
  pad_page "leaf node data size exceeds page size" (leaf_body n cells).

Definition internal_body (n : Node) (cells : list internalCell) : bytes :=
  le_bytes 1 2 ++ le_bytes 8 (fileOffset n) ++ le_bytes 4 (u32 (noffsets n)) ++
  concat (le_bytes 2 <$> sl_elems (offsets n)) ++ concat (encode_internal_cell <$> cells).

Definition encodeInternal (n : Node) : outcome bytes :=
  cells ← mapM (index (n_internalCell n)) (sl_elems (offsets n));
  pad_page "encodeInternal: internal node data size exceeds page size" (internal_body n cells).

Definition encode (n : Node) : outcome bytes :=
  if isLeaf n then encodeLeaf n else encodeInternal n.

(** ** Reading *)

Definition read_leaf_cell (buf : bytes) : outcome (leafCell * bytes) :=
  '(keySize, buf) ← read_uint 4 buf;
  '(valSize, buf) ← read_uint 4 buf;
  '(key, buf) ← read_full keySize buf;
  '(val, buf) ← read_full valSize buf;
  Ok (mkLeafCell keySize valSize key val, buf).

Definition read_internal_cell (buf : bytes) : outcome (internalCell * bytes) :=
  '(keyLen, buf) ← read_uint 4 buf;
  '(key, buf) ← read_full keyLen buf;
  '(fo, buf) ← read_uint 8 buf;
  Ok (mkInternalCell key fo, buf).

(** [for i < count { binary.Read(buf, ..., &n.offsets[i]) }]: the element is
    looked up before anything is read into it. *)
Fixpoint read_offsets (fuel : nat) (i count : Z) (ofs : slice) (buf : bytes) : outcome (slice * bytes) :=
  if negb (i <? count) then Ok (ofs, buf)
  else
    match fuel with
    | O => Panic OutOfFuel
    | S fuel =>
        _ ← index (sl_elems ofs) i;
        '(o, buf) ← read_uint 2 buf;
        ofs ← sl_set ofs i o;
        read_offsets fuel (i + 1) count ofs buf
    end.

(** [make([]uint16, count)]. *)
Definition make_offsets (count : Z) : slice := sl_of (repeat 0 (Z.to_nat count)).

Definition decodeLeaf (buf : bytes) (n : Node) : outcome Node :=
  '(count, buf) ← read_uint 2 buf;
  '(ofs, buf) ← read_offsets (S (Z.to_nat count)) 0 count (make_offsets count) buf;
  '(cells, buf) ← read_list read_leaf_cell (Z.to_nat count) buf;
  Ok (mkNode (isDirty n) true (fileOffset n) ofs (n_internalCell n) cells).

Definition decodeInternal (buf : bytes) (n : Node) : outcome Node :=
  '(fo, buf) ← read_uint 8 buf;
  '(count, buf) ← read_uint 4 buf;
  '(ofs, buf) ← read_offsets (S (Z.to_nat count)) 0 count (make_offsets count) buf;
  '(cells, buf) ← read_list read_internal_cell (Z.to_nat count) buf;
  Ok (mkNode (isDirty n) false fo ofs cells (n_leafCell n)).

Definition decode (data : bytes) (n : Node) : outcome Node :=
  '(nodeType, buf) ← read_uint 1 data;
  if nodeType =? 1 then decodeLeaf buf n else decodeInternal buf n.

(** ** The cells as codecs *)

Definition wf_leaf_cell (c : leafCell) : Prop :=
  lc_keySize c = zlen (lc_key c) /\ lc_valSize c = zlen (lc_val c) /\
  zlen (lc_key c) < 2 ^ 32 /\ zlen (lc_val c) < 2 ^ 32.

Definition wf_internal_cell (c : internalCell) : Prop :=
  zlen (ic_key c) < 2 ^ 32 /\ 0 <= ic_fileOffset c < 2 ^ 64.

Lemma zlen_nonneg {A} (l : list A) : 0 <= zlen l.
Proof. unfold zlen. lia. Qed.

Lemma uint_wf (w : nat) z n : 0 <= z < n -> n = 2 ^ (8 * Z.of_nat w) -> 0 <= z < 2 ^ (8 * Z.of_nat w).
Proof. by intros ? <-. Qed.

#[export] Instance leaf_cell_codec : Codec wf_leaf_cell encode_leaf_cell read_leaf_cell.
Proof.
  split.
  - intros [ks vs k v] rest (Ek & Ev & Hk & Hv). cbn in *. subst.
    pose proof (zlen_nonneg k). pose proof (zlen_nonneg v).
    unfold encode_leaf_cell, read_leaf_cell. cbn [lc_keySize lc_valSize lc_key lc_val].
    rewrite <- !app_assoc, read_uint_app by (apply (uint_wf _ _ (2 ^ 32)); done). cbn -[Z.pow].
    rewrite read_uint_app by (apply (uint_wf _ _ (2 ^ 32)); done). cbn -[Z.pow].
    autorewrite with codec; cbn -[Z.pow]. by autorewrite with codec.
  - intros [ks vs k v] p q (Ek & Ev & Hk & Hv) Hpq Hq. cbn in *. subst.
    assert (0 <= zlen k < 2 ^ (8 * Z.of_nat 4)) as Wk by (split; [apply zlen_nonneg|done]).
    assert (0 <= zlen v < 2 ^ (8 * Z.of_nat 4)) as Wv by (split; [apply zlen_nonneg|done]).
    unfold encode_leaf_cell in Hpq. unfold read_leaf_cell.
    cbn [lc_keySize lc_valSize lc_key lc_val] in Hpq.
    do 3 (match goal with H : _ ++ _ = _ ++ q |- _ => cut_field H Hq end).
    field_is_cut.
Qed.

#[export] Instance internal_cell_codec : Codec wf_internal_cell encode_internal_cell read_internal_cell.
Proof.
  split.
  - intros [k fo] rest [Hk Hfo]. cbn in *. pose proof (zlen_nonneg k).
    unfold encode_internal_cell, read_internal_cell. cbn [ic_key ic_fileOffset].
    rewrite <- !app_assoc. unfold u32. rewrite Z.mod_small by lia.
    rewrite read_uint_app by (apply (uint_wf _ _ (2 ^ 32)); done). cbn -[Z.pow].
    autorewrite with codec; cbn -[Z.pow].
    rewrite read_uint_app by (apply (uint_wf _ _ (2 ^ 64)); done). done.
  - intros [k fo] p q [Hk Hfo] Hpq Hq. cbn in *.
    assert (0 <= zlen k < 2 ^ (8 * Z.of_nat 4)) as Wk by (split; [apply zlen_nonneg|done]).
    assert (0 <= fo < 2 ^ (8 * Z.of_nat 8)) as Wf by done.
    unfold encode_internal_cell in Hpq. unfold read_internal_cell. cbn [ic_key ic_fileOffset] in Hpq.
    replace (u32 (zlen k)) with (zlen k) in Hpq by (unfold u32; by rewrite Z.mod_small).
    do 2 (match goal with H : _ ++ _ = _ ++ q |- _ => cut_field H Hq end).
    field_is_cut.
Qed.

(** ** The loop over the offsets *)

(** One turn fills the first element that is still zero. *)
Lemma read_offsets_at fuel done (k : nat) buf :
  (k < fuel)%nat ->
  read_offsets fuel (zlen done) (zlen done + Z.of_nat k) (sl_of (done ++ repeat 0 k)) buf =
  '(ofs, buf) ← read_list (read_uint 2) k buf; Ok (sl_of (done ++ ofs), buf).
Proof.
  revert fuel done buf. induction k as [|k IH]; intros [|fuel] done buf Hf; try lia; cbn [read_offsets].
  - by rewrite (proj2 (Z.ltb_ge _ _)) by lia.
  - rewrite (proj2 (Z.ltb_lt _ _)) by lia. cbn [negb read_list].
    assert (index (sl_elems (sl_of (done ++ repeat 0 (S k)))) (zlen done) = Ok 0) as ->.
    { unfold zlen. apply index_Some. cbn. by rewrite list_lookup_middle. }
    cbn [mbind outcome_bind]. destruct (read_uint 2 buf) as [[o rest]|e|p]; cbn [mbind outcome_bind]; [|done..].
    assert (sl_set (sl_of (done ++ repeat 0 (S k))) (zlen done) o = Ok (sl_of ((done ++ [o]) ++ repeat 0 k))) as ->.
    { unfold sl_set, sl_of, zlen. cbn [sl_elems sl_spare]. rewrite length_app. cbn [repeat length].
      rewrite (proj2 (Z.leb_le _ _)), (proj2 (Z.ltb_lt _ _)) by lia. cbn [andb]. do 2 f_equal.
      by rewrite Nat2Z.id, insert_app_r_alt, Nat.sub_diag, <- app_assoc by lia. }
    cbn [mbind outcome_bind]. specialize (IH fuel (done ++ [o]) rest ltac:(lia)).
    replace (zlen (done ++ [o])) with (zlen done + 1) in IH by (unfold zlen; rewrite length_app; cbn; lia).
    replace (zlen done + Z.of_nat (S k)) with (zlen done + 1 + Z.of_nat k) by lia. rewrite IH.
    destruct (read_list _ k rest) as [[l b]|e|p]; cbn; [|done..]. by rewrite <- app_assoc.
Qed.

(** With room for [count] offsets, the loop reads that many. *)
Lemma read_offsets_list count buf :
  0 <= count ->
  read_offsets (S (Z.to_nat count)) 0 count (make_offsets count) buf =
  '(ofs, buf) ← read_list (read_uint 2) (Z.to_nat count) buf; Ok (sl_of ofs, buf).
Proof.
  intros H. pose proof (read_offsets_at (S (Z.to_nat count)) [] (Z.to_nat count) buf ltac:(lia)) as E.
  unfold zlen in E. cbn [length app] in E. rewrite Z.add_0_l, Z2Nat.id in E by done. exact E.
Qed.

#[local] Arguments read_offsets : simpl never.
#[local] Arguments make_offsets : simpl never.

(** ** Whole pages *)

Lemma mapM_points {A} (cells : list A) ofs cs :
  points cells ofs cs -> mapM (index cells) ofs = Ok cs.
Proof.
  induction 1 as [|o c ofs cs Hc _ IH]; [done|]. cbn. rewrite Hc. cbn. by rewrite IH.
Qed.

Lemma pad_page_spec err body :
  zlen body + 2 <= pageSize ->
  exists tail, pad_page err body = Ok (body ++ tail) /\ zlen (body ++ tail) = pageSize.
Proof.
  intros H. unfold pad_page. pose proof (zlen_nonneg body). unfold pageSize in *.
  rewrite (proj2 (Z.ltb_ge _ _)) by lia. set (free := u16 _).
  assert (free = 4096 - zlen body - 2) as Ef by (unfold free, u16; rewrite Z.mod_small; lia).
  set (tail := le_bytes 2 free ++ _).
  assert (zlen (body ++ tail) = 4096) as El.
  { unfold tail, zlen in *. rewrite !length_app, length_le_bytes, repeat_length. lia. }
  exists tail. rewrite El. done.
Qed.

Lemma pad_page_total err body p : pad_page err body <> Panic p.
Proof.
  unfold pad_page. destruct (Z.ltb_spec pageSize (zlen body + 2)); [done|].
  destruct (pad_page_spec err body) as (tail & E & _); [lia|]. unfold pad_page in E.
  rewrite (proj2 (Z.ltb_ge _ _)) in E by lia. by rewrite E.
Qed.

Definition u16_offsets (n : Node) : Prop := Forall (fun o => 0 <= o < 2 ^ (8 * Z.of_nat 2)) (sl_elems (offsets n)).

Lemma leaf_page_read_back n cs n0 :
  isLeaf n = true -> points (n_leafCell n) (sl_elems (offsets n)) cs -> Forall wf_leaf_cell cs ->
  u16_offsets n -> noffsets n < 2 ^ 16 -> zlen (leaf_body n cs) + 2 <= pageSize ->
  exists page, encode n = Ok page /\ zlen page = pageSize /\
    decode page n0 = Ok (mkNode (isDirty n0) true (fileOffset n0) (sl_of (sl_elems (offsets n)))
                           (n_internalCell n0) cs).
Proof.
  intros Hl Hp Hwf Ho Hn Hfit. destruct (pad_page_spec "leaf node data size exceeds page size" _ Hfit)
    as (tail & Epad & Esz).
  exists (leaf_body n cs ++ tail). unfold encode, encodeLeaf. rewrite Hl, (mapM_points _ _ _ Hp).
  split; [exact Epad|]. split; [exact Esz|].
  pose proof (points_length _ _ _ Hp) as Hlen. pose proof (zlen_nonneg (sl_elems (offsets n))).
  unfold leaf_body, decode. rewrite <- !app_assoc. rewrite read_uint_app by (cbn; lia).
  cbn -[Z.pow]. unfold decodeLeaf, u16, noffsets in *. rewrite Z.mod_small by lia.
  rewrite read_uint_app by (apply (uint_wf _ _ (2 ^ 16)); done). cbn -[Z.pow].
  rewrite read_offsets_list by done.
  unfold zlen. rewrite Nat2Z.id. rewrite (read_list_app _ (le_bytes 2) (read_uint 2)) by done.
  cbn -[Z.pow]. rewrite Hlen, (read_list_app wf_leaf_cell encode_leaf_cell read_leaf_cell) by done.
  done.
Qed.

(** Cells that are filed in the order of the offsets are the ones the offsets
    name exactly if these count up from zero. *)
Lemma points_own {A} (cs : list A) ofs :
  length ofs = length cs -> NoDup cs -> points cs ofs cs <-> ofs = fresh_offsets (length cs).
Proof.
  intros Hlen Hnd. split; [|intros ->; apply points_fresh]. intros Hp.
  apply list_eq_same_length with (length cs); [by rewrite length_fresh|done|].
  intros i o o' _ Ho Ho'. unfold fresh_offsets in Ho'.
  apply list_lookup_fmap_Some in Ho' as (k & -> & [-> Hk]%lookup_seq).
  destruct (lookup_lt_is_Some_2 cs i) as [c Hc]; [done|].
  pose proof (Forall2_lookup_lr _ _ _ _ _ _ Hp Ho Hc) as [[H0 _] Hc']%index_Ok_inv.
  pose proof (NoDup_lookup _ _ _ _ Hnd Hc' Hc). lia.
Qed.

(** C34: a leaf page whose live cells fit is written as exactly one page of 4096
    bytes, and reading it gives the offsets as they were and the live cells in
    the order of the offsets.  So, for distinct cells, the offsets of the page
    that is read name the live cells of the page that was written exactly if
    they counted up from zero ([reload_out_of_order] has pages for which they
    do not). *)
Theorem leaf_page_roundtrip n cs n0 :
  isLeaf n = true -> points (n_leafCell n) (sl_elems (offsets n)) cs -> Forall wf_leaf_cell cs ->
  u16_offsets n -> noffsets n < 2 ^ 16 -> zlen (leaf_body n cs) + 2 <= pageSize ->
  exists page n', encode n = Ok page /\ zlen page = pageSize /\ decode page n0 = Ok n' /\
    n' = mkNode (isDirty n0) true (fileOffset n0) (sl_of (sl_elems (offsets n))) (n_internalCell n0) cs /\
    (NoDup cs ->
     points (n_leafCell n') (sl_elems (offsets n')) cs <-> sl_elems (offsets n) = fresh_offsets (length cs)).
Proof.
  intros Hl Hp Hwf Ho Hn Hfit.
  destruct (leaf_page_read_back n cs n0 Hl Hp Hwf Ho Hn Hfit) as (page & He & Hz & Hd).
  eexists page, _. split_and!; [done|done|exact Hd|done|]. apply points_own. by eapply points_length.
Qed.

Lemma internal_page_read_back n cs n0 :
  isLeaf n = false -> points (n_internalCell n) (sl_elems (offsets n)) cs ->
  Forall wf_internal_cell cs -> u16_offsets n -> 0 <= fileOffset n < 2 ^ 64 ->
  zlen (internal_body n cs) + 2 <= pageSize ->
  exists page, encode n = Ok page /\ zlen page = pageSize /\
    decode page n0 = Ok (mkNode (isDirty n0) false (fileOffset n) (sl_of (sl_elems (offsets n)))
                           cs (n_leafCell n0)).
Proof.
  intros Hl Hp Hwf Ho Hfo Hfit. destruct (pad_page_spec "encodeInternal: internal node data size exceeds page size" _ Hfit)
    as (tail & Epad & Esz).
  exists (internal_body n cs ++ tail). unfold encode, encodeInternal. rewrite Hl, (mapM_points _ _ _ Hp).
  split; [exact Epad|]. split; [exact Esz|].
  pose proof (points_length _ _ _ Hp) as Hlen.
  assert (0 <= noffsets n < 2 ^ 32) as Hn.
  { split; [apply zlen_nonneg|]. unfold noffsets, zlen.
    assert (Z.of_nat (length (sl_elems (offsets n))) <= zlen (internal_body n cs)).
    { unfold internal_body, zlen. rewrite !length_app. apply inj_le.
      assert (forall l : list Z, (length l <= length (concat (le_bytes 2 <$> l)))%nat) as Hc.
      { intros l. induction l as [|z l IH]; [done|]. cbn. rewrite length_app, length_le_bytes. lia. }
      pose proof (Hc (sl_elems (offsets n))). lia. }
    unfold pageSize in Hfit. lia. }
  unfold internal_body, decode. rewrite <- !app_assoc. rewrite read_uint_app by (cbn; lia).
  cbn -[Z.pow]. unfold decodeInternal, u32. rewrite (Z.mod_small (noffsets n)) by done.
  rewrite read_uint_app by done. cbn -[Z.pow].
  rewrite read_uint_app by (apply (uint_wf _ _ (2 ^ 32)); done). cbn -[Z.pow].
  rewrite read_offsets_list by apply Hn.
  unfold noffsets, zlen. rewrite Nat2Z.id. rewrite (read_list_app _ (le_bytes 2) (read_uint 2)) by done.
  cbn -[Z.pow].
  rewrite Hlen, (read_list_app wf_internal_cell encode_internal_cell read_internal_cell) by done. done.
Qed.

(** C35: the same for an internal page, whose file offset is part of the page. *)
Theorem internal_page_roundtrip n cs n0 :
  isLeaf n = false -> points (n_internalCell n) (sl_elems (offsets n)) cs ->
  Forall wf_internal_cell cs -> u16_offsets n -> 0 <= fileOffset n < 2 ^ 64 ->
  zlen (internal_body n cs) + 2 <= pageSize ->
  exists page n', encode n = Ok page /\ zlen page = pageSize /\ decode page n0 = Ok n' /\
    n' = mkNode (isDirty n0) false (fileOffset n) (sl_of (sl_elems (offsets n))) cs (n_leafCell n0) /\
    (NoDup cs ->
     points (n_internalCell n') (sl_elems (offsets n')) cs <-> sl_elems (offsets n) = fresh_offsets (length cs)).
Proof.
  intros Hl Hp Hwf Ho Hfo Hfit.
  destruct (internal_page_read_back n cs n0 Hl Hp Hwf Ho Hfo Hfit) as (page & He & Hz & Hd).
  eexists page, _. split_and!; [done|done|exact Hd|done|]. apply points_own. by eapply points_length.
Qed.

(** Encoding never panics on a page whose offsets point at cells: it gives
    one page of 4096 bytes, or the error that the data does not fit. *)
Theorem encode_total n :
  (if isLeaf n then exists cs, points (n_leafCell n) (sl_elems (offsets n)) cs
   else exists cs, points (n_internalCell n) (sl_elems (offsets n)) cs) ->
  (exists page, encode n = Ok page /\ zlen page = pageSize) \/ (exists e, encode n = Err e).
Proof.
  assert (Hpad : forall err body, (exists page, pad_page err body = Ok page /\ zlen page = pageSize) \/
                                  (exists e, pad_page err body = Err e)).
  { intros err body. destruct (decide (zlen body + 2 <= pageSize)) as [Hle|Hgt].
    - left. destruct (pad_page_spec err body Hle) as (tail & E & Es). by exists (body ++ tail).
    - right. unfold pad_page. rewrite (proj2 (Z.ltb_lt _ _)) by lia. by eexists. }
  unfold encode, encodeLeaf, encodeInternal.
  destruct (isLeaf n); intros [cs Hp]; rewrite (mapM_points _ _ _ Hp); apply Hpad.
Qed.

(** The panics of a decoder, and what it returns otherwise. *)
Definition sound {A} (P : A -> Prop) (m : outcome A) : Prop :=
  match m with Ok a => P a | Err _ => True | Panic _ => False end.

Lemma sound_bind {A B} (P : A -> Prop) (Q : B -> Prop) (m : outcome A) (f : A -> outcome B) :
  sound P m -> (forall a, P a -> sound Q (f a)) -> sound Q (m ≫= f).
Proof. by destruct m; cbn; auto. Qed.

Lemma sound_any {A} (m : outcome A) : (forall p, m <> Panic p) -> sound (fun _ => True) m.
Proof. intros H. destruct m; [done..|]. by eapply H. Qed.

Lemma read_uint_sound w buf : sound (fun x => 0 <= x.1) (read_uint w buf).
Proof.
  unfold read_uint. pose proof (read_full_no_panic (Z.of_nat w) buf) as H.
  destruct (read_full _ buf) as [[bs rest]|e|p]; cbn; [|done|by eapply H]. apply le_val_bound.
Qed.

Lemma read_list_sound {A} (rd : bytes -> outcome (A * bytes)) k buf :
  (forall b p, rd b <> Panic p) -> sound (fun x => length x.1 = k) (read_list rd k buf).
Proof.
  intros H. revert buf. induction k as [|k IH]; intros buf; [done|]. cbn [read_list].
  eapply sound_bind; [by apply sound_any|]. intros [a b] _. eapply sound_bind; [apply IH|].
  intros [l c] Hl. cbn in *. by f_equal.
Qed.

Lemma read_leaf_cell_no_panic buf p : read_leaf_cell buf <> Panic p.
Proof. unfold read_leaf_cell. by repeat (next_read; [|done]). Qed.

Lemma read_internal_cell_no_panic buf p : read_internal_cell buf <> Panic p.
Proof. unfold read_internal_cell. by repeat (next_read; [|done]). Qed.

(** The loop never looks outside the slice it was made for, and ends. *)
Lemma read_offsets_sound count buf :
  0 <= count ->
  sound (fun x => zlen (sl_elems x.1) = count) (read_offsets (S (Z.to_nat count)) 0 count (make_offsets count) buf).
Proof.
  intros Hc. rewrite read_offsets_list by done.
  eapply sound_bind; [apply read_list_sound, read_uint_no_panic|].
  intros [l b] Hl. cbn in *. unfold zlen. lia.
Qed.

(** As many offsets as cells of the page's kind. *)
Definition one_per_cell (n : Node) : Prop :=
  noffsets n = if isLeaf n then zlen (n_leafCell n) else zlen (n_internalCell n).

Lemma decode_sound data n : sound one_per_cell (decode data n).
Proof.
  unfold decode, decodeLeaf, decodeInternal.
  eapply sound_bind; [apply read_uint_sound|]. intros [t b] _. destruct (t =? 1).
  - eapply sound_bind; [apply read_uint_sound|]. intros [c b1] Hc. cbn in Hc.
    eapply sound_bind; [by apply read_offsets_sound|]. intros [o b2] Ho. cbn in Ho.
    eapply sound_bind; [apply read_list_sound, read_leaf_cell_no_panic|]. intros [cs b3] Hl. cbn in *.
    unfold one_per_cell, noffsets. cbn. unfold zlen in *. lia.
  - eapply sound_bind; [apply read_uint_sound|]. intros [fo b0] _.
    eapply sound_bind; [apply read_uint_sound|]. intros [c b1] Hc. cbn in Hc.
    eapply sound_bind; [by apply read_offsets_sound|]. intros [o b2] Ho. cbn in Ho.
    eapply sound_bind; [apply read_list_sound, read_internal_cell_no_panic|]. intros [cs b3] Hl. cbn in *.
    unfold one_per_cell, noffsets. cbn. unfold zlen in *. lia.
Qed.

(** C37: decoding never panics, whatever is on the page: the loop over the
    offsets stays inside the slice that was made for them, and a page that is
    cut short, or whose counts or lengths run past its end, is reported as an
    error.  A page that is read has as many offsets as cells. *)
Theorem decode_total data n :
  (exists n', decode data n = Ok n' /\ one_per_cell n') \/ (exists e, decode data n = Err e).
Proof.
  pose proof (decode_sound data n) as H.
  destruct (decode data n) as [n'|e|p]; [left; by exists n'|right; by exists e|done].
Qed.

(** ** What a reload does to the order *)

(** A page read back from its own image. *)
Definition reload (n : Node) : outcome Node :=
  page ← encode n; decode page (setFileOffsetForNode (fileOffset n) emptyNode).

(** A leaf whose cells came in key order, without left-over cells, is
    reloaded as a leaf with the same content. *)
Theorem reload_in_order hi g n kvs :
  leaf_rep hi g n kvs -> sl_elems (offsets n) = fresh_offsets (length (n_leafCell n)) ->
  Forall wf_leaf_cell (n_leafCell n) -> (length kvs <= 9)%nat ->
  zlen (leaf_body n (n_leafCell n)) + 2 <= pageSize ->
  exists n', reload n = Ok n' /\ leaf_rep hi 0 n' kvs /\ fileOffset n' = fileOffset n.
Proof.
  intros Hr Ho Hwf H9 Hfit. pose proof Hr as [Hl (cs & Hp & Hkv) Hs Hb Hu Hcap Hlen].
  assert (cs = n_leafCell n) as ->.
  { pose proof (points_fresh (n_leafCell n)) as Hp'. rewrite <- Ho in Hp'.
    apply mapM_points in Hp, Hp'. congruence. }
  assert (length (n_leafCell n) = length kvs) as Hck by (rewrite <- Hkv; by rewrite length_fmap).
  destruct (leaf_page_read_back n (n_leafCell n) (setFileOffsetForNode (fileOffset n) emptyNode))
    as (page & He & _ & Hd); try done.
  - unfold u16_offsets. rewrite Ho. apply Forall_forall.
    intros o (j & -> & Hj%elem_of_seq)%list_elem_of_fmap. cbn. lia.
  - unfold noffsets, zlen. rewrite Ho, length_fresh. lia.
  - unfold reload. rewrite He. cbn [mbind outcome_bind]. rewrite Hd. eexists. split; [done|].
    split; [|done]. by apply leaf_rep_fresh.
Qed.

(** The leaf that [b], then [a], were put into. *)
Definition leaf_ba : Node :=
  mkNode true true 4096 (mkSlice [1; 0] []) []
    [newLeafCell (go_string "b") (go_string "2"); newLeafCell (go_string "a") (go_string "1")].

(** The lower half of a leaf that was split and then took one more key. *)
Definition leaf_after_split : Node :=
  mkNode true true 4096 (mkSlice [0; 2] []) []
    [newLeafCell (go_string "a") (go_string "1"); newLeafCell (go_string "z") (go_string "2");
     newLeafCell (go_string "b") (go_string "3")].

(** The keys of a leaf in the order its offsets give. *)
Definition offset_keys (n : Node) : outcome (list bytes) :=
  mapM (fun o => cellKey o n) (sl_elems (offsets n)).

(** Any other leaf is not.  The cells are written in offset order but the
    offsets still name the old places: two keys put in descending order come
    back in the wrong order, and after a split the offsets point past the
    cells, so that the next search of the page panics. *)
Theorem reload_out_of_order :
  offset_keys leaf_ba = Ok [go_string "a"; go_string "b"] /\
  (n ← reload leaf_ba; offset_keys n) = Ok [go_string "b"; go_string "a"] /\
  offset_keys leaf_after_split = Ok [go_string "a"; go_string "b"] /\
  (n ← reload leaf_after_split; findInsPointForKey (go_string "c") n) = Panic IndexOutOfRange.
Proof. vm_compute. split_and!; reflexivity. Qed.

(** ** Witnesses *)

Lemma leaf_page_roundtrip_witness :
  exists page n', encode leaf_ba = Ok page /\ zlen page = 4096 /\ decode page emptyNode = Ok n' /\
    n' = mkNode false true 0 (sl_of [1; 0]) []
      [newLeafCell (go_string "a") (go_string "1"); newLeafCell (go_string "b") (go_string "2")] /\
    ~ points (n_leafCell n') (sl_elems (offsets n'))
        [newLeafCell (go_string "a") (go_string "1"); newLeafCell (go_string "b") (go_string "2")].
Proof.
  destruct (leaf_page_roundtrip leaf_ba
           [newLeafCell (go_string "a") (go_string "1"); newLeafCell (go_string "b") (go_string "2")] emptyNode)
    as (page & n' & He & Hz & Hd & En & Hiff).
  - reflexivity.
  - repeat constructor.
  - repeat constructor; reflexivity.
  - repeat constructor; (reflexivity || (cbn; lia)).
  - reflexivity.
  - vm_compute. discriminate.
  - exists page, n'. split; [exact He|]. split; [exact Hz|]. split; [exact Hd|]. split; [exact En|].
    intros Hp. apply Hiff in Hp; [vm_compute in Hp; discriminate Hp|].
    apply (bool_decide_unpack _). vm_compute. exact I.
Defined.

(** A root over two leaves. *)
Definition root_am : Node :=
  mkNode true false 8192 (mkSlice [0; 1] []) [mkInternalCell (go_string "a") 0; mkInternalCell (go_string "m") 4096] [].

Lemma internal_page_roundtrip_witness :
  exists page n', encode root_am = Ok page /\ zlen page = 4096 /\ decode page emptyNode = Ok n' /\
    points (n_internalCell n') (sl_elems (offsets n')) (n_internalCell root_am).
Proof.
  destruct (internal_page_roundtrip root_am (n_internalCell root_am) emptyNode) as (page & n' & He & Hz & Hd & _ & Hiff).
  - reflexivity.
  - repeat constructor.
  - repeat constructor; cbn; (reflexivity || lia).
  - repeat constructor; (reflexivity || (cbn; lia)).
  - cbn. lia.
  - vm_compute. discriminate.
  - exists page, n'. split; [exact He|]. split; [exact Hz|]. split; [exact Hd|].
    apply Hiff; [|reflexivity]. apply (bool_decide_unpack _). vm_compute. exact I.
Defined.

Lemma encode_total_witness :
  (exists cs, points (n_leafCell leaf_ba) (sl_elems (offsets leaf_ba)) cs) /\
  ((exists page, encode leaf_ba = Ok page /\ zlen page = pageSize) \/ (exists e, encode leaf_ba = Err e)).
Proof.
  assert (exists cs, points (n_leafCell leaf_ba) (sl_elems (offsets leaf_ba)) cs) as Hp
    by (eexists; repeat constructor).
  split; [exact Hp|exact (encode_total leaf_ba Hp)].
Defined.

(** A leaf that took its keys in order. *)
Definition leaf_ab : Node :=
  mkNode true true 4096 (mkSlice [0; 1] []) []
    [newLeafCell (go_string "a") (go_string "1"); newLeafCell (go_string "b") (go_string "2")].

Lemma reload_in_order_witness :
  exists n', reload leaf_ab = Ok n' /\
    leaf_rep None 0 n' [(go_string "a", go_string "1"); (go_string "b", go_string "2")] /\ fileOffset n' = 4096.
Proof.
  apply (reload_in_order None 0 leaf_ab).
  - apply leaf_rep_fresh; [reflexivity..| |repeat constructor]. repeat constructor.
  - reflexivity.
  - repeat constructor; reflexivity.
  - cbn. lia.
  - vm_compute. discriminate.
Defined.
