(* ===== verification/Storage.v ===== *)
(** * The page store ([storage.go])

    [fileStore] caches the pages by file offset and writes the dirty ones to
    the file.  Pages are Go pointers: the tree holds the same objects the cache
    does, so a page is named by its key in [nodes] and a write through any
    pointer is a write to that entry.  Writes to the file are taken to succeed
    ([Faults] lets them fail); encoding may fail.  Go ranges over the cache in an unspecified order:
    [flushPages] takes it as its first argument. *)
From S2P Require Import Prelude Slice Codec Node NodeCodec.

Local Open Scope Z_scope.

Record fileStore := mkFileStore {
  fs_file : bytes;
  pageCache : gmap Z Node;
  nextFreeOffset : Z;
  fs_rootOffset : Z;
}.

Definition set_file (file : bytes) (f : fileStore) : fileStore :=
  mkFileStore file (pageCache f) (nextFreeOffset f) (fs_rootOffset f).
Definition set_pageCache (c : gmap Z Node) (f : fileStore) : fileStore :=
  mkFileStore (fs_file f) c (nextFreeOffset f) (fs_rootOffset f).

(** ** The cache *)

Definition cache_add (pg : Node) (c : gmap Z Node) : gmap Z Node := <[i64 (fileOffset pg) := pg]> c.
Definition cache_fetch (fo : Z) (c : gmap Z Node) : option Node := c !! i64 fo.
Definition cache_remove (fo : Z) (c : gmap Z Node) : gmap Z Node := delete (i64 fo) c.
Definition cache_len (c : gmap Z Node) : Z := Z.of_nat (size c).

(** [all]: a new map, filled in the order of the range; its values are the same
    pointers. *)
Fixpoint copy_pages (ord : list Z) (c result : gmap Z Node) : gmap Z Node :=
  match ord with
  | [] => result
  | k :: ord =>
      match c !! k with
      | Some v => copy_pages ord c (<[k := v]> result)
      | None => copy_pages ord c result
      end
  end.

Definition cache_all (ord : list Z) (c : gmap Z Node) : gmap Z Node := copy_pages ord c ∅.

(** ** The file *)

Definition setRoot (node : Node) (f : fileStore) : fileStore :=
  mkFileStore (fs_file f) (pageCache f) (nextFreeOffset f) (fileOffset node).

(** What it does is what [setRoot] does; nothing calls it. *)
Definition getRoot (node : Node) (f : fileStore) : fileStore :=
  mkFileStore (fs_file f) (pageCache f) (nextFreeOffset f) (fileOffset node).

(** [newFileStore]: the first 16 bytes, when the file has them, are the root
    offset and the next free offset. *)
Definition newFileStore (file : bytes) : outcome fileStore :=
  match read_at file 0 16 with
  | Err ErrEOF => Ok (mkFileStore file ∅ 0 0)
  | Err e => Panic (PanicErr "read file meta" e)
  | Panic p => Panic p
  | Ok buf =>
      '(rootOff, buf) ← panic_err "decode rootOffset" (read_uint 8 buf);
      '(next, buf) ← panic_err "decode nextFreeOffset" (read_uint 8 buf);
      Ok (mkFileStore file ∅ next rootOff)
  end.

Definition update (node : Node) (f : fileStore) : outcome fileStore :=
  buf ← wrap_err "encode node" (encode node);
  file ← wrap_err "write" (write_at (fs_file f) (i64 (fileOffset node)) buf);
  Ok (set_pageCache (<[i64 (fileOffset node) := node]> (pageCache f)) (set_file file f)).

(** [save]; [flushPages] ignores its error. *)
Definition save (f : fileStore) : outcome fileStore :=
  file ← write_at (fs_file f) 0 (le_bytes 8 (fs_rootOffset f) ++ le_bytes 8 (nextFreeOffset f));
  Ok (set_file file f).

Fixpoint flush_loop (ord : list Z) (f : fileStore) : outcome fileStore :=
  match ord with
  | [] => Ok f
  | k :: ord =>
      match pageCache f !! k with
      | None => flush_loop ord f
      | Some page =>
          if negb (isDirty page) then flush_loop ord f
          else
            f ← wrap_err "update page" (update page f);
            flush_loop ord (set_pageCache (<[k := markClean page]> (pageCache f)) f)
      end
  end.

Definition flushPages (ord : list Z) (f : fileStore) : outcome fileStore :=
  f ← flush_loop ord f;
  match save f with
  | Ok f' => Ok f'
  | Err _ => Ok f
  | Panic p => Panic p
  end.

(** One tick of the goroutine that [newFileStore] starts. *)
Definition flusher_tick (ord : list Z) (f : fileStore) : outcome fileStore :=
  panic_err "flushPages()" (flushPages ord f).

Lemma flusher_tick_Ok ord f f' : flusher_tick ord f = Ok f' -> flushPages ord f = Ok f'.
Proof. unfold flusher_tick. by destruct (flushPages ord f). Qed.

(** ** The copy of the cache *)

Lemma copy_pages_spec ord c r :
  r ⊆ c -> copy_pages ord c r ⊆ c /\
    forall k, k ∈ ord \/ is_Some (r !! k) -> copy_pages ord c r !! k = c !! k.
Proof.
  revert r. induction ord as [|j ord IH]; intros r Hr; cbn.
  - split; [done|]. intros k [Hk|[x Hx]]; [by apply not_elem_of_nil in Hk|].
    rewrite Hx. symmetry. by eapply lookup_weaken.
  - destruct (c !! j) as [v|] eqn:Ej.
    + destruct (IH (<[j := v]> r)) as [H1 H2]; [by apply insert_subseteq_l|]. split; [done|].
      intros k Hk. destruct (decide (k = j)) as [->|Hne]; [apply H2; right; by rewrite lookup_insert_eq|].
      apply H2. rewrite lookup_insert_ne by done. destruct Hk as [[->|?]%elem_of_cons|?]; [done|by left|by right].
    + destruct (IH r Hr) as [H1 H2]. split; [done|]. intros k Hk.
      destruct (decide (k = j)) as [->|Hne].
      * rewrite Ej. by eapply lookup_weaken_None.
      * apply H2. destruct Hk as [[->|?]%elem_of_cons|?]; [done|by left|by right].
Qed.

(** In whatever order the cache is ranged over, it is copied. *)
Lemma cache_all_copy ord c : ord ≡ₚ elements (dom c) -> cache_all ord c = c.
Proof.
  intros Hord. destruct (copy_pages_spec ord c ∅ (map_empty_subseteq c)) as [H1 H2].
  apply map_eq. intros k. destruct (c !! k) eqn:Ek.
  - rewrite <- Ek. apply H2. left. rewrite Hord, elem_of_elements. apply elem_of_dom. by eexists.
  - eapply lookup_weaken_None; [exact Ek|exact H1].
Qed.

(** ** What is in the file *)

(** Reads see what was written, at the place written to and elsewhere. *)
Lemma write_at_prefix file data file' :
  write_at file 0 data = Ok file' -> take (length data) file' = data.
Proof.
  unfold write_at. cbn [Z.ltb Z.compare Z.to_nat Nat.sub replicate]. rewrite app_nil_r. cbn [take].
  intros [= <-]. by rewrite take_app_length.
Qed.

Lemma write_at_Ok file off data : 0 <= off -> exists file', write_at file off data = Ok file'.
Proof. intros H. unfold write_at. rewrite (proj2 (Z.ltb_ge _ _)) by done. by eexists. Qed.

Lemma save_Ok f : exists file', save f = Ok (set_file file' f) /\
  take 16 file' = le_bytes 8 (fs_rootOffset f) ++ le_bytes 8 (nextFreeOffset f).
Proof.
  unfold save. destruct (write_at_Ok (fs_file f) 0
    (le_bytes 8 (fs_rootOffset f) ++ le_bytes 8 (nextFreeOffset f))) as (file' & E); [done|].
  rewrite E. exists file'. split; [done|]. apply write_at_prefix in E.
  by rewrite length_app, !length_le_bytes in E.
Qed.

(** Flushing changes no page but its dirty flag, and neither offset. *)
Definition same_page (p q : Node) : Prop := markClean p = markClean q.

Lemma update_Ok node f f' :
  update node f = Ok f' ->
  pageCache f' = <[i64 (fileOffset node) := node]> (pageCache f) /\
  nextFreeOffset f' = nextFreeOffset f /\ fs_rootOffset f' = fs_rootOffset f.
Proof.
  unfold update. intros (buf & _ & H)%bind_Ok_inv. apply bind_Ok_inv in H as (file & _ & H).
  by injection H as <-.
Qed.

(** Every cached page is filed under its own offset. *)
Definition filed (c : gmap Z Node) : Prop :=
  forall k pg, c !! k = Some pg -> i64 (fileOffset pg) = k.

Lemma flush_loop_inv ord f f' :
  filed (pageCache f) -> flush_loop ord f = Ok f' ->
  nextFreeOffset f' = nextFreeOffset f /\ fs_rootOffset f' = fs_rootOffset f /\
  (markClean <$> pageCache f') = (markClean <$> pageCache f).
Proof.
  revert f. induction ord as [|k ord IH]; cbn; intros f Hf; [by intros [= <-]|].
  destruct (pageCache f !! k) as [page|] eqn:Ek; [|by apply IH].
  destruct (negb (isDirty page)); [by apply IH|]. intros (f1 & Hu & H)%bind_Ok_inv.
  destruct (update page f) as [f2| |] eqn:Eu; try done. injection Hu as <-.
  apply update_Ok in Eu as (E1 & E2 & E3). rewrite (Hf _ _ Ek) in E1.
  apply IH in H.
  - cbn in H. rewrite E1, E2, E3 in H. destruct H as (H1 & H2 & H3). split_and!; [done|done|].
    rewrite H3, insert_insert_eq, fmap_insert. apply insert_id. rewrite lookup_fmap, Ek. done.
  - cbn. rewrite E1, insert_insert_eq. intros j pg. rewrite lookup_insert. case_decide; [|apply Hf].
    intros [= <-]. subst. exact (Hf _ _ Ek).
Qed.

Lemma flushPages_inv ord f f' :
  filed (pageCache f) -> flushPages ord f = Ok f' ->
  nextFreeOffset f' = nextFreeOffset f /\ fs_rootOffset f' = fs_rootOffset f /\
  (markClean <$> pageCache f') = (markClean <$> pageCache f) /\
  take 16 (fs_file f') = le_bytes 8 (fs_rootOffset f) ++ le_bytes 8 (nextFreeOffset f).
Proof.
  intros Hf. unfold flushPages. intros (f1 & H & Hs)%bind_Ok_inv.
  apply flush_loop_inv in H as (H1 & H2 & H3); [|done].
  destruct (save_Ok f1) as (file & E & Ef). rewrite E in Hs. injection Hs as <-. cbn.
  rewrite H1, H2 in Ef. done.
Qed.

(** Whatever is flushed, the root offset of the store stays. *)
Lemma update_root node f f' : update node f = Ok f' -> fs_rootOffset f' = fs_rootOffset f.
Proof. by intros (_ & _ & ?)%update_Ok. Qed.

Lemma flush_loop_root ord f f' : flush_loop ord f = Ok f' -> fs_rootOffset f' = fs_rootOffset f.
Proof.
  revert f. induction ord as [|k ord IH]; cbn; intros f Hl; [by injection Hl as ->|].
  follow; try by apply IH. unfold wrap_err in *. follow. apply IH in Hl. cbn in Hl.
  match goal with H : update _ _ = Ok _ |- _ => apply update_root in H end. congruence.
Qed.

Lemma flushPages_root ord f f' : flushPages ord f = Ok f' -> fs_rootOffset f' = fs_rootOffset f.
Proof.
  unfold flushPages. intros (f1 & Hl & Hs)%bind_Ok_inv. apply flush_loop_root in Hl.
  destruct (save_Ok f1) as (file & E & _). rewrite E in Hs. by injection Hs as <-.
Qed.
