(* ===== verification/BTree.v ===== *)
(** * The B+tree ([btree.go])

    [BTree] is the page store with a root.  A page variable of the code
    ([curr], [parent], [b.root]) is the key of that page in the cache; a page
    that was just made and is not in the cache yet is a value.  The recursive
    functions take fuel, the depth they may go to: a tree they build is never
    deeper than two pages ([put_refines]), and [Get] is proved to return for
    any fuel from two on. *)
From S2P Require Import Prelude Keys Slice Codec Node NodeCodec Storage.

Local Open Scope Z_scope.

Record BTree := mkBTree {
  fs : fileStore;
  root : Z;
  rootOffset : Z;
  bt_meta : bytes;
}.

Definition set_fs (f : fileStore) (b : BTree) : BTree :=
  mkBTree f (root b) (rootOffset b) (bt_meta b).
Definition pages (b : BTree) : gmap Z Node := pageCache (fs b).

(** [*pg], and an assignment through it. *)
Definition page (k : Z) (b : BTree) : outcome Node := deref (pages b !! k).
Definition set_page (k : Z) (n : Node) (b : BTree) : BTree :=
  set_fs (set_pageCache (<[k := n]> (pages b)) (fs b)) b.

(** ** Metadata *)

(** The last commit index and the last applied index. *)
Definition readMeta (b : BTree) : outcome (Z * Z) :=
  match read_int64 (bt_meta b) with
  | Err ErrEOF => Ok (0, 0)
  | Err e => Panic (PanicErr "readMeta: read last commit" e)
  | Panic p => Panic p
  | Ok (lastCmt, rest) =>
      match read_int64 rest with
      | Err ErrEOF => Ok (lastCmt, 0)
      | Err e => Panic (PanicErr "readMeta: read last applied" e)
      | Panic p => Panic p
      | Ok (lastApp, _) => Ok (lastCmt, lastApp)
      end
  end.

Definition updateMeta (lastApplied lastCommitIndex : Z) (b : BTree) : outcome BTree :=
  meta ← panic_err "updateMeta" (write_at (bt_meta b) 0
           (le_bytes 8 lastCommitIndex ++ le_bytes 8 lastApplied));
  Ok (mkBTree (fs b) (root b) (rootOffset b) meta).

(** ** Pages *)

(** [add]: the new page gets the next free offset; returns it as filed. *)
Definition add (pg : Node) (b : BTree) : Node * BTree :=
  let pg := setFileOffsetForNode (nextFreeOffset (fs b)) pg in
  let f := fs b in
  let f := mkFileStore (fs_file f) (cache_add pg (pageCache f))
             (u64 (nextFreeOffset f + pageSize)) (fs_rootOffset f) in
  (pg, set_fs f b).

Definition setRootPage (pg : Node) (b : BTree) : BTree :=
  let '(pg, b) := add pg b in
  mkBTree (fs b) (i64 (fileOffset pg)) (fileOffset pg) (bt_meta b).

Definition fetch (fo : Z) (b : BTree) : outcome (Node * BTree) :=
  match cache_fetch fo (pages b) with
  | Some n => Ok (n, b)
  | None =>
      paged ← panic_err "fetch: read" (read_at (fs_file (fs b)) (i64 fo) 4096);
      node ← panic_err "fetch: decode" (decode paged emptyNode);
      let node := setFileOffsetForNode fo node in
      Ok (node, set_fs (set_pageCache (cache_add node (pages b)) (fs b)) b)
  end.

Definition loadPage (offset : Z) (b : BTree) : outcome (Node * BTree) :=
  buf ← wrap_err "read page" (read_at (fs_file (fs b)) (i64 offset) pageSize);
  node ← wrap_err "decode page" (decode buf (setFileOffsetForNode offset emptyNode));
  Ok (node, set_fs (set_pageCache (<[i64 offset := node]> (pages b)) (fs b)) b).

(** Opens the tree whose page file and metadata file have the given contents. *)
Definition NewBTreeWithPath (file meta : bytes) : outcome BTree :=
  f ← panic_err "file store" (newFileStore file);
  let b := mkBTree f 0 0 meta in
  if 0 <? fs_rootOffset f then
    '(_, b) ← panic_err "load root page" (loadPage (fs_rootOffset f) b);
    Ok (mkBTree (fs b) (i64 (fs_rootOffset f)) (fs_rootOffset f) (bt_meta b))
  else Ok (setRootPage (set_isLeaf true emptyNode) b).

Definition NewBTree (files : string -> bytes) : outcome BTree :=
  NewBTreeWithPath (files "harmony.db"%string) (files "harmony.db.meta"%string).

(** [b.root], a pointer; what it points to. *)
Definition getRootPage (b : BTree) : outcome Node := page (root b) b.

(** ** Reading *)

Fixpoint get (fuel : nat) (next : Node) (key : bytes) (b : BTree) : outcome (bytes * BTree) :=
  match fuel with
  | O => Panic OutOfFuel
  | S fuel =>
      if isLeaf next then
        match findLeafCell key next with
        | None => Err (ErrMsg "key not found")
        | Some (_, cell) => Ok (lc_val cell, b)
        end
      else
        ofs ← findChildPage key next;
        cell ← index (n_internalCell next) ofs;
        '(nextPg, b) ← fetch (ic_fileOffset cell) b;
        get fuel nextPg key b
  end.

Definition Get (fuel : nat) (key : bytes) (b : BTree) : outcome (bytes * BTree) :=
  pg ← page (root b) b; get fuel pg key b.

(** ** Writing *)

Section writing.
Context `{GrowPolicy}.

(** Files the separator of a page that was split in its parent. *)
Definition addSeparator (pos fo : Z) (sep : bytes) (parent : Node) : outcome Node :=
  if pos =? u16 (noffsets parent) then Ok (appendInternalCell fo sep parent)
  else insertInternalCell pos fo sep parent.

(** Makes a page that was split off [n] reachable: under the parent, or with
    [n] under a new root. *)
Definition linkNewPage (parent : option Z) (n newpg : Node) (sep : bytes) (b : BTree) : outcome BTree :=
  match parent with
  | None =>
      o ← index (sl_elems (offsets n)) 0;
      c ← index (n_leafCell n) o;
      let parentPg := appendInternalCell (fileOffset n) (lc_key c) emptyNode in
      let parentPg := appendInternalCell (fileOffset newpg) sep parentPg in
      Ok (setRootPage parentPg b)
  | Some p =>
      pn ← page p b;
      pos ← findInsPointForKey sep pn;
      pn ← addSeparator pos (fileOffset newpg) sep pn;
      Ok (set_page p pn b)
  end.

(** The rest of [insertLeaf] for a page [n] that is full. *)
Definition splitLeaf (parent : option Z) (curr : Z) (n : Node) (b : BTree) : outcome BTree :=
  '(n, newpg, sep) ← split n emptyNode;
  let b := set_page curr n b in
  let '(newpg, b) := add newpg b in
  b ← linkNewPage parent n newpg sep b;
  n ← page curr b;
  Ok (set_page curr (markDirty n) b).

Definition insertLeaf (parent : option Z) (curr : Z) (key value : bytes) (b : BTree)
    : outcome BTree :=
  n ← page curr b;
  match findLeafCell key n with
  | Some (i, _) => Ok (set_page curr (markDirty (updateLeafCell i value n)) b)
  | None =>
      ofs ← findInsPointForKey key n;
      n ← insertLeafCell ofs key value n;
      let n := markDirty n in
      let b := set_page curr n b in
      if negb (isFull n) then Ok b else splitLeaf parent curr n b
  end.

Fixpoint insertInternal (fuel : nat) (parent : option Z) (curr : Z) (key value : bytes) (b : BTree)
    : outcome BTree :=
  match fuel with
  | O => Panic OutOfFuel
  | S fuel =>
      n ← page curr b;
      offset ← findChildPage key n;
      c ← index (n_internalCell n) offset;
      let child := i64 (ic_fileOffset c) in
      childpg ← page child b;
      b ← (if isLeaf childpg then insertLeaf (Some curr) child key value b
           else insertInternal fuel (Some curr) child key value b);
      n ← page curr b;
      if negb (isFull n) then Ok b
      else
        '(n, newpg, sep) ← split n emptyNode;
        let b := set_page curr n b in
        let '(newpg, b) := add newpg b in
        pos ← findInsPointForKey sep newpg;
        p ← deref parent;
        pn ← page p b;
        pn ← addSeparator pos (fileOffset newpg) sep pn;
        Ok (set_page p pn b)
  end.

Definition put (fuel : nat) (key val : bytes) (b : BTree) : outcome BTree :=
  pg ← page (root b) b;
  if isLeaf pg then insertLeaf None (root b) key val b
  else insertInternal fuel None (root b) key val b.

(** Puts one after the other. *)
Fixpoint put_all (fuel : nat) (kvs : pair_list) (b : BTree) : outcome BTree :=
  match kvs with
  | [] => Ok b
  | kv :: kvs => b ← put fuel kv.1 kv.2 b; put_all fuel kvs b
  end.

End writing.
