(* ===== verification/TreeFrame.v ===== *)
(** * What a put leaves alone ([btree.go])

    A put touches the cached pages, the next free offset and the root.  It
    writes neither file, and it does not touch the root offset of the page
    store. *)
From S2P Require Import Prelude Keys Slice Codec Node NodeCodec Storage BTree.

Local Open Scope Z_scope.

(** The file of pages, the root offset that [save] writes (the tree updates
    the field of [BTree] that hides it), and the metadata file. *)
Definition header (b : BTree) : bytes * Z * bytes := (fs_file (fs b), fs_rootOffset (fs b), bt_meta b).

Lemma header_set_page k n b : header (set_page k n b) = header b.
Proof. done. Qed.

Lemma header_add pg b : header (add pg b).2 = header b.
Proof. done. Qed.

Lemma header_setRootPage pg b : header (setRootPage pg b) = header b.
Proof. done. Qed.

Section headers.
Context `{GrowPolicy}.

Lemma header_insertLeaf parent curr key v b b' :
  insertLeaf parent curr key v b = Ok b' -> header b' = header b.
Proof.
  unfold insertLeaf, splitLeaf, linkNewPage. intros E. follow; subst; try done.
  all: unfold add in *; simplify_eq; done.
Qed.

Lemma header_insertInternal fuel parent curr key v b b' :
  insertInternal fuel parent curr key v b = Ok b' -> header b' = header b.
Proof.
  revert parent curr b b'. induction fuel as [|fuel IH]; cbn [insertInternal]; intros parent curr b b' E; [done|].
  follow; subst; try (by eapply header_insertLeaf); try (by eapply IH).
  all: unfold add in *; simplify_eq; rewrite header_set_page.
  all: match goal with
       | H : insertLeaf _ _ _ _ _ = Ok _ |- _ => apply header_insertLeaf in H
       | H : insertInternal _ _ _ _ _ _ = Ok _ |- _ => apply IH in H
       end; done.
Qed.

Lemma header_put fuel k v b b' : put fuel k v b = Ok b' -> header b' = header b.
Proof.
  unfold put. intros E. follow; [by eapply header_insertLeaf|by eapply header_insertInternal].
Qed.

Lemma header_put_all fuel kvs b b' : put_all fuel kvs b = Ok b' -> header b' = header b.
Proof.
  revert b. induction kvs as [|[k v] kvs IH]; cbn; intros b E; [by injection E as ->|].
  apply bind_Ok_inv in E as (b1 & E1 & E). apply IH in E as ->. by eapply header_put.
Qed.

End headers.

(** ** Every page stays filed under its offset *)

Section filed.
Context `{GrowPolicy}.

Lemma filed_insert c k n : filed c -> i64 (fileOffset n) = k -> filed (<[k := n]> c).
Proof. intros Hf E j pg. rewrite lookup_insert. case_decide; [intros [= <-]; congruence|apply Hf]. Qed.

Lemma filed_add pg b : filed (pages b) -> filed (pages (add pg b).2).
Proof. intros Hf. unfold add, cache_add. cbn. by apply filed_insert. Qed.

Lemma filed_setRootPage pg b : filed (pages b) -> filed (pages (setRootPage pg b)).
Proof. intros Hf. unfold setRootPage. pose proof (filed_add pg b Hf). by destruct (add pg b). Qed.

(** A page that is written back where it was read from. *)
Lemma filed_set_page k n n' b :
  filed (pages b) -> page k b = Ok n -> fileOffset n' = fileOffset n -> filed (pages (set_page k n' b)).
Proof.
  unfold page, deref. intros Hf Hp E. destruct (pages b !! k) as [x|] eqn:Ek; [|done]. injection Hp as <-.
  apply filed_insert; [done|]. rewrite E. exact (Hf _ _ Ek).
Qed.

Lemma page_set_page k n b : page k (set_page k n b) = Ok n.
Proof. unfold page, set_page, pages. cbn. by rewrite lookup_insert_eq. Qed.

Lemma insertLeafCell_offset o k v n n' : insertLeafCell o k v n = Ok n' -> fileOffset n' = fileOffset n.
Proof. unfold insertLeafCell. intros (s & _ & E)%bind_Ok_inv. by injection E as <-. Qed.

Lemma addSeparator_offset pos fo sep n n' : addSeparator pos fo sep n = Ok n' -> fileOffset n' = fileOffset n.
Proof.
  unfold addSeparator. destruct (_ =? _); [by intros [= <-]|]. unfold insertInternalCell.
  intros (s & _ & E)%bind_Ok_inv. by injection E as <-.
Qed.

Lemma split_offset n newpg n' newpg' sep :
  split n newpg = Ok (n', newpg', sep) -> fileOffset n' = fileOffset n.
Proof. unfold split. intros E. follow; by subst. Qed.

Lemma filed_splitLeaf parent curr n b b' :
  filed (pages b) -> page curr b = Ok n -> splitLeaf parent curr n b = Ok b' -> filed (pages b').
Proof.
  intros Hf Hn E. unfold splitLeaf in E. apply bind_Ok_inv in E as ([[n2 pg] sep] & H2 & E).
  apply split_offset in H2. assert (filed (pages (set_page curr n2 b))) as Hf2 by (by eapply filed_set_page).
  destruct (add pg _) as [pg' b2] eqn:Ea. apply (filed_add pg) in Hf2. rewrite Ea in Hf2. cbn in Hf2.
  apply bind_Ok_inv in E as (b3 & H3 & E). apply bind_Ok_inv in E as (n3 & Hn3 & E). injection E as <-.
  eapply filed_set_page; [|exact Hn3|done]. unfold linkNewPage in H3. destruct parent as [p|]; follow; subst.
  - match goal with H : addSeparator _ _ _ _ = Ok _ |- _ => apply addSeparator_offset in H end.
    by eapply filed_set_page.
  - by apply filed_setRootPage.
Qed.

Lemma filed_insertLeaf parent curr key v b b' :
  filed (pages b) -> insertLeaf parent curr key v b = Ok b' -> filed (pages b').
Proof.
  intros Hf E. unfold insertLeaf in E. apply bind_Ok_inv in E as (n & Hn & E).
  destruct (findLeafCell key n) as [[i c]|]; [injection E as <-; by eapply filed_set_page|].
  apply bind_Ok_inv in E as (ofs & _ & E). apply bind_Ok_inv in E as (n1 & H1 & E).
  apply insertLeafCell_offset in H1. assert (filed (pages (set_page curr (markDirty n1) b))) as Hf1
    by (by eapply filed_set_page).
  destruct (negb _); [by injection E as <-|]. eapply filed_splitLeaf; [exact Hf1|apply page_set_page|exact E].
Qed.

Lemma filed_insertInternal fuel parent curr key v b b' :
  filed (pages b) -> insertInternal fuel parent curr key v b = Ok b' -> filed (pages b').
Proof.
  revert parent curr b b'. induction fuel as [|fuel IH]; cbn [insertInternal]; intros parent curr b b' Hf E; [done|].
  apply bind_Ok_inv in E as (n & _ & E). apply bind_Ok_inv in E as (o & _ & E).
  apply bind_Ok_inv in E as (c & _ & E). cbv zeta in E. apply bind_Ok_inv in E as (pg & _ & E).
  apply bind_Ok_inv in E as (b1 & H1 & E).
  assert (filed (pages b1)) as Hf1 by (destruct (isLeaf pg); [by eapply filed_insertLeaf|by eapply IH]).
  apply bind_Ok_inv in E as (n1 & Hn1 & E). destruct (negb _); [by injection E as <-|].
  apply bind_Ok_inv in E as ([[n2 pg2] sep] & H2 & E). apply split_offset in H2.
  assert (filed (pages (set_page curr n2 b1))) as Hf2 by (by eapply filed_set_page).
  destruct (add pg2 _) as [pg' b2] eqn:Ea. apply (filed_add pg2) in Hf2. rewrite Ea in Hf2. cbn in Hf2.
  apply bind_Ok_inv in E as (pos & _ & E). apply bind_Ok_inv in E as (p & _ & E).
  apply bind_Ok_inv in E as (pn & Hp & E). apply bind_Ok_inv in E as (pn' & Hs & E). injection E as <-.
  apply addSeparator_offset in Hs. by eapply filed_set_page.
Qed.

Lemma filed_put fuel k v b b' : filed (pages b) -> put fuel k v b = Ok b' -> filed (pages b').
Proof.
  intros Hf. unfold put. intros (pg & _ & E)%bind_Ok_inv.
  destruct (isLeaf pg); [by eapply filed_insertLeaf|by eapply filed_insertInternal].
Qed.

End filed.

(** ** The metadata file *)

Lemma updateMeta_inv a c b b' :
  updateMeta a c b = Ok b' ->
  exists rest, b' = mkBTree (fs b) (root b) (rootOffset b) (le_bytes 8 c ++ le_bytes 8 a ++ rest).
Proof.
  unfold updateMeta. intros (meta & H & E)%bind_Ok_inv. injection E as <-.
  destruct (write_at_Ok (bt_meta b) 0 (le_bytes 8 c ++ le_bytes 8 a)) as (file & W); [done|].
  rewrite W in H. injection H as <-. apply write_at_prefix in W.
  exists (drop (length (le_bytes 8 c ++ le_bytes 8 a)) file). f_equal.
  rewrite app_assoc. rewrite <- W at 1. by rewrite take_drop.
Qed.

Lemma updateMeta_total a c b : exists b', updateMeta a c b = Ok b'.
Proof.
  unfold updateMeta. destruct (write_at_Ok (bt_meta b) 0 (le_bytes 8 c ++ le_bytes 8 a)) as (file & ->); [done|].
  by eexists.
Qed.

(** The fields are read as the [int64]s that were written. *)
Lemma read_int64_le z rest : read_int64 (le_bytes 8 z ++ rest) = Ok (i64 z, rest).
Proof.
  unfold read_int64. rewrite <- (le_bytes_mod 8 z). rewrite read_uint_app by (apply Z.mod_pos_bound; lia).
  cbn [mbind outcome_bind]. do 2 f_equal. apply i64_u64.
Qed.

Lemma readMeta_i64 a c b rest :
  bt_meta b = le_bytes 8 c ++ le_bytes 8 a ++ rest -> readMeta b = Ok (i64 c, i64 a).
Proof. intros E. unfold readMeta. by rewrite E, read_int64_le, read_int64_le. Qed.

Lemma readMeta_read a c b rest :
  - 2 ^ 63 <= a < 2 ^ 63 -> - 2 ^ 63 <= c < 2 ^ 63 ->
  bt_meta b = le_bytes 8 c ++ le_bytes 8 a ++ rest -> readMeta b = Ok (c, a).
Proof. intros Ha Hc E. rewrite (readMeta_i64 a c b rest E), !i64_id by done. done. Qed.

(** [readMeta] reads what [updateMeta] wrote, whatever the file held before;
    the pages are not touched. *)
Theorem meta_roundtrip a c b :
  - 2 ^ 63 <= a < 2 ^ 63 -> - 2 ^ 63 <= c < 2 ^ 63 ->
  exists b', updateMeta a c b = Ok b' /\ readMeta b' = Ok (c, a) /\
    fs b' = fs b /\ root b' = root b.
Proof.
  intros Ha Hc. destruct (updateMeta_total a c b) as (b' & H). exists b'. split; [done|].
  apply updateMeta_inv in H as (rest & ->). split; [by apply (readMeta_read _ _ _ rest)|done].
Qed.

Lemma meta_roundtrip_witness :
  exists b', updateMeta 5 7 (mkBTree (mkFileStore [] ∅ 0 0) 0 0 [Byte.xff]) = Ok b' /\ readMeta b' = Ok (7, 5).
Proof.
  destruct (meta_roundtrip 5 7 (mkBTree (mkFileStore [] ∅ 0 0) 0 0 [Byte.xff])) as (b' & H & R & _); [lia|lia|].
  exists b'. split; [exact H|exact R].
Defined.
