(* ===== verification/Tree.v ===== *)
(** * The B+tree implements a finite map

    [tree_rep b seps flat]: the pages of [b] hold the sorted list [flat], under
    a root leaf ([seps = []]) or under a root page with separators [seps].
    [put] refines insertion and [Get] refines lookup, as long as no key is put
    that is smaller than the first separator; what happens otherwise, and when
    the root fills up, is shown at the end. *)
From S2P Require Import Prelude Keys Slice Codec Node Leaf NodeCodec Storage BTree.

Local Open Scope Z_scope.

#[local] Arguments pages : simpl never.
#[local] Arguments set_page : simpl never.

(** ** The leaves under a root page *)

Record entry := mkEntry {
  e_sep : bytes;
  e_off : Z;
  e_kvs : pair_list;
}.

Definition entry_cell (e : entry) : internalCell := mkInternalCell (e_sep e) (e_off e).
Definition contents (es : list entry) : pair_list := concat (e_kvs <$> es).

(** The upper bound of a leaf: the separator after it. *)
Definition hd_hi (es : list entry) (hi : option bytes) : option bytes :=
  match es with [] => hi | e :: _ => Some (e_sep e) end.

Record leaf_ok (p : gmap Z Node) (g : nat) (hi : option bytes) (e : entry) : Prop := {
  lo_page : exists n, p !! e_off e = Some n /\ fileOffset n = e_off e /\ leaf_rep hi g n (e_kvs e);
  lo_len : (4 <= length (e_kvs e) <= 8)%nat;
  lo_sep : all_ge (e_kvs e) (e_sep e);
  lo_hi : below hi (e_sep e);
}.

Fixpoint leaves (p : gmap Z Node) (g : nat) (es : list entry) (hi : option bytes) : Prop :=
  match es with
  | [] => True
  | e :: es' => leaf_ok p g (hd_hi es' hi) e /\ leaves p g es' hi
  end.

Lemma hd_hi_app es1 es2 hi : hd_hi (es1 ++ es2) hi = hd_hi es1 (hd_hi es2 hi).
Proof. by destruct es1. Qed.

Lemma leaves_app p g es1 es2 hi :
  leaves p g (es1 ++ es2) hi <-> leaves p g es1 (hd_hi es2 hi) /\ leaves p g es2 hi.
Proof.
  induction es1 as [|e es1 IH]; cbn; [tauto|]. rewrite IH, hd_hi_app. tauto.
Qed.

Lemma leaf_rep_mono hi g g' n kvs : (g <= g')%nat -> leaf_rep hi g n kvs -> leaf_rep hi g' n kvs.
Proof. intros Hg [H1 H2 H3 H4 H5 H6 H7]. split; try done. lia. Qed.

Lemma leaf_ok_frame p p' g g' hi e :
  (g <= g')%nat -> p' !! e_off e = p !! e_off e -> leaf_ok p g hi e -> leaf_ok p' g' hi e.
Proof.
  intros Hg E [(n & Hp & Hf & Hr) H2 H3 H4]. split; [|done..]. exists n. rewrite E.
  split_and!; [done|done|]. by eapply leaf_rep_mono.
Qed.

Lemma leaves_frame p p' g g' es hi :
  (g <= g')%nat -> (forall e, e ∈ es -> p' !! e_off e = p !! e_off e) ->
  leaves p g es hi -> leaves p' g' es hi.
Proof.
  intros Hg. induction es as [|e es IH]; cbn; intros He; [done|]. intros [H1 H2]. split.
  - eapply leaf_ok_frame; [done|apply He; by left|done].
  - apply IH; [|done]. intros e' Hin. apply He. by right.
Qed.

Lemma below_trans hi k k' : klt k k' -> below hi k' -> below hi k.
Proof. destruct hi; [|done]. cbn. apply klt_trans. Qed.

(** Bounds on everything the leaves hold. *)
Lemma leaves_below p g es h : leaves p g es (Some h) -> all_lt (contents es) h /\ Forall (fun e => klt (e_sep e) h) es.
Proof.
  induction es as [|e es IH]; cbn; [intros _; split; constructor|]. intros [He Hes].
  apply IH in Hes as [Hc Hs].
  assert (forall k, below (hd_hi es (Some h)) k -> klt k h) as Hb.
  { intros k. destruct es as [|e' es]; [done|]. cbn. intros Hk. apply Forall_cons in Hs as [Hs _].
    by apply (klt_trans k (e_sep e')). }
  split.
  - apply Forall_app. split; [|done]. destruct He as [(n & _ & _ & Hr) _ _ _].
    eapply Forall_impl; [exact (lr_below _ _ _ _ Hr)|]. intros q Hq. by apply Hb.
  - constructor; [|done]. apply Hb. by apply He.
Qed.

Lemma leaves_above p g es hi k :
  leaves p g es hi -> match hd_hi es None with Some h => klt k h | None => True end ->
  all_gt (contents es) k /\ Forall (fun e => klt k (e_sep e)) es.
Proof.
  revert k. induction es as [|e es IH]; cbn; intros k; [intros _ _; split; constructor|].
  intros [He Hes] Hk. destruct (IH k Hes) as [Hc Hs].
  { destruct es as [|e' es]; cbn; [done|]. destruct He as [_ _ _ Hlt]. cbn in Hlt.
    by apply (klt_trans k (e_sep e)). }
  split.
  - apply Forall_app. split; [|done]. eapply Forall_impl; [exact (lo_sep _ _ _ _ He)|].
    intros q Hq. by apply (klt_le_trans k (e_sep e)).
  - by constructor.
Qed.

(** The leaf a key belongs to. *)
Lemma route_split key (e0 : entry) es :
  kle (e_sep e0) key ->
  exists es1 e es2, e0 :: es = es1 ++ e :: es2 /\ Forall (fun e => kle (e_sep e) key) (es1 ++ [e]) /\
    match hd_hi es2 None with Some h => klt key h | None => True end.
Proof.
  revert e0. induction es as [|e' es IH]; intros e0 H0.
  - exists [], e0, []. split_and!; [done|by constructor|done].
  - destruct (decide (kle (e_sep e') key)) as [Hle|Hgt].
    + destruct (IH e' Hle) as (es1 & e & es2 & E & Hf & Hh).
      exists (e0 :: es1), e, es2. cbn. rewrite E. split_and!; [done|by constructor|done].
    + exists [], e0, (e' :: es). split_and!; [done|by constructor|]. cbn. by apply not_kle.
Qed.

(** ** The root page *)

Record root_ok (n : Node) (es : list entry) : Prop := {
  ro_internal : isLeaf n = false;
  ro_cells : points (n_internalCell n) (sl_elems (offsets n)) (entry_cell <$> es);
  ro_first : head (sl_elems (offsets n)) = Some 0;
  ro_len : length (n_internalCell n) = length es;
}.

Lemma ro_noffsets n es : root_ok n es -> length (sl_elems (offsets n)) = length es.
Proof. intros [_ H _ _]. apply points_length in H. by rewrite length_fmap in H. Qed.

Lemma findChildPage_loop_spec key cells ofs cs1 cs2 found :
  points cells ofs (cs1 ++ cs2) -> Forall (fun c => kle (ic_key c) key) cs1 ->
  match head cs2 with Some c => klt key (ic_key c) | None => True end ->
  findChildPage_loop key cells ofs found =
    Ok (default found (last (take (length cs1) ofs))).
Proof.
  revert ofs found. induction cs1 as [|c cs1 IH]; intros ofs found Hp Hle Hgt.
  - cbn in Hp |- *. destruct Hp as [|o c ofs cs2 Hc Hp]; [done|]. cbn in Hgt |- *.
    rewrite Hc. cbn. by rewrite Hgt.
  - apply Forall_cons in Hle as [Hc Hle]. inversion Hp as [|o c' ofs' cs' Ho Hp']; subst.
    cbn [findChildPage_loop]. rewrite Ho. cbn [mbind outcome_bind].
    assert (findChildPage_loop key cells ofs' o =
      Ok (default found (last (take (length (c :: cs1)) (o :: ofs'))))) as E.
    { rewrite (IH ofs' o Hp' Hle Hgt). cbn [length take]. rewrite last_cons.
      by destruct (last (take (length cs1) ofs')). }
    destruct (bytes_compare key (ic_key c)) eqn:Ecmp; [exact E| |exact E].
    unfold kle in Hc. by rewrite bytes_compare_opp, Ecmp in Hc.
Qed.

Lemma head_entry_cells es : head (entry_cell <$> es) = entry_cell <$> head es.
Proof. by destruct es. Qed.

(** The child page of a key at or above the first separator. *)
Lemma findChildPage_spec key n es1 e es2 :
  root_ok n (es1 ++ e :: es2) -> Forall (fun e => kle (e_sep e) key) (es1 ++ [e]) ->
  match hd_hi es2 None with Some h => klt key h | None => True end ->
  exists o, findChildPage key n = Ok o /\ index (n_internalCell n) o = Ok (entry_cell e).
Proof.
  intros [Hl Hp Hf Hlen] Hle Hgt.
  assert (points (n_internalCell n) (sl_elems (offsets n))
    ((entry_cell <$> es1 ++ [e]) ++ (entry_cell <$> es2))) as Hp'.
  { rewrite <- fmap_app, <- app_assoc. exact Hp. }
  destruct (points_lookup_r _ _ _ (length es1) (entry_cell e) Hp) as (o & Ho & Hoi).
  { rewrite fmap_app. cbn. apply list_lookup_middle. by rewrite length_fmap. }
  exists o. split; [|done]. unfold findChildPage.
  rewrite (findChildPage_loop_spec key _ _ _ _ 0 Hp').
  - rewrite length_fmap, length_app. cbn. rewrite Nat.add_1_r.
    rewrite (take_S_r _ _ o Hoi), last_snoc. done.
  - apply Forall_fmap. exact Hle.
  - rewrite head_entry_cells. by destruct es2.
Qed.

(** A key below every separator goes to the page filed first. *)
Lemma findChildPage_small key n e es :
  root_ok n (e :: es) -> klt key (e_sep e) ->
  findChildPage key n = Ok 0 /\ index (n_internalCell n) 0 = Ok (entry_cell e).
Proof.
  intros [Hl Hp Hf Hlen] Hlt. split.
  - unfold findChildPage. by rewrite (findChildPage_loop_spec key _ _ [] _ 0 Hp).
  - inversion Hp as [|o c ofs cs Ho Hp' E1 E2]. rewrite <- E1 in Hf. cbn in Hf. by injection Hf as ->.
Qed.

Lemma root_keys n es : root_ok n es -> keys_at n (e_sep <$> es).
Proof.
  intros [Hl Hp _ _]. unfold keys_at. replace (e_sep <$> es) with (ic_key <$> (entry_cell <$> es))
    by (by rewrite <- list_fmap_compose).
  apply Forall2_fmap_r. eapply Forall2_impl; [exact Hp|].
  intros o c Hc. unfold cellKey. rewrite Hl, Hc. done.
Qed.

Section separator.
Context `{GrowPolicy}.

Lemma addSeparator_spec n es1 es2 (new : entry) :
  root_ok n (es1 ++ es2) -> es1 <> [] -> Z.of_nat (length (es1 ++ es2)) < 2 ^ 15 ->
  exists n', addSeparator (Z.of_nat (length es1)) (e_off new) (e_sep new) n = Ok n' /\
    root_ok n' (es1 ++ new :: es2) /\ fileOffset n' = fileOffset n /\ isDirty n' = isDirty n.
Proof.
  intros Hr Hne Hw. pose proof Hr as [Hl Hp Hf Hlen]. pose proof (ro_noffsets _ _ Hr) as Hno.
  assert (Hgoal : forall s, sl_elems s = take (length es1) (sl_elems (offsets n)) ++
      Z.of_nat (length (n_internalCell n)) :: drop (length es1) (sl_elems (offsets n)) ->
    root_ok (set_internalCell (n_internalCell n ++ [entry_cell new]) (set_offsets s n)) (es1 ++ new :: es2)).
  { intros s Es. split; cbn; [done| | |].
    - rewrite Es, fmap_app. cbn. rewrite fmap_app in Hp. apply points_app_inv in Hp as [H1 H2].
      rewrite length_fmap in H1, H2. by apply points_insert.
    - rewrite Es. destruct (sl_elems (offsets n)) as [|o ofs]; [done|].
      destruct es1; [done|]. cbn. exact Hf.
    - rewrite !length_app, Hlen, !length_app. cbn. lia. }
  unfold addSeparator, noffsets, zlen. rewrite Hno, u16_id by lia.
  destruct (Z.eqb_spec (Z.of_nat (length es1)) (Z.of_nat (length (es1 ++ es2)))) as [E|E].
  - eexists. split; [done|]. split; [|done]. apply Hgoal.
    rewrite sl_append_elems. unfold noffsets, zlen. rewrite Hno, Hlen, u16_id by lia.
    rewrite take_ge, drop_ge by lia. done.
  - unfold insertInternalCell, zlen. rewrite length_app in *.
    destruct (sl_insert_spec (offsets n) (length es1) (Z.of_nat (length (n_internalCell n))))
      as (s & Hs & Es & _); [lia|left; lia|].
    rewrite u16_id by lia. rewrite Hs. cbn. eexists. split; [done|]. split; [|done]. by apply Hgoal.
Qed.

(** The root that a first split makes. *)
Lemma first_root_ok o1 k1 o2 k2 kvs1 kvs2 :
  root_ok (appendInternalCell o2 k2 (appendInternalCell o1 k1 emptyNode))
    [mkEntry k1 o1 kvs1; mkEntry k2 o2 kvs2].
Proof.
  assert (E1 : sl_elems (offsets (appendInternalCell o1 k1 emptyNode)) = [0]) by apply sl_append_elems.
  set (n1 := appendInternalCell o1 k1 emptyNode) in *.
  assert (E2 : sl_elems (offsets (appendInternalCell o2 k2 n1)) = [0; 1]).
  { unfold appendInternalCell. cbn. rewrite sl_append_elems. unfold noffsets. by rewrite E1. }
  split; [done| | |done].
  - rewrite E2. repeat constructor.
  - by rewrite E2.
Qed.

End separator.

(** ** The whole tree *)

(** No page lies past the next free offset; [m] bounds how many were added. *)
Definition store_ok (b : BTree) (m : nat) : Prop :=
  (forall k pg, pages b !! k = Some pg -> 0 <= k < nextFreeOffset (fs b)) /\
  0 <= nextFreeOffset (fs b) <= 2 ^ 62 + pageSize * Z.of_nat m.

(** Garbage cells: five a split. *)
Definition garbage (es : list entry) : nat := 5 * (length es - 1).
#[local] Arguments garbage : simpl never.

Record internal_rep (b : BTree) (es : list entry) : Prop := {
  ir_root : exists n, pages b !! root b = Some n /\ root_ok n es;
  ir_leaves : leaves (pages b) (garbage es) es None;
  ir_nodup : NoDup (root b :: (e_off <$> es));
  ir_len : (2 <= length es <= 290)%nat;
  ir_store : store_ok b (length es + 1);
}.

Record leaf_root_rep (b : BTree) (flat : pair_list) : Prop := {
  lrr_root : exists n, pages b !! root b = Some n /\ leaf_rep None 0 n flat /\ fileOffset n = root b;
  lrr_len : (length flat <= 8)%nat;
  lrr_store : store_ok b 1;
}.

Definition tree_rep (b : BTree) (seps : list bytes) (flat : pair_list) : Prop :=
  (seps = [] /\ leaf_root_rep b flat) \/
  (exists es, internal_rep b es /\ seps = e_sep <$> es /\ flat = contents es).

Lemma store_offset b m k pg :
  store_ok b m -> (m <= 1000)%nat -> pages b !! k = Some pg -> 0 <= k < 2 ^ 63.
Proof. intros [Hk Hn] Hm Hp. apply Hk in Hp. unfold pageSize in Hn. lia. Qed.

(** What an entry of the tree tells. *)
Lemma internal_entry b es1 e es2 :
  internal_rep b (es1 ++ e :: es2) ->
  exists n, pages b !! e_off e = Some n /\ fileOffset n = e_off e /\
    leaf_rep (hd_hi es2 None) (garbage (es1 ++ e :: es2)) n (e_kvs e) /\
    i64 (e_off e) = e_off e /\ 0 <= e_off e < 2 ^ 63 /\ (4 <= length (e_kvs e) <= 8)%nat.
Proof.
  intros [_ Hl _ Hlen Hs]. apply leaves_app in Hl as [_ [[(n & Hp & Hf & Hr) H8 _ _] _]].
  exists n. assert (0 <= e_off e < 2 ^ 63) by (eapply store_offset; [done|lia|done]).
  split_and!; try done; try lia. apply i64_id. lia.
Qed.

(** A key on both sides of the leaf it belongs to. *)
Lemma internal_sides b es1 e es2 key :
  internal_rep b (es1 ++ e :: es2) -> kle (e_sep e) key ->
  match hd_hi es2 None with Some h => klt key h | None => True end ->
  all_lt (contents es1) key /\ all_gt (contents es2) key /\ below (hd_hi es2 None) key.
Proof.
  intros [_ Hl _ _ _] Hle Hhi. apply leaves_app in Hl as [H1 [He H2]]. cbn in H1.
  split_and!.
  - apply leaves_below in H1 as [H1 _]. eapply Forall_impl; [exact H1|].
    intros q Hq. by apply (klt_le_trans _ (e_sep e)).
  - by apply (leaves_above _ _ _ _ _ H2).
  - done.
Qed.

Lemma contents_app es1 es2 : contents (es1 ++ es2) = contents es1 ++ contents es2.
Proof. unfold contents. by rewrite fmap_app, concat_app. Qed.

Lemma contents_middle es1 e es2 : contents (es1 ++ e :: es2) = contents es1 ++ e_kvs e ++ contents es2.
Proof. rewrite contents_app. done. Qed.

(** ** [Get] *)

(** The answer for a list of pairs. *)
Definition answer (key : bytes) (l : pair_list) (b : BTree) : outcome (bytes * BTree) :=
  match to_map l !! key with
  | Some v => Ok (v, b)
  | None => Err (ErrMsg "key not found")
  end.

Lemma leaf_get hi g n kvs key fuel b :
  leaf_rep hi g n kvs -> below hi key -> get (S fuel) n key b = answer key kvs b.
Proof.
  intros Hr Hb. pose proof Hr as [Hl _ Hs _ _ _ _]. cbn. rewrite Hl. unfold answer.
  destruct (sorted_cases key kvs Hs) as [(l1 & v & l2 & E & H1 & H2)|(l1 & l2 & E & H1 & H2)].
  - destruct (findLeafCell_live hi g n kvs l1 key v l2 Hr E) as (o & c & -> & Ec & _).
    injection Ec as _ Ev. rewrite E, to_map_app, (to_map_lt l1) by done. unfold to_map. cbn.
    rewrite lookup_insert_eq, Ev. done.
  - rewrite (findLeafCell_none hi g n kvs l1 key l2 Hr E H1 H2 Hb).
    by rewrite E, to_map_app, to_map_lt, to_map_gt.
Qed.

Lemma get_child b es1 e es2 n key fuel :
  internal_rep b (es1 ++ e :: es2) -> below (hd_hi es2 None) key ->
  pages b !! root b = Some n -> isLeaf n = false ->
  (exists o, findChildPage key n = Ok o /\ index (n_internalCell n) o = Ok (entry_cell e)) ->
  get (S (S fuel)) n key b = answer key (e_kvs e) b.
Proof.
  intros Hi Hb Hn Hl (o & Ho & Hc). destruct (internal_entry _ _ _ _ Hi) as (ne & Hp & _ & Hr & Hoff & _).
  assert (get (S (S fuel)) n key b = get (S fuel) ne key b) as ->.
  { cbn [get]. rewrite Hl, Ho. cbn [mbind outcome_bind]. rewrite Hc. cbn [mbind outcome_bind ic_fileOffset entry_cell].
    unfold fetch, cache_fetch. rewrite Hoff, Hp. done. }
  by apply (leaf_get (hd_hi es2 None) (garbage (es1 ++ e :: es2))).
Qed.

Lemma get_spec b seps flat key fuel :
  tree_rep b seps flat -> (2 <= fuel)%nat -> Get fuel key b = answer key flat b.
Proof.
  intros Ht Hfuel. destruct fuel as [|[|fuel]]; [lia|lia|]. unfold Get, page.
  destruct Ht as [[-> [(n & Hn & Hr & _) _ _]]|(es & Hi & -> & ->)].
  - rewrite Hn. cbn [deref mbind outcome_bind]. by apply (leaf_get None 0).
  - destruct (ir_root _ _ Hi) as (n & Hn & Hro). rewrite Hn. cbn [deref mbind outcome_bind].
    destruct es as [|e0 es]; [pose proof (ir_len _ _ Hi) as Hlen; cbn in Hlen; lia|].
    destruct (decide (kle (e_sep e0) key)) as [Hle|Hgt%not_kle].
    + destruct (route_split key e0 es Hle) as (es1 & e & es2 & E & Hf & Hh). rewrite E in *.
      apply Forall_app in Hf as Hfe. destruct Hfe as [_ [Hfe _]%Forall_cons].
      destruct (internal_sides _ _ _ _ key Hi Hfe Hh) as (H1 & H2 & H3).
      rewrite (get_child b es1 e es2 n key fuel Hi H3 Hn (ro_internal _ _ Hro)).
      * unfold answer. rewrite contents_middle, !to_map_app, (to_map_lt (contents es1)),
          (to_map_gt (contents es2)) by done. by destruct (to_map (e_kvs e) !! key).
      * by apply (findChildPage_spec key n es1 e es2).
    + destruct (findChildPage_small key n e0 es Hro Hgt) as [Ho Hc].
      pose proof (ir_leaves _ _ Hi) as Hls. pose proof Hls as [He Hes].
      rewrite (get_child b [] e0 es n key fuel Hi); [| |done|by apply Hro|by exists 0].
      * unfold answer. rewrite (to_map_gt (e_kvs e0)), (to_map_gt (contents (e0 :: es))); [done| |].
        -- by apply (leaves_above _ _ _ _ key Hls).
        -- eapply Forall_impl; [exact (lo_sep _ _ _ _ He)|]. intros q Hq. by apply (klt_le_trans _ (e_sep e0)).
      * apply (below_trans _ _ (e_sep e0) Hgt). by apply He.
Qed.

(** C16: [Get] refines the lookup of the finite map: on every tree in good order,
    and for every key, it returns the value the map has for the key, or the
    error that the key is not found; the tree is unchanged, and the search ends
    after at most two pages. *)
Theorem get_refines b seps flat key fuel :
  tree_rep b seps flat -> (2 <= fuel)%nat -> Get fuel key b = answer key flat b.
Proof. apply get_spec. Qed.

(** ** [put] on one leaf *)

Lemma markDirty_rep hi g n kvs : leaf_rep hi g n kvs -> leaf_rep hi g (markDirty n) kvs.
Proof. intros [H1 H2 H3 H4 H5 H6 H7]. by split. Qed.

Lemma length_sput k v l : (length l <= length (sput k v l) <= S (length l))%nat.
Proof.
  induction l as [|p l IH]; cbn; [lia|]. destruct (bytes_compare k p.1); cbn; lia.
Qed.

Lemma all_ge_sput l h k v : kle h k -> all_ge l h -> all_ge (sput k v l) h.
Proof.
  intros Hk. induction 1 as [|p l Hp Hl IH]; cbn; [by repeat constructor|].
  destruct (bytes_compare k p.1); by repeat constructor.
Qed.

Section put.
Context `{GrowPolicy}.

(** What the search of a leaf, and the insertion when it finds nothing, give. *)
Lemma leaf_put hi g n kvs key v :
  leaf_rep hi g n kvs -> (length kvs <= 8)%nat -> (g <= 5000)%nat -> below hi key ->
  (exists i c, findLeafCell key n = Some (i, c) /\
     leaf_rep hi g (updateLeafCell i v n) (sput key v kvs) /\
     length (sput key v kvs) = length kvs) \/
  (findLeafCell key n = None /\ exists pos n', findInsPointForKey key n = Ok pos /\
     insertLeafCell pos key v n = Ok n' /\ leaf_rep hi g n' (sput key v kvs) /\
     fileOffset n' = fileOffset n /\ length (sput key v kvs) = S (length kvs)).
Proof.
  intros Hr H8 Hg Hb. pose proof Hr as [Hl (cs & Hp & Hkv) Hs _ _ _ Hlen].
  destruct (sorted_cases key kvs Hs) as [(l1 & v0 & l2 & E & H1 & H2)|(l1 & l2 & E & H1 & H2)].
  - left. destruct (findLeafCell_live hi g n kvs l1 key v0 l2 Hr E) as (o & c & Hf & _ & Ho).
    exists o, c. split; [done|]. rewrite E, sput_update by done. split.
    + by apply (updateLeafCell_rep hi g n kvs l1 key v0 l2).
    + by rewrite !length_app.
  - right. split; [by apply (findLeafCell_none hi g n kvs l1 key l2)|].
    rewrite E in *. rewrite sput_fresh by done.
    destruct (insertLeafCell_rep hi g n l1 l2 key v Hr H1 H2 Hb H8) as (n' & Hi & Hr' & Hf & _); [lia|].
    exists (Z.of_nat (length l1)), n'. split; [|split_and!; [done|done|done|]].
    + pose proof (points_keys_at n cs Hl Hp) as Hk. rewrite pair_keys, Hkv, fmap_app in Hk.
      rewrite length_app in H8.
      rewrite (findInsPoint_spec key n (l1.*1) (l2.*1) Hk); rewrite ?length_fmap; [done| | |lia].
      * by apply Forall_fmap.
      * by apply Forall_fmap.
    + rewrite !length_app. cbn. lia.
Qed.

Lemma leaf_noffsets hi g n kvs : leaf_rep hi g n kvs -> noffsets n = Z.of_nat (length kvs).
Proof.
  intros [_ (cs & Hp & <-) _ _ _ _ _]. unfold noffsets, zlen.
  by rewrite (points_length _ _ _ Hp), length_fmap.
Qed.

Lemma leaf_isFull hi g n kvs : leaf_rep hi g n kvs -> isFull n = (9 <=? length kvs)%nat.
Proof.
  intros Hr. unfold isFull. rewrite (lr_leaf _ _ _ _ Hr), (leaf_noffsets _ _ _ _ Hr).
  unfold maxLeafNodeCells. destruct (Nat.leb_spec 9 (length kvs)); [by apply Z.leb_le; lia|by apply Z.leb_gt; lia].
Qed.

(** A full leaf in halves. *)
Lemma nine_split (l : pair_list) :
  length l = 9%nat -> exists l1 k v l2, l = l1 ++ (k, v) :: l2 /\ length l1 = 4%nat /\ length l2 = 4%nat.
Proof.
  intros H9. exists (take 4 l). destruct (drop 4 l) as [|[k v] l2] eqn:E.
  - apply (f_equal length) in E. rewrite length_drop in E. cbn in E. lia.
  - exists k, v, l2. split; [by rewrite <- E, take_drop|].
    apply (f_equal length) in E. rewrite length_drop in E. cbn in E. rewrite length_take. lia.
Qed.

(** The root leaf that an insertion fills up, in halves. *)
Lemma split_after_insert hi g n kvs :
  leaf_rep hi g n kvs -> length kvs = 9%nat ->
  exists n' newpg k l1 l2, kvs = l1 ++ l2 /\ split n emptyNode = Ok (n', newpg, k) /\
    leaf_rep (Some k) (g + 5) n' l1 /\ leaf_rep hi 0 newpg l2 /\ length l1 = 4%nat /\ length l2 = 5%nat /\
    fileOffset n' = fileOffset n /\ all_ge l2 k.
Proof.
  intros Hr H9. destruct (nine_split kvs H9) as (l1 & k & v & l2 & -> & L1 & L2).
  destruct (split_rep hi g n l1 k v l2 Hr L1 L2) as (n' & newpg & Hs & R1 & R2 & Hf & _).
  exists n', newpg, k, l1, ((k, v) :: l2). split_and!; try done; [cbn; lia|].
  pose proof (lr_sorted _ _ _ _ R2) as Hss. inversion_clear Hss as [|? ? _ Hall].
  constructor; [apply kle_refl|]. eapply Forall_impl; [exact Hall|]. intros q Hq. by apply klt_kle.
Qed.

End put.

(** ** Changing one leaf of the tree *)

Lemma set_page_lookup k n b j :
  pages (set_page k n b) !! j = if decide (k = j) then Some n else pages b !! j.
Proof. unfold set_page, pages. cbn. rewrite lookup_insert. done. Qed.

Lemma store_set_page k n n0 b m : pages b !! k = Some n0 -> store_ok b m -> store_ok (set_page k n b) m.
Proof.
  intros Hk [H1 H2]. split; [|done]. intros j pg. rewrite set_page_lookup. cbn.
  case_decide; [|apply H1]. intros _. subst. by eapply H1.
Qed.

Lemma internal_set b es1 e es2 n kvs :
  internal_rep b (es1 ++ e :: es2) ->
  leaf_rep (hd_hi es2 None) (garbage (es1 ++ e :: es2)) n kvs -> fileOffset n = e_off e ->
  (4 <= length kvs <= 8)%nat -> all_ge kvs (e_sep e) ->
  internal_rep (set_page (e_off e) n b) (es1 ++ mkEntry (e_sep e) (e_off e) kvs :: es2).
Proof.
  intros [(rn & Hrn & Hro) Hls Hnd Hlen Hst] Hr Hf H8 Hge.
  pose proof Hnd as [Hroot Hoffs]%NoDup_cons. rewrite fmap_app in Hroot, Hoffs. cbn in Hroot, Hoffs.
  rewrite length_app in Hlen. cbn in Hlen.
  pose proof Hls as Hls'. apply leaves_app in Hls' as [Hl1 [He Hl2]].
  assert (e_off e <> root b) as Hne.
  { intros E. apply Hroot. rewrite E. apply elem_of_app. right. by left. }
  apply NoDup_app in Hoffs as (Hn1 & Hd & Hn2). apply NoDup_cons in Hn2 as [Hn2 _].
  assert (garbage (es1 ++ mkEntry (e_sep e) (e_off e) kvs :: es2) = garbage (es1 ++ e :: es2)) as Eg
    by (unfold garbage; rewrite !length_app; done).
  split.
  - exists rn. rewrite set_page_lookup. case_decide; [done|]. split; [done|].
    destruct Hro as [R1 R2 R3 R4]. rewrite fmap_app in R2. rewrite length_app in R4.
    split; [done|by rewrite fmap_app|done|by rewrite length_app].
  - rewrite Eg. apply leaves_app. cbn. split.
    + apply (leaves_frame (pages b) _ (garbage (es1 ++ e :: es2))); [done| |exact Hl1].
      intros e' Hin. rewrite set_page_lookup. case_decide as Hc; [|done]. exfalso.
      apply (Hd (e_off e)); [rewrite Hc; by apply list_elem_of_fmap_2|by left].
    + split.
      * destruct He as [_ _ _ Hhi]. split; cbn; try done. exists n. split; [|done].
        rewrite set_page_lookup. by rewrite decide_True.
      * apply (leaves_frame (pages b) _ (garbage (es1 ++ e :: es2))); [done| |exact Hl2].
        intros e' Hin. rewrite set_page_lookup. case_decide as Hc; [|done]. exfalso.
        apply Hn2. rewrite Hc. by apply list_elem_of_fmap_2.
  - rewrite fmap_app in *. done.
  - rewrite length_app. cbn. lia.
  - destruct He as [(n0 & Hp & _) _ _ _].
    replace (length (es1 ++ mkEntry (e_sep e) (e_off e) kvs :: es2)) with (length (es1 ++ e :: es2))
      by (by rewrite !length_app). by apply (store_set_page _ _ n0).
Qed.

(** ** Splitting one leaf of the tree *)

Lemma garbage_split es1 e e1 e2 es2 :
  (1 <= length (es1 ++ e :: es2))%nat ->
  garbage (es1 ++ e1 :: e2 :: es2) = (garbage (es1 ++ e :: es2) + 5)%nat.
Proof. unfold garbage. rewrite !length_app. cbn. lia. Qed.

Section split.
Context (b b' : BTree) (es1 es2 : list entry) (e : entry) (n newpg rn : Node).
Context (l1 l2 : pair_list) (k : bytes).
Let es := es1 ++ e :: es2.
Let off := nextFreeOffset (fs b).
Let e1 := mkEntry (e_sep e) (e_off e) l1.
Let e2 := mkEntry k off l2.
Context (Hi : internal_rep b es) (Hroom : (length es < 290)%nat).
Context (Rn : leaf_rep (Some k) (garbage es + 5) n l1) (Rnew : leaf_rep (hd_hi es2 None) 0 newpg l2).
Context (Fn : fileOffset n = e_off e) (Fnew : fileOffset newpg = off).
Context (L1 : length l1 = 4%nat) (L2 : length l2 = 5%nat).
Context (G1 : all_ge l1 (e_sep e)) (G2 : all_ge l2 k) (Hk : klt (e_sep e) k) (Hkhi : below (hd_hi es2 None) k).
Context (Rroot : root_ok rn (es1 ++ e1 :: e2 :: es2)).
Context (Eroot : root b' = root b) (Pn : pages b' !! e_off e = Some n) (Pnew : pages b' !! off = Some newpg).
Context (Prn : pages b' !! root b = Some rn).
Context (Pother : forall j, j <> e_off e -> j <> off -> j <> root b -> pages b' !! j = pages b !! j).
Context (Enext : nextFreeOffset (fs b') = off + pageSize).

Lemma new_offset j pg : pages b !! j = Some pg -> j <> off.
Proof using All. intros Hj. destruct (ir_store _ _ Hi) as [Hs _]. apply Hs in Hj. unfold off. lia. Qed.

Lemma entry_page e' : e' ∈ es -> exists pg, pages b !! e_off e' = Some pg.
Proof using All.
  intros (es1' & es2' & E)%list_elem_of_split. unfold es in Hi. fold es in Hi. rewrite E in Hi.
  destruct (internal_entry _ _ _ _ Hi) as (pg & Hp & _). by exists pg.
Qed.

Lemma other_leaves es' hi g :
  (forall e', e' ∈ es' -> e' ∈ es /\ e_off e' <> e_off e /\ e_off e' <> root b) ->
  (g <= garbage (es1 ++ e1 :: e2 :: es2))%nat ->
  leaves (pages b) g es' hi -> leaves (pages b') (garbage (es1 ++ e1 :: e2 :: es2)) es' hi.
Proof using All.
  intros Hin Hg. apply leaves_frame; [done|]. intros e' He'. destruct (Hin e' He') as (H1 & H2 & H3).
  apply Pother; [done| |done]. destruct (entry_page e' H1) as (pg & Hp). by eapply new_offset.
Qed.

Lemma old_offset e' : e' ∈ es -> e_off e' <> off.
Proof using All. intros He'. destruct (entry_page e' He') as (pg & Hp). by eapply new_offset. Qed.

Lemma offsets_differ :
  root b ∉ (e_off <$> es) /\ NoDup (e_off <$> es1) /\ NoDup (e_off <$> es2) /\
  (forall j, j ∈ e_off <$> es1 -> j ∉ e_off e :: (e_off <$> es2)) /\ e_off e ∉ (e_off <$> es2).
Proof using All.
  pose proof (ir_nodup _ _ Hi) as [Hroot Hoffs]%NoDup_cons. unfold es in Hoffs. rewrite fmap_app in Hoffs.
  apply NoDup_app in Hoffs as (Hn1 & Hd & Hn2). apply NoDup_cons in Hn2 as [Hn2e Hn2]. by split_and!.
Qed.

Lemma other_entry e' : e' ∈ es1 \/ e' ∈ es2 -> e' ∈ es /\ e_off e' <> e_off e /\ e_off e' <> root b.
Proof using All.
  destruct offsets_differ as (Hroot & _ & _ & Hd & Hn2e). intros He'.
  assert (e' ∈ es) as Hin.
  { apply elem_of_app. destruct He'; [by left|right; by right]. }
  split_and!; [done| |].
  - intros E. destruct He' as [He'|He']; apply (list_elem_of_fmap_2 e_off) in He'.
    + apply (Hd _ He'). rewrite E. by left.
    + by rewrite E in He'.
  - intros E. apply Hroot. rewrite <- E. by apply list_elem_of_fmap_2.
Qed.

Lemma split_nodup : NoDup (root b :: (e_off <$> es1 ++ e1 :: e2 :: es2)).
Proof using All.
  destruct offsets_differ as (Hroot & Hn1 & Hn2 & Hd & Hn2e).
  destruct (ir_root _ _ Hi) as (rn0 & Hrn0 & _). unfold es in Hroot. rewrite fmap_app in *. cbn in *.
  apply NoDup_cons. split.
  - rewrite elem_of_app, !elem_of_cons in *. intros [Hx|[Hx|[Hx|Hx]]]; [tauto|tauto| |tauto].
    by eapply new_offset in Hrn0.
  - apply NoDup_app. split_and!; [done| |].
    + intros j Hj1. rewrite !elem_of_cons. specialize (Hd j Hj1). rewrite elem_of_cons in Hd.
      intros [->|[->|Hj2]]; [tauto| |tauto].
      apply list_elem_of_fmap in Hj1 as (e' & E & He'). by apply (old_offset e' (proj1 (other_entry e' (or_introl He')))).
    + apply NoDup_cons. split; [|apply NoDup_cons; split; [|done]].
      * rewrite elem_of_cons. intros [E|E]; [|done]. apply (old_offset e); [apply elem_of_app; right; by left|done].
      * intros Hj. apply list_elem_of_fmap in Hj as (e' & E & He').
        by apply (old_offset e' (proj1 (other_entry e' (or_intror He')))).
Qed.

Lemma split_store : store_ok b' (length (es1 ++ e1 :: e2 :: es2) + 1).
Proof using All.
  pose proof (ir_store _ _ Hi) as [Hs1 Hs2]. split.
  - intros j pg Hj. rewrite Enext. unfold off, pageSize.
    destruct (decide (j = off)) as [->|Hjo]; [unfold off in *; lia|].
    assert (exists pg0, pages b !! j = Some pg0) as [pg0 Hpg0].
    { destruct (decide (j = e_off e)) as [->|]; [apply (entry_page e); apply elem_of_app; right; by left|].
      destruct (decide (j = root b)) as [->|]; [destruct (ir_root _ _ Hi) as (rn0 & ? & _); by eexists|].
      rewrite Pother in Hj by done. by eexists. }
    apply Hs1 in Hpg0. lia.
  - rewrite Enext. fold off in Hs2. unfold es in Hs2. rewrite length_app in *. cbn [length] in *.
    unfold pageSize in *. lia.
Qed.

Lemma internal_split : internal_rep b' (es1 ++ e1 :: e2 :: es2).
Proof using All.
  pose proof Hi as [_ Hls _ Hlen _]. unfold es in Hls, Hlen.
  assert (Eg : garbage (es1 ++ e1 :: e2 :: es2) = (garbage es + 5)%nat).
  { apply (garbage_split es1 e e1 e2 es2). lia. }
  apply leaves_app in Hls as [Hl1 [_ Hl2]]. fold es in Hl1, Hl2. cbn in Hl1. split.
  - exists rn. by rewrite Eroot.
  - apply leaves_app. cbn. split; [|split; [|split]].
    + apply (other_leaves es1 _ (garbage es)); [intros; apply other_entry; by left|lia|done].
    + split; cbn; [|lia|done|done]. exists n. split_and!; [done|done|]. by rewrite Eg.
    + split; cbn; [|lia|done|done]. exists newpg. split_and!; [done|done|].
      apply (leaf_rep_mono _ 0); [lia|done].
    + apply (other_leaves es2 _ (garbage es)); [intros; apply other_entry; by right|lia|done].
  - rewrite Eroot. apply split_nodup.
  - unfold es in Hroom. rewrite length_app in *. cbn in *. lia.
  - apply split_store.
Qed.

End split.

Lemma add_spec pg b m :
  store_ok b m -> (m <= 1000)%nat ->
  let off := nextFreeOffset (fs b) in
  let pg' := setFileOffsetForNode off pg in
  fst (add pg b) = pg' /\ root (snd (add pg b)) = root b /\
  nextFreeOffset (fs (snd (add pg b))) = off + pageSize /\
  forall j, pages (snd (add pg b)) !! j = if decide (off = j) then Some pg' else pages b !! j.
Proof.
  intros [_ Hs] Hm off pg'. unfold pageSize in *. split_and!; [done|done| |].
  - cbn. unfold u64. rewrite Z.mod_small; [done|]. unfold pageSize. fold off. lia.
  - intros j. unfold add, pages, cache_add. cbn. fold off. rewrite i64_id by lia.
    by rewrite lookup_insert.
Qed.

Lemma between_halves hi g g' n newpg l1 l2 k h :
  leaf_rep (Some k) g n l1 -> leaf_rep hi g' newpg l2 -> l1 <> [] -> l2 <> [] ->
  all_ge l1 h -> all_ge l2 k -> klt h k /\ below hi k.
Proof.
  intros R1 R2 H1 H2 G1 G2. destruct l1 as [|p1 l1]; [done|]. destruct l2 as [|p2 l2]; [done|].
  pose proof (lr_below _ _ _ _ R1) as [B1 _]%Forall_cons. pose proof (lr_below _ _ _ _ R2) as [B2 _]%Forall_cons.
  apply Forall_cons in G1 as [G1 _]. apply Forall_cons in G2 as [G2 _]. split.
  - by apply (kle_lt_trans _ p1.1).
  - destruct hi; [|done]. by apply (kle_lt_trans _ p2.1).
Qed.

Section put_child.
Context `{GrowPolicy}.

Definition same_head (es es' : list entry) : Prop := e_sep <$> head es' = e_sep <$> head es.

Lemma same_head_middle es1 e1 e2 r1 r2 : e_sep e1 = e_sep e2 -> same_head (es1 ++ e1 :: r1) (es1 ++ e2 :: r2).
Proof. intros E. unfold same_head. destruct es1; cbn; [by rewrite E|done]. Qed.

Lemma keys_between b es1 e es2 k :
  internal_rep b (es1 ++ e :: es2) -> klt (e_sep e) k -> below (hd_hi es2 None) k ->
  Forall (fun x => klt x k) (e_sep <$> es1 ++ [e]) /\ Forall (fun x => klt k x) (e_sep <$> es2).
Proof.
  intros Hi Hk Hb. pose proof (ir_leaves _ _ Hi) as Hl. apply leaves_app in Hl as [Hl1 [He Hl2]].
  cbn in Hl1. split; apply Forall_fmap.
  - apply Forall_app. split; [|by constructor]. apply leaves_below in Hl1 as [_ Hl1].
    eapply Forall_impl; [exact Hl1|]. intros x Hx. cbn. by apply (klt_trans _ (e_sep e)).
  - by apply (leaves_above _ _ _ _ _ Hl2).
Qed.

(** The parent takes the separator of the new page after the entry it came from. *)
Lemma link_child p rn es1 e es2 n newpg k l1 l2 b :
  pages b !! p = Some rn -> root_ok rn (es1 ++ e :: es2) -> (length (es1 ++ e :: es2) < 290)%nat ->
  Forall (fun x => klt x k) (e_sep <$> es1 ++ [e]) -> Forall (fun x => klt k x) (e_sep <$> es2) ->
  exists rn', linkNewPage (Some p) n newpg k b = Ok (set_page p rn' b) /\
    root_ok rn' (es1 ++ mkEntry (e_sep e) (e_off e) l1 :: mkEntry k (fileOffset newpg) l2 :: es2).
Proof.
  intros Hrn Hro Hlen K1 K2. pose proof (root_keys _ _ Hro) as Hkeys.
  replace (es1 ++ e :: es2) with ((es1 ++ [e]) ++ es2) in Hkeys, Hro, Hlen by (by rewrite <- app_assoc).
  rewrite fmap_app in Hkeys. rewrite !length_app in Hlen. cbn in Hlen.
  destruct (addSeparator_spec rn (es1 ++ [e]) es2 (mkEntry k (fileOffset newpg) l2)) as (rn' & Hadd & Hro' & _);
    [done|by destruct es1|rewrite !length_app; cbn [length]; lia|].
  exists rn'. split.
  - unfold linkNewPage, page. rewrite Hrn. cbn [deref mbind outcome_bind].
    rewrite (findInsPoint_spec k rn _ _ Hkeys K1 K2) by (rewrite !length_fmap, length_app; cbn [length]; lia).
    cbn [mbind outcome_bind]. rewrite length_fmap. cbn [e_off e_sep] in Hadd. by rewrite Hadd.
  - rewrite <- app_assoc in Hro'. destruct Hro' as [Q1 Q2 Q3 Q4]. rewrite fmap_app in Q2.
    rewrite length_app in Q4. split; [done| |done|by rewrite length_app]. by rewrite fmap_app.
Qed.

(** A full leaf of an internal tree is split under the root. *)
Lemma splitLeaf_child b es1 e es2 n l :
  internal_rep b (es1 ++ e :: es2) -> (length (es1 ++ e :: es2) < 290)%nat ->
  leaf_rep (hd_hi es2 None) (garbage (es1 ++ e :: es2)) n l -> length l = 9%nat ->
  fileOffset n = e_off e -> all_ge l (e_sep e) ->
  exists b' es', splitLeaf (Some (root b)) (e_off e) n (set_page (e_off e) n b) = Ok b' /\
    internal_rep b' es' /\ root b' = root b /\ same_head (es1 ++ e :: es2) es' /\
    contents es' = contents es1 ++ l ++ contents es2.
Proof.
  intros Hi Hroom Hr H9 Hf Hge. destruct (internal_entry _ _ _ _ Hi) as (n0 & Hp & _).
  destruct (split_after_insert _ _ _ _ Hr H9) as (n2 & newpg & k & l1 & l2 & El & Es & R1 & R2 & L1 & L2 & Hf2 & G2).
  unfold splitLeaf. rewrite Es. cbn [mbind outcome_bind]. rewrite El in Hge. apply Forall_app in Hge as [G1 _].
  destruct (between_halves _ _ _ _ _ _ _ _ _ R1 R2 ltac:(by destruct l1) ltac:(by destruct l2) G1 G2) as [Hk Hkhi].
  set (b2 := set_page (e_off e) n2 (set_page (e_off e) n b)).
  assert (Hst2 : store_ok b2 (length (es1 ++ e :: es2) + 1)).
  { apply (store_set_page _ _ n); [by rewrite set_page_lookup, decide_True|].
    apply (store_set_page _ _ n0); [done|]. apply Hi. }
  destruct (add_spec newpg b2 _ Hst2 ltac:(lia)) as (A1 & A2 & A3 & A4).
  destruct (add newpg b2) as [newpg' b3]. cbn [fst snd] in *. subst newpg'.
  set (off := nextFreeOffset (fs b)) in *. change (nextFreeOffset (fs b2)) with off in *.
  destruct (ir_root _ _ Hi) as (rn & Hrn & Hro).
  assert (Hroot_e : e_off e <> root b).
  { pose proof (ir_nodup _ _ Hi) as [Hnr _]%NoDup_cons. intros E. apply Hnr. rewrite <- E, fmap_app.
    apply elem_of_app. right. by left. }
  assert (Hnew : forall j pg, pages b !! j = Some pg -> off <> j).
  { intros j pg Hj. destruct (ir_store _ _ Hi) as [Hs _]. apply Hs in Hj. unfold off. lia. }
  assert (Hp3 : forall j, pages b3 !! j = if decide (off = j) then Some (setFileOffsetForNode off newpg)
    else if decide (e_off e = j) then Some n2 else pages b !! j).
  { intros j. rewrite A4. unfold b2. rewrite !set_page_lookup. by repeat case_decide. }
  destruct (keys_between b es1 e es2 k Hi Hk Hkhi) as [K1 K2].
  destruct (link_child (root b) rn es1 e es2 n2 (setFileOffsetForNode off newpg) k l1 l2 b3) as (rn' & -> & Hro');
    [by rewrite Hp3, !decide_False by (done || by eapply Hnew)|done..|].
  cbn [mbind outcome_bind]. unfold page. rewrite set_page_lookup, decide_False, Hp3, decide_False, decide_True
    by (done || by eapply Hnew). cbn [deref mbind outcome_bind].
  eexists _, (es1 ++ mkEntry (e_sep e) (e_off e) l1 :: mkEntry k off l2 :: es2). split; [done|].
  split; [|split; [exact A2|split; [by apply same_head_middle|]]].
  - eapply (internal_split b _ es1 es2 e (markDirty n2) (setFileOffsetForNode off newpg) rn' l1 l2 k); try done.
    + by apply markDirty_rep.
    + destruct R2 as [Q1 Q2 Q3 Q4 Q5 Q6 Q7]. by split.
    + cbn. by rewrite Hf2.
    + by rewrite set_page_lookup, decide_True.
    + rewrite !set_page_lookup, Hp3, !decide_False by (apply not_eq_sym; by eapply Hnew). by rewrite decide_True.
    + by rewrite !set_page_lookup, decide_False, decide_True.
    + intros j J1 J2 J3. by rewrite !set_page_lookup, Hp3, !decide_False.
  - rewrite contents_app. unfold contents at 2. cbn. by rewrite El, <- !app_assoc.
Qed.

(** [insertLeaf] on the leaf of an internal tree that the key belongs to. *)
Lemma insertLeaf_child b es1 e es2 key v :
  internal_rep b (es1 ++ e :: es2) -> (length (es1 ++ e :: es2) < 290)%nat ->
  kle (e_sep e) key -> below (hd_hi es2 None) key ->
  exists b' es', insertLeaf (Some (root b)) (e_off e) key v b = Ok b' /\
    internal_rep b' es' /\ root b' = root b /\ same_head (es1 ++ e :: es2) es' /\
    contents es' = contents es1 ++ sput key v (e_kvs e) ++ contents es2.
Proof.
  intros Hi Hroom Hle Hb.
  destruct (internal_entry _ _ _ _ Hi) as (n & Hp & Hf & Hr & Hoff & Hrange & H8).
  pose proof (ir_leaves _ _ Hi) as Hls. apply leaves_app in Hls as [_ [He _]].
  assert (all_ge (sput key v (e_kvs e)) (e_sep e)) as Hge by (apply all_ge_sput; [done|apply He]).
  assert (garbage (es1 ++ e :: es2) <= 5000)%nat as Hg by (unfold garbage; lia).
  assert (Hset : forall n', leaf_rep (hd_hi es2 None) (garbage (es1 ++ e :: es2)) n' (sput key v (e_kvs e)) ->
      fileOffset n' = e_off e -> (length (sput key v (e_kvs e)) <= 8)%nat -> (4 <= length (sput key v (e_kvs e)))%nat ->
    exists b' es', Ok (set_page (e_off e) n' b) = Ok b' /\
      internal_rep b' es' /\ root b' = root b /\ same_head (es1 ++ e :: es2) es' /\
      contents es' = contents es1 ++ sput key v (e_kvs e) ++ contents es2).
  { intros n' R' F' H8' H4'. eexists _, (es1 ++ mkEntry (e_sep e) (e_off e) (sput key v (e_kvs e)) :: es2).
    split; [done|]. split; [|split; [done|split; [by apply same_head_middle|apply contents_middle]]].
    by apply internal_set. }
  unfold insertLeaf, page. rewrite Hp. cbn [deref mbind outcome_bind].
  destruct (leaf_put _ _ n (e_kvs e) key v Hr ltac:(lia) Hg Hb)
    as [(i & c & -> & Hr' & Hlen)|(-> & pos & n1 & -> & E1 & Hr1 & Hf1 & Hlen)].
  { apply Hset; [by apply markDirty_rep|done|lia|lia]. }
  cbn [mbind outcome_bind]. rewrite E1. cbn [mbind outcome_bind]. apply markDirty_rep in Hr1.
  rewrite (leaf_isFull _ _ _ _ Hr1), Hlen.
  destruct (Nat.leb_spec 9 (S (length (e_kvs e)))) as [H9|H9]; cbn [negb].
  - apply splitLeaf_child; [done|done|done|lia|exact (eq_trans Hf1 Hf)|done].
  - apply Hset; [done|exact (eq_trans Hf1 Hf)|lia|lia].
Qed.

End put_child.

(** ** [put] *)

Section put_tree.
Context `{GrowPolicy}.

Lemma contents_sput b es1 e es2 key v :
  internal_rep b (es1 ++ e :: es2) -> kle (e_sep e) key ->
  match hd_hi es2 None with Some h => klt key h | None => True end ->
  contents es1 ++ sput key v (e_kvs e) ++ contents es2 = sput key v (contents (es1 ++ e :: es2)).
Proof.
  intros Hi Hle Hh. destruct (internal_sides _ _ _ _ key Hi Hle Hh) as (H1 & H2 & _).
  rewrite contents_middle, sput_app_r, sput_app_l by done. done.
Qed.

Lemma internal_not_full b es n :
  internal_rep b es -> pages b !! root b = Some n -> isFull n = false.
Proof.
  intros Hi Hn. destruct (ir_root _ _ Hi) as (n' & Hn' & Hro). assert (n' = n) as -> by congruence.
  unfold isFull, noffsets, zlen, maxInternalNodeCells. rewrite (ro_internal _ _ Hro), (ro_noffsets _ _ Hro).
  apply Z.ltb_ge. pose proof (ir_len _ _ Hi). lia.
Qed.

Lemma insertInternal_spec b e0 es key v fuel :
  internal_rep b (e0 :: es) -> (length (e0 :: es) < 290)%nat -> kle (e_sep e0) key ->
  exists b' es', insertInternal (S fuel) None (root b) key v b = Ok b' /\
    internal_rep b' es' /\ root b' = root b /\ same_head (e0 :: es) es' /\
    contents es' = sput key v (contents (e0 :: es)).
Proof.
  intros Hi Hroom Hle. destruct (route_split key e0 es Hle) as (es1 & e & es2 & E & Hf & Hh). rewrite E in *.
  apply Forall_app in Hf as Hfe. destruct Hfe as [_ [Hfe _]%Forall_cons].
  destruct (internal_sides _ _ _ _ key Hi Hfe Hh) as (_ & _ & Hb).
  destruct (ir_root _ _ Hi) as (rn & Hrn & Hro).
  destruct (findChildPage_spec key rn es1 e es2 Hro Hf Hh) as (o & Ho & Hc).
  destruct (internal_entry _ _ _ _ Hi) as (n & Hp & _ & Hr & Hoff & _).
  destruct (insertLeaf_child b es1 e es2 key v Hi Hroom Hfe Hb) as (b' & es' & Hins & Hi' & Er & Hsh & Ec).
  exists b', es'. cbn [insertInternal]. unfold page. rewrite Hrn. cbn [deref mbind outcome_bind].
  rewrite Ho. cbn [mbind outcome_bind]. rewrite Hc. cbn [mbind outcome_bind ic_fileOffset entry_cell].
  rewrite Hoff, Hp. cbn [deref mbind outcome_bind]. rewrite (lr_leaf _ _ _ _ Hr), Hins.
  cbn [mbind outcome_bind]. destruct (ir_root _ _ Hi') as (rn' & Hrn' & _). rewrite <- Er, Hrn'.
  cbn [deref mbind outcome_bind]. rewrite (internal_not_full b' es' rn' Hi' Hrn'). cbn [negb].
  split; [done|]. split; [done|]. split; [done|]. split; [done|].
  rewrite Ec. by apply (contents_sput b).
Qed.

(** Two leaves under a root. *)
Lemma two_leaves b rn n1 n2 e1 e2 :
  pages b !! root b = Some rn -> root_ok rn [e1; e2] ->
  pages b !! e_off e1 = Some n1 -> fileOffset n1 = e_off e1 -> leaf_rep (Some (e_sep e2)) 5 n1 (e_kvs e1) ->
  pages b !! e_off e2 = Some n2 -> fileOffset n2 = e_off e2 -> leaf_rep None 0 n2 (e_kvs e2) ->
  (4 <= length (e_kvs e1) <= 8)%nat -> (4 <= length (e_kvs e2) <= 8)%nat ->
  all_ge (e_kvs e1) (e_sep e1) -> all_ge (e_kvs e2) (e_sep e2) -> klt (e_sep e1) (e_sep e2) ->
  e_off e1 <> root b -> e_off e2 <> root b -> e_off e1 <> e_off e2 -> store_ok b 3 ->
  internal_rep b [e1; e2].
Proof.
  intros Hrn Hro P1 F1 R1 P2 F2 R2 L1 L2 G1 G2 Hlt N1 N2 N3 Hst. split.
  - by exists rn.
  - cbn. split; [|split; [|done]].
    + split; [|done..]. by exists n1.
    + split; [|done..]. exists n2. split_and!; [done|done|]. apply (leaf_rep_mono _ 0); [lia|done].
  - cbn. apply NoDup_cons. split; [|apply NoDup_cons; split; [|apply NoDup_singleton]].
    + rewrite !elem_of_cons. intros [?|[?|Hx]]; [congruence|congruence|by apply not_elem_of_nil in Hx].
    + by rewrite list_elem_of_singleton.
  - cbn. lia.
  - done.
Qed.

Lemma all_ge_head l k v l' : sorted l -> l = (k, v) :: l' -> all_ge l k.
Proof.
  intros Hs ->. inversion_clear Hs as [|? ? _ Hall]. constructor; [apply kle_refl|].
  eapply Forall_impl; [exact Hall|]. intros q Hq. by apply klt_kle.
Qed.

(** The pages and offsets after two additions. *)
Lemma add_twice b pg1 pg2 :
  store_ok b 1 ->
  let off := nextFreeOffset (fs b) in
  let b1 := snd (add pg1 b) in
  let b2 := snd (add pg2 b1) in
  store_ok b2 3 /\ i64 (off + pageSize) = off + pageSize /\ nextFreeOffset (fs b1) = off + pageSize /\
  forall j, pages b2 !! j =
    if decide (off + pageSize = j) then Some (setFileOffsetForNode (off + pageSize) pg2)
    else if decide (off = j) then Some (setFileOffsetForNode off pg1) else pages b !! j.
Proof.
  intros Hst off b1 b2. destruct (add_spec pg1 b 1 Hst ltac:(lia)) as (_ & _ & A3 & A4).
  fold off b1 in A3, A4. pose proof Hst as [Hs Hoff]. fold off in Hs, Hoff. unfold pageSize in *.
  assert (Hst1 : store_ok b1 2).
  { split; [|rewrite A3; unfold pageSize; lia]. intros j pg. rewrite A3, A4.
    case_decide; [intros _; lia|]. intros Hj%Hs. lia. }
  destruct (add_spec pg2 b1 2 Hst1 ltac:(lia)) as (_ & _ & B3 & B4).
  fold b2 in B3, B4. rewrite A3 in B3, B4. unfold pageSize in *.
  assert (Hpages : forall j, pages b2 !! j =
    if decide (off + 4096 = j) then Some (setFileOffsetForNode (off + 4096) pg2)
    else if decide (off = j) then Some (setFileOffsetForNode off pg1) else pages b !! j).
  { intros j. rewrite B4. case_decide; [done|]. apply A4. }
  split_and!; [|apply i64_id; lia|done|done]. split; [|rewrite B3; unfold pageSize; lia].
  intros j pg. rewrite Hpages, B3. case_decide; [intros _; lia|].
  case_decide; [intros _; lia|]. intros Hj%Hs. lia.
Qed.

(** A full root leaf gets a parent. *)
Lemma splitLeaf_root b n0 n l :
  pages b !! root b = Some n0 -> store_ok b 1 -> fileOffset n = root b ->
  leaf_rep None 0 n l -> length l = 9%nat ->
  exists b' s1 s2, splitLeaf None (root b) n (set_page (root b) n b) = Ok b' /\
    tree_rep b' [s1; s2] l /\ fst <$> head l = Some s1.
Proof.
  intros Hn0 Hst Hf Hr H9.
  destruct (split_after_insert _ _ _ _ Hr H9) as (n2 & newpg & k & l1 & l2 & El & Es & R1 & R2 & L1 & L2 & Hf2 & G2).
  unfold splitLeaf. rewrite Es. cbn [mbind outcome_bind]. destruct l1 as [|[k1 v1] l1]; [done|].
  destruct (leaf_cell_of (Some k) _ n2 _ 0%nat _ R1 eq_refl) as (o & c & Ho & Hc & Ecp). injection Ecp as Ek1 _.
  pose proof (all_ge_head _ _ _ _ (lr_sorted _ _ _ _ R1) eq_refl) as G1.
  destruct (between_halves _ _ _ _ _ _ _ _ _ R1 R2 ltac:(done) ltac:(by destruct l2) G1 G2) as [Hk _].
  set (b1 := set_page (root b) n2 (set_page (root b) n b)).
  assert (Hst1 : store_ok b1 1).
  { apply (store_set_page _ _ n); [by rewrite set_page_lookup, decide_True|]. by apply (store_set_page _ _ n0). }
  set (off := nextFreeOffset (fs b)).
  assert (Hroot : 0 <= root b < off) by (destruct Hst as [Hs _]; by eapply Hs).
  change (add newpg b1) with (setFileOffsetForNode off newpg, snd (add newpg b1)). cbv iota beta.
  unfold linkNewPage. rewrite (index_Some _ 0 _ Ho : index _ 0 = _). cbn [mbind outcome_bind].
  rewrite (index_Some _ _ _ Hc). cbn [mbind outcome_bind]. set (pp := appendInternalCell _ k _).
  destruct (add_twice b1 newpg pp Hst1) as (T1 & T2 & T3 & T4).
  change (nextFreeOffset (fs b1)) with off in T2, T3, T4.
  unfold setRootPage. set (b2 := snd (add newpg b1)) in *.
  change (add pp b2) with (setFileOffsetForNode (nextFreeOffset (fs b2)) pp, snd (add pp b2)). cbv iota beta.
  rewrite T3. cbn [fileOffset setFileOffsetForNode]. rewrite T2. set (b3 := snd (add pp b2)) in *.
  set (b4 := mkBTree (fs b3) (off + pageSize) (off + pageSize) (bt_meta b3)).
  assert (Hb4 : forall j, pages b4 !! j = pages b3 !! j) by done.
  assert (Hcur : pages b4 !! root b = Some n2).
  { rewrite Hb4, T4. unfold pageSize. rewrite !decide_False by lia. unfold b1. by rewrite set_page_lookup, decide_True. }
  unfold page. rewrite Hcur. cbn [deref mbind outcome_bind].
  eexists _, k1, k. split; [done|]. split; [|by rewrite El].
  right. exists [mkEntry k1 (root b) ((k1, v1) :: l1); mkEntry k off l2].
  split; [|split; [done|unfold contents; cbn; by rewrite El, app_nil_r]].
  assert (Er : root (set_page (root b) (markDirty n2) b4) = off + pageSize) by done.
  apply (two_leaves _ (setFileOffsetForNode (off + pageSize) pp) (markDirty n2) (setFileOffsetForNode off newpg));
    rewrite ?Er; cbn [e_off e_sep e_kvs]; try (done || (unfold pageSize; lia) || lia).
  - rewrite set_page_lookup, Hb4, T4. unfold pageSize. rewrite decide_False by lia. by rewrite decide_True.
  - unfold pp. rewrite Hf2, Hf, Ek1. cbn [fileOffset setFileOffsetForNode].
    destruct (first_root_ok (root b) k1 off k ((k1, v1) :: l1) l2) as [Q1 Q2 Q3 Q4]. by split.
  - by rewrite set_page_lookup, decide_True.
  - cbn. by rewrite Hf2.
  - by apply markDirty_rep.
  - rewrite set_page_lookup, Hb4, T4. unfold pageSize. rewrite !decide_False by lia. by rewrite decide_True.
  - destruct R2 as [Q1 Q2 Q3 Q4 Q5 Q6 Q7]. by split.
  - by apply (store_set_page _ _ n2).
Qed.

Lemma insertLeaf_root b flat key v :
  leaf_root_rep b flat ->
  exists b' seps', insertLeaf None (root b) key v b = Ok b' /\ tree_rep b' seps' (sput key v flat) /\
    (seps' = [] \/ (length seps' = 2%nat /\ head seps' = fst <$> head (sput key v flat))).
Proof.
  intros [(n & Hn & Hr & Hf) H8 Hst]. unfold insertLeaf, page. rewrite Hn. cbn [deref mbind outcome_bind].
  assert (Hset : forall n', leaf_rep None 0 n' (sput key v flat) -> fileOffset n' = root b ->
      (length (sput key v flat) <= 8)%nat ->
    exists b' seps', Ok (set_page (root b) n' b) = Ok b' /\ tree_rep b' seps' (sput key v flat) /\
      (seps' = [] \/ (length seps' = 2%nat /\ head seps' = fst <$> head (sput key v flat)))).
  { intros n' R' F' H'. eexists _, []. split; [done|]. split; [|by left]. left. split; [done|].
    split; [|done|by apply (store_set_page _ _ n)]. eexists. by rewrite set_page_lookup, decide_True. }
  destruct (leaf_put None 0 n flat key v Hr H8 ltac:(lia) I)
    as [(i & c & -> & Hr' & Hlen)|(-> & pos & n1 & -> & E1 & Hr1 & Hf1 & Hlen)].
  { apply Hset; [by apply markDirty_rep|done|lia]. }
  cbn [mbind outcome_bind]. rewrite E1. cbn [mbind outcome_bind]. apply markDirty_rep in Hr1.
  rewrite (leaf_isFull _ _ _ _ Hr1), Hlen.
  destruct (Nat.leb_spec 9 (S (length flat))) as [H9|H9]; cbn [negb].
  - destruct (splitLeaf_root b n (markDirty n1) _ Hn Hst (eq_trans Hf1 Hf) Hr1 ltac:(lia)) as (b' & s1 & s2 & E & Ht & Eh).
    exists b', [s1; s2]. split; [done|]. split; [done|]. right. split; [done|by rewrite Eh].
  - apply Hset; [done|exact (eq_trans Hf1 Hf)|lia].
Qed.

End put_tree.

(** ** The map a tree stands for *)

Lemma leaves_sorted p g es hi : leaves p g es hi -> sorted (contents es).
Proof.
  induction es as [|e es IH]; cbn; [constructor|]. intros [He Hes]. apply sorted_app.
  destruct He as [(n & _ & _ & Hr) _ Hge _]. split_and!; [apply Hr|by apply IH|].
  intros q1 q2 H1 H2. unfold pair_lt.
  pose proof (lr_below _ _ _ _ Hr) as Hb. eapply Forall_forall in Hb; [|exact H1].
  destruct es as [|e' es]; [by apply not_elem_of_nil in H2|]. cbn in Hb.
  cut (all_ge (contents (e' :: es)) (e_sep e')).
  { intros Hall. eapply Forall_forall in Hall; [|exact H2]. by apply (klt_le_trans _ (e_sep e')). }
  clear - Hes. cbn in Hes |- *. destruct Hes as [[_ _ Hge Hlt] Hes]. apply Forall_app. split; [done|].
  destruct es as [|e'' es]; [constructor|]. cbn in Hlt.
  eapply Forall_impl; [exact (proj1 (leaves_above p g _ hi _ Hes Hlt))|]. intros q Hq. by apply klt_kle.
Qed.

Lemma tree_sorted b seps flat : tree_rep b seps flat -> sorted flat.
Proof.
  intros [[_ [(n & _ & Hr & _) _ _]]|(es & Hi & _ & ->)]; [apply Hr|].
  by apply (leaves_sorted _ _ _ _ (ir_leaves _ _ Hi)).
Qed.

Lemma leaves_count p g es hi : leaves p g es hi -> (4 * length es <= length (contents es))%nat.
Proof.
  induction es as [|e es IH]; cbn; [lia|]. intros [[_ H4 _ _] Hes]. rewrite length_app.
  specialize (IH Hes). unfold contents in IH. lia.
Qed.

Lemma tree_count b seps flat : tree_rep b seps flat -> (4 * length seps <= length flat)%nat.
Proof.
  intros [[-> _]|(es & Hi & -> & ->)]; [cbn; lia|]. rewrite length_fmap.
  by apply (leaves_count _ _ _ _ (ir_leaves _ _ Hi)).
Qed.

(** [key] is not smaller than the first separator. *)
Definition first_le (seps : list bytes) (key : bytes) : Prop :=
  match seps with [] => True | s :: _ => kle s key end.

Section refinement.
Context `{GrowPolicy}.

Lemma put_step b seps flat key v fuel :
  tree_rep b seps flat -> first_le seps key -> (length seps < 290)%nat ->
  exists b' seps', put (S fuel) key v b = Ok b' /\ tree_rep b' seps' (sput key v flat) /\
    (seps' = [] \/ head seps' = head seps \/ (seps = [] /\ head seps' = fst <$> head (sput key v flat))).
Proof.
  intros Ht Hfirst Hroom. unfold put. destruct Ht as [[-> Hl]|(es & Hi & -> & ->)].
  - pose proof Hl as [(n & Hn & Hr & _) _ _].
    destruct (insertLeaf_root b flat key v Hl) as (b' & seps' & Hp & Ht & Hs).
    unfold page. rewrite Hn. cbn [deref mbind outcome_bind]. rewrite (lr_leaf _ _ _ _ Hr).
    exists b', seps'. split; [done|]. split; [done|]. destruct Hs as [?|[_ ?]]; auto.
  - destruct es as [|e0 es]; [pose proof (ir_len _ _ Hi) as Hlen; cbn in Hlen; lia|]. cbn in Hfirst.
    destruct (ir_root _ _ Hi) as (rn & Hrn & Hro). rewrite length_fmap in Hroom.
    destruct (insertInternal_spec b e0 es key v fuel Hi Hroom Hfirst) as (b' & es' & Hp & Hi' & _ & Hsh & Ec).
    unfold page. rewrite Hrn. cbn [deref mbind outcome_bind]. rewrite (ro_internal _ _ Hro), Hp.
    exists b', (e_sep <$> es'). split; [done|]. split; [right; exists es'; by rewrite Ec|].
    right; left. unfold same_head in Hsh. by destruct es'.
Qed.

(** C15: [put] refines insertion into the finite map: on every tree in good order
    with fewer than 290 separators, and for every key that is not smaller than
    the first separator, [put]
    returns without an error or a panic, and the new tree, again in good order,
    stands for the map with the key set to the value, whether the key was there,
    the leaf had room, the leaf was split, or the root leaf got a parent. *)
Theorem put_refines b seps flat key v fuel :
  tree_rep b seps flat -> (1 <= fuel)%nat -> first_le seps key -> (length seps < 290)%nat ->
  exists b' seps' flat', put fuel key v b = Ok b' /\ tree_rep b' seps' flat' /\
    to_map flat' = <[key := v]> (to_map flat).
Proof.
  intros Ht Hfuel Hfirst Hroom. destruct fuel as [|fuel]; [lia|].
  destruct (put_step b seps flat key v fuel Ht Hfirst Hroom) as (b' & seps' & Hp & Ht' & _).
  exists b', seps', (sput key v flat). split; [done|]. split; [done|].
  apply sput_map. by eapply tree_sorted.
Qed.

End refinement.
