(* ===== verification/TreeMap.v ===== *)
(** * Runs of puts, gets and flushes

    [holds kvs b]: the tree [b] stands for the map that the puts [kvs] make, from
    an empty tree on.  A put adds to it, a get reads it, and a flush of the page
    store, which may come between any two of them, leaves it as it is. *)
From S2P Require Import Prelude Keys Slice Codec Node Leaf NodeCodec Storage BTree Tree TreeFrame.

Local Open Scope Z_scope.

#[local] Arguments pages : simpl never.

Section runs.
Context `{GrowPolicy}.

(** ** A run of puts *)

(** The page file is new, and so is the tree. *)
Definition empty_tree (meta : bytes) : BTree :=
  mkBTree (mkFileStore [] {[0 := set_isLeaf true emptyNode]} 4096 0) 0 0 meta.

Lemma open_empty meta : NewBTreeWithPath [] meta = Ok (empty_tree meta).
Proof. reflexivity. Qed.

Lemma empty_tree_rep meta : tree_rep (empty_tree meta) [] [].
Proof.
  left. split; [done|]. split.
  - exists (set_isLeaf true emptyNode). split_and!; [done| |done].
    apply leaf_rep_fresh; [done|done|done|constructor|constructor].
  - cbn. lia.
  - split; [|split; vm_compute; discriminate]. intros k pg Hk. unfold pages in Hk. cbn in Hk.
    apply lookup_singleton_Some in Hk as [<- _]. cbn. lia.
Qed.

Lemma empty_filed meta : filed (pages (empty_tree meta)).
Proof. intros k pg Hk. unfold pages in Hk. cbn in Hk. by apply lookup_singleton_Some in Hk as [<- <-]. Qed.

(** What a list of puts means for a map. *)
Definition puts (kvs : pair_list) (m : gmap bytes bytes) : gmap bytes bytes :=
  foldl (fun m kv => <[kv.1 := kv.2]> m) m kvs.

Lemma head_sput k0 key v flat :
  fst <$> head flat = Some k0 -> kle k0 key -> fst <$> head (sput key v flat) = Some k0.
Proof.
  destruct flat as [|[k1 v1] flat]; [done|]. cbn. intros [= ->] Hle. unfold kle in Hle.
  rewrite bytes_compare_opp in Hle. destruct (bytes_compare key k0) eqn:E; [|done|done].
  apply bytes_compare_eq in E. by subst.
Qed.

(** The puts that the tree can take: the first key is the smallest, and there
    are not more of them than 290 leaves are sure to hold. *)
Definition in_bounds (kvs : pair_list) : Prop :=
  match kvs with [] => True | kv :: kvs => all_ge kvs kv.1 /\ (length kvs < 1160)%nat end.

Lemma in_bounds_app kvs1 kvs2 : in_bounds (kvs1 ++ kvs2) -> in_bounds kvs1.
Proof.
  destruct kvs1 as [|kv kvs1]; [done|]. cbn. rewrite length_app. intros [H1 H2].
  unfold all_ge in *. apply Forall_app in H1 as [H1 _]. split; [done|lia].
Qed.

(** [b] is the tree that a list of puts makes of an empty one. *)
Definition holds (kvs : pair_list) (b : BTree) : Prop :=
  filed (pages b) /\ exists seps flat, tree_rep b seps flat /\ to_map flat = puts kvs ∅ /\ (length flat <= length kvs)%nat /\
    match kvs with
    | [] => seps = []
    | kv :: _ => fst <$> head flat = Some kv.1 /\ (seps = [] \/ head seps = Some kv.1)
    end.

Lemma holds_empty meta : holds [] (empty_tree meta).
Proof. split; [apply empty_filed|]. exists [], []. split_and!; [apply empty_tree_rep|done..]. Qed.

Lemma puts_app kvs1 kvs2 m : puts (kvs1 ++ kvs2) m = puts kvs2 (puts kvs1 m).
Proof. apply foldl_app. Qed.

Lemma holds_put kvs b k v fuel :
  holds kvs b -> in_bounds (kvs ++ [(k, v)]) ->
  exists b', put (S fuel) k v b = Ok b' /\ holds (kvs ++ [(k, v)]) b'.
Proof.
  intros (Hfiled & seps & flat & Ht & Hm & Hlen & Hh) Hb.
  pose proof (tree_count _ _ _ Ht) as Hc. pose proof (length_sput k v flat) as Hl.
  assert (length (kvs ++ [(k, v)]) <= 1160)%nat as Hn by (destruct kvs; [cbn; lia|destruct Hb; cbn in *; lia]).
  rewrite length_app in Hn. cbn in Hn.
  assert (first_le seps k) as Hf.
  { destruct kvs as [|kv kvs]; [by subst|]. destruct Hb as [Hge _], Hh as [_ [->|Hs]]; [done|].
    destruct seps; [done|]. injection Hs as ->. unfold all_ge in Hge. apply Forall_app in Hge as [_ Hge].
    rewrite Forall_singleton in Hge. exact Hge. }
  destruct (put_step b seps flat k v fuel Ht Hf ltac:(lia)) as (b' & seps' & Hp & Ht' & Hs').
  exists b'. split; [done|]. split; [by eapply filed_put|]. exists seps', (sput k v flat). split; [done|].
  split; [rewrite sput_map by (by eapply tree_sorted); rewrite Hm, puts_app; done|].
  split; [rewrite length_app; cbn; lia|]. destruct kvs as [|kv kvs]; cbn.
  - subst seps. assert (flat = []) as -> by (destruct flat; [done|cbn in Hlen; lia]). split; [done|].
    destruct Hs' as [?|[E|[_ E]]]; [by left| |by right]. left. by destruct seps'.
  - destruct Hb as [Hge _], Hh as [Hk Hs]. unfold all_ge in Hge. apply Forall_app in Hge as [_ Hge].
    rewrite Forall_singleton in Hge. split; [exact (head_sput kv.1 k v flat Hk Hge)|].
    pose proof (head_sput kv.1 k v flat Hk Hge) as Hk'.
    destruct Hs' as [?|[E|[_ E]]]; [by left| |right; by rewrite E, Hk'].
    destruct Hs as [->|Hs]; [left; by destruct seps'|right; by rewrite E].
Qed.

Lemma holds_put_all kvs kvs' b fuel :
  holds kvs b -> in_bounds (kvs ++ kvs') ->
  exists b', put_all (S fuel) kvs' b = Ok b' /\ holds (kvs ++ kvs') b'.
Proof.
  revert kvs b. induction kvs' as [|[k v] kvs' IH]; intros kvs b Hh Hb.
  - exists b. by rewrite app_nil_r.
  - rewrite cons_middle, app_assoc in Hb |- *.
    destruct (holds_put kvs b k v fuel Hh (in_bounds_app _ _ Hb)) as (b1 & Hp & Hh1).
    destruct (IH _ b1 Hh1 Hb) as (b' & Ha & Hh'). exists b'. split; [|done].
    cbn [put_all fst snd]. by rewrite Hp.
Qed.

Lemma holds_get kvs b key fuel :
  holds kvs b -> (2 <= fuel)%nat ->
  Get fuel key b = match puts kvs ∅ !! key with
                   | Some v => Ok (v, b)
                   | None => Err (ErrMsg "key not found")
                   end.
Proof.
  intros (_ & seps & flat & Ht & Hm & _) Hf. rewrite (get_spec b seps flat key fuel Ht Hf). unfold answer. by rewrite Hm.
Qed.

(** C6: end to end, from an empty page file: up to 1160 puts, in any order after
    a first one whose key is the smallest, all return, and afterwards [Get]
    gives, for every key, the value last put for it, or the error that it is
    not found. *)
Theorem put_then_get meta k0 v0 kvs key f1 f2 :
  all_ge kvs k0 -> (length kvs < 1160)%nat -> (1 <= f1)%nat -> (2 <= f2)%nat ->
  exists b', (b ← NewBTreeWithPath [] meta; put_all f1 ((k0, v0) :: kvs) b) = Ok b' /\
    Get f2 key b' = match puts ((k0, v0) :: kvs) ∅ !! key with
                    | Some v => Ok (v, b')
                    | None => Err (ErrMsg "key not found")
                    end.
Proof.
  intros Hge Hlen H1 H2. destruct f1 as [|f1]; [lia|]. rewrite open_empty.
  destruct (holds_put_all [] ((k0, v0) :: kvs) (empty_tree meta) f1 (holds_empty meta)) as (b' & Hp & Hh); [done|].
  exists b'. split; [exact Hp|]. by apply holds_get.
Qed.

End runs.

(** ** Flushing *)

(** The same pages, except for what is dirty. *)
Definition same_pages (p p' : gmap Z Node) : Prop := (markClean <$> p') = (markClean <$> p).

Lemma same_pages_lookup p p' k n :
  same_pages p p' -> p !! k = Some n -> exists n', p' !! k = Some n' /\ markClean n' = markClean n.
Proof.
  intros E Hk. apply (f_equal (lookup k)) in E. rewrite !lookup_fmap, Hk in E. cbn in E.
  destruct (p' !! k) as [n'|] eqn:E'; [|done]. exists n'. split; [done|]. by apply (inj Some) in E.
Qed.

Lemma same_pages_sym p p' : same_pages p p' -> same_pages p' p.
Proof. done. Qed.

(** The fields of a page that are not the dirty flag. *)
Lemma markClean_fields n n' :
  markClean n' = markClean n ->
  isLeaf n' = isLeaf n /\ fileOffset n' = fileOffset n /\ offsets n' = offsets n /\
  n_internalCell n' = n_internalCell n /\ n_leafCell n' = n_leafCell n.
Proof. destruct n, n'. unfold markClean. by intros [= -> -> -> -> ->]. Qed.

Lemma leaf_rep_clean hi g n n' kvs : markClean n' = markClean n -> leaf_rep hi g n kvs -> leaf_rep hi g n' kvs.
Proof.
  intros (E1 & _ & E3 & _ & E5)%markClean_fields [H1 H2 H3 H4 H5 H6 H7].
  split; rewrite ?E1, ?E3, ?E5 in *; done.
Qed.

Lemma root_ok_clean n n' es : markClean n' = markClean n -> root_ok n es -> root_ok n' es.
Proof.
  intros (E1 & _ & E3 & E4 & _)%markClean_fields [H1 H2 H3 H4]. split; rewrite ?E1, ?E3, ?E4 in *; done.
Qed.

Lemma leaves_clean p p' g es hi : same_pages p p' -> leaves p g es hi -> leaves p' g es hi.
Proof.
  intros Hp. induction es as [|e es IH]; [done|]. intros [[(n & Hn & Hf & Hr) H2 H3 H4] Hl]. split; [|by apply IH].
  destruct (same_pages_lookup _ _ _ _ Hp Hn) as (n' & Hn' & E). split; [|done..].
  exists n'. split; [done|]. split; [rewrite <- Hf; by destruct (markClean_fields _ _ E) as (_ & ? & _)|by eapply leaf_rep_clean].
Qed.

Lemma tree_rep_clean b b' seps flat :
  same_pages (pages b) (pages b') -> root b' = root b -> nextFreeOffset (fs b') = nextFreeOffset (fs b) ->
  tree_rep b seps flat -> tree_rep b' seps flat.
Proof.
  intros Hp Er En. assert (Hs : forall m, store_ok b m -> store_ok b' m).
  { intros m [H1 H2]. split; [|by rewrite En]. intros k pg Hk. rewrite En.
    destruct (same_pages_lookup _ _ _ _ (same_pages_sym _ _ Hp) Hk) as (pg' & Hk' & _). by eapply H1. }
  intros [[-> [(n & Hn & Hr & Hf) H2 H3]]|(es & [(n & Hn & Hr) H2 H3 H4 H5] & -> & ->)];
    destruct (same_pages_lookup _ _ _ _ Hp Hn) as (n' & Hn' & E); [left|right].
  - split; [done|]. split; [|done|by apply Hs]. exists n'. rewrite Er. split; [done|].
    split; [by eapply leaf_rep_clean|]. rewrite <- Hf. by destruct (markClean_fields _ _ E) as (_ & ? & _).
  - exists es. split; [|done]. split; [|by eapply leaves_clean|by rewrite Er|done|by apply Hs].
    exists n'. rewrite Er. split; [done|by eapply root_ok_clean].
Qed.

Lemma filed_clean p p' : same_pages p p' -> filed p -> filed p'.
Proof.
  intros Hp Hf k n' Hn'. destruct (same_pages_lookup _ _ _ _ (same_pages_sym _ _ Hp) Hn') as (n & Hn & E).
  rewrite <- (Hf _ _ Hn). by apply markClean_fields in E as (_ & -> & _).
Qed.

Lemma holds_flush kvs b ord f :
  holds kvs b -> flushPages ord (fs b) = Ok f -> holds kvs (set_fs f b).
Proof.
  intros (Hf & seps & flat & Ht & Hm) E. destruct (flushPages_inv _ _ _ Hf E) as (En & _ & Ep & _).
  split; [by apply (filed_clean (pages b))|]. exists seps, flat. split; [|done].
  by apply (tree_rep_clean b).
Qed.
