(* ===== verification/TreeLimits.v ===== *)
(** * Where the B+tree stops being a map

    The theorems of [Tree.v] have bounds: no key below the first separator, and
    at most 290 leaves.  This file shows on concrete runs what the code does
    outside them, and what of a tree survives in its file. *)
From S2P Require Import Prelude Keys Slice Codec Node Leaf NodeCodec Storage BTree TreeFrame Tree TreeMap.

Local Open Scope Z_scope.

(** A growth policy for the concrete runs: twice the size.  Their results do
    not depend on it. *)
Definition doubling : GrowPolicy := fun n => n.
#[local] Existing Instance doubling.

(** A pair whose value is its key. *)
Definition kv (s : string) : bytes * bytes := (go_string s, go_string s).

(** Puts into a tree on an empty file. *)
Definition built (kvs : pair_list) : outcome BTree :=
  b ← NewBTreeWithPath [] []; put_all 2 kvs b.

(** ** Witnesses of the refinement *)

Definition ten_keys : pair_list :=
  kv <$> ["a"; "d"; "b"; "c"; "h"; "g"; "f"; "e"; "i"; "c"]%string.

Definition ten_tree : BTree :=
  match built ten_keys with Ok b => b | _ => empty_tree [] end.

Lemma put_then_get_witness :
  exists b', built ten_keys = Ok b' /\ size (pages b') = 3%nat /\
    Get 2 (go_string "c") b' = Ok (go_string "c", b') /\
    Get 2 (go_string "z") b' = Err (ErrMsg "key not found").
Proof.
  assert (Hge : all_ge (tail ten_keys) (go_string "a"))
    by (unfold all_ge; apply (bool_decide_unpack _); vm_compute; exact I).
  destruct (put_then_get [] (go_string "a") (go_string "a") (tail ten_keys) (go_string "c") 2 2 Hge)
    as (b' & Hb & Hc); [vm_compute; lia|lia|lia|].
  destruct (put_then_get [] (go_string "a") (go_string "a") (tail ten_keys) (go_string "z") 2 2 Hge)
    as (b2 & Hb2 & Hz); [vm_compute; lia|lia|lia|].
  assert (b2 = b') as -> by congruence.
  exists b'. split; [exact Hb|]. split; [|split; [exact Hc|exact Hz]].
  vm_compute in Hb. injection Hb as <-. reflexivity.
Defined.

Lemma get_refines_witness :
  tree_rep (empty_tree []) [] [] /\ Get 2 (go_string "a") (empty_tree []) = Err (ErrMsg "key not found").
Proof.
  split; [apply empty_tree_rep|].
  exact (get_refines (empty_tree []) [] [] (go_string "a") 2 (empty_tree_rep []) (le_n 2)).
Defined.

Lemma put_refines_witness :
  exists b', put 1 (go_string "a") (go_string "1") (empty_tree []) = Ok b' /\
    exists seps flat, tree_rep b' seps flat /\ to_map flat = {[go_string "a" := go_string "1"]}.
Proof.
  destruct (put_refines (empty_tree []) [] [] (go_string "a") (go_string "1") 1 (empty_tree_rep [])
    (le_n 1) I ltac:(cbn; lia)) as (b' & seps & flat & Hp & Ht & Hm).
  exists b'. split; [exact Hp|]. exists seps, flat. split; [exact Ht|]. exact Hm.
Defined.

(** ** A key that is lost *)

(** The first leaf splits with first key [m0]; keys below it fill the first
    leaf again, until it splits at a key that is already a separator, and
    once more below a key that the first of these splits moved. *)
Definition losing_puts : pair_list :=
  kv <$> ["m0"; "m1"; "m2"; "m3"; "m4"; "m5"; "m6"; "m7"; "m8";
          "a0"; "a1"; "a2"; "a3"; "m39"; "m31"; "m32"; "m33"; "m34"; "m35"]%string.

(** The tree loses keys.  Nineteen puts with different keys all return
    without an error; then [Get] finds eighteen of them, and not the
    fourteenth, which was found right after it was put. *)
Theorem tree_loses_key :
  (b ← built (take 14 losing_puts); fst <$> Get 2 (go_string "m39") b) = Ok (go_string "m39") /\
  is_ok (built losing_puts) = true /\
  (b ← built losing_puts; fst <$> Get 2 (go_string "m39") b) = Err (ErrMsg "key not found") /\
  forallb (fun p => is_ok (b ← built losing_puts; Get 2 p.1 b))
    (filter (fun p => p.1 <> go_string "m39") losing_puts) = true.
Proof. vm_compute. split_and!; reflexivity. Qed.

(** ** A full root *)

Definition number_key (i : Z) : bytes := [z2b (i / 256); z2b i].
Definition ascending (n : nat) : pair_list := (fun i => (number_key (Z.of_nat i), [])) <$> seq 0 n.
Definition ascending_tree (n : nat) : outcome BTree := built (ascending n).

(** The tree holds at most 290 leaves: 1164 ascending puts return, and the
    next one, which splits a leaf under a full root, dereferences the parent
    that a root does not have. *)
Theorem full_root_panics :
  is_ok (ascending_tree 1164) = true /\ ascending_tree 1165 = Panic NilDeref.
Proof. vm_compute. split; reflexivity. Qed.

(** ** What is left after a restart *)

(** A flush leaves the root offset of the store in the first eight bytes. *)
Lemma flush_header ord f f' : flushPages ord f = Ok f' ->
  exists next, 0 <= next < 2 ^ 64 /\ take 16 (fs_file f') = le_bytes 8 (fs_rootOffset f) ++ le_bytes 8 next.
Proof.
  unfold flushPages. intros (f1 & Hl & Hs)%bind_Ok_inv.
  apply flush_loop_root in Hl as Hr.
  destruct (save_Ok f1) as (file & E & Ef). rewrite E in Hs. injection Hs as <-. cbn. rewrite Ef, Hr.
  exists (u64 (nextFreeOffset f1)). split; [apply Z.mod_pos_bound; lia|].
  by rewrite <- (le_bytes_mod 8 (nextFreeOffset f1)).
Qed.

(** A file whose header has the root offset 0 opens as an empty tree. *)
Lemma open_header file meta next :
  0 <= next < 2 ^ 64 -> take 16 file = le_bytes 8 0 ++ le_bytes 8 next ->
  NewBTreeWithPath file meta = Ok (setRootPage (set_isLeaf true emptyNode)
                                     (mkBTree (mkFileStore file ∅ next 0) 0 0 meta)).
Proof.
  intros Hn Hf. assert (Hlen : (16 <= length file)%nat).
  { apply (f_equal length) in Hf. rewrite length_app, !length_le_bytes, length_take in Hf. lia. }
  assert (Hr : read_at file 0 16 = Ok (le_bytes 8 0 ++ le_bytes 8 next)).
  { unfold read_at, zlen. rewrite (proj2 (Z.leb_le _ _)) by lia. cbn [Z.ltb Z.compare drop Z.to_nat].
    by rewrite <- Hf. }
  unfold NewBTreeWithPath, newFileStore. rewrite Hr, read_uint_app by lia.
  cbn [panic_err mbind outcome_bind]. rewrite <- (app_nil_r (le_bytes 8 next)), read_uint_app by lia. done.
Qed.

Lemma get_empty_root f key file meta next :
  Get (S f) key (setRootPage (set_isLeaf true emptyNode) (mkBTree (mkFileStore file ∅ next 0) 0 0 meta))
  = Err (ErrMsg "key not found").
Proof.
  unfold Get, page, pages, setRootPage, add, cache_add. cbn. by rewrite lookup_insert_eq.
Qed.

(** A tree does not survive a restart: whatever was put into a tree on a
    new file, once its pages are flushed, in whatever order, the file opens
    as a tree in which no key is found.  [save] writes the root offset of the
    store, which stays 0; the tree sets its own. *)
Theorem flushed_tree_is_lost `{GrowPolicy} meta meta' kvs fuel b ord f :
  (b0 ← NewBTreeWithPath [] meta; put_all fuel kvs b0) = Ok b ->
  flushPages ord (fs b) = Ok f ->
  exists b', NewBTreeWithPath (fs_file f) meta' = Ok b' /\
    forall key n, Get (S n) key b' = Err (ErrMsg "key not found").
Proof.
  intros Hb Hf. rewrite open_empty in Hb.
  pose proof (header_put_all fuel kvs (empty_tree meta) b Hb) as E. injection E as _ Hr _.
  destruct (flush_header _ _ _ Hf) as (next & Hn & Ht). rewrite Hr in Ht.
  rewrite (open_header _ meta' next Hn Ht). eexists. split; [done|]. intros key n. apply get_empty_root.
Qed.

Definition flushed_ten : fileStore :=
  match flushPages [0; 4096; 8192] (fs ten_tree) with Ok f => f | _ => fs ten_tree end.

Lemma flushed_tree_is_lost_witness :
  exists b', NewBTreeWithPath (fs_file flushed_ten) [] = Ok b' /\
    Get 2 (go_string "c") b' = Err (ErrMsg "key not found").
Proof.
  destruct (flushed_tree_is_lost [] [] ten_keys 2 ten_tree [0; 4096; 8192] flushed_ten)
    as (b' & Hb & Hg); [vm_compute; reflexivity|vm_compute; reflexivity|].
  exists b'. split; [exact Hb|apply (Hg (go_string "c") 1%nat)].
Defined.

(** The pages that a split makes are not written: they are not marked dirty.
    Ten puts make a tree of three pages, and a flush of all of them leaves a
    file of one page, without the new leaf and without the root. *)
Theorem split_pages_not_written :
  size (pages ten_tree) = 3%nat /\ root ten_tree = 8192 /\
  flushPages [0; 4096; 8192] (fs ten_tree) = Ok flushed_ten /\
  zlen (fs_file flushed_ten) = 4096 /\
  (forall off, off ∈ [4096; 8192] -> read_at (fs_file flushed_ten) off pageSize = Err ErrEOF).
Proof.
  split_and!; [vm_compute; reflexivity..|]. intros off Hoff.
  repeat (apply elem_of_cons in Hoff as [->|Hoff]; [vm_compute; reflexivity|]).
  by apply not_elem_of_nil in Hoff.
Qed.

(** A pair that [put] accepts and that fills more than a page. *)
Definition wide_put : pair_list := [(go_string "a", replicate 4096 Byte.x00)].

Definition wide_tree : BTree :=
  match built wide_put with Ok b => b | _ => empty_tree [] end.

Lemma flush_stops k n e f ord :
  pageCache f = {[k := n]} -> isDirty n = true -> encode n = Err e -> k ∈ ord ->
  flushPages ord f = Err (ErrWrap "update page" (ErrWrap "encode node" e)).
Proof.
  intros Hf Hd He Hin. unfold flushPages.
  enough (flush_loop ord f = Err (ErrWrap "update page" (ErrWrap "encode node" e))) as -> by done.
  induction ord as [|j ord IH]; [by apply not_elem_of_nil in Hin|]. cbn. rewrite Hf, lookup_singleton.
  case_decide as E.
  - rewrite Hd. cbn. unfold update. rewrite He. done.
  - apply IH. by apply elem_of_cons in Hin as [->|?].
Qed.

(** A value wider than a page is accepted and can be read, and then the
    flush fails, in every order of the pages that includes it; the flusher
    of [newFileStore] panics on that error. *)
Theorem wide_value_breaks_flush :
  built wide_put = Ok wide_tree /\
  Get 2 (go_string "a") wide_tree = Ok (replicate 4096 Byte.x00, wide_tree) /\
  forall ord, 0 ∈ ord -> flushPages ord (fs wide_tree) =
    Err (ErrWrap "update page" (ErrWrap "encode node" (ErrMsg "leaf node data size exceeds page size"))).
Proof.
  split; [vm_compute; reflexivity|]. split; [vm_compute; reflexivity|]. intros ord.
  apply (flush_stops 0 (default emptyNode (pages wide_tree !! 0))); vm_compute; reflexivity.
Qed.
