(* ===== verification/Flush.v ===== *)
(** * What a flush leaves in the file ([storage.go])

    [flushPages] writes the dirty pages one after the other, in the order in
    which Go ranges over the cache, and then the header.  Every dirty page but
    the one at offset 0 is afterwards found in the file as it is encoded; the
    page at offset 0 shares its first bytes with the header. *)
From S2P Require Import Prelude Keys Slice Codec Node Leaf NodeCodec Storage BTree TreeFrame TreeMap TreeLimits.

Local Open Scope Z_scope.

(** A read that succeeded still succeeds after a write elsewhere. *)
Lemma read_apart file off data file' a n d :
  write_at file off data = Ok file' -> read_at file a n = Ok d -> 0 <= n ->
  a + n <= off \/ off + zlen data <= a -> read_at file' a n = Ok d.
Proof.
  unfold write_at, read_at, zlen. destruct (Z.ltb_spec off 0); [done|]. intros [= <-].
  destruct (Z.ltb_spec a 0); [done|]. destruct (Z.leb_spec (a + n) (Z.of_nat (length file))); [|done].
  intros [= <-] Hn Hapart. set (pad := file ++ _).
  assert (Hpad : (Z.to_nat off <= length pad)%nat)
    by (unfold pad; rewrite length_app, length_replicate; lia).
  rewrite !length_app, length_take, length_drop, Nat.min_l by done.
  rewrite (proj2 (Z.leb_le _ _)) by (unfold pad in *; rewrite length_app in *; lia). f_equal.
  assert (take (Z.to_nat n) (drop (Z.to_nat a) pad) = take (Z.to_nat n) (drop (Z.to_nat a) file)) as <-.
  { unfold pad. rewrite drop_app_le by lia. rewrite take_app_le; [done|]. rewrite length_drop. lia. }
  assert (length pad >= Z.to_nat a + Z.to_nat n)%nat by (unfold pad; rewrite length_app; lia).
  destruct Hapart.
  - rewrite drop_app_le by (rewrite length_take; lia). rewrite take_app_le by (rewrite length_drop, length_take; lia).
    apply list_eq. intros i. destruct (decide (i < Z.to_nat n)%nat).
    + rewrite !lookup_take_lt, !lookup_drop, lookup_take_lt by lia. done.
    + by rewrite !lookup_take_ge by lia.
  - apply list_eq. intros i. destruct (decide (i < Z.to_nat n)%nat).
    + rewrite !lookup_take_lt, !lookup_drop by lia.
      rewrite lookup_app_r by (rewrite length_take; lia). rewrite length_take, Nat.min_l by done.
      rewrite lookup_app_r by lia. rewrite lookup_drop. f_equal. lia.
    + by rewrite !lookup_take_ge by lia.
Qed.

Lemma pad_page_length err body page : pad_page err body = Ok page -> zlen page = pageSize.
Proof.
  intros H. destruct (decide (zlen body + 2 <= pageSize)) as [Hle|Hgt].
  - destruct (pad_page_spec err body Hle) as (tail & E & Es). congruence.
  - unfold pad_page in H. rewrite (proj2 (Z.ltb_lt _ _)) in H by lia. done.
Qed.

Lemma encode_length n page : encode n = Ok page -> zlen page = pageSize.
Proof.
  unfold encode, encodeLeaf, encodeInternal. destruct (isLeaf n); intros (cs & _ & H)%bind_Ok_inv; by apply pad_page_length in H.
Qed.

Lemma encode_markClean n : encode (markClean n) = encode n.
Proof. done. Qed.

(** The page at [k] is in the file as it is encoded. *)
Definition on_disk (file : bytes) (k : Z) (n : Node) : Prop :=
  exists buf, encode n = Ok buf /\ read_at file k pageSize = Ok buf.

(** Pages start at multiples of the page size. *)
Definition aligned (c : gmap Z Node) : Prop :=
  forall k n, c !! k = Some n -> 0 <= k /\ (pageSize | k).

Lemma aligned_apart c j k n m : aligned c -> c !! j = Some n -> c !! k = Some m -> j <> k ->
  j + pageSize <= k \/ k + pageSize <= j.
Proof.
  intros H Hj%H Hk%H Hne. destruct Hj as [_ [a ->]], Hk as [_ [b ->]]. unfold pageSize in *. lia.
Qed.

Lemma update_file node f f' k :
  update node f = Ok f' -> i64 (fileOffset node) = k -> aligned (pageCache f) ->
  pageCache f !! k = Some node ->
  on_disk (fs_file f') k node /\
  forall j m d, j <> k -> pageCache f !! j = Some m -> read_at (fs_file f) j pageSize = Ok d ->
    read_at (fs_file f') j pageSize = Ok d.
Proof.
  intros H Ek Ha Hk. unfold update in H. apply bind_Ok_inv in H as (buf & He & H).
  apply bind_Ok_inv in H as (file & Hw & H). injection H as <-. rewrite Ek in Hw. cbn.
  destruct (encode node) as [b| |] eqn:En; try done. injection He as ->.
  pose proof (encode_length _ _ En) as Elen. destruct (write_at _ _ _) as [fl| |] eqn:Ew; try done.
  injection Hw as ->. split.
  - exists buf. split; [done|]. rewrite <- Elen. by eapply read_write_at.
  - intros j m d Hne Hj Hd. eapply read_apart; [done|done|done|].
    rewrite Elen. eapply aligned_apart; [done|exact Hj|exact Hk|done].
Qed.

(** One page of the loop. *)
Lemma flush_page_file f f2 k page :
  filed (pageCache f) -> aligned (pageCache f) -> pageCache f !! k = Some page -> update page f = Ok f2 ->
  let f1 := set_pageCache (<[k := markClean page]> (pageCache f2)) f2 in
  pageCache f1 = <[k := markClean page]> (pageCache f) /\ filed (pageCache f1) /\ aligned (pageCache f1) /\
  on_disk (fs_file f1) k page /\
  forall j m d, j <> k -> pageCache f !! j = Some m -> read_at (fs_file f) j pageSize = Ok d ->
    read_at (fs_file f1) j pageSize = Ok d.
Proof.
  intros Hf Ha Hk Hu f1. pose proof (Hf k page Hk) as Eo.
  destruct (update_file page f f2 k Hu Eo Ha Hk) as [Hdisk Hother].
  apply update_Ok in Hu as (E & _ & _). rewrite Eo in E.
  assert (pageCache f1 = <[k := markClean page]> (pageCache f)) as E1
    by (cbn; by rewrite E, insert_insert_eq).
  split; [done|]. rewrite E1. split_and!; [|intros j m|done|done].
  - apply filed_insert; [done|]. exact Eo.
  - rewrite lookup_insert. case_decide; [subst|apply Ha]. intros _. by eapply Ha.
Qed.

(** The loop over distinct keys: each page of the list is clean and, if it was
    dirty, in the file; what the file held of the other pages stays. *)
Lemma flush_loop_file ord f f' :
  NoDup ord -> filed (pageCache f) -> aligned (pageCache f) -> flush_loop ord f = Ok f' ->
  forall k page, pageCache f !! k = Some page ->
    pageCache f' !! k = Some (if decide (k ∈ ord) then markClean page else page) /\
    (k ∈ ord -> isDirty page = true -> on_disk (fs_file f') k page) /\
    (k ∉ ord \/ isDirty page = false ->
      forall d, read_at (fs_file f) k pageSize = Ok d -> read_at (fs_file f') k pageSize = Ok d).
Proof.
  intros Hnd. revert f. induction Hnd as [|j ord Hj Hnd IH]; intros f Hf Ha Hl k page Hk.
  { injection Hl as <-. rewrite decide_False by apply not_elem_of_nil. split_and!; [done| |done].
    by intros ?%not_elem_of_nil. }
  cbn in Hl. destruct (pageCache f !! j) as [pj|] eqn:Ej.
  2: { destruct (IH f Hf Ha Hl k page Hk) as (H1 & H2 & H3).
       assert (k ∈ j :: ord <-> k ∈ ord) as Hiff.
       { rewrite elem_of_cons. split; [intros [->|?]; [congruence|done]|by right]. }
       split_and!; [by rewrite (decide_ext _ _ _ _ Hiff)|by rewrite Hiff|by rewrite Hiff]. }
  destruct (isDirty pj) eqn:Ed; cbn [negb] in Hl.
  - apply bind_Ok_inv in Hl as (f2 & Hu & Hl). destruct (update pj f) as [f2'| |] eqn:Eu; try done.
    injection Hu as ->.
    destruct (flush_page_file f f2 j pj Hf Ha Ej Eu) as (E1 & Hf1 & Ha1 & Hdisk & Hother).
    specialize (IH _ Hf1 Ha1 Hl k). rewrite E1 in IH. destruct (decide (k = j)) as [->|Hne].
    + assert (page = pj) as -> by congruence. rewrite lookup_insert_eq in IH.
      destruct (IH (markClean pj) eq_refl) as (H1 & _ & H3). rewrite decide_False in H1 by done.
      rewrite decide_True by (by left). split_and!; [done| |intros [Hno|?]; [|congruence]].
      * intros _ _. destruct Hdisk as (buf & He & Hr). exists buf. split; [done|]. apply H3; [by left|done].
      * by destruct Hno; left.
    + rewrite lookup_insert_ne in IH by done. destruct (IH page Hk) as (H1 & H2 & H3).
      assert (k ∈ j :: ord <-> k ∈ ord) as Hiff by (rewrite elem_of_cons; tauto).
      split_and!; [by rewrite (decide_ext _ _ _ _ Hiff)|by rewrite Hiff|].
      rewrite Hiff. intros Hor d Hd. apply H3; [done|]. by eapply Hother.
  - destruct (IH f Hf Ha Hl k page Hk) as (H1 & H2 & H3). destruct (decide (k = j)) as [->|Hne].
    + assert (page = pj) as -> by congruence. rewrite decide_True by (by left). rewrite decide_False in H1 by done.
      split_and!; [|by intros _ ?; congruence|intros _; apply H3; by left].
      rewrite H1. f_equal. destruct pj; cbn in *. by subst.
    + assert (k ∈ j :: ord <-> k ∈ ord) as Hiff by (rewrite elem_of_cons; tauto).
      split_and!; [by rewrite (decide_ext _ _ _ _ Hiff)|by rewrite Hiff|by rewrite Hiff].
Qed.

(** C30: a flush that returns wrote every dirty page but the one at offset 0 to
    its own place, as it is encoded, left what the file held of the clean ones,
    and left no page dirty; the header and the offsets are those of the store.
    The order in which the pages are ranged over does not matter. *)
Theorem flush_writes_pages ord f f' :
  filed (pageCache f) -> aligned (pageCache f) -> ord ≡ₚ elements (dom (pageCache f)) ->
  flushPages ord f = Ok f' ->
  pageCache f' = markClean <$> pageCache f /\
  take 16 (fs_file f') = le_bytes 8 (fs_rootOffset f) ++ le_bytes 8 (nextFreeOffset f) /\
  forall k page, pageCache f !! k = Some page -> k <> 0 ->
    (isDirty page = true -> on_disk (fs_file f') k page) /\
    (isDirty page = false ->
      forall d, read_at (fs_file f) k pageSize = Ok d -> read_at (fs_file f') k pageSize = Ok d).
Proof.
  intros Hf Ha Hord H. pose proof (flushPages_inv ord f f' Hf H) as (_ & _ & Hclean & Hhead).
  unfold flushPages in H. apply bind_Ok_inv in H as (f1 & Hl & Hs).
  assert (NoDup ord) as Hnd by (rewrite Hord; apply NoDup_elements).
  assert (forall k page, pageCache f !! k = Some page -> k ∈ ord) as Hin.
  { intros k page Hk. rewrite Hord, elem_of_elements. apply elem_of_dom. by eexists. }
  pose proof (flush_loop_file ord f f1 Hnd Hf Ha Hl) as Hloop.
  destruct (save f1) as [f2| |] eqn:Es; try done.
  injection Hs as ->. unfold save in Es. apply bind_Ok_inv in Es as (file & Hw & Es). injection Es as <-.
  cbn [fs_file set_file pageCache] in *. split; [|split; [done|]].
  - apply map_eq. intros k. rewrite lookup_fmap. destruct (pageCache f !! k) as [page|] eqn:Ek.
    + destruct (Hloop k page Ek) as (-> & _). by rewrite decide_True by eauto.
    + apply (f_equal (fun m : gmap Z Node => m !! k)) in Hclean. rewrite !lookup_fmap, Ek in Hclean.
      by destruct (pageCache f1 !! k).
  - intros k page Hk Hne. destruct (Hloop k page Hk) as (_ & Hd & Hc).
    assert (forall d, read_at (fs_file f1) k pageSize = Ok d -> read_at file k pageSize = Ok d) as Hsave.
    { intros d Hr. eapply read_apart; [exact Hw|done|done|]. right.
      unfold zlen. rewrite length_app, !length_le_bytes. destruct (Ha k page Hk) as [? [q ->]].
      unfold pageSize in *. lia. }
    split.
    + intros Hdirty. destruct (Hd (Hin k page Hk) Hdirty) as (buf & He & Hr). exists buf. auto.
    + intros Hclean' d Hr. apply Hsave, Hc; [by right|done].
Qed.

(** ** The page at offset 0 *)

Lemma decodeInternal_role buf n n' : decodeInternal buf n = Ok n' -> isLeaf n' = false.
Proof. unfold decodeInternal. intros H. repeat (apply bind_Ok_inv in H as ([] & _ & H) || apply bind_Ok_inv in H as (? & _ & H)). by injection H as <-. Qed.

(** The first page of a tree on a new file is a leaf, at offset 0, where the
    header is written too.  After a flush it is not read back as a leaf: the
    header, whose first byte is 0, took the place of its first 16 bytes. *)
Theorem first_page_overwritten `{GrowPolicy} meta kvs fuel b ord f b1 n b2 :
  (b0 ← NewBTreeWithPath [] meta; put_all fuel kvs b0) = Ok b -> flushPages ord (fs b) = Ok f ->
  fs_file (fs b1) = fs_file f -> loadPage 0 b1 = Ok (n, b2) -> isLeaf n = false.
Proof.
  intros Hb Hf Hfile Hload. rewrite open_empty in Hb.
  pose proof (header_put_all fuel kvs (empty_tree meta) b Hb) as E. injection E as _ Hr _.
  destruct (flush_header _ _ _ Hf) as (next & _ & Ht). rewrite Hr in Ht.
  unfold loadPage in Hload. apply bind_Ok_inv in Hload as (buf & Hbuf & Hload).
  apply bind_Ok_inv in Hload as (node & Hnode & Hload). injection Hload as <- _.
  rewrite Hfile in Hbuf. destruct (read_at (fs_file f) (i64 0) pageSize) as [d| |] eqn:Er; try done.
  injection Hbuf as ->. destruct (decode buf _) as [d| |] eqn:Ed; try done. injection Hnode as ->.
  unfold read_at in Er. destruct (_ <=? _); [|done]. injection Er as <-.
  change (drop (Z.to_nat (i64 0)) (fs_file f)) with (fs_file f) in Ed.
  destruct (fs_file f) as [|x rest]; [done|]. injection Ht as -> _.
  assert (take (Z.to_nat pageSize) (z2b 0 :: rest) = le_bytes 1 0 ++ take (Z.to_nat 4095) rest) as Etake
    by reflexivity.
  rewrite Etake in Ed.
  unfold decode in Ed. rewrite read_uint_app in Ed by (cbn; lia). cbn [mbind outcome_bind Z.eqb] in Ed.
  by apply decodeInternal_role in Ed.
Qed.

(** ** Examples *)

#[local] Existing Instance doubling.

(** Twelve puts: the page at 4096, split off after the tenth, is dirty again. *)
Definition twelve_keys : pair_list :=
  kv <$> ["a"; "b"; "c"; "d"; "e"; "f"; "g"; "h"; "i"; "j"; "k"; "l"]%string.

Definition twelve_tree : BTree := match built twelve_keys with Ok b => b | _ => empty_tree [] end.

Definition flushed_twelve : fileStore :=
  match flushPages [8192; 0; 4096] (fs twelve_tree) with Ok f => f | _ => fs twelve_tree end.

Lemma aligned_mod c : map_Forall (fun k _ => 0 <= k /\ k mod pageSize = 0) c -> aligned c.
Proof. intros H k n Hk. destruct (H k n Hk). split; [done|]. by apply Z.mod_divide. Qed.

Lemma flush_writes_pages_witness :
  exists page buf, pages twelve_tree !! 4096 = Some page /\ encode page = Ok buf /\
    read_at (fs_file flushed_twelve) 4096 pageSize = Ok buf.
Proof.
  destruct (flush_writes_pages [8192; 0; 4096] (fs twelve_tree) flushed_twelve) as (_ & _ & Hp).
  - intros k pg Hk. assert (map_Forall (fun k pg => i64 (fileOffset pg) = k) (pageCache (fs twelve_tree))) as Hall
      by (apply (bool_decide_unpack _); vm_compute; exact I).
    exact (Hall k pg Hk).
  - apply aligned_mod. apply (bool_decide_unpack _). vm_compute. exact I.
  - assert (elements (dom (pageCache (fs twelve_tree))) = [8192; 4096; 0]) as -> by (vm_compute; reflexivity).
    apply Permutation_skip, Permutation_swap.
  - vm_compute. reflexivity.
  - destruct (pages twelve_tree !! 4096) as [page|] eqn:Ek; [|by vm_compute in Ek].
    assert (isDirty page = true) as Hd by (vm_compute in Ek; injection Ek as <-; reflexivity).
    destruct (proj1 (Hp 4096 page Ek ltac:(lia)) Hd) as (buf & He & Hr).
    exists page, buf. split; [reflexivity|]. split; [exact He|exact Hr].
Defined.
