(* ===== verification/Faults.v ===== *)
(** * Page file and metadata file when the disk fails ([storage.go], [btree.go])

    [Storage] and [BTree] take writes as succeeding.  Here each call of
    [WriteAt], [Write], [Seek] and [Sync] may fail, a write after any number of
    bytes.  A function is a state transformer that keeps the state when it
    returns an error or panics, as the file does.  Without faults these are the
    functions of the other files. *)
From S2P Require Import Prelude Keys Slice Codec Node Leaf NodeCodec Storage BTree TreeFrame TreeMap TreeLimits Flush.

Local Open Scope Z_scope.

(** ** State and errors *)

Definition io (S A : Type) : Type := S -> S * outcome A.

Definition io_ret {S A} (a : A) : io S A := fun s => (s, Ok a).
Definition io_bind {S A B} (m : io S A) (f : A -> io S B) : io S B :=
  fun s => match m s with
           | (s, Ok a) => f a s
           | (s, Err e) => (s, Err e)
           | (s, Panic p) => (s, Panic p)
           end.
Definition io_lift {S A} (m : outcome A) : io S A := fun s => (s, m).
(** [fmt.Errorf] around a call, and a panic with it. *)
Definition io_wrap {S A} (t : string) (m : io S A) : io S A :=
  fun s => let '(s, r) := m s in (s, wrap_err t r).
Definition io_panic {S A} (t : string) (m : io S A) : io S A :=
  fun s => let '(s, r) := m s in (s, panic_err t r).
(** A call whose error is dropped. *)
Definition io_drop {S} (m : io S unit) : io S unit :=
  fun s => let '(s, r) := m s in (s, match r with Err _ => Ok tt | _ => r end).

#[local] Notation "'let!' x := m 'in' f" := (io_bind m (fun x => f))
  (at level 100, x name, m at level 100, f at level 200).
#[local] Notation "m ;; f" := (io_bind m (fun _ => f)) (at level 100, right associativity).

(** ** Files *)

(** A call that fails; a write did [fl_written] of its bytes before. *)
Record fault := mkFault { fl_written : nat; fl_error : goerr }.

(** The file, the position of [Read] and [Write], the content that the last
    successful [Sync] made durable, and the answers of the calls to come; when
    they run out every call succeeds. *)
Record osfile := mkFile {
  of_content : bytes;
  of_pos : Z;
  of_synced : bytes;
  of_answers : list (option fault);
}.

Definition set_content (x : bytes) (f : osfile) : osfile :=
  mkFile x (of_pos f) (of_synced f) (of_answers f).

Definition next_answer (f : osfile) : option fault * osfile :=
  match of_answers f with
  | [] => (None, f)
  | a :: l => (a, mkFile (of_content f) (of_pos f) (of_synced f) l)
  end.

(** The first [n] bytes of a write. *)
Definition write_some (n : nat) (file : bytes) (off : Z) (data : bytes) : bytes :=
  match n with
  | O => file
  | _ => match write_at file off (take n data) with Ok x => x | _ => file end
  end.

Definition file_WriteAt (data : bytes) (off : Z) : io osfile unit := fun f =>
  match write_at (of_content f) off data with
  | Ok x =>
      match next_answer f with
      | (None, f) => (set_content x f, Ok tt)
      | (Some b, f) => (set_content (write_some (fl_written b) (of_content f) off data) f, Err (fl_error b))
      end
  | Err e => (f, Err e)
  | Panic p => (f, Panic p)
  end.

Definition file_Sync : io osfile unit := fun f =>
  match next_answer f with
  | (None, f) => (mkFile (of_content f) (of_pos f) (of_content f) (of_answers f), Ok tt)
  | (Some b, f) => (f, Err (fl_error b))
  end.

(** [Seek(off, io.SeekStart)]. *)
Definition file_Seek (off : Z) : io osfile unit := fun f =>
  match next_answer f with
  | (None, f) => (mkFile (of_content f) off (of_synced f) (of_answers f), Ok tt)
  | (Some b, f) => (f, Err (fl_error b))
  end.

(** [binary.Write]: a write at the position. *)
Definition file_Write (data : bytes) : io osfile unit := fun f =>
  let n := match fst (next_answer f) with None => length data | Some b => Nat.min (fl_written b) (length data) end in
  let '(f', r) := file_WriteAt data (of_pos f) f in
  (mkFile (of_content f') (of_pos f + Z.of_nat n) (of_synced f') (of_answers f'), r).

(** ** The page store *)

(** The fields of [fileStore], with the file as above. *)
Record diskStore := mkDiskStore {
  st_file : osfile;
  st_cache : gmap Z Node;
  st_next : Z;
  st_root : Z;
}.

Definition set_st_file (x : osfile) (s : diskStore) : diskStore := mkDiskStore x (st_cache s) (st_next s) (st_root s).
Definition set_st_cache (x : gmap Z Node) (s : diskStore) : diskStore := mkDiskStore (st_file s) x (st_next s) (st_root s).

Definition on_file {A} (m : io osfile A) : io diskStore A := fun s =>
  let '(x, r) := m (st_file s) in (set_st_file x s, r).
Definition modify (f : diskStore -> diskStore) : io diskStore unit := fun s => (f s, Ok tt).

Definition update_io (node : Node) : io diskStore unit :=
  let! buf := io_wrap "encode node" (io_lift (encode node)) in
  io_wrap "write" (on_file (file_WriteAt buf (i64 (fileOffset node))));;
  io_wrap "sync" (on_file file_Sync);;
  modify (fun s => set_st_cache (<[i64 (fileOffset node) := node]> (st_cache s)) s).

Definition save_io : io diskStore unit := fun s =>
  on_file (file_WriteAt (le_bytes 8 (st_root s) ++ le_bytes 8 (st_next s)) 0) s.

Fixpoint flush_loop_io (ord : list Z) : io diskStore unit :=
  match ord with
  | [] => io_ret tt
  | k :: ord => fun s =>
      match st_cache s !! k with
      | None => flush_loop_io ord s
      | Some page =>
          if negb (isDirty page) then flush_loop_io ord s
          else
            (io_wrap "update page" (update_io page);;
             modify (fun s => set_st_cache (<[k := markClean page]> (st_cache s)) s);;
             flush_loop_io ord) s
      end
  end.

Definition flushPages_io (ord : list Z) : io diskStore unit :=
  flush_loop_io ord;; io_drop save_io.

(** One tick of the flusher: an error ends the process. *)
Definition flusher_tick_io (ord : list Z) : io diskStore unit :=
  io_panic "flushPages()" (flushPages_io ord).

(** ** The metadata file *)

Definition updateMeta_io (lastApplied lastCommitIndex : Z) : io osfile unit :=
  io_panic "updateMeta: seek" (file_Seek 0);;
  io_panic "updateMeta: write last commit" (file_Write (le_bytes 8 lastCommitIndex));;
  io_panic "updateMeta: write last applied" (file_Write (le_bytes 8 lastApplied));;
  io_panic "updateMeta: sync" file_Sync.

(** What [readMeta] reads from a metadata file. *)
Definition meta_of (file : bytes) : outcome (Z * Z) := readMeta (mkBTree (mkFileStore [] ∅ 0 0) 0 0 file).

(** ** Without faults *)

Definition plain (s : diskStore) : fileStore :=
  mkFileStore (of_content (st_file s)) (st_cache s) (st_next s) (st_root s).

Definition fine (s : diskStore) : Prop := of_answers (st_file s) = [].

Lemma update_io_fine node s :
  fine s -> exists s', update_io node s = (s', (fun _ => tt) <$> update node (plain s)) /\ fine s' /\
    forall f, update node (plain s) = Ok f -> plain s' = f.
Proof.
  unfold fine. destruct s as [[content pos synced ans] c nx rt]. cbn. intros ->.
  unfold update_io, update, io_bind, io_wrap, io_lift, on_file, file_WriteAt, file_Sync. cbn.
  destruct (encode node) as [buf|e|p]; cbn; [|by eexists..].
  destruct (write_at content (i64 (fileOffset node)) buf) as [x|e|p]; cbn; [|by eexists..].
  eexists. split; [done|]. split; [done|]. by intros f [= <-].
Qed.

Lemma flush_loop_io_fine ord s :
  fine s -> exists s', flush_loop_io ord s = (s', (fun _ => tt) <$> flush_loop ord (plain s)) /\ fine s' /\
    forall f, flush_loop ord (plain s) = Ok f -> plain s' = f.
Proof.
  revert s. induction ord as [|k ord IH]; intros s Hs; cbn [flush_loop_io flush_loop].
  - exists s. split_and!; [done|done|]. by intros f [= <-].
  - change (pageCache (plain s)) with (st_cache s). destruct (st_cache s !! k) as [page|]; [|by apply IH].
    destruct (negb (isDirty page)); [by apply IH|].
    destruct (update_io_fine page s Hs) as (s1 & E & Hs1 & Hf). unfold io_bind, io_wrap. rewrite E.
    destruct (update page (plain s)) as [f1|e|p]; cbn [fmap outcome_fmap wrap_err mbind outcome_bind]; [|by exists s1..].
    specialize (Hf f1 eq_refl). cbn [modify].
    destruct (IH (set_st_cache (<[k:=markClean page]> (st_cache s1)) s1) Hs1) as (s2 & E2 & Hs2 & Hf2).
    replace (set_pageCache (<[k:=markClean page]> (pageCache f1)) f1)
      with (plain (set_st_cache (<[k:=markClean page]> (st_cache s1)) s1)) by by rewrite <- Hf.
    exists s2. by split_and!.
Qed.

(** When no call fails, a flush is the one of [Storage]. *)
Lemma flushPages_io_fine ord s :
  fine s -> exists s', flushPages_io ord s = (s', (fun _ => tt) <$> flushPages ord (plain s)) /\ fine s' /\
    forall f, flushPages ord (plain s) = Ok f -> plain s' = f.
Proof.
  intros Hs. destruct (flush_loop_io_fine ord s Hs) as (s1 & E & Hs1 & Hf).
  unfold flushPages_io, flushPages, io_bind. rewrite E.
  destruct (flush_loop ord (plain s)) as [f1|e|p]; cbn [fmap outcome_fmap mbind outcome_bind]; [|by exists s1..].
  specialize (Hf f1 eq_refl). subst f1. unfold fine in Hs1. destruct s1 as [[content pos synced ans] c nx rt].
  cbn in Hs1. subst ans. unfold io_drop, save_io, on_file, file_WriteAt, save. cbn.
  eexists. split; [done|]. split; [done|]. by intros f [= <-].
Qed.

(** ** What a fault leaves of the pages *)

(** A write that was cut leaves what is apart from it. *)
Lemma write_some_apart n file off data a m d x :
  write_at file off data = Ok x -> read_at file a m = Ok d -> 0 <= m ->
  a + m <= off \/ off + zlen data <= a -> read_at (write_some n file off data) a m = Ok d.
Proof.
  intros Hw Hr Hm Hapart. unfold write_some. destruct n as [|n]; [done|].
  destruct (write_at file off (take (S n) data)) as [y| |] eqn:E; [|done..].
  eapply read_apart; [exact E|done|done|]. unfold zlen in *. rewrite length_take. lia.
Qed.

(** The file as a program reads it, and as a crash of the machine leaves it,
    hold [d] at the place of page [k]. *)
Definition reads (s : diskStore) (k : Z) (d : bytes) : Prop :=
  read_at (of_content (st_file s)) k pageSize = Ok d /\ read_at (of_synced (st_file s)) k pageSize = Ok d.

Definition durable (s : diskStore) (k : Z) (n : Node) : Prop :=
  exists buf, encode n = Ok buf /\ reads s k buf.

Definition kept (s s' : diskStore) (k : Z) : Prop := forall d, reads s k d -> reads s' k d.

Lemma kept_refl s k : kept s s k.
Proof. by intros d. Qed.

#[local] Hint Resolve kept_refl : core.

Lemma kept_durable s s' k n : kept s s' k -> durable s k n -> durable s' k n.
Proof. intros H (buf & He & Hr). exists buf. auto. Qed.

(** A write to a page, cut or not. *)
Lemma WriteAt_cases data off f f' r :
  file_WriteAt data off f = (f', r) ->
  of_synced f' = of_synced f /\
  (forall a m d, read_at (of_content f) a m = Ok d -> 0 <= m -> a + m <= off \/ off + zlen data <= a ->
    read_at (of_content f') a m = Ok d) /\
  (r = Ok tt -> write_at (of_content f) off data = Ok (of_content f')).
Proof.
  unfold file_WriteAt, next_answer. destruct (write_at (of_content f) off data) as [x|e|p] eqn:E.
  - destruct (of_answers f) as [|[b|] l]; intros [= <- <-]; cbn.
    + split_and!; [done| |done]. intros. by eapply read_apart.
    + split_and!; [done| |done]. intros. by eapply write_some_apart.
    + split_and!; [done| |done]. intros. by eapply read_apart.
  - intros [= <- <-]. by split_and!.
  - intros [= <- <-]. by split_and!.
Qed.

Lemma Sync_cases f f' r :
  file_Sync f = (f', r) -> of_content f' = of_content f /\
  (of_synced f' = of_synced f \/ of_synced f' = of_content f) /\ (r = Ok tt -> of_synced f' = of_content f).
Proof.
  unfold file_Sync, next_answer. destruct (of_answers f) as [|[b|] l]; intros [= <- <-]; cbn;
    (split_and!; [done|by auto|done]).
Qed.

Lemma update_io_cases node s s' r k :
  update_io node s = (s', r) -> i64 (fileOffset node) = k -> aligned (st_cache s) ->
  st_cache s !! k = Some node ->
  st_cache s' = st_cache s /\
  (forall j m, j <> k -> st_cache s !! j = Some m -> kept s s' j) /\
  (r = Ok tt -> durable s' k node).
Proof.
  unfold update_io, io_bind, io_wrap, io_lift, on_file. intros H Ek Ha Hk.
  destruct (encode node) as [buf|e|p] eqn:En; cbn in H.
  2: { injection H as <- <-. split_and!; auto. done. }
  2: { injection H as <- <-. split_and!; auto. done. }
  rewrite Ek in H. destruct (file_WriteAt buf k (st_file s)) as [f1 r1] eqn:E1.
  destruct (WriteAt_cases _ _ _ _ _ E1) as (Hsy & Hapart & Hw).
  assert (Hother : forall j m d, j <> k -> st_cache s !! j = Some m -> reads s j d ->
    read_at (of_content f1) j pageSize = Ok d).
  { intros j m d Hne Hj [Hd _]. apply (Hapart j pageSize d Hd ltac:(done)).
    rewrite (encode_length _ _ En). eapply aligned_apart; [exact Ha|exact Hj|exact Hk|done]. }
  assert (Hfirst : forall j m, j <> k -> st_cache s !! j = Some m -> kept s (set_st_file f1 s) j).
  { intros j m Hne Hj d Hd. split; cbn; [by eapply Hother|]. rewrite Hsy. apply Hd. }
  destruct r1 as [[]|e|p]; cbn in H; [|by injection H as <- <-; split_and!..].
  destruct (file_Sync f1) as [f2 r2] eqn:E2. destruct (Sync_cases _ _ _ E2) as (Hc2 & Hs2 & Hok2).
  assert (Hsecond : forall j m c, j <> k -> st_cache s !! j = Some m ->
    kept s (mkDiskStore f2 c (st_next s) (st_root s)) j).
  { intros j m c Hne Hj d Hd. split; cbn.
    - rewrite Hc2. by eapply Hother.
    - destruct Hs2 as [->| ->]; [rewrite Hsy; apply Hd|by eapply Hother]. }
  destruct r2 as [[]|e|p]; cbn in H; injection H as <- <-; cbn.
  - split; [by apply insert_id|]. split; [intros; by eapply Hsecond|]. intros _.
    exists buf. split; [done|]. specialize (Hw eq_refl). specialize (Hok2 eq_refl).
    apply read_write_at in Hw. rewrite (encode_length _ _ En) in Hw.
    split; cbn; [by rewrite Hc2|by rewrite Hok2].
  - split_and!; [done| |done]. intros. by eapply Hsecond.
  - split_and!; [done| |done]. intros. by eapply Hsecond.
Qed.

(** What the loop may do to the page at [k]. *)
Record flushed_to (ord : list Z) (s s' : diskStore) (r : outcome unit) (k : Z) (page : Node) : Prop := {
  ft_cases : st_cache s' !! k = Some page \/
    (st_cache s' !! k = Some (markClean page) /\ isDirty page = true /\ durable s' k page);
  ft_clean : k ∉ ord \/ isDirty page = false -> st_cache s' !! k = Some page /\ kept s s' k;
  ft_done : r = Ok tt -> k ∈ ord -> st_cache s' !! k = Some (markClean page);
}.

Lemma markClean_clean page : isDirty page = false -> markClean page = page.
Proof. destruct page. cbn. by intros ->. Qed.

(** The loop ends at page [j], which could not be written. *)
Lemma flushed_stop j ord s s1 r pj k page :
  st_cache s1 = st_cache s -> isDirty pj = true -> st_cache s !! j = Some pj ->
  (forall i m, i <> j -> st_cache s !! i = Some m -> kept s s1 i) -> r <> Ok tt ->
  st_cache s !! k = Some page -> flushed_to (j :: ord) s s1 r k page.
Proof.
  intros Ec Ed Ej Hother Hr Hk. split; rewrite ?Ec; [by left| |done].
  rewrite not_elem_of_cons. destruct (decide (k = j)) as [->|Hne]; [|intros _; by eauto].
  assert (page = pj) as -> by congruence. intros [[? _]|?]; [done|congruence].
Qed.

Lemma flush_loop_io_cases ord s s' r :
  NoDup ord -> filed (st_cache s) -> aligned (st_cache s) -> flush_loop_io ord s = (s', r) ->
  forall k page, st_cache s !! k = Some page -> flushed_to ord s s' r k page.
Proof.
  intros Hnd. revert s. induction Hnd as [|j ord Hj Hnd IH]; intros s Hf Ha Hl k page Hk.
  { injection Hl as <- <-. split; [by left|done|]. by intros _ ?%not_elem_of_nil. }
  cbn in Hl. destruct (st_cache s !! j) as [pj|] eqn:Ej.
  2: { destruct (IH s Hf Ha Hl k page Hk) as [H1 H2 H3].
       assert (k <> j) by congruence.
       split; [done| |]; rewrite ?not_elem_of_cons, ?elem_of_cons; [intros [[? ?]|?]; auto|].
       intros ? [?|?]; [done|auto]. }
  destruct (isDirty pj) eqn:Ed; cbn [negb] in Hl.
  2: { destruct (IH s Hf Ha Hl k page Hk) as [H1 H2 H3]. destruct (decide (k = j)) as [->|Hne].
       - assert (page = pj) as -> by congruence. destruct (H2 ltac:(by left)). split; [done|done|].
         intros _ _. by rewrite markClean_clean.
       - split; [done| |]; rewrite ?not_elem_of_cons, ?elem_of_cons; [intros [[? ?]|?]; auto|].
         intros ? [?|?]; [done|auto]. }
  unfold io_bind, io_wrap in Hl. destruct (update_io pj s) as [s1 r1] eqn:Eu.
  destruct (update_io_cases pj s s1 r1 j Eu (Hf j pj Ej) Ha Ej) as (Ec & Hother & Hdone).
  destruct r1 as [[]|e|p]; cbn [wrap_err] in Hl.
  2,3: injection Hl as <- <-; by apply (flushed_stop j ord s s1 _ pj).
  cbn [modify] in Hl. set (s2 := set_st_cache (<[j:=markClean pj]> (st_cache s1)) s1) in Hl.
  assert (st_cache s2 = <[j:=markClean pj]> (st_cache s)) as Ec2 by (cbn; by rewrite Ec).
  assert (filed (st_cache s2)) as Hf2 by (rewrite Ec2; apply filed_insert; [done|exact (Hf j pj Ej)]).
  assert (aligned (st_cache s2)) as Ha2.
  { rewrite Ec2. intros i m. rewrite lookup_insert. case_decide; [subst|apply Ha]. intros _. by eapply Ha. }
  specialize (IH s2 Hf2 Ha2 Hl k). rewrite Ec2 in IH. destruct (decide (k = j)) as [->|Hne].
  - assert (page = pj) as -> by congruence. rewrite lookup_insert_eq in IH.
    destruct (IH (markClean pj) eq_refl) as [_ H2 _]. destruct (H2 ltac:(by left)) as [E2 K2].
    assert (durable s' j pj) as Hd by (apply (kept_durable s2 s'); [done|exact (Hdone eq_refl)]).
    split; [by right|intros [Hn|?]; [|congruence]|done]. by rewrite not_elem_of_cons in Hn; destruct Hn.
  - rewrite lookup_insert_ne in IH by done. destruct (IH page Hk) as [H1 H2 H3].
    split; [done| |]; rewrite ?not_elem_of_cons, ?elem_of_cons.
    + intros Hor. destruct (H2 ltac:(tauto)) as [E2 K2]. split; [done|].
      intros d Hd. apply K2. exact (Hother k page Hne Hk d Hd).
    + intros ? [?|?]; [done|auto].
Qed.

(** Writing the header touches no page but the first. *)
Lemma save_io_cases s s' r :
  io_drop save_io s = (s', r) -> r = Ok tt /\ st_cache s' = st_cache s /\
  of_synced (st_file s') = of_synced (st_file s) /\
  forall k, k <> 0 -> 0 <= k -> (pageSize | k) -> kept s s' k.
Proof.
  unfold io_drop, save_io, on_file. set (hd := le_bytes 8 _ ++ _).
  destruct (file_WriteAt hd 0 (st_file s)) as [f' r'] eqn:E. intros [= <- <-].
  destruct (WriteAt_cases _ _ _ _ _ E) as (Hsy & Hapart & _).
  assert (Hnp : forall p, r' <> Panic p).
  { unfold file_WriteAt in E. destruct (write_at_Ok (of_content (st_file s)) 0 hd) as (x & Ex); [done|]. rewrite Ex in E.
    destruct (next_answer (st_file s)) as [[b|] g]; injection E as <- <-; done. }
  split; [by destruct r' as [[]|e|p]; [| |destruct (Hnp p)]|]. split; [done|]. split; [done|].
  intros k Hne Hk [q ->] d [H1 H2]. split; cbn; [|by rewrite Hsy].
  apply (Hapart _ pageSize d H1 ltac:(done)). right. unfold hd, zlen.
  rewrite length_app, !length_le_bytes. unfold pageSize in *. lia.
Qed.

(** C31: whichever calls fail, and after however many bytes: a flush marks a
    page clean only if its encoding is at its place in the file and has been
    synced, so that a crash keeps it; every other page stays as it is, what the
    file holds of a clean page too.  If the flush returns no error, it has
    marked every page it came by.  The page at offset 0 is left out: the header
    is written over it. *)
Theorem faulty_flush_safe ord s s' r k page :
  filed (st_cache s) -> aligned (st_cache s) -> NoDup ord -> flushPages_io ord s = (s', r) ->
  st_cache s !! k = Some page -> k <> 0 ->
  ((st_cache s' !! k = Some page /\ (isDirty page = false -> kept s s' k)) \/
   (st_cache s' !! k = Some (markClean page) /\ isDirty page = true /\ durable s' k page)) /\
  (r = Ok tt -> k ∈ ord -> st_cache s' !! k = Some (markClean page)).
Proof.
  intros Hf Ha Hnd H Hk Hne. unfold flushPages_io, io_bind in H.
  destruct (flush_loop_io ord s) as [s1 r1] eqn:El.
  pose proof (flush_loop_io_cases ord s s1 r1 Hnd Hf Ha El) as Hall.
  destruct (Hall k page Hk) as [H1 H2 H3].
  assert (Hloop : (st_cache s1 !! k = Some page /\ (isDirty page = false -> kept s s1 k)) \/
    (st_cache s1 !! k = Some (markClean page) /\ isDirty page = true /\ durable s1 k page)).
  { destruct H1 as [E|?]; [left|by right]. split; [done|]. intros Hc. by apply H2; right. }
  destruct r1 as [[]|e|p]; [|by injection H as <- <-..].
  destruct (save_io_cases s1 s' r H) as (-> & Ec & _ & Hkeep). rewrite Ec.
  destruct (Ha k page Hk) as [Hpos Hdiv]. specialize (Hkeep k Hne Hpos Hdiv).
  split; [|by intros _; apply H3].
  destruct Hloop as [[E Hc]|(E & Ed & Hd)].
  - left. split; [done|]. intros Hcl d Hr. by apply Hkeep, Hc.
  - right. split_and!; [done|done|by eapply kept_durable].
Qed.

(** [flushPages] drops the error of [save], and [save] does not sync: whether
    the header was written, and what of it a crash keeps, is not known to the
    caller. *)
Theorem header_unguarded ord s s1 r1 s' r :
  flush_loop_io ord s = (s1, r1) -> flushPages_io ord s = (s', r) ->
  r = r1 /\ of_synced (st_file s') = of_synced (st_file s1).
Proof.
  intros El H. unfold flushPages_io, io_bind in H. rewrite El in H.
  destruct r1 as [[]|e|p]; [|by injection H as <- <-..].
  by destruct (save_io_cases s1 s' r H) as (-> & _ & ? & _).
Qed.

(** ** Examples *)

#[local] Existing Instance doubling.

(** The twelve puts of [Flush], on a disk with the given answers. *)
Definition on_disk_with (answers : list (option fault)) (f : fileStore) : diskStore :=
  mkDiskStore (mkFile (fs_file f) 0 (fs_file f) answers) (pageCache f) (nextFreeOffset f) (fs_rootOffset f).

(** The write of the second page is cut after 100 bytes. *)
Definition cut_write : list (option fault) := [None; None; Some (mkFault 100 (ErrMsg "disk full"))].

Example flush_cut :
  (flushPages_io [4096; 0; 8192] (on_disk_with cut_write (fs twelve_tree))).2 =
    Err (ErrWrap "update page" (ErrWrap "write" (ErrMsg "disk full"))) /\
  isDirty <$> st_cache (flushPages_io [4096; 0; 8192] (on_disk_with cut_write (fs twelve_tree))).1 =
    {[0 := true; 4096 := false; 8192 := false]}.
Proof. vm_compute. split; reflexivity. Qed.

Definition faulty_twelve : diskStore := on_disk_with cut_write (fs twelve_tree).
Definition flushed_faulty : diskStore := (flushPages_io [4096; 0; 8192] faulty_twelve).1.

Lemma faulty_flush_safe_witness :
  exists page buf, pages twelve_tree !! 4096 = Some page /\ encode page = Ok buf /\
    reads flushed_faulty 4096 buf.
Proof.
  destruct (pages twelve_tree !! 4096) as [page|] eqn:Ek; [|vm_compute in Ek; discriminate Ek].
  destruct (flushPages_io [4096; 0; 8192] faulty_twelve) as [s' r] eqn:Ef.
  destruct (faulty_flush_safe [4096; 0; 8192] faulty_twelve s' r 4096 page) as [[[E _]|(_ & _ & buf & He & Hr)] _].
  - intros k pg Hk. assert (map_Forall (fun k pg => i64 (fileOffset pg) = k) (pages twelve_tree)) as Hall
      by (apply (bool_decide_unpack _); vm_compute; exact I).
    exact (Hall k pg Hk).
  - apply aligned_mod. apply (bool_decide_unpack _). vm_compute. exact I.
  - apply (bool_decide_unpack _). vm_compute. exact I.
  - exact Ef.
  - exact Ek.
  - discriminate.
  - exfalso. assert (isDirty page = true /\ isDirty <$> st_cache flushed_faulty !! 4096 = Some false) as [Hd Hc].
    { vm_compute in Ek. injection Ek as <-. vm_compute. split; reflexivity. }
    unfold flushed_faulty in Hc. rewrite Ef in Hc. cbn [fst] in Hc. rewrite E in Hc. cbn in Hc. congruence.
  - exists page, buf. split; [reflexivity|]. split; [exact He|].
    unfold flushed_faulty. rewrite Ef. exact Hr.
Defined.

(** The header is not written, and the flush returns [nil]. *)
Example header_lost :
  let s := on_disk_with [None; None; None; None; Some (mkFault 0 (ErrMsg "disk full"))] (fs twelve_tree) in
  let '(s', r) := flushPages_io [4096; 0; 8192] s in
  r = Ok tt /\ st_next s' = 12288 /\
  take 16 (of_content (st_file s')) <> le_bytes 8 (st_root s') ++ le_bytes 8 (st_next s').
Proof. vm_compute. split_and!; [reflexivity|reflexivity|discriminate]. Qed.

(** ** The metadata file *)

Lemma write_at_front file data : write_at file 0 data = Ok (data ++ drop (length data) file).
Proof. unfold write_at. cbn [Z.ltb Z.compare Z.to_nat Nat.sub replicate]. by rewrite app_nil_r. Qed.

(** A write that stops: the first [k] bytes take their place. *)
Lemma write_at_split (x y data : bytes) :
  write_at (x ++ y) (zlen x) data = Ok (x ++ data ++ drop (length data) y).
Proof.
  unfold write_at, zlen. rewrite (proj2 (Z.ltb_ge _ _)), Nat2Z.id by lia.
  replace (length x - length (x ++ y))%nat with O by (rewrite length_app; lia).
  cbn [replicate]. by rewrite app_nil_r, take_app_length, <- drop_drop, drop_app_length.
Qed.

Lemma next_content f o g : next_answer f = (o, g) -> of_content g = of_content f.
Proof. unfold next_answer. by destruct (of_answers f); intros [= <- <-]. Qed.

Lemma Write_prefix data f f' r (x y : bytes) :
  of_content f = x ++ y -> of_pos f = zlen x -> file_Write data f = (f', r) ->
  exists k, (k <= length data)%nat /\ of_content f' = x ++ take k data ++ drop k y /\
    ((r = Ok tt /\ k = length data /\ of_pos f' = zlen (x ++ data)) \/ exists e, r = Err e).
Proof.
  intros Ec Ep. unfold file_Write, file_WriteAt. rewrite Ec, Ep, write_at_split.
  destruct (next_answer f) as [[b|] g] eqn:E; cbn [fst]; intros [= <- <-]; cbn [set_content of_content of_pos].
  - exists (Nat.min (fl_written b) (length data)). split; [lia|]. split; [|right; by eexists].
    rewrite (next_content _ _ _ E), Ec.
    unfold write_some. destruct (fl_written b) as [|n]; [done|]. rewrite write_at_split, length_take.
    by rewrite <- take_take, firstn_all.
  - exists (length data). split; [done|]. rewrite take_ge by done. split; [done|]. left.
    split_and!; [done|done|]. unfold zlen. rewrite length_app. lia.
Qed.

Lemma write_at_second (x y data : bytes) :
  length x = 8%nat -> write_at (x ++ y) 8 data = Ok (x ++ data ++ drop (length data) y).
Proof.
  intros H. unfold write_at. cbn [Z.ltb Z.compare]. change (Z.to_nat 8) with 8%nat.
  replace (8 - length (x ++ y))%nat with O by (rewrite length_app; lia).
  cbn [replicate]. rewrite app_nil_r, take_app_length' by done.
  rewrite <- drop_drop, drop_app_length' by done. done.
Qed.

(** [updateMeta] of [BTree], when no call fails. *)
Lemma updateMeta_io_fine a c f (b : BTree) :
  of_answers f = [] -> bt_meta b = of_content f ->
  exists f', updateMeta_io a c f = (f', Ok tt) /\
    updateMeta a c b = Ok (mkBTree (fs b) (root b) (rootOffset b) (of_content f')) /\
    of_synced f' = of_content f'.
Proof.
  destruct f as [content pos synced ans]. cbn [of_answers of_content]. intros -> Eb.
  unfold updateMeta. rewrite Eb, write_at_front. cbn [panic_err mbind outcome_bind].
  set (new := (le_bytes 8 c ++ le_bytes 8 a) ++ _).
  exists (mkFile new 16 new []). split; [|done].
  unfold updateMeta_io, io_bind, io_panic, file_Seek, file_Write, file_WriteAt. cbn -[le_bytes write_at].
  rewrite write_at_front, length_le_bytes. cbn -[le_bytes write_at].
  rewrite write_at_second by apply length_le_bytes. rewrite !length_le_bytes, drop_drop. cbn -[le_bytes].
  unfold new. rewrite length_app, !length_le_bytes, <- app_assoc. done.
Qed.

Lemma read_int64_rest buf z rest : read_int64 buf = Ok (z, rest) -> rest = drop 8 buf.
Proof.
  unfold read_int64, read_uint, read_full. change (Z.of_nat 8 =? 0) with false.
  destruct (zlen buf =? 0); [done|]. destruct (zlen buf <? Z.of_nat 8); [done|].
  cbn -[drop take le_val]. by intros [= _ <-].
Qed.

(** The file after the first write, and after both. *)
Lemma meta_of_first content c c0 a0 :
  - 2 ^ 63 <= c < 2 ^ 63 -> meta_of content = Ok (c0, a0) ->
  meta_of (le_bytes 8 c ++ drop 8 content) = Ok (c, a0).
Proof.
  intros Hc. unfold meta_of, readMeta. cbn [bt_meta]. rewrite read_int64_app by done.
  destruct (read_int64 content) as [[z rest]|e|p] eqn:E.
  - rewrite <- (read_int64_rest _ _ _ E). destruct (read_int64 rest) as [[x y]|[]|p]; try done; by intros [= _ <-].
  - destruct e; try done. apply read_int64_eof in E as ->. intros [= _ <-]. done.
  - done.
Qed.

Lemma meta_of_both c a rest :
  - 2 ^ 63 <= a < 2 ^ 63 -> - 2 ^ 63 <= c < 2 ^ 63 ->
  meta_of (le_bytes 8 c ++ le_bytes 8 a ++ rest) = Ok (c, a).
Proof. intros Ha Hc. by apply (readMeta_read a c _ rest). Qed.

(** A write that fails does nothing. *)
Definition whole (o : option fault) : Prop := from_option (fun b => fl_written b = O) True o.

Lemma next_whole f o g : next_answer f = (o, g) -> Forall whole (of_answers f) ->
  from_option (fun b => fl_written b = O) True o /\ Forall whole (of_answers g) /\ of_content g = of_content f /\ of_pos g = of_pos f.
Proof.
  unfold next_answer. destruct (of_answers f) as [|x l] eqn:E; intros [= <- <-] Hw.
  - by rewrite E.
  - by inversion Hw.
Qed.

Lemma whole_Write data f f' r x :
  Forall whole (of_answers f) -> write_at (of_content f) (of_pos f) data = Ok x -> file_Write data f = (f', r) ->
  Forall whole (of_answers f') /\
  ((r = Ok tt /\ of_content f' = x /\ of_pos f' = of_pos f + zlen data) \/
   (exists e, r = Err e /\ of_content f' = of_content f)).
Proof.
  intros Hw Hx. unfold file_Write, file_WriteAt. rewrite Hx.
  destruct (next_answer f) as [o g] eqn:E. destruct (next_whole f o g E Hw) as (Ho & Hg & Hcg & _).
  destruct o as [b|]; cbn; intros [= <- <-]; cbn; (split; [done|]).
  - right. exists (fl_error b). split; [done|]. cbn in Ho. by rewrite Ho, <- Hcg.
  - by left.
Qed.

Lemma whole_Seek off f f' r :
  Forall whole (of_answers f) -> file_Seek off f = (f', r) ->
  Forall whole (of_answers f') /\ of_content f' = of_content f /\
  ((r = Ok tt /\ of_pos f' = off) \/ exists e, r = Err e).
Proof.
  intros Hw. unfold file_Seek. destruct (next_answer f) as [o g] eqn:E.
  destruct (next_whole f o g E Hw) as (_ & Hg & Hc & _).
  destruct o as [b|]; intros [= <- <-]; cbn; (split; [done|]); (split; [done|]); [right; by eexists|by left].
Qed.

(** However far a write comes: the file holds the first bytes of the new pair and
    then what it held before, and all of the pair if nothing failed. *)
Lemma updateMeta_prefix a c f f' r :
  updateMeta_io a c f = (f', r) ->
  exists k, (k <= 16)%nat /\
    of_content f' = take k (le_bytes 8 c ++ le_bytes 8 a) ++ drop k (of_content f) /\
    ((r = Ok tt /\ k = 16%nat /\ of_synced f' = of_content f') \/ exists p, r = Panic p).
Proof.
  intros H. unfold updateMeta_io, io_bind, io_panic in H.
  assert (Hlen : forall z, length (le_bytes 8 z) = 8%nat) by (intros z; apply length_le_bytes).
  destruct (file_Seek 0 f) as [f1 r1] eqn:E1. unfold file_Seek in E1.
  destruct (next_answer f) as [[b|] g] eqn:E; pose proof (next_content _ _ _ E) as Eg;
    injection E1 as <- <-; cbn [panic_err] in H.
  { injection H as <- <-. exists O. split; [lia|]. split; [exact Eg|right; by eexists]. }
  destruct (file_Write (le_bytes 8 c) _) as [f2 r2] eqn:E2.
  destruct (Write_prefix (le_bytes 8 c) (mkFile (of_content g) 0 (of_synced g) (of_answers g)) f2 r2 [] (of_content f) Eg eq_refl E2)
    as (k & Hk & Hc2 & [(-> & -> & Hp2)|[e ->]]); rewrite Hlen in *.
  2: { injection H as <- <-. exists k. split; [lia|]. rewrite take_app_le by (by rewrite Hlen).
       split; [exact Hc2|right; by eexists]. }
  cbn [panic_err] in H. rewrite take_ge in Hc2 by (by rewrite Hlen). cbn [app] in Hc2, Hp2.
  destruct (file_Write (le_bytes 8 a) f2) as [f3 r3] eqn:E3.
  destruct (Write_prefix (le_bytes 8 a) f2 f3 r3 _ _ Hc2 Hp2 E3) as (k & Hk' & Hc3 & Hr); rewrite Hlen in *.
  assert (of_content f3 = take (8 + k) (le_bytes 8 c ++ le_bytes 8 a) ++ drop (8 + k) (of_content f)) as Hc.
  { by rewrite Hc3, drop_drop, take_app_add', app_assoc by (by rewrite Hlen). }
  destruct Hr as [(-> & -> & _)|[e ->]]; cbn [panic_err] in H.
  2: { injection H as <- <-. exists (8 + k)%nat. split; [lia|]. split; [exact Hc|right; by eexists]. }
  destruct (file_Sync f3) as [f4 r4] eqn:E4. destruct (Sync_cases _ _ _ E4) as (Hc4 & _ & Hs4).
  exists 16%nat. split; [lia|]. rewrite <- Hc4 in Hc. unfold file_Sync in E4.
  destruct (next_answer f3) as [[b|] g3]; injection E4 as <- <-; cbn [panic_err] in H; injection H as <- <-;
    (split; [exact Hc|]); [right; by eexists|left]. split_and!; [done|done|]. by rewrite Hs4, <- Hc4.
Qed.

(** The same when a write that fails writes nothing. *)
Lemma updateMeta_whole a c f f' r c0 a0 :
  - 2 ^ 63 <= a < 2 ^ 63 -> - 2 ^ 63 <= c < 2 ^ 63 -> Forall whole (of_answers f) ->
  meta_of (of_content f) = Ok (c0, a0) -> updateMeta_io a c f = (f', r) ->
  (meta_of (of_content f') = Ok (c, a) /\ r = Ok tt /\ of_synced f' = of_content f') \/
  (exists c' a', meta_of (of_content f') = Ok (c', a') /\ (exists p, r = Panic p) /\
    ((c' = c0 /\ a' = a0) \/ (c' = c /\ (a' = a0 \/ a' = a)))).
Proof.
  intros Ha Hc Hw Hm H. unfold updateMeta_io, io_bind, io_panic in H.
  destruct (file_Seek 0 f) as [f1 r1] eqn:E1. destruct (whole_Seek 0 f f1 r1 Hw E1) as (Hw1 & Hc1 & [[-> Hp1]|[e ->]]).
  2: { injection H as <- <-. right. exists c0, a0. rewrite Hc1. split_and!; [done|by eexists|by left]. }
  cbn [panic_err] in H. destruct (file_Write (le_bytes 8 c) f1) as [f2 r2] eqn:E2.
  destruct (whole_Write (le_bytes 8 c) f1 f2 r2 (le_bytes 8 c ++ drop 8 (of_content f)) Hw1)
    as (Hw2 & [(-> & Hc2 & Hp2)|(e & -> & Hc2)]); [|done| |].
  { by rewrite Hc1, Hp1, write_at_front, length_le_bytes. }
  2: { injection H as <- <-. right. exists c0, a0. rewrite Hc2, Hc1. split_and!; [done|by eexists|by left]. }
  cbn [panic_err] in H. destruct (file_Write (le_bytes 8 a) f2) as [f3 r3] eqn:E3.
  destruct (whole_Write (le_bytes 8 a) f2 f3 r3 (le_bytes 8 c ++ le_bytes 8 a ++ drop 8 (drop 8 (of_content f))) Hw2)
    as (Hw3 & [(-> & Hc3 & Hp3)|(e & -> & Hc3)]); [|done| |].
  { rewrite Hc2, Hp2, Hp1. unfold zlen. rewrite length_le_bytes. change (0 + Z.of_nat 8) with 8.
    by rewrite write_at_second, length_le_bytes by apply length_le_bytes. }
  2: { injection H as <- <-. right. exists c, a0. rewrite Hc3, Hc2.
       split_and!; [by eapply meta_of_first|by eexists|by right; split; [|left]]. }
  cbn [panic_err] in H. destruct (file_Sync f3) as [f4 r4] eqn:E4. destruct (Sync_cases _ _ _ E4) as (Hc4 & _ & Hs4).
  pose proof (meta_of_both c a (drop 8 (drop 8 (of_content f))) Ha Hc) as Hnew. rewrite <- Hc3, <- Hc4 in Hnew.
  unfold file_Sync in E4. destruct (next_answer f3) as [[b|] g]; injection E4 as <- <-; cbn [panic_err] in H;
    injection H as <- <-; [right|left].
  - exists c, a. split_and!; [done|by eexists|by right; split; [|right]].
  - split_and!; [done|done|]. by rewrite Hs4, Hc4.
Qed.

(** C32: [updateMeta] when calls fail, after any number of bytes.  The file holds
    some of the first bytes of the new pair, the commit index before the applied
    index, and after them what it held; the caller panics, unless nothing
    failed, and then the new pair is durable and read back.  When a write that
    fails writes nothing, the file holds the old pair, the new commit index with
    the old applied index, or the new pair, and [readMeta] reads it, so that the
    applied index is not ahead of the commit index if it was not before.  A write
    that is cut inside a number can leave a file that [readMeta] panics on
    ([torn_meta]). *)
Theorem meta_fault_safe a c f f' r c0 a0 :
  - 2 ^ 63 <= a < 2 ^ 63 -> - 2 ^ 63 <= c < 2 ^ 63 ->
  meta_of (of_content f) = Ok (c0, a0) -> updateMeta_io a c f = (f', r) ->
  (exists k, (k <= 16)%nat /\
    of_content f' = take k (le_bytes 8 c ++ le_bytes 8 a) ++ drop k (of_content f)) /\
  ((r = Ok tt /\ meta_of (of_content f') = Ok (c, a) /\ of_synced f' = of_content f') \/ exists p, r = Panic p) /\
  (Forall whole (of_answers f) ->
   exists c' a', meta_of (of_content f') = Ok (c', a') /\
     ((c' = c0 /\ a' = a0) \/ (c' = c /\ (a' = a0 \/ a' = a)))).
Proof.
  intros Ha Hc Hm H. destruct (updateMeta_prefix a c f f' r H) as (k & Hk & Hcon & Hr). split; [by exists k|]. split.
  - destruct Hr as [(-> & -> & Hs)|[p ->]]; [left|right; by eexists]. split_and!; [done| |done].
    rewrite Hcon, take_ge, <- app_assoc by (by rewrite length_app, !length_le_bytes). by apply meta_of_both.
  - intros Hw. destruct (updateMeta_whole a c f f' r c0 a0 Ha Hc Hw Hm H) as [(E & _)|(c' & a' & E & _ & Hor)].
    + exists c, a. split; [done|]. right. split; [done|by right].
    + by exists c', a'.
Qed.

(** The second write fails after the first was done. *)
Definition failing_meta : osfile :=
  mkFile (le_bytes 8 3 ++ le_bytes 8 3) 0 (le_bytes 8 3 ++ le_bytes 8 3)
    [None; None; Some (mkFault 0 (ErrMsg "disk full"))].

Lemma meta_fault_safe_witness :
  (updateMeta_io 5 7 failing_meta).2 = Panic (PanicErr "updateMeta: write last applied" (ErrMsg "disk full")) /\
  exists c' a', meta_of (of_content (updateMeta_io 5 7 failing_meta).1) = Ok (c', a') /\ a' <= c'.
Proof.
  split; [vm_compute; reflexivity|].
  destruct (updateMeta_io 5 7 failing_meta) as [f' r] eqn:E.
  destruct (meta_fault_safe 5 7 failing_meta f' r 3 3) as (_ & _ & H).
  - lia.
  - lia.
  - vm_compute. reflexivity.
  - exact E.
  - destruct H as (c' & a' & Hm & Hor); [repeat constructor|]. exists c', a'. split; [exact Hm|lia].
Defined.

(** A write cut inside a number is another matter: an empty file that got three
    bytes of the first one is not read again, and [readMeta] panics. *)
Example torn_meta :
  let f' := (updateMeta_io 5 7 (mkFile [] 0 [] [None; Some (mkFault 3 (ErrMsg "disk full"))])).1 in
  meta_of (of_content f') = Panic (PanicErr "readMeta: read last commit" ErrUnexpectedEOF).
Proof. vm_compute. reflexivity. Qed.
