(* ===== verification/Proto.v ===== *)
(** * The Raft messages

    The message types of [repl/raft.proto], as the generated Go structs carry
    them: a sub-message is a pointer, so it may be [nil], and the [Get...]
    accessors of the generated code return the zero value through [nil]. *)
From S2P Require Import Prelude.

Local Open Scope Z_scope.

Inductive MessageType :=
  | MSG_UNKNOWN
  | MSG_APP
  | MSG_APP_RESP
  | MSG_VOTE
  | MSG_VOTE_RESP
  | MSG_SNAP
  | MSG_HEARTBEAT
  | MSG_HEARTBEAT_RESP.

Record Cmd := mkCmd {
  cmd_Op : bytes;
  cmd_Key : bytes;
  cmd_Value : bytes;
  cmd_RequestId : Z;
}.

Record Log := mkLog {
  log_Term : Z;
  log_Id : Z;
  log_Data : option Cmd;
}.

Record RequestVote := mkRequestVote {
  rv_Term : option Z;
  rv_CandidateId : Z;
  rv_LastLogIndex : Z;
  rv_LastLogTerm : Z;
}.

Record RequestVoteResponse := mkRequestVoteResponse {
  rvr_Term : Z;
  rvr_VoteGranted : bool;
}.

Record AppendEntries := mkAppendEntries {
  ae_Term : Z;
  ae_LeaderId : Z;
  ae_PrevLogIdx : Z;
  ae_PrevLogTerm : Z;
  ae_Entries : list Log;
  ae_LeaderCommitIdx : Z;
}.

Record AppendEntriesResponse := mkAppendEntriesResponse {
  aer_CurrentTerm : Z;
  aer_Success : bool;
}.

Record Message := mkMessage {
  msg_Type : MessageType;
  msg_To : Z;
  msg_From : Z;
  msg_Vote : option RequestVote;
  msg_VoteResp : option RequestVoteResponse;
  msg_Entries : option AppendEntries;
  msg_EntriesResp : option AppendEntriesResponse;
}.

#[global] Instance MessageType_eq_dec : EqDecision MessageType.
Proof. solve_decision. Defined.
#[global] Instance Cmd_eq_dec : EqDecision Cmd.
Proof. solve_decision. Defined.
#[global] Instance Log_eq_dec : EqDecision Log.
Proof. solve_decision. Defined.

(** A message that carries no sub-message. *)
Definition bare_message (t : MessageType) : Message :=
  mkMessage t 0 0 None None None None.

(** The [nil]-safe accessors. *)
Definition GetKey (c : option Cmd) : bytes := from_option cmd_Key [] c.
Definition GetValue (c : option Cmd) : bytes := from_option cmd_Value [] c.
Definition GetOp (c : option Cmd) : bytes := from_option cmd_Op [] c.
Definition GetRequestId (c : option Cmd) : Z := from_option cmd_RequestId 0 c.
Definition GetVoteTerm (v : RequestVote) : Z := default 0 (rv_Term v).
Definition GetEntries (a : option AppendEntries) : list Log := from_option ae_Entries [] a.

(** The message [DB.Put] hands to [Process]. *)
Definition proposal (c : Cmd) : Message :=
  mkMessage MSG_APP 0 0 None None
    (Some (mkAppendEntries 0 0 0 0 [mkLog 0 0 (Some c)] 0)) None.
