(* ===== verification/Wal.v ===== *)
(** * The write-ahead log ([wal/wal.go])

    [LogManager] keeps the Raft log twice: in memory ([logs]) and in an
    append-only file.  The file is the list of its bytes together with how
    many of them the last successful [Sync] made durable; [Write] and [Sync]
    may fail, so the operations that call them take the operating system's
    answers as an argument.  [Storage] is the interface of the same name, with
    the laws its clients ([Replay.v], the Raft node) rely on. *)
From S2P Require Import Prelude Codec Proto.

Local Open Scope Z_scope.

(** ** State *)

Record LogManager := mkLogManager {
  lm_logs : list Log;
  lm_SyncThreshold : Z;
  lm_file : bytes;
  lm_synced : nat;
  lm_open : bool;
}.

(** What the operating system answers to one [Write] and one [Sync]. *)
Record disk_answer := mkDiskAnswer {
  write_answer : option goerr;
  sync_answer : option goerr;
}.
Definition disk_fine : disk_answer := mkDiskAnswer None None.

(** ** The record format *)

Definition encode_entry (log : Log) : bytes :=
  le_bytes 8 (log_Term log) ++
  le_bytes 8 (log_Id log) ++
  le_bytes 4 (u32 (zlen (GetKey (log_Data log)))) ++
  le_bytes 4 (u32 (zlen (GetValue (log_Data log)))) ++
  le_bytes 4 (u32 (zlen (GetOp (log_Data log)))) ++
  GetKey (log_Data log) ++
  GetValue (log_Data log) ++
  GetOp (log_Data log).

Definition encodeLog (logs : list Log) : bytes := concat (encode_entry <$> logs).

(** The body of the decoding loop after the term was read. *)
Definition decode_entry_tail (term : Z) (buf : bytes) : outcome (Log * bytes) :=
  '(id, buf) ← read_int64 buf;
  '(keyLen, buf) ← read_uint 4 buf;
  '(valueLen, buf) ← read_uint 4 buf;
  '(opLen, buf) ← read_uint 4 buf;
  '(key, buf) ← read_full keyLen buf;
  '(value, buf) ← read_full valueLen buf;
  '(op, buf) ← read_full opLen buf;
  Ok (mkLog term id (Some (mkCmd op key value 0)), buf).

(** [for { ... }]: leaves the loop on a clean end of file only. *)
Fixpoint decodeLogs_loop (fuel : nat) (buf : bytes) (logs : list Log)
    : outcome (list Log) :=
  match fuel with
  | O => Panic OutOfFuel
  | S fuel =>
      match read_int64 buf with
      | Err ErrEOF => Ok logs
      | Err e => Err e
      | Panic p => Panic p
      | Ok (term, buf) =>
          '(log, buf) ← decode_entry_tail term buf;
          decodeLogs_loop fuel buf (logs ++ [log])
      end
  end.

(** Every record takes at least one byte, so the length of the file bounds
    the number of iterations. *)
Definition decodeLogs (file : bytes) : outcome (list Log) :=
  decodeLogs_loop (S (length file)) file [].

#[global] Arguments encode_entry : simpl never.

(** ** Operations *)

Definition readWAL (lm : LogManager) : outcome LogManager :=
  logs ← panic_err "recover" (decodeLogs (lm_file lm));
  Ok (mkLogManager logs (lm_SyncThreshold lm) (lm_file lm) (lm_synced lm) (lm_open lm)).

(** The file the path names, as found when the log is opened. *)
Definition NewLM (file : bytes) : outcome LogManager :=
  let lm := mkLogManager [] 10 file (length file) true in
  if 0 <? zlen file then readWAL lm else Ok lm.

Definition writeToFile (d : disk_answer) (log : list Log) (lm : LogManager)
    : outcome LogManager :=
  if negb (lm_open lm) then Err (ErrMsg "file already closed") else
  match write_answer d with
  | Some e => Err e
  | None =>
      let file := lm_file lm ++ encodeLog log in
      if lm_SyncThreshold lm <=? zlen (lm_logs lm) then
        match sync_answer d with
        | Some e => Err (ErrWrap "writeToFile: sync" e)
        | None =>
            Ok (mkLogManager (lm_logs lm) (lm_SyncThreshold lm) file (length file) true)
        end
      else
        Ok (mkLogManager (lm_logs lm) (lm_SyncThreshold lm) file (lm_synced lm) true)
  end.

Definition Append (d : disk_answer) (log : Log) (lm : LogManager) : outcome LogManager :=
  lm ← panic_err "" (writeToFile d [log] lm);
  Ok (mkLogManager (lm_logs lm ++ [log]) (lm_SyncThreshold lm) (lm_file lm)
        (lm_synced lm) (lm_open lm)).

Definition GetLastLogID (lm : LogManager) : Z :=
  match last (lm_logs lm) with None => 1 | Some log => log_Id log end.

Definition NextLogID (lm : LogManager) : Z :=
  match last (lm_logs lm) with None => 1 | Some log => i64 (log_Id log + 1) end.

Definition GetLastLogTerm (lm : LogManager) : Z :=
  match last (lm_logs lm) with None => 0 | Some log => log_Term log end.

Definition GetLog (index : Z) (lm : LogManager) : option Log :=
  let sliceIndex := i64 (index - 1) in
  if (sliceIndex <? 0) || (zlen (lm_logs lm) <=? sliceIndex) then None
  else lm_logs lm !! Z.to_nat sliceIndex.

Definition GetLength (lm : LogManager) : Z := zlen (lm_logs lm).

Definition GetLogs (lm : LogManager) : list Log := lm_logs lm.

Definition GetLogsAfter (index : Z) (lm : LogManager) : list Log :=
  let sliceIndex := Z.max (i64 (index - 1)) 0 in
  if zlen (lm_logs lm) <=? sliceIndex then []
  else drop (Z.to_nat sliceIndex) (lm_logs lm).

Definition TruncateAfter (index : Z) (lm : LogManager) : LogManager :=
  if (0 <=? index) && (index <? zlen (lm_logs lm)) then
    mkLogManager (take (Z.to_nat (index + 1)) (lm_logs lm)) (lm_SyncThreshold lm)
      (lm_file lm) (lm_synced lm) (lm_open lm)
  else lm.

Definition Close (lm : LogManager) : outcome LogManager :=
  if lm_open lm then
    Ok (mkLogManager (lm_logs lm) (lm_SyncThreshold lm) (lm_file lm) (lm_synced lm) false)
  else Err (ErrMsg "file already closed").

(** ** The [Storage] interface *)

Class Storage (S : Type) := {
  st_Append : disk_answer -> Log -> S -> outcome S;
  st_GetLog : Z -> S -> option Log;
  st_GetLogsAfter : Z -> S -> list Log;
  st_GetLogs : S -> list Log;
  st_TruncateAfter : Z -> S -> S;
  st_GetLastLogID : S -> Z;
  st_GetLastLogTerm : S -> Z;
  st_NextLogID : S -> Z;
  st_Close : S -> outcome S;
}.

(** What a log kept from index 1 promises: every read is a view of one list,
    and an append that returns extends that list at its end. *)
Class StorageSpec (S : Type) `{!Storage S} := {
  spec_Append_Ok d log s s' :
    st_Append d log s = Ok s' -> st_GetLogs s' = st_GetLogs s ++ [log];
  spec_GetLog index s :
    1 <= index < 2 ^ 63 -> st_GetLog index s = st_GetLogs s !! Z.to_nat (index - 1);
  spec_GetLogsAfter index s :
    1 <= index < 2 ^ 63 ->
    st_GetLogsAfter index s = drop (Z.to_nat (index - 1)) (st_GetLogs s);
  spec_GetLastLogTerm s :
    st_GetLastLogTerm s = from_option log_Term 0 (last (st_GetLogs s));
}.

#[export] Instance LogManager_Storage : Storage LogManager := {
  st_Append := Append;
  st_GetLog := GetLog;
  st_GetLogsAfter := GetLogsAfter;
  st_GetLogs := GetLogs;
  st_TruncateAfter := TruncateAfter;
  st_GetLastLogID := GetLastLogID;
  st_GetLastLogTerm := GetLastLogTerm;
  st_NextLogID := NextLogID;
  st_Close := Close;
}.

(** The one way [Append] returns: the file is open, the write succeeds, and so
    does the [Sync] that is due once [SyncThreshold] logs are held. *)
Definition append_durable (lm : LogManager) : bool :=
  lm_SyncThreshold lm <=? zlen (lm_logs lm).

Definition appended (log : Log) (lm : LogManager) : LogManager :=
  let file := lm_file lm ++ encode_entry log in
  mkLogManager (lm_logs lm ++ [log]) (lm_SyncThreshold lm) file
    (if append_durable lm then length file else lm_synced lm) true.

Lemma Append_inv d log lm lm' :
  Append d log lm = Ok lm' <->
  lm_open lm = true /\ write_answer d = None /\
  (append_durable lm = true -> sync_answer d = None) /\ lm' = appended log lm.
Proof.
  unfold Append, writeToFile, panic_err, appended, append_durable.
  destruct lm as [logs th file sy op]. cbn [lm_logs lm_SyncThreshold lm_file lm_synced lm_open].
  assert (encodeLog [log] = encode_entry log) as -> by apply app_nil_r.
  destruct op, (write_answer d), (th <=? zlen logs); cbn;
    try destruct (sync_answer d); cbn; intuition congruence.
Qed.

#[export] Instance LogManager_StorageSpec : StorageSpec LogManager.
Proof.
  split; cbn.
  - intros d log s s' (_ & _ & _ & ->)%Append_inv. done.
  - intros index s H. unfold GetLog, GetLogs, zlen. rewrite i64_id by lia.
    rewrite (proj2 (Z.ltb_ge _ _)) by lia. cbn.
    destruct (Z.leb_spec (Z.of_nat (length (lm_logs s))) (index - 1)); [|done].
    symmetry. apply lookup_ge_None. lia.
  - intros index s H. unfold GetLogsAfter, GetLogs, zlen.
    rewrite i64_id, Z.max_l by lia.
    destruct (Z.leb_spec (Z.of_nat (length (lm_logs s))) (index - 1)); [|done].
    symmetry. apply drop_ge. lia.
  - intros s. unfold GetLastLogTerm, GetLogs. by destruct (last (lm_logs s)).
Qed.

(** ** Specification of the format and of recovery *)

(** What the file keeps of a log: everything but the request id. *)
Definition stored (log : Log) : Log :=
  let d := log_Data log in
  mkLog (log_Term log) (log_Id log) (Some (mkCmd (GetOp d) (GetKey d) (GetValue d) 0)).

(** The fields fit the widths they are written at. *)
Definition wf_entry (log : Log) : Prop :=
  - 2 ^ 63 <= log_Term log < 2 ^ 63 /\ - 2 ^ 63 <= log_Id log < 2 ^ 63 /\
  zlen (GetKey (log_Data log)) < 2 ^ 32 /\ zlen (GetValue (log_Data log)) < 2 ^ 32 /\
  zlen (GetOp (log_Data log)) < 2 ^ 32.

Definition decode_entry (buf : bytes) : outcome (Log * bytes) :=
  '(term, buf) ← read_int64 buf;
  decode_entry_tail term buf.

(** The states of a log that starts empty and is only appended to. *)
Inductive wal_reach : LogManager -> Prop :=
  | wal_new lm : NewLM [] = Ok lm -> wal_reach lm
  | wal_append d log lm lm' :
      wal_reach lm -> wf_entry log -> Append d log lm = Ok lm' -> wal_reach lm'.

(** What a crash of the machine can leave of the file: everything up to the
    last [Sync], and any part of what was written after it. *)
Definition crash_image (lm : LogManager) (img : bytes) : Prop :=
  exists k, (lm_synced lm <= k <= length (lm_file lm))%nat /\ img = take k (lm_file lm).

Lemma encode_entry_stored log : encode_entry (stored log) = encode_entry log.
Proof. done. Qed.

Lemma encodeLog_stored logs : encodeLog (stored <$> logs) = encodeLog logs.
Proof. unfold encodeLog. by rewrite <- list_fmap_compose. Qed.

Lemma encodeLog_app l1 l2 : encodeLog (l1 ++ l2) = encodeLog l1 ++ encodeLog l2.
Proof. unfold encodeLog. by rewrite fmap_app, concat_app. Qed.

Lemma u32_len {A} (l : list A) :
  zlen l < 2 ^ 32 -> u32 (zlen l) = zlen l /\ 0 <= zlen l < 2 ^ (8 * Z.of_nat 4).
Proof. unfold u32, zlen. intros. rewrite Z.mod_small; lia. Qed.

#[export] Instance entry_codec :
  Codec (fun log => wf_entry log /\ stored log = log) encode_entry decode_entry.
Proof.
  split.
  - intros log rest [(Ht & Hi & Hk & Hv & Ho) Hs].
    apply u32_len in Hk as [Ek Hk], Hv as [Ev Hv], Ho as [Eo Ho].
    unfold encode_entry, decode_entry, decode_entry_tail. rewrite Ek, Ev, Eo.
    rewrite <- !app_assoc. repeat (autorewrite with codec; cbn -[Z.pow]).
    change (Ok (stored log, rest) = Ok (log, rest)). by rewrite Hs.
  - intros log p q [(Ht & Hi & Hk & Hv & Ho) Hs] Hpq Hq.
    apply u32_len in Hk as [Ek Hk], Hv as [Ev Hv], Ho as [Eo Ho].
    unfold encode_entry in Hpq. rewrite Ek, Ev, Eo in Hpq.
    unfold decode_entry, decode_entry_tail.
    do 7 (match goal with H : _ ++ _ = _ ++ q |- _ => cut_field H Hq end).
    field_is_cut.
Qed.

Lemma length_encode_entry log : (28 <= length (encode_entry log))%nat.
Proof. unfold encode_entry. rewrite !length_app, !length_le_bytes. lia. Qed.

Lemma length_encodeLog logs : (length logs <= length (encodeLog logs))%nat.
Proof.
  induction logs as [|log logs IH]; [done|].
  change (encodeLog (log :: logs)) with (encode_entry log ++ encodeLog logs).
  rewrite length_app. pose proof (length_encode_entry log). cbn. lia.
Qed.

(** One turn of the loop on a record that is all there, ... *)
Lemma decodeLogs_loop_entry fuel log rest acc :
  wf_entry log -> stored log = log ->
  decodeLogs_loop (S fuel) (encode_entry log ++ rest) acc =
  decodeLogs_loop fuel rest (acc ++ [log]).
Proof.
  intros Hwf Hs. pose proof (codec_read (Codec := entry_codec) log rest (conj Hwf Hs)) as H.
  unfold decode_entry in H. cbn [decodeLogs_loop].
  destruct (read_int64 _) as [[term buf]|[] |]; try discriminate H.
  cbn in H |- *. by rewrite H.
Qed.

(** ... and on a record that was cut. *)
Lemma decodeLogs_loop_cut fuel log p q acc :
  wf_entry log -> stored log = log -> encode_entry log = p ++ q -> p <> [] -> q <> [] ->
  exists e, decodeLogs_loop (S fuel) p acc = Err e /\ eof_like e.
Proof.
  intros Hwf Hs E Hp Hq.
  destruct (codec_cut (Codec := entry_codec) log p q (conj Hwf Hs) E Hq) as (e & H & He).
  unfold decode_entry in H. cbn [decodeLogs_loop].
  destruct (read_int64 p) as [[term buf]|e'|] eqn:Er; [|injection H as ->|done].
  - cbn in H |- *. rewrite H. by exists e.
  - destruct e; try (by eexists). by apply read_int64_eof in Er.
Qed.

Definition wf_stored (log : Log) : Prop := wf_entry log /\ stored log = log.

Lemma wf_stored_stored logs : Forall wf_entry logs -> Forall wf_stored (stored <$> logs).
Proof. intros H. apply Forall_fmap. by eapply Forall_impl. Qed.

Lemma decodeLogs_loop_all fuel logs acc :
  Forall wf_stored logs -> (length logs < fuel)%nat ->
  decodeLogs_loop fuel (encodeLog logs) acc = Ok (acc ++ logs).
Proof.
  intros H. revert fuel acc. induction H as [|log logs [Hwf Hs] _ IH]; intros fuel acc Hf.
  - destruct fuel; [cbn in Hf; lia|]. cbn. by rewrite app_nil_r.
  - destruct fuel as [|fuel]; [cbn in Hf; lia|].
    change (encodeLog (log :: logs)) with (encode_entry log ++ encodeLog logs).
    rewrite decodeLogs_loop_entry, IH by (cbn in Hf; auto; lia). by rewrite <- app_assoc.
Qed.

Lemma decodeLogs_encodeLog logs :
  Forall wf_entry logs -> decodeLogs (encodeLog logs) = Ok (stored <$> logs).
Proof.
  intros H. unfold decodeLogs. rewrite <- encodeLog_stored at 2.
  rewrite decodeLogs_loop_all; [done|by apply wf_stored_stored|].
  rewrite length_fmap. pose proof (length_encodeLog logs). lia.
Qed.

(** A file cut anywhere: either the cut is between two records and the records
    before it are returned, or the decoder reports an error. *)
Lemma decodeLogs_loop_prefix fuel logs p q acc :
  Forall wf_stored logs -> encodeLog logs = p ++ q -> (length p < fuel)%nat ->
  (exists k, p = encodeLog (take k logs) /\
     decodeLogs_loop fuel p acc = Ok (acc ++ take k logs)) \/
  (exists e, decodeLogs_loop fuel p acc = Err e /\ eof_like e).
Proof.
  intros H. revert fuel p acc.
  induction H as [|log logs [Hwf Hs] Hlogs IH]; intros fuel p acc E Hf.
  - destruct p; [|done]. left. exists O. destruct fuel; [cbn in Hf; lia|].
    cbn. by rewrite app_nil_r.
  - destruct fuel as [|fuel]; [lia|]. destruct (decide (p = [])) as [->|Hp].
    { left. exists O. cbn. by rewrite app_nil_r. }
    change (encodeLog (log :: logs)) with (encode_entry log ++ encodeLog logs) in E.
    destruct (decide (q = [])) as [->|Hq].
    { rewrite app_nil_r in E. left. exists (S (length logs)).
      rewrite firstn_all2 by (cbn; lia). split; [by rewrite <- E|].
      rewrite <- E, decodeLogs_loop_entry, decodeLogs_loop_all by
        (auto; rewrite <- E, length_app in Hf; pose proof (length_encode_entry log);
         pose proof (length_encodeLog logs); lia).
      by rewrite <- app_assoc. }
    destruct (cut_app _ _ _ _ E Hq) as [(q' & Ea & Hq')|(p' & -> & Eb)].
    { right. by apply (decodeLogs_loop_cut fuel log p q' acc). }
    rewrite decodeLogs_loop_entry by done.
    destruct (IH fuel p' (acc ++ [log]) Eb) as [(k & -> & Hk)|?]; [|left|by right].
    { rewrite length_app in Hf. pose proof (length_encode_entry log). lia. }
    exists (S k). rewrite Hk, <- app_assoc. done.
Qed.

Lemma decodeLogs_prefix logs p q :
  Forall wf_entry logs -> encodeLog logs = p ++ q ->
  (exists k, p = encodeLog (take k logs) /\ decodeLogs p = Ok (stored <$> take k logs)) \/
  (exists e, decodeLogs p = Err e /\ eof_like e).
Proof.
  intros H E. rewrite <- encodeLog_stored in E.
  destruct (decodeLogs_loop_prefix (S (length p)) _ p q []
    (wf_stored_stored _ H) E) as [(k & -> & Hk)|?]; [lia|left|by right].
  exists k. rewrite <- fmap_take, encodeLog_stored in *. done.
Qed.

(** The decoder always ends. *)

Lemma decode_entry_tail_total term buf :
  (exists log rest, decode_entry_tail term buf = Ok (log, rest) /\
     (length rest < length buf)%nat) \/
  (exists e, decode_entry_tail term buf = Err e).
Proof.
  unfold decode_entry_tail. repeat (next_read; [|by right; eexists]).
  left. eexists _, _. split; [done|lia].
Qed.

Lemma decodeLogs_loop_total fuel buf acc :
  (length buf < fuel)%nat ->
  (exists logs, decodeLogs_loop fuel buf acc = Ok logs) \/
  (exists e, decodeLogs_loop fuel buf acc = Err e).
Proof.
  revert buf acc. induction fuel as [|fuel IH]; intros buf acc Hf; [lia|].
  cbn [decodeLogs_loop]. next_read.
  - match goal with |- context [decode_entry_tail ?t ?b] =>
      destruct (decode_entry_tail_total t b) as [(log & rest & -> & ?)|(e & ->)] end; cbn.
    + apply IH. lia.
    + right. by eexists.
  - match goal with e : goerr |- _ => destruct e end; eauto.
Qed.

(** ** Invariant of a log that is only appended to *)

Lemma NewLM_nil lm : NewLM [] = Ok lm -> lm = mkLogManager [] 10 [] 0 true.
Proof. by intros [= <-]. Qed.

Record wal_inv (lm : LogManager) : Prop := {
  wal_file : lm_file lm = encodeLog (lm_logs lm);
  wal_wf : Forall wf_entry (lm_logs lm);
  wal_threshold : lm_SyncThreshold lm = 10;
  wal_synced_le : (lm_synced lm <= length (lm_file lm))%nat;
  wal_synced_all : 10 < zlen (lm_logs lm) -> lm_synced lm = length (lm_file lm);
  wal_synced_none : zlen (lm_logs lm) <= 10 -> lm_synced lm = O;
}.

Lemma wal_reach_inv lm : wal_reach lm -> wal_inv lm.
Proof.
  induction 1 as [lm H|d log lm lm' _ IH Hwf (_ & _ & _ & ->)%Append_inv].
  - apply NewLM_nil in H as ->. by split; cbn; try lia; try done; constructor.
  - destruct IH as [Hf Hw Ht Hle Hall Hnone].
    assert (zlen (lm_logs (appended log lm)) = zlen (lm_logs lm) + 1) as Hlen
      by (unfold zlen; cbn; rewrite length_app; cbn; lia).
    assert (lm_file (appended log lm) = encodeLog (lm_logs (appended log lm))) as Hfile.
    { unfold appended. cbn [lm_file lm_logs]. rewrite encodeLog_app, Hf. f_equal.
      symmetry. apply app_nil_r. }
    split; rewrite ?Hlen; try done.
    + apply Forall_app; split; [done|]. by apply Forall_singleton.
    + cbn. unfold append_durable. rewrite Ht, length_app.
      destruct (Z.leb_spec 10 (zlen (lm_logs lm))); lia.
    + intros. cbn. unfold append_durable. rewrite Ht, (proj2 (Z.leb_le _ _)); [done|lia].
    + intros. cbn. unfold append_durable. rewrite Ht, (proj2 (Z.leb_gt _ _)) by lia.
      apply Hnone. lia.
Qed.

Lemma NewLM_decode img :
  NewLM img = match decodeLogs img with
              | Ok logs => Ok (mkLogManager logs 10 img (length img) true)
              | Err e => Panic (PanicErr "recover" e)
              | Panic p => Panic p
              end.
Proof.
  unfold NewLM, readWAL, zlen. destruct img as [|b img]; [done|].
  rewrite (proj2 (Z.ltb_lt 0 _)) by (cbn; lia). cbn [lm_file lm_SyncThreshold lm_synced lm_open].
  by destruct (decodeLogs (b :: img)).
Qed.

(** ** Properties *)

(** C20: recovery after a clean stop: the file written by [encodeLog] decodes to
    the same logs, in order, with only the request ids lost. *)
Theorem wal_roundtrip (logs : list Log) :
  Forall wf_entry logs -> decodeLogs (encodeLog logs) = Ok (stored <$> logs).
Proof. apply decodeLogs_encodeLog. Qed.

Definition log_put (term id : Z) (k v : bytes) (rid : Z) : Log :=
  mkLog term id (Some (mkCmd (go_string "PUT") k v rid)).

Lemma wal_roundtrip_witness :
  decodeLogs (encodeLog [log_put 1 1 (go_string "a") (go_string "b") 7; mkLog (-2) 5 None]) =
  Ok (stored <$> [log_put 1 1 (go_string "a") (go_string "b") 7; mkLog (-2) 5 None]).
Proof. apply wal_roundtrip. repeat constructor; vm_compute; congruence. Defined.

(** C21: a file that ends too early is never misread: for every cut of a
    well-formed log the decoder either returns exactly the records that are
    complete, the cut being between two of them, or reports an error. *)
Theorem wal_cut_file (logs : list Log) (p q : bytes) :
  Forall wf_entry logs -> encodeLog logs = p ++ q ->
  (exists k, p = encodeLog (take k logs) /\ decodeLogs p = Ok (stored <$> take k logs)) \/
  (exists e, decodeLogs p = Err e /\ eof_like e).
Proof. apply decodeLogs_prefix. Qed.

Lemma wal_cut_file_witness :
  let logs := [log_put 1 1 (go_string "a") (go_string "b") 7] in
  exists q, encodeLog logs = [Byte.x01; Byte.x00] ++ q /\
  ((exists k, [Byte.x01; Byte.x00] = encodeLog (take k logs) /\
      decodeLogs [Byte.x01; Byte.x00] = Ok (stored <$> take k logs)) \/
   (exists e, decodeLogs [Byte.x01; Byte.x00] = Err e /\ eof_like e)).
Proof.
  intros logs. exists (drop 2 (encodeLog logs)). split; [reflexivity|].
  apply (wal_cut_file logs _ (drop 2 (encodeLog logs))); [|reflexivity].
  repeat constructor; vm_compute; congruence.
Defined.

(** C38: [decodeLogs] ends and never panics, whatever bytes the file holds: the
    result is a list of logs or an error. *)
Theorem decodeLogs_total (file : bytes) :
  (exists logs, decodeLogs file = Ok logs) \/ (exists e, decodeLogs file = Err e).
Proof. apply decodeLogs_loop_total. lia. Qed.

(** C17: restarting from the file of a log that was built by [NewLM] and
    [Append] alone gives back its logs in order (without the request ids). *)
Theorem wal_restart (lm : LogManager) :
  wal_reach lm ->
  exists lm', NewLM (lm_file lm) = Ok lm' /\ GetLogs lm' = stored <$> GetLogs lm.
Proof.
  intros [Hf Hw _ _ _ _]%wal_reach_inv.
  rewrite NewLM_decode, Hf, decodeLogs_encodeLog by done. by eexists.
Qed.

Lemma log_put_wf_example : wf_entry (log_put 1 1 (go_string "a") (go_string "b") 7).
Proof. repeat split; vm_compute; congruence. Qed.

(** A log that was appended to [n] times. *)
Definition appended_n (n : nat) : LogManager :=
  Nat.iter n (appended (log_put 1 1 (go_string "a") (go_string "b") 7))
    (mkLogManager [] 10 [] 0 true).

Lemma appended_n_step n :
  Append disk_fine (log_put 1 1 (go_string "a") (go_string "b") 7) (appended_n n) =
  Ok (appended_n (S n)).
Proof. apply Append_inv. destruct n; by repeat split. Qed.

Lemma appended_n_reach n : wal_reach (appended_n n).
Proof.
  induction n as [|n IH]; [by apply wal_new|].
  eapply (wal_append disk_fine); [exact IH|apply log_put_wf_example|apply appended_n_step].
Qed.

Lemma wal_restart_witness :
  exists lm', NewLM (lm_file (appended_n 1)) = Ok lm' /\
    GetLogs lm' = stored <$> GetLogs (appended_n 1).
Proof. apply wal_restart. apply (appended_n_reach 1). Defined.

(** C26: once [SyncThreshold] logs are held, an [Append] that returned is
    durable: whatever a crash leaves of the file, recovery finds every log. *)
Theorem wal_append_durable d log (lm lm' : LogManager) img :
  wal_reach lm -> 10 <= zlen (GetLogs lm) -> wf_entry log ->
  Append d log lm = Ok lm' -> crash_image lm' img ->
  exists rec, NewLM img = Ok rec /\ GetLogs rec = stored <$> (GetLogs lm ++ [log]).
Proof.
  intros Hr Hlen Hwf Ha (k & Hk & ->).
  assert (wal_reach lm') as [Hf Hw _ _ Hall _]%wal_reach_inv by by eapply wal_append.
  apply Append_inv in Ha as (_ & _ & _ & ->). unfold GetLogs in Hlen.
  assert (10 < zlen (lm_logs (appended log lm))) as Hgt
    by (unfold zlen in *; cbn; rewrite length_app; cbn; lia).
  apply Hall in Hgt. rewrite firstn_all2 by lia.
  rewrite NewLM_decode, Hf, decodeLogs_encodeLog by done. by eexists.
Qed.

Lemma wal_append_durable_witness :
  exists rec, NewLM (lm_file (appended_n 11)) = Ok rec /\
    GetLogs rec = stored <$> (GetLogs (appended_n 10) ++
                                [log_put 1 1 (go_string "a") (go_string "b") 7]).
Proof.
  apply (wal_append_durable disk_fine _ (appended_n 10) (appended_n 11)).
  - apply appended_n_reach.
  - vm_compute; congruence.
  - apply log_put_wf_example.
  - apply appended_n_step.
  - exists (length (lm_file (appended_n 11))). split; [vm_compute; lia|reflexivity].
Defined.

(** Before that, [Append] does not sync: the call returns, and yet a crash
    can leave a file on which [NewLM] panics, so the node does not boot. *)
Theorem wal_append_not_durable d log (lm lm' : LogManager) :
  wal_reach lm -> zlen (GetLogs lm) < 10 -> wf_entry log -> Append d log lm = Ok lm' ->
  exists img e, crash_image lm' img /\ NewLM img = Panic (PanicErr "recover" e).
Proof.
  intros Hr Hlen Hwf Ha.
  assert (wal_reach lm') as [Hf Hw _ Hle _ Hnone]%wal_reach_inv by by eapply wal_append.
  apply Append_inv in Ha as (_ & _ & _ & ->). unfold GetLogs in Hlen.
  assert (1 <= length (lm_file (appended log lm)))%nat as H1.
  { cbn. rewrite length_app. pose proof (length_encode_entry log). lia. }
  assert (lm_synced (appended log lm) = O) as H0.
  { apply Hnone. unfold zlen in *; cbn; rewrite length_app; cbn; lia. }
  destruct (lm_file (appended log lm)) as [|b file] eqn:Efile; [cbn in H1; lia|].
  exists [b], ErrUnexpectedEOF. split.
  - exists 1%nat. rewrite Efile, H0. cbn. split; [lia|done].
  - by rewrite NewLM_decode.
Qed.

Lemma wal_append_not_durable_witness :
  exists img e, crash_image (appended_n 1) img /\ NewLM img = Panic (PanicErr "recover" e).
Proof.
  apply (wal_append_not_durable disk_fine (log_put 1 1 (go_string "a") (go_string "b") 7)
           (appended_n 0)).
  - apply appended_n_reach.
  - vm_compute; congruence.
  - apply log_put_wf_example.
  - apply appended_n_step.
Defined.

(** [TruncateAfter(index)] keeps [index + 1] logs, one more than the
    interface's comment promises, and leaves the file alone: after a restart
    every log that was cut off is back. *)
Theorem truncate_keeps_one_more (lm lm' : LogManager) (index : Z) :
  wal_reach lm -> 0 <= index < GetLength lm -> TruncateAfter index lm = lm' ->
  GetLogs lm' = take (Z.to_nat (index + 1)) (GetLogs lm) /\
  GetLength lm' = index + 1 /\
  exists rec, NewLM (lm_file lm') = Ok rec /\ GetLogs rec = stored <$> GetLogs lm.
Proof.
  intros [Hf Hw _ _ _ _]%wal_reach_inv Hi <-. unfold GetLength, GetLogs in *.
  unfold TruncateAfter. rewrite (proj2 (Z.leb_le _ _)), (proj2 (Z.ltb_lt _ _)) by lia.
  cbn [andb lm_logs lm_file]. split; [done|]. split.
  - unfold zlen in *. rewrite length_take. lia.
  - rewrite NewLM_decode, Hf, decodeLogs_encodeLog by done. by eexists.
Qed.

Lemma truncate_keeps_one_more_witness :
  GetLogs (TruncateAfter 1 (appended_n 3)) = take 2 (GetLogs (appended_n 3)) /\
  GetLength (TruncateAfter 1 (appended_n 3)) = 2 /\
  exists rec, NewLM (lm_file (TruncateAfter 1 (appended_n 3))) = Ok rec /\
    GetLogs rec = stored <$> GetLogs (appended_n 3).
Proof.
  apply (truncate_keeps_one_more (appended_n 3) _ 1); [apply appended_n_reach|
    vm_compute; split; congruence|reflexivity].
Defined.
