(* ===== verification/RaftLog.v ===== *)
(** * The in-memory Raft log ([repl/log.go])

    [entries] of the code is a slice whose slot 0 is a [nil] pointer that is
    never used; [rl_entries] holds slots 1, 2, ...  An index expression
    [l.entries[i]] is [slot l i]: it panics out of range, and slot 0 is the
    [nil] pointer. *)
From S2P Require Import Prelude Proto.

Local Open Scope Z_scope.

Record raftLog := mkRaftLog {
  rl_entries : list Log;
  rl_commitIndex : Z;
  rl_lastApplied : Z;
  rl_stableIndex : Z;
}.

Definition newRaftLog : raftLog := mkRaftLog [] 0 0 0.

(** [len(l.entries)], the unused slot included. *)
Definition slots (l : raftLog) : Z := zlen (rl_entries l) + 1.

Definition slot (l : raftLog) (i : Z) : outcome Log :=
  if i =? 0 then Panic NilDeref else index (rl_entries l) (i - 1).

Definition lastIndex (l : raftLog) : Z := from_option log_Id 0 (last (rl_entries l)).

Definition lastTerm (l : raftLog) : Z := from_option log_Term 0 (last (rl_entries l)).

Definition append (entries : list Log) (l : raftLog) : raftLog :=
  mkRaftLog (rl_entries l ++ entries) (rl_commitIndex l) (rl_lastApplied l)
    (rl_stableIndex l).

Definition term (i : Z) (l : raftLog) : outcome Z :=
  if (i =? 0) || (lastIndex l <? i) then Ok 0
  else e ← slot l i; Ok (log_Term e).

(** The loops [for i := a; i <= b; i++] that collect the slots that exist.  Slot 0
    would be collected as the [nil] pointer it is, which [list Log] has no place
    for, and is a panic here; the loops start after [lastApplied] and
    [stableIndex], which start at 0 and only grow. *)
Fixpoint collect_slots (l : raftLog) (idx : list Z) : outcome (list Log) :=
  match idx with
  | [] => Ok []
  | i :: idx =>
      if i <? slots l then
        e ← slot l i;
        es ← collect_slots l idx;
        Ok (e :: es)
      else collect_slots l idx
  end.

Definition collect (l : raftLog) (a b : Z) : outcome (list Log) :=
  collect_slots l (seqZ a (b - a + 1)).

Definition committedEntries (l : raftLog) : outcome (list Log) :=
  if rl_commitIndex l <=? rl_lastApplied l then Ok []
  else collect l (rl_lastApplied l + 1) (rl_commitIndex l).

Definition maybeCommit (index : Z) (l : raftLog) : raftLog :=
  if (rl_commitIndex l <? index) && (index <=? lastIndex l) then
    mkRaftLog (rl_entries l) index (rl_lastApplied l) (rl_stableIndex l)
  else l.

Definition markAppliedTill (index : Z) (l : raftLog) : raftLog :=
  if rl_lastApplied l <? index then
    mkRaftLog (rl_entries l) (rl_commitIndex l) index (rl_stableIndex l)
  else l.

Definition markStableTill (index : Z) (l : raftLog) : raftLog :=
  if (rl_stableIndex l <? index) && (index <=? lastIndex l) then
    mkRaftLog (rl_entries l) (rl_commitIndex l) (rl_lastApplied l) index
  else l.

Definition volatileEntries (l : raftLog) : outcome (list Log) :=
  if lastIndex l <=? rl_stableIndex l then Ok []
  else collect l (rl_stableIndex l + 1) (lastIndex l).

(** ** The log of a leader

    The ids are the positions: slot [i] holds the entry with id [i].  The
    markers are ordered, as far as they have a meaning. *)
Definition sequential_from (n : Z) (es : list Log) : Prop :=
  forall i e, es !! i = Some e -> log_Id e = n + Z.of_nat i.

Record wf_log (l : raftLog) : Prop := {
  wf_ids : sequential_from 1 (rl_entries l);
  wf_applied : 0 <= rl_lastApplied l <= rl_commitIndex l;
  wf_commit : rl_commitIndex l <= lastIndex l;
  wf_stable : 0 <= rl_stableIndex l <= lastIndex l;
}.

Lemma sequential_app n es1 es2 :
  sequential_from n es1 -> sequential_from (n + zlen es1) es2 ->
  sequential_from n (es1 ++ es2).
Proof.
  intros H1 H2 i e [He|[Hi He]]%lookup_app_Some; [by apply H1|].
  apply H2 in He. unfold zlen in He. lia.
Qed.

Lemma lastIndex_sequential l :
  sequential_from 1 (rl_entries l) -> lastIndex l = zlen (rl_entries l).
Proof.
  intros H. unfold lastIndex. rewrite last_lookup. unfold zlen.
  destruct (rl_entries l) as [|x es] eqn:E; [done|].
  destruct (lookup_lt_is_Some_2 (x :: es) (length es)) as [e He]; [cbn; lia|].
  cbn [pred length]. rewrite He. cbn [from_option]. apply H in He. cbn [length]. lia.
Qed.

Lemma slot_lookup l i e :
  rl_entries l !! i = Some e -> slot l (Z.of_nat i + 1) = Ok e.
Proof.
  intros H. unfold slot. rewrite (proj2 (Z.eqb_neq _ _)) by lia.
  replace (Z.of_nat i + 1 - 1) with (Z.of_nat i) by lia. by apply index_Some.
Qed.

Lemma slot_in_range l i :
  1 <= i <= zlen (rl_entries l) ->
  exists e, slot l i = Ok e /\ rl_entries l !! Z.to_nat (i - 1) = Some e.
Proof.
  intros H. unfold slot. rewrite (proj2 (Z.eqb_neq _ _)) by lia.
  apply index_in_range. lia.
Qed.

(** Collecting a range that starts at a real slot never panics, and gives the
    entries of that range that exist. *)
Lemma collect_spec l a b :
  1 <= a ->
  collect l a b = Ok (take (Z.to_nat (b - a + 1)) (drop (Z.to_nat (a - 1)) (rl_entries l))).
Proof.
  unfold collect. intros Ha. remember (Z.to_nat (b - a + 1)) as n eqn:Hn.
  destruct (decide (b - a + 1 <= 0)).
  { rewrite seqZ_nil by lia. replace n with O by lia. done. }
  replace (b - a + 1) with (Z.of_nat n) by lia. clear b Hn n0.
  revert a Ha. induction n as [|n IH]; intros a Ha; [done|].
  rewrite seqZ_cons by lia. cbn [collect_slots].
  replace (Z.pred (Z.of_nat (S n))) with (Z.of_nat n) by lia.
  replace (Z.succ a) with (a + 1) by lia. unfold slots.
  destruct (Z.ltb_spec a (zlen (rl_entries l) + 1)).
  - destruct (slot_in_range l a ltac:(lia)) as (e & -> & He). cbn [mbind outcome_bind].
    rewrite IH by lia. rewrite (drop_S (rl_entries l) e (Z.to_nat (a - 1))) by done.
    by replace (Z.to_nat (a + 1 - 1)) with (S (Z.to_nat (a - 1))) by lia.
  - rewrite IH by lia. unfold zlen in *. by rewrite !drop_ge, !take_nil by lia.
Qed.
