(* ===== verification/Raft.v ===== *)
(** * The Raft state machine ([repl/sm.go])

    [Raft] is the Go struct; a handler is a function from the message and the
    state to the new state, and a call that can panic returns an [outcome].

    - [r.step] and [r.tick] are function values; the three functions each can
      hold are named by the role they belong to, and [None] is the [nil]
      function value.
    - The peers map is only used for its keys, so [peers] is a set.  Go ranges
      over a map in an unspecified order: the functions that do so take the
      order of that range as their first argument, [ord].
    - [readyc] is the buffered channel of capacity one: [None] when empty.
    - Ticks and indexes are [int]s and [int64]s that grow by one and are not
      wrapped; terms arrive from the network and are, where they are
      incremented or converted. *)
From S2P Require Import Prelude Proto RaftLog.

Local Open Scope Z_scope.

Inductive State := StateFollower | StateCandidate | StateLeader.

#[global] Instance State_eq_dec : EqDecision State.
Proof. solve_decision. Defined.

Record HardState := mkHardState {
  hs_term : Z;
  hs_lastCommitIndex : Z;
  hs_lastAppliedIndex : Z;
}.

Record Ready := mkReady {
  rd_Messages : list Message;
  rd_Entries : list Log;
  rd_MessagesAfterAppend : list Message;
  rd_CommittedEntries : list Log;
  rd_HardState : HardState;
}.

Record Progress := mkProgress {
  matchIndex : Z;
  nextIndex : Z;
}.

(** The zero value a read of a missing key gives. *)
Definition getProgress (m : gmap Z Progress) (peer : Z) : Progress :=
  default (mkProgress 0 0) (m !! peer).

Record Raft := mkRaft {
  ID : Z;
  currentTerm : Z;
  votedFor : gmap Z Z;
  state : State;
  randomizedTimeout : Z;
  electionTick : Z;
  heartbeatTick : Z;
  electionTimeout : Z;
  heartbeatTimeout : Z;
  clusterSize : Z;
  peers : gset Z;
  step : option State;
  tick : option State;
  votes : option (gmap Z bool);
  msgs : list Message;
  msgsAfterAppend : list Message;
  readyc : option Ready;
  r_raftLog : raftLog;
  progress : gmap Z Progress;
}.

(** Assignments to one field. *)
Definition set_currentTerm (x : Z) (r : Raft) : Raft :=
    mkRaft (ID r) x (votedFor r) (state r) (randomizedTimeout r) (electionTick r)
    (heartbeatTick r) (electionTimeout r) (heartbeatTimeout r) (clusterSize r) (peers r)
    (step r) (tick r) (votes r) (msgs r) (msgsAfterAppend r) (readyc r) (r_raftLog r)
    (progress r).
Definition set_votedFor (x : gmap Z Z) (r : Raft) : Raft :=
    mkRaft (ID r) (currentTerm r) x (state r) (randomizedTimeout r) (electionTick r)
    (heartbeatTick r) (electionTimeout r) (heartbeatTimeout r) (clusterSize r) (peers r)
    (step r) (tick r) (votes r) (msgs r) (msgsAfterAppend r) (readyc r) (r_raftLog r)
    (progress r).
Definition set_state (x : State) (r : Raft) : Raft :=
    mkRaft (ID r) (currentTerm r) (votedFor r) x (randomizedTimeout r) (electionTick r)
    (heartbeatTick r) (electionTimeout r) (heartbeatTimeout r) (clusterSize r) (peers r)
    (step r) (tick r) (votes r) (msgs r) (msgsAfterAppend r) (readyc r) (r_raftLog r)
    (progress r).
Definition set_randomizedTimeout (x : Z) (r : Raft) : Raft :=
    mkRaft (ID r) (currentTerm r) (votedFor r) (state r) x (electionTick r)
    (heartbeatTick r) (electionTimeout r) (heartbeatTimeout r) (clusterSize r) (peers r)
    (step r) (tick r) (votes r) (msgs r) (msgsAfterAppend r) (readyc r) (r_raftLog r)
    (progress r).
Definition set_electionTick (x : Z) (r : Raft) : Raft :=
    mkRaft (ID r) (currentTerm r) (votedFor r) (state r) (randomizedTimeout r) x
    (heartbeatTick r) (electionTimeout r) (heartbeatTimeout r) (clusterSize r) (peers r)
    (step r) (tick r) (votes r) (msgs r) (msgsAfterAppend r) (readyc r) (r_raftLog r)
    (progress r).
Definition set_heartbeatTick (x : Z) (r : Raft) : Raft :=
    mkRaft (ID r) (currentTerm r) (votedFor r) (state r) (randomizedTimeout r)
    (electionTick r) x (electionTimeout r) (heartbeatTimeout r) (clusterSize r) (peers
    r) (step r) (tick r) (votes r) (msgs r) (msgsAfterAppend r) (readyc r) (r_raftLog r)
    (progress r).
Definition set_step (x : option State) (r : Raft) : Raft :=
    mkRaft (ID r) (currentTerm r) (votedFor r) (state r) (randomizedTimeout r)
    (electionTick r) (heartbeatTick r) (electionTimeout r) (heartbeatTimeout r)
    (clusterSize r) (peers r) x (tick r) (votes r) (msgs r) (msgsAfterAppend r) (readyc
    r) (r_raftLog r) (progress r).
Definition set_tick (x : option State) (r : Raft) : Raft :=
    mkRaft (ID r) (currentTerm r) (votedFor r) (state r) (randomizedTimeout r)
    (electionTick r) (heartbeatTick r) (electionTimeout r) (heartbeatTimeout r)
    (clusterSize r) (peers r) (step r) x (votes r) (msgs r) (msgsAfterAppend r) (readyc
    r) (r_raftLog r) (progress r).
Definition set_votes (x : option (gmap Z bool)) (r : Raft) : Raft :=
    mkRaft (ID r) (currentTerm r) (votedFor r) (state r) (randomizedTimeout r)
    (electionTick r) (heartbeatTick r) (electionTimeout r) (heartbeatTimeout r)
    (clusterSize r) (peers r) (step r) (tick r) x (msgs r) (msgsAfterAppend r) (readyc
    r) (r_raftLog r) (progress r).
Definition set_msgs (x : list Message) (r : Raft) : Raft :=
    mkRaft (ID r) (currentTerm r) (votedFor r) (state r) (randomizedTimeout r)
    (electionTick r) (heartbeatTick r) (electionTimeout r) (heartbeatTimeout r)
    (clusterSize r) (peers r) (step r) (tick r) (votes r) x (msgsAfterAppend r) (readyc
    r) (r_raftLog r) (progress r).
Definition set_msgsAfterAppend (x : list Message) (r : Raft) : Raft :=
    mkRaft (ID r) (currentTerm r) (votedFor r) (state r) (randomizedTimeout r)
    (electionTick r) (heartbeatTick r) (electionTimeout r) (heartbeatTimeout r)
    (clusterSize r) (peers r) (step r) (tick r) (votes r) (msgs r) x (readyc r)
    (r_raftLog r) (progress r).
Definition set_readyc (x : option Ready) (r : Raft) : Raft :=
    mkRaft (ID r) (currentTerm r) (votedFor r) (state r) (randomizedTimeout r)
    (electionTick r) (heartbeatTick r) (electionTimeout r) (heartbeatTimeout r)
    (clusterSize r) (peers r) (step r) (tick r) (votes r) (msgs r) (msgsAfterAppend r) x
    (r_raftLog r) (progress r).
Definition set_r_raftLog (x : raftLog) (r : Raft) : Raft :=
    mkRaft (ID r) (currentTerm r) (votedFor r) (state r) (randomizedTimeout r)
    (electionTick r) (heartbeatTick r) (electionTimeout r) (heartbeatTimeout r)
    (clusterSize r) (peers r) (step r) (tick r) (votes r) (msgs r) (msgsAfterAppend r)
    (readyc r) x (progress r).
Definition set_progress (x : gmap Z Progress) (r : Raft) : Raft :=
    mkRaft (ID r) (currentTerm r) (votedFor r) (state r) (randomizedTimeout r)
    (electionTick r) (heartbeatTick r) (electionTimeout r) (heartbeatTimeout r)
    (clusterSize r) (peers r) (step r) (tick r) (votes r) (msgs r) (msgsAfterAppend r)
    (readyc r) (r_raftLog r) x.

(** ** Roles *)

Definition resetTimeout (r : Raft) : Raft :=
  if 0 <? electionTimeout r then
    set_randomizedTimeout
      (electionTimeout r + Z.rem (electionTick r) (electionTimeout r)) r
  else r.

(** [randomTimeout] ([repl/utils.go]), which nothing calls: the duration of the
    timer for the answer [rand] of [rand.Int63]; [None] is the [nil] channel. *)
Definition randomTimeout (rand minVal : Z) : option Z :=
  if minVal =? 0 then None
  else
    let extra := Z.rem rand minVal in
    Some (i64 (minVal + extra)).

Definition becomeFollower (term : Z) (r : Raft) : Raft :=
  let r := set_state StateFollower r in
  let r := set_currentTerm term r in
  let r := set_step (Some StateFollower) r in
  let r := set_tick (Some StateFollower) r in
  let r := set_electionTick 0 r in
  let r := resetTimeout r in
  set_votes None r.

Definition becomeCandidate (r : Raft) : Raft :=
  let r := set_state StateCandidate r in
  let r := set_step (Some StateCandidate) r in
  let r := set_tick (Some StateCandidate) r in
  let r := set_electionTick 0 r in
  let r := resetTimeout r in
  set_votes (Some ∅) r.

(** Writes the same record at every peer; the other keys keep theirs. *)
Definition resetProgress (r : Raft) : gmap Z Progress :=
  let lastIdx := lastIndex (r_raftLog r) in
  gset_to_gmap (mkProgress 0 (lastIdx + 1)) (peers r) ∪ progress r.

Definition becomeLeader (r : Raft) : Raft :=
  let r := set_state StateLeader r in
  let r := set_step (Some StateLeader) r in
  let r := set_tick (Some StateLeader) r in
  let r := set_heartbeatTick 0 r in
  let r := set_votes None r in
  set_progress (resetProgress r) r.

Definition NewRaft (id : Z) (peerIDs : list Z) : Raft :=
  let r := mkRaft id 0 ∅ StateFollower 0 0 0 10 1 (zlen peerIDs + 1)
             (list_to_set peerIDs) None None None [] [] None newRaftLog ∅ in
  let r := becomeFollower 0 r in
  set_electionTick (Z.rem id (electionTimeout r)) r.

Definition quorum (r : Raft) : Z := Z.quot (clusterSize r) 2 + 1.

(** ** AppendEntries *)

Definition appendResponse (r : Raft) (to : Z) (success : bool) : Message :=
  mkMessage MSG_APP_RESP to (ID r) None None None
    (Some (mkAppendEntriesResponse (currentTerm r) success)).

Definition sendAppendResponse (to : Z) (success : bool) (r : Raft) : Raft :=
  set_msgs (msgs r ++ [appendResponse r to success]) r.

Definition sendAppendResponseAfterPersist (to : Z) (success : bool) (r : Raft) : Raft :=
  set_msgsAfterAppend (msgsAfterAppend r ++ [appendResponse r to success]) r.

(** The log lacks [prevLogIdx], or has it with another term. *)
Definition logMismatch (prevLogIdx prevLogTerm : Z) (l : raftLog) : outcome bool :=
  if prevLogIdx <=? 0 then Ok false
  else if lastIndex l <? prevLogIdx then Ok true
  else t ← term prevLogIdx l; Ok (negb (t =? prevLogTerm)).

Definition handleAppendEntries (m : Message) (r : Raft) : outcome Raft :=
  match msg_Entries m with
  | None => Ok r
  | Some ae =>
      if ae_Term ae <? currentTerm r then Ok (sendAppendResponse (msg_From m) false r)
      else
        let r := if currentTerm r <? ae_Term ae then becomeFollower (ae_Term ae) r else r in
        mismatch ← logMismatch (ae_PrevLogIdx ae) (ae_PrevLogTerm ae) (r_raftLog r);
        if mismatch : bool then Ok (sendAppendResponse (msg_From m) false r)
        else
          let entries := ae_Entries ae in
          let r := if 0 <? zlen entries
                   then set_r_raftLog (append entries (r_raftLog r)) r else r in
          let l := r_raftLog r in
          let leaderCommitIdx := ae_LeaderCommitIdx ae in
          let r := if rl_commitIndex l <? leaderCommitIdx
                   then set_r_raftLog (maybeCommit (Z.min leaderCommitIdx (lastIndex l)) l) r
                   else r in
          Ok (if 0 <? zlen entries
              then sendAppendResponseAfterPersist (msg_From m) true r else r)
  end.

(** How many members of the cluster hold the entry at [index]. *)
Definition replicatedCount (r : Raft) (index : Z) : Z :=
  1 + Z.of_nat (size (filter (fun p : Z * Progress => index <= matchIndex p.2) (progress r))).

(** One turn of the loop of [maybeCommit] over the indexes. *)
Definition maybeCommitAt (r : Raft) (index : Z) (l : raftLog) : outcome raftLog :=
  if quorum r <=? replicatedCount r index then
    t ← term index l;
    Ok (if t =? currentTerm r then RaftLog.maybeCommit index l else l)
  else Ok l.

Fixpoint maybeCommit_loop (r : Raft) (idx : list Z) (l : raftLog) : outcome raftLog :=
  match idx with
  | [] => Ok l
  | index :: idx => l ← maybeCommitAt r index l; maybeCommit_loop r idx l
  end.

Definition maybeCommit (r : Raft) : outcome Raft :=
  let l := r_raftLog r in
  let first := rl_commitIndex l + 1 in
  l ← maybeCommit_loop r (seqZ first (lastIndex l - first + 1)) l;
  Ok (set_r_raftLog l r).

Definition handleAppendResponse (m : Message) (r : Raft) : outcome Raft :=
  match msg_EntriesResp m with
  | None => Ok r
  | Some resp =>
      let peerID := msg_From m in
      if currentTerm r <? aer_CurrentTerm resp then
        Ok (becomeFollower (aer_CurrentTerm resp) r)
      else if aer_CurrentTerm resp <? currentTerm r then Ok r
      else if aer_Success resp then
        let match_ := lastIndex (r_raftLog r) in
        let prog := mkProgress match_ (match_ + 1) in
        maybeCommit (set_progress (<[peerID := prog]> (progress r)) r)
      else
        let prog := getProgress (progress r) peerID in
        let prog := if 1 <? nextIndex prog
                    then mkProgress (matchIndex prog) (nextIndex prog - 1) else prog in
        Ok (set_progress (<[peerID := prog]> (progress r)) r)
  end.

(** ** Votes *)

Definition sendVoteResponse (to : Z) (granted : bool) (term : Z) (r : Raft) : Raft :=
  let resp := mkMessage MSG_VOTE_RESP to (ID r) None
                (Some (mkRequestVoteResponse term granted)) None None in
  set_msgs (msgs r ++ [resp]) r.

Definition handleVoteRequest (m : Message) (r : Raft) : Raft :=
  match msg_Vote m with
  | None => r
  | Some voteReq =>
      let reqTerm := i64 (GetVoteTerm voteReq) in
      let candidateID := rv_CandidateId voteReq in
      if reqTerm <? currentTerm r then sendVoteResponse candidateID false (currentTerm r) r
      else
        let r := if currentTerm r <? reqTerm then becomeFollower reqTerm r else r in
        let grant :=
          let r := set_votedFor (<[reqTerm := candidateID]> (votedFor r)) r in
          sendVoteResponse candidateID true (currentTerm r) r in
        match votedFor r !! reqTerm with
        | Some voted =>
            if negb (voted =? candidateID)
            then sendVoteResponse candidateID false (currentTerm r) r
            else grant
        | None => grant
        end
  end.

Definition countGranted (votes : gmap Z bool) : Z :=
  Z.of_nat (size (filter (fun p : Z * bool => p.2 = true) votes)).

Definition handleVoteResponse (m : Message) (r : Raft) : outcome Raft :=
  match msg_VoteResp m with
  | None => Ok r
  | Some voteResp =>
      let respTerm := rvr_Term voteResp in
      let peerID := msg_From m in
      if respTerm <? currentTerm r then Ok r
      else if currentTerm r <? respTerm then Ok (becomeFollower respTerm r)
      else
        match votes r with
        | None => Panic NilMapWrite
        | Some v =>
            let v := <[peerID := rvr_VoteGranted voteResp]> v in
            let r := set_votes (Some v) r in
            Ok (if quorum r <=? countGranted v then becomeLeader r else r)
        end
  end.

Definition isLead (r : Raft) : bool := bool_decide (state r = StateLeader).

(** ** The leader *)

(** [entry.Term = ...; entry.Id = nextID; nextID++] over the proposal. *)
Fixpoint stampEntries (term nextID : Z) (entries : list Log) : list Log :=
  match entries with
  | [] => []
  | e :: entries => mkLog term nextID (log_Data e) :: stampEntries term (nextID + 1) entries
  end.

(** The body of the range over the peers, for one peer. *)
Definition appendMessage (r : Raft) (peerID : Z) : outcome Message :=
  let l := r_raftLog r in
  let prog := getProgress (progress r) peerID in
  let prevLogIdx := nextIndex prog - 1 in
  prevLogTerm ← (if 0 <? prevLogIdx then term prevLogIdx l else Ok 0);
  entriesToSend ← collect l (nextIndex prog) (lastIndex l);
  Ok (mkMessage MSG_APP peerID (ID r) None None
        (Some (mkAppendEntries (currentTerm r) (ID r) prevLogIdx prevLogTerm
                 entriesToSend (rl_commitIndex l))) None).

Fixpoint messages_to (mk : Z -> outcome Message) (ord : list Z) : outcome (list Message) :=
  match ord with
  | [] => Ok []
  | peerID :: ord =>
      m ← mk peerID;
      ms ← messages_to mk ord;
      Ok (m :: ms)
  end.

Definition replicate (ord : list Z) (m : Message) (r : Raft) : outcome Raft :=
  if negb (isLead r) then Err (ErrMsg "node is not a leader")
  else
    let entries := GetEntries (msg_Entries m) in
    if zlen entries =? 0 then Ok r
    else
      let nextID := lastIndex (r_raftLog r) + 1 in
      let entries := stampEntries (currentTerm r) nextID entries in
      let r := set_r_raftLog (append entries (r_raftLog r)) r in
      ms ← messages_to (appendMessage r) ord;
      Ok (set_msgsAfterAppend (msgsAfterAppend r ++ ms) r).

Definition heartbeatMessage (r : Raft) (peerID : Z) : outcome Message :=
  let l := r_raftLog r in
  let prevLogIdx := matchIndex (getProgress (progress r) peerID) in
  prevLogTerm ← term prevLogIdx l;
  Ok (mkMessage MSG_APP peerID (ID r) None None
        (Some (mkAppendEntries (currentTerm r) (ID r) prevLogIdx prevLogTerm []
                 (rl_commitIndex l))) None).

Definition broadcastHeartbeat (ord : list Z) (r : Raft) : outcome Raft :=
  ms ← messages_to (heartbeatMessage r) ord;
  Ok (set_msgs (msgs r ++ ms) r).

(** ** Elections *)

Definition voteMessage (r : Raft) (peerID : Z) : Message :=
  mkMessage MSG_VOTE peerID (ID r)
    (Some (mkRequestVote (Some (u64 (currentTerm r))) (ID r)
             (lastIndex (r_raftLog r)) (lastTerm (r_raftLog r)))) None None None.

Definition campaign (ord : list Z) (r : Raft) : Raft :=
  let r := becomeCandidate r in
  let r := set_currentTerm (i64 (currentTerm r + 1)) r in
  let r := set_votedFor (<[currentTerm r := ID r]> (votedFor r)) r in
  let r := set_votes (insert (ID r) true <$> votes r) r in
  if clusterSize r =? 1 then becomeLeader r
  else set_msgs (msgs r ++ (voteMessage r <$> ord)) r.

(** ** Dispatch *)

Definition handleVote (ord : list Z) (m : Message) (r : Raft) : Raft :=
  match msg_Vote m with
  | None => campaign ord r
  | Some _ => handleVoteRequest m r
  end.

Definition stepFollower (ord : list Z) (m : Message) (r : Raft) : outcome Raft :=
  match msg_Type m with
  | MSG_VOTE => Ok (handleVote ord m r)
  | MSG_APP | MSG_HEARTBEAT => handleAppendEntries m (set_electionTick 0 r)
  | _ => Ok r
  end.

Definition stepCandidate (ord : list Z) (m : Message) (r : Raft) : outcome Raft :=
  match msg_Type m with
  | MSG_VOTE => Ok (handleVote ord m r)
  | MSG_VOTE_RESP => handleVoteResponse m r
  | MSG_APP | MSG_HEARTBEAT => handleAppendEntries m (set_electionTick 0 r)
  | _ => Ok r
  end.

Definition stepLeader (ord : list Z) (m : Message) (r : Raft) : outcome Raft :=
  match msg_Type m with
  | MSG_HEARTBEAT => broadcastHeartbeat ord r
  | MSG_APP => wrap_err "replicate" (replicate ord m r)
  | MSG_APP_RESP => handleAppendResponse m r
  | _ => Ok r
  end.

Definition Step (ord : list Z) (m : Message) (r : Raft) : outcome Raft :=
  match step r with
  | None => Panic (PanicMsg "step function cannot be nil!")
  | Some StateFollower => stepFollower ord m r
  | Some StateCandidate => stepCandidate ord m r
  | Some StateLeader => stepLeader ord m r
  end.

(** [if err := r.Step(..); err != nil { log }]: the error is only logged. *)
Definition log_err (r : Raft) (res : outcome Raft) : outcome Raft :=
  match res with Err _ => Ok r | _ => res end.

(** [tickFollower]. *)
Definition tickElection (ord : list Z) (r : Raft) : outcome Raft :=
  let r := set_electionTick (electionTick r + 1) r in
  if randomizedTimeout r <=? electionTick r then
    let r := set_electionTick 0 r in
    log_err r (Step ord (bare_message MSG_VOTE) r)
  else Ok r.

(** The same code, but for how the error is printed. *)
Definition tickCandidate (ord : list Z) (r : Raft) : outcome Raft := tickElection ord r.

Definition tickLeader (ord : list Z) (r : Raft) : outcome Raft :=
  let r := set_heartbeatTick (heartbeatTick r + 1) r in
  if heartbeatTimeout r <=? heartbeatTick r then
    let r := set_heartbeatTick 0 r in
    log_err r (Step ord (bare_message MSG_HEARTBEAT) r)
  else Ok r.

Definition Tick (ord : list Z) (r : Raft) : outcome Raft :=
  match tick r with
  | None => Panic NilDeref
  | Some StateFollower => tickElection ord r
  | Some StateCandidate => tickCandidate ord r
  | Some StateLeader => tickLeader ord r
  end.

(** ** The boundary to the I/O layer *)

Definition hasReady (r : Raft) : bool :=
  let l := r_raftLog r in
  (0 <? zlen (msgs r)) || (0 <? zlen (msgsAfterAppend r)) ||
  (rl_stableIndex l <? lastIndex l) || (rl_lastApplied l <? rl_commitIndex l).

(** The record [Ready()] builds. *)
Definition makeReady (r : Raft) : outcome Ready :=
  let l := r_raftLog r in
  entries ← volatileEntries l;
  committed ← committedEntries l;
  Ok (mkReady (msgs r) entries (msgsAfterAppend r) committed
        (mkHardState (currentTerm r) (rl_commitIndex l) (rl_lastApplied l))).

(** [Ready()]: the result is [None] when [r.readyc <- rd] finds the channel
    full, so that the calling goroutine blocks. *)
Definition callReady (r : Raft) : outcome (option Raft) :=
  if hasReady r then
    rd ← makeReady r;
    let r := set_msgs [] r in
    let r := set_msgsAfterAppend [] r in
    match readyc r with
    | Some _ => Ok None
    | None => Ok (Some (set_readyc (Some rd) r))
    end
  else Ok (Some r).

Definition Advance (r : Raft) : Raft :=
  let l := r_raftLog r in
  let l := if rl_stableIndex l <? lastIndex l then markStableTill (lastIndex l) l else l in
  let l := if rl_lastApplied l <? rl_commitIndex l
           then markAppliedTill (rl_commitIndex l) l else l in
  set_r_raftLog l r.
