(* ===== verification/Election.v ===== *)
(** * Votes and roles of one Raft node

    What one call of [Step] or [Tick] can do to the part of the state that
    elections are about: the role, the term, the votes given and the votes
    received, and the messages left for the I/O layer.  [local_ok] collects it
    for every handler; the cluster proof uses nothing else of them. *)
From S2P Require Import Prelude Proto RaftLog Raft.

Local Open Scope Z_scope.

(** ** Vocabulary *)

(** The messages waiting to be sent. *)
Definition pending (r : Raft) : list Message := msgs r ++ msgsAfterAppend r.

(** [x] is a vote given in term [t]. *)
Definition grants (x : Message) (t : Z) : Prop :=
  exists v, msg_VoteResp x = Some v /\ rvr_VoteGranted v = true /\ rvr_Term v = t.

(** An order in which Go may range over the peers. *)
Definition range_order (r : Raft) (ord : list Z) : Prop := ord ≡ₚ elements (peers r).

Lemma default_order r : range_order r (elements (peers r)).
Proof. unfold range_order. reflexivity. Qed.

Lemma range_order_peers r ord p : range_order r ord -> p ∈ ord -> p ∈ peers r.
Proof. intros Ho Hp. rewrite Ho in Hp. by apply elem_of_elements. Qed.

(** No term a message carries is above [n]. *)
Definition msg_terms_le (n : Z) (x : Message) : Prop :=
  from_option (fun v => i64 (GetVoteTerm v) <= n) True (msg_Vote x) /\
  from_option (fun v => rvr_Term v <= n) True (msg_VoteResp x) /\
  from_option (fun a => ae_Term a <= n) True (msg_Entries x) /\
  from_option (fun a => aer_CurrentTerm a <= n) True (msg_EntriesResp x).

(** What holds of a message when the node leaves it for sending. *)
Definition fresh_ok (r : Raft) (x : Message) : Prop :=
  msg_From x = ID r /\ msg_terms_le (currentTerm r) x /\
  forall t, grants x t -> votedFor r !! t = Some (msg_To x).

(** The state an election is about. *)
Definition core (r : Raft) :=
  (ID r, clusterSize r, peers r, currentTerm r, votedFor r, state r, step r, tick r, votes r, readyc r).

(** A call that only touches the log, the progress and the timers. *)
Definition quiet (r r' : Raft) : Prop :=
  core r' = core r /\ forall x, x ∈ pending r' -> x ∈ pending r \/ fresh_ok r' x.

Record raft_inv (r : Raft) : Prop := {
  inv_term : 0 <= currentTerm r;
  inv_step : step r = Some (state r);
  inv_tick : tick r = Some (state r);
  inv_votes : is_Some (votes r) <-> state r = StateCandidate;
  inv_voted : forall t c, votedFor r !! t = Some c -> t <= currentTerm r;
  inv_self : state r <> StateFollower -> votedFor r !! currentTerm r = Some (ID r);
}.

(** [v] holds only votes that are the node's own, that it held before in the
    same term, or that the message brought. *)
Definition votes_explained (m : Message) (r r' : Raft) (v : gmap Z bool) : Prop :=
  forall p, v !! p = Some true ->
    p = ID r \/
    (state r = StateCandidate /\ currentTerm r' = currentTerm r /\
       exists v0, votes r = Some v0 /\ v0 !! p = Some true) \/
    (p = msg_From m /\ grants m (currentTerm r')).

Record local_ok (m : Message) (r r' : Raft) : Prop := {
  ok_ID : ID r' = ID r;
  ok_size : clusterSize r' = clusterSize r;
  ok_peers : peers r' = peers r;
  ok_readyc : readyc r' = readyc r;
  ok_term : currentTerm r <= currentTerm r';
  ok_bound n : currentTerm r <= n -> msg_terms_le n m -> currentTerm r' <= n + 1;
  ok_voted : votedFor r ⊆ votedFor r';
  ok_inv : raft_inv r';
  ok_sent x : x ∈ pending r' -> x ∈ pending r \/ fresh_ok r' x;
  ok_votes v : votes r' = Some v -> votes_explained m r r' v;
  ok_leader :
    state r' = StateLeader ->
    (state r = StateLeader /\ currentTerm r' = currentTerm r) \/
    (exists v, quorum r' <= countGranted v /\ votes_explained m r r' v);
}.

(** The term can still be incremented without leaving [int64]. *)
Definition term_room (r : Raft) : Prop := currentTerm r < 2 ^ 63 - 1.

(** ** Composition *)

Lemma core_eq r r' :
  core r' = core r ->
  ID r' = ID r /\ clusterSize r' = clusterSize r /\ peers r' = peers r /\
  currentTerm r' = currentTerm r /\ votedFor r' = votedFor r /\ state r' = state r /\
  step r' = step r /\ tick r' = tick r /\ votes r' = votes r /\ readyc r' = readyc r.
Proof. unfold core. intros H. by simplify_eq. Qed.

Lemma core_is r id sz ps t vf s st tk vs rc :
  core r = (id, sz, ps, t, vf, s, st, tk, vs, rc) ->
  ID r = id /\ clusterSize r = sz /\ peers r = ps /\ currentTerm r = t /\
  votedFor r = vf /\ state r = s /\ step r = st /\ tick r = tk /\ votes r = vs /\ readyc r = rc.
Proof. unfold core. intros H. by simplify_eq. Qed.

Lemma raft_inv_core r r' : core r' = core r -> raft_inv r -> raft_inv r'.
Proof.
  intros (E1 & E2 & E3 & E4 & E5 & E6 & E7 & E8 & E9 & E10)%core_eq [].
  split; rewrite ?E1, ?E4, ?E5, ?E6, ?E7, ?E8, ?E9; done.
Qed.

Lemma msg_terms_le_mono n n' x : n <= n' -> msg_terms_le n x -> msg_terms_le n' x.
Proof.
  intros Hn (H1 & H2 & H3 & H4). unfold msg_terms_le.
  destruct (msg_Vote x), (msg_VoteResp x), (msg_Entries x), (msg_EntriesResp x);
    cbn in *; split_and!; lia || done.
Qed.

Lemma fresh_ok_mono r r' x :
  ID r' = ID r -> currentTerm r <= currentTerm r' -> votedFor r ⊆ votedFor r' ->
  fresh_ok r x -> fresh_ok r' x.
Proof.
  intros HID Ht Hv (Hf & Hm & Hg). split_and!; [congruence| |].
  - by eapply msg_terms_le_mono.
  - intros t Hgr. eapply lookup_weaken; [by apply Hg|done].
Qed.

Lemma votes_explained_core m r r1 r' v :
  ID r1 = ID r -> state r1 = state r -> currentTerm r1 = currentTerm r ->
  votes r1 = votes r -> votes_explained m r1 r' v -> votes_explained m r r' v.
Proof.
  intros E1 E2 E3 E4 H p Hp. destruct (H p Hp) as [->|[(? & ? & v0 & ? & ?)|?]].
  - by left.
  - right; left. split_and!; [congruence|congruence|exists v0; split; congruence].
  - by right; right.
Qed.

Lemma quiet_trans r r1 r' : quiet r r1 -> quiet r1 r' -> quiet r r'.
Proof.
  intros [Hc1 H1] [Hc2 H2]. split; [congruence|]. intros x Hx.
  destruct (H2 x Hx) as [Hx'|?]; [|by right]. destruct (H1 x Hx') as [?|?]; [by left|right].
  apply core_eq in Hc2 as (E1 & _ & _ & E4 & E5 & _).
  by eapply fresh_ok_mono; [exact E1|rewrite E4|rewrite E5|].
Qed.

Lemma ok_quiet m r r1 r' : local_ok m r r1 -> quiet r1 r' -> local_ok m r r'.
Proof.
  intros [HID Hs Hp Hrc Ht Hb Hv Hi Hsent Hvotes Hlead] [Hc H]. pose proof Hc as Hc'.
  apply core_eq in Hc' as (E1 & E2 & E3 & E4 & E5 & E6 & E7 & E8 & E9 & E10).
  split; unfold votes_explained, quorum in *; rewrite ?E1, ?E2, ?E3, ?E4, ?E5, ?E6, ?E9, ?E10; try done.
  - by eapply raft_inv_core.
  - intros x Hx. destruct (H x Hx) as [Hx'|?]; [|by right].
    destruct (Hsent x Hx') as [?|?]; [by left|right].
    by eapply fresh_ok_mono; [exact E1|rewrite E4|rewrite E5|].
Qed.

Lemma quiet_ok m r r1 r' : quiet r r1 -> local_ok m r1 r' -> local_ok m r r'.
Proof.
  intros [Hc H] [HID Hs Hp Hrc Ht Hb Hv Hi Hsent Hvotes Hlead].
  apply core_eq in Hc as (E1 & E2 & E3 & E4 & E5 & E6 & E7 & E8 & E9 & E10).
  split; try congruence.
  - intros n. rewrite <- E4. apply Hb.
  - by rewrite <- E5.
  - intros x Hx. destruct (Hsent x Hx) as [Hx'|?]; [|by right].
    destruct (H x Hx') as [?|?]; [by left|right]. by eapply fresh_ok_mono.
  - intros v Ev. by eapply votes_explained_core; eauto.
  - intros El. destruct (Hlead El) as [[? ?]|(v & Hq & He)]; [left; split; congruence|right].
    exists v. split; [done|]. by eapply votes_explained_core.
Qed.

Lemma local_ok_refl m r : raft_inv r -> local_ok m r r.
Proof.
  intros Hi. split; try done; try lia.
  - intros x Hx. by left.
  - intros v Hv p Hp. right; left. split_and!; [|done|by eexists].
    apply Hi. by eexists.
  - intros ->. by left.
Qed.

Lemma quiet_local m r r' : raft_inv r -> quiet r r' -> local_ok m r r'.
Proof. intros Hi. by apply ok_quiet, local_ok_refl. Qed.

(** ** Handlers *)

Lemma becomeFollower_core t r :
  core (becomeFollower t r) =
  (ID r, clusterSize r, peers r, t, votedFor r, StateFollower,
   Some StateFollower, Some StateFollower, None, readyc r).
Proof. unfold becomeFollower, resetTimeout. cbn. by destruct (0 <? electionTimeout r). Qed.

Lemma becomeFollower_rest t r :
  pending (becomeFollower t r) = pending r /\ r_raftLog (becomeFollower t r) = r_raftLog r.
Proof. unfold becomeFollower, resetTimeout. cbn. by destruct (0 <? electionTimeout r). Qed.

Lemma becomeFollower_ok m r t :
  raft_inv r -> currentTerm r < t -> (forall n, msg_terms_le n m -> t <= n) ->
  local_ok m r (becomeFollower t r).
Proof.
  intros [Ht _ _ _ Hv _] Hlt Hm.
  destruct (becomeFollower_rest t r) as [Ep _].
  destruct (core_is _ _ _ _ _ _ _ _ _ _ _ (becomeFollower_core t r))
    as (E1 & E2 & E3 & E4 & E5 & E6 & E7 & E8 & E9 & E10).
  split; rewrite ?E1, ?E2, ?E3, ?E4, ?E5, ?E6, ?E9, ?E10, ?Ep; try done; try lia.
  - intros n _ Hn. specialize (Hm n Hn). lia.
  - split; rewrite ?E4, ?E5, ?E6, ?E7, ?E8, ?E9; try done; try lia.
    intros t' c Hc. apply Hv in Hc. lia.
  - intros x Hx. by left.
Qed.

(** A queued message that gives no vote. *)
Lemma fresh_no_vote r x :
  msg_From x = ID r -> msg_VoteResp x = None -> msg_terms_le (currentTerm r) x ->
  fresh_ok r x.
Proof. intros Hf Hn Ht. split_and!; [done|done|]. intros t (v & E & _). congruence. Qed.

Lemma appendResponse_fresh r to b : fresh_ok r (appendResponse r to b).
Proof. apply fresh_no_vote; [done|done|]. repeat split; cbn; lia. Qed.

Lemma pending_send_msgs r (ms : list Message) :
  (forall x, x ∈ ms -> fresh_ok r x) -> quiet r (set_msgs (msgs r ++ ms) r).
Proof.
  intros H. split; [done|]. intros x. unfold pending. cbn. rewrite !elem_of_app.
  intros [[?|Hx]|?]; [by left; left|right|by left; right]. by apply H in Hx.
Qed.

Lemma pending_send_after r (ms : list Message) :
  (forall x, x ∈ ms -> fresh_ok r x) ->
  quiet r (set_msgsAfterAppend (msgsAfterAppend r ++ ms) r).
Proof.
  intros H. split; [done|]. intros x. unfold pending. cbn. rewrite !elem_of_app.
  intros [?|[?|Hx]]; [by left; left|by left; right|right]. by apply H in Hx.
Qed.

Lemma quiet_log r l : quiet r (set_r_raftLog l r).
Proof. split; [done|]. intros x Hx. by left. Qed.

Lemma quiet_progress r p : quiet r (set_progress p r).
Proof. split; [done|]. intros x Hx. by left. Qed.

Lemma quiet_refl r : quiet r r.
Proof. split; [done|]. intros x Hx. by left. Qed.

Lemma sendAppendResponse_quiet to b r : quiet r (sendAppendResponse to b r).
Proof.
  apply pending_send_msgs. intros x ->%list_elem_of_singleton. apply appendResponse_fresh.
Qed.

Lemma sendAfterPersist_quiet to b r : quiet r (sendAppendResponseAfterPersist to b r).
Proof.
  apply pending_send_after. intros x ->%list_elem_of_singleton. apply appendResponse_fresh.
Qed.

Lemma quiet_if (b : bool) r0 r1 r2 :
  quiet r0 r1 -> quiet r0 r2 -> quiet r0 (if b then r1 else r2).
Proof. by destruct b. Qed.

#[local] Hint Resolve quiet_refl quiet_log sendAppendResponse_quiet
  sendAfterPersist_quiet quiet_if : core.

Lemma handleAppendEntries_ok m r r' :
  raft_inv r -> handleAppendEntries m r = Ok r' -> local_ok m r r'.
Proof.
  intros Hi. unfold handleAppendEntries.
  destruct (msg_Entries m) as [ae|] eqn:Eae; [|intros [= <-]; by apply local_ok_refl].
  destruct (Z.ltb_spec (ae_Term ae) (currentTerm r)) as [|Hge].
  { intros [= <-]. apply quiet_local; auto. }
  set (r1 := if currentTerm r <? ae_Term ae then _ else r). cbv zeta.
  assert (local_ok m r r1) as H1.
  { unfold r1. destruct (Z.ltb_spec (currentTerm r) (ae_Term ae)); [|by apply local_ok_refl].
    apply becomeFollower_ok; [done|done|]. intros n (_ & _ & Hn & _). by rewrite Eae in Hn. }
  clearbody r1. intros (mismatch & _ & H)%bind_Ok_inv.
  apply (ok_quiet m r r1); [done|].
  destruct mismatch; [injection H as <-; auto|]. injection H as <-.
  set (r2 := if 0 <? zlen (ae_Entries ae) then set_r_raftLog _ r1 else r1).
  set (r3 := if rl_commitIndex _ <? _ then _ else r2).
  assert (quiet r1 r2) by (unfold r2; auto).
  assert (quiet r2 r3) by (unfold r3; auto).
  eapply quiet_trans; [done|]. eapply quiet_trans; [done|]. auto.
Qed.

Lemma handleAppendResponse_ok m r r' :
  raft_inv r -> handleAppendResponse m r = Ok r' -> local_ok m r r'.
Proof.
  intros Hi. unfold handleAppendResponse.
  destruct (msg_EntriesResp m) as [resp|] eqn:E; [|intros [= <-]; by apply local_ok_refl].
  destruct (Z.ltb_spec (currentTerm r) (aer_CurrentTerm resp)).
  { intros [= <-]. apply becomeFollower_ok; [done|done|].
    intros n (_ & _ & _ & Hn). by rewrite E in Hn. }
  destruct (aer_CurrentTerm resp <? currentTerm r);
    [intros [= <-]; by apply local_ok_refl|].
  destruct (aer_Success resp).
  - unfold maybeCommit. intros (l & _ & Hl)%bind_Ok_inv. injection Hl as <-.
    apply quiet_local; [done|]. eapply quiet_trans; [apply quiet_progress|apply quiet_log].
  - intros [= <-]. apply quiet_local; [done|apply quiet_progress].
Qed.

(** ** Votes given *)

(** The first half of [handleVoteRequest]: catching up with the requested term. *)
Lemma catch_up_ok m r t :
  raft_inv r -> currentTerm r <= t -> (forall n, msg_terms_le n m -> t <= n) ->
  let r1 := if currentTerm r <? t then becomeFollower t r else r in
  local_ok m r r1 /\ currentTerm r1 = t.
Proof.
  intros Hi Hle Hm r1. unfold r1. destruct (Z.ltb_spec (currentTerm r) t).
  - split; [by apply becomeFollower_ok|].
    by destruct (core_is _ _ _ _ _ _ _ _ _ _ _ (becomeFollower_core t r))
      as (_ & _ & _ & E & _).
  - split; [by apply local_ok_refl|lia].
Qed.

Lemma sendVoteResponse_refuse_quiet to r :
  quiet r (sendVoteResponse to false (currentTerm r) r).
Proof.
  apply pending_send_msgs. intros x ->%list_elem_of_singleton. split_and!; [done| |].
  - repeat split; cbn; lia.
  - intros t (v & E & Hg & _). cbn in E. by injection E as <-.
Qed.

(** Recording a vote for the current term and announcing it. *)
Lemma grant_ok m r r1 c :
  local_ok m r r1 ->
  votedFor r1 !! currentTerm r1 = None \/ votedFor r1 !! currentTerm r1 = Some c ->
  local_ok m r (sendVoteResponse c true (currentTerm r1)
                  (set_votedFor (<[currentTerm r1 := c]> (votedFor r1)) r1)).
Proof.
  intros [HID Hs Hp Hrc Ht Hb Hv Hi Hsent Hvotes Hlead] Hfree.
  destruct Hi as [H0 Hst Htk Hvo Hle Hself].
  set (r' := sendVoteResponse _ _ _ _).
  assert (votedFor r1 ⊆ votedFor r') as Hsub.
  { cbn. destruct Hfree as [?|?]; [by apply insert_subseteq|by rewrite insert_id]. }
  split; try done.
  - by etrans.
  - split; cbn; try done.
    + intros t d. rewrite lookup_insert. case_decide; [lia|apply Hle].
    + intros Hf. rewrite lookup_insert_eq. apply Hself in Hf. destruct Hfree; congruence.
  - intros x. unfold pending. cbn. rewrite !elem_of_app, list_elem_of_singleton.
    intros Hx. assert (x ∈ pending r1 \/ x = mkMessage MSG_VOTE_RESP c (ID r1) None
      (Some (mkRequestVoteResponse (currentTerm r1) true)) None None) as [Hx1| ->].
    { unfold pending. rewrite elem_of_app. tauto. }
    + apply Hsent in Hx1 as [Hx1|Hf]; [left; by apply elem_of_app|right].
      by apply (fresh_ok_mono r1).
    + right. split_and!; [done|repeat split; cbn; lia|].
      intros t (v & E & _ & <-). injection E as <-. cbn. by rewrite lookup_insert_eq.
Qed.

Lemma handleVoteRequest_ok m r : raft_inv r -> local_ok m r (handleVoteRequest m r).
Proof.
  intros Hi. unfold handleVoteRequest.
  destruct (msg_Vote m) as [req|] eqn:Ereq; [|by apply local_ok_refl].
  set (t := i64 (GetVoteTerm req)). cbv zeta.
  destruct (Z.ltb_spec t (currentTerm r)).
  { apply quiet_local; [done|]. apply sendVoteResponse_refuse_quiet. }
  destruct (catch_up_ok m r t Hi) as [H1 H2]; [done| |].
  { intros n (Hn & _). by rewrite Ereq in Hn. }
  set (r1 := if currentTerm r <? t then _ else r) in *. clearbody r1 t. subst t.
  destruct (votedFor r1 !! currentTerm r1) as [voted|] eqn:Ev.
  - destruct (Z.eqb_spec voted (rv_CandidateId req)) as [->|]; cbn [negb].
    + apply (grant_ok m r r1); [done|by right].
    + apply (ok_quiet m r r1); [done|]. apply sendVoteResponse_refuse_quiet.
  - apply (grant_ok m r r1); [done|by left].
Qed.

(** ** Elections *)

Lemma becomeLeader_core r :
  core (becomeLeader r) =
  (ID r, clusterSize r, peers r, currentTerm r, votedFor r, StateLeader,
   Some StateLeader, Some StateLeader, None, readyc r) /\ pending (becomeLeader r) = pending r.
Proof. done. Qed.

(** A node that has gathered a quorum of explained votes becomes leader. *)
Lemma becomeLeader_ok m r r1 v :
  local_ok m r r1 -> state r1 = StateCandidate ->
  quorum r1 <= countGranted v -> votes_explained m r r1 v ->
  local_ok m r (becomeLeader r1).
Proof.
  intros [HID Hs Hp Hrc Ht Hb Hv Hi Hsent Hvotes Hlead] Hst Hq Hex.
  destruct Hi as [H0 _ _ Hvo Hle Hself].
  split; try done.
  - split; cbn; try done.
    intros _. apply Hself. by rewrite Hst.
  - intros _. right. by exists v.
Qed.

Lemma handleVoteResponse_ok m r r' :
  raft_inv r -> state r = StateCandidate -> handleVoteResponse m r = Ok r' ->
  local_ok m r r'.
Proof.
  intros Hi Hst. unfold handleVoteResponse.
  destruct (msg_VoteResp m) as [resp|] eqn:E; [|intros [= <-]; by apply local_ok_refl].
  destruct (Z.ltb_spec (rvr_Term resp) (currentTerm r)) as [|Hge];
    [intros [= <-]; by apply local_ok_refl|].
  destruct (Z.ltb_spec (currentTerm r) (rvr_Term resp)) as [|Hle].
  { intros [= <-]. apply becomeFollower_ok; [done|done|].
    intros n (_ & Hn & _). by rewrite E in Hn. }
  destruct (votes r) as [v|] eqn:Ev; [|done]. cbv zeta.
  set (v' := <[msg_From m := rvr_VoteGranted resp]> v).
  set (r1 := set_votes (Some v') r).
  assert (Hex : votes_explained m r r1 v').
  { intros p Hp. unfold v' in Hp. rewrite lookup_insert in Hp. case_decide as Hd.
    - right; right. split; [done|]. exists resp. cbn. split_and!; [done|congruence|lia].
    - right; left. split_and!; [done|done|by exists v]. }
  assert (H1 : local_ok m r r1).
  { split; try done; try (intros; cbn; lia).
    - destruct Hi as [H0 Hs Ht Hvo Hle' Hself]. split; cbn; try done.
    - intros x Hx. by left.
    - by intros v0 [= <-].
    - cbn. by rewrite Hst. }
  destruct (Z.leb_spec (quorum r1) (countGranted v')); intros [= <-]; [|done].
  by apply (becomeLeader_ok m r r1 v').
Qed.

Lemma becomeCandidate_core r :
  core (becomeCandidate r) =
  (ID r, clusterSize r, peers r, currentTerm r, votedFor r, StateCandidate,
   Some StateCandidate, Some StateCandidate, Some ∅, readyc r) /\
  pending (becomeCandidate r) = pending r /\ r_raftLog (becomeCandidate r) = r_raftLog r.
Proof. unfold becomeCandidate, resetTimeout. cbn. by destruct (0 <? electionTimeout r). Qed.

(** The new term and the node's vote for itself. *)
Definition self_vote (r : Raft) : Raft :=
  let r := set_currentTerm (i64 (currentTerm r + 1)) r in
  let r := set_votedFor (<[currentTerm r := ID r]> (votedFor r)) r in
  set_votes (insert (ID r) true <$> votes r) r.

(** The candidate that [campaign] makes, before anything is sent. *)
Definition candidate (r : Raft) : Raft := self_vote (becomeCandidate r).

Lemma self_vote_core r :
  core (self_vote r) =
  (ID r, clusterSize r, peers r, i64 (currentTerm r + 1), <[i64 (currentTerm r + 1) := ID r]> (votedFor r),
   state r, step r, tick r, insert (ID r) true <$> votes r, readyc r) /\
  pending (self_vote r) = pending r /\ r_raftLog (self_vote r) = r_raftLog r.
Proof. done. Qed.

Lemma campaign_eq ord r :
  campaign ord r =
  if clusterSize (candidate r) =? 1 then becomeLeader (candidate r)
  else set_msgs (msgs (candidate r) ++ (voteMessage (candidate r) <$> ord)) (candidate r).
Proof. reflexivity. Qed.

Lemma candidate_core r :
  0 <= currentTerm r -> term_room r ->
  core (candidate r) =
  (ID r, clusterSize r, peers r, currentTerm r + 1, <[currentTerm r + 1 := ID r]> (votedFor r),
   StateCandidate, Some StateCandidate, Some StateCandidate, Some {[ID r := true]},
   readyc r) /\
  pending (candidate r) = pending r /\ r_raftLog (candidate r) = r_raftLog r.
Proof.
  intros H0 Hroom. unfold term_room in Hroom.
  destruct (becomeCandidate_core r) as (E & Ep & El).
  destruct (core_is _ _ _ _ _ _ _ _ _ _ _ E) as (E1 & E2 & E3 & E4 & E5 & E6 & E7 & E8 & E9 & E10).
  destruct (self_vote_core (becomeCandidate r)) as (Ec & Eq & Er). fold (candidate r) in Ec, Eq, Er.
  rewrite Ec, Eq, Er, Ep, El, E1, E2, E3, E4, E5, E6, E7, E8, E9, E10, i64_id by lia. split_and!; reflexivity.
Qed.

Lemma candidate_ok m r : raft_inv r -> term_room r -> local_ok m r (candidate r).
Proof.
  intros [H0 Hst Htk Hvo Hle Hself] Hroom.
  destruct (candidate_core r H0 Hroom) as (E & Ep & _).
  destruct (core_is _ _ _ _ _ _ _ _ _ _ _ E) as (E1 & E2 & E3 & E4 & E5 & E6 & E7 & E8 & E9 & E10).
  assert (votedFor r !! (currentTerm r + 1) = None) as Hfree.
  { destruct (votedFor r !! (currentTerm r + 1)) eqn:F; [|done]. apply Hle in F. lia. }
  split; rewrite ?E1, ?E2, ?E3, ?E4, ?E5, ?E6, ?E9, ?E10, ?Ep; try done; try (intros; lia).
  - by apply insert_subseteq.
  - split; rewrite ?E1, ?E4, ?E5, ?E6, ?E7, ?E8, ?E9; try done; try lia.
    + intros t c. rewrite lookup_insert. case_decide; [lia|]. intros F%Hle. lia.
    + intros _. by rewrite lookup_insert_eq.
  - intros x Hx. by left.
  - intros v [= <-] p Hp. left. rewrite lookup_singleton in Hp. by case_decide.
Qed.

Lemma voteMessage_fresh r p :
  - 2 ^ 63 <= currentTerm r < 2 ^ 63 -> fresh_ok r (voteMessage r p).
Proof.
  intros Ht. apply fresh_no_vote; [done|done|]. repeat split; cbn; try lia.
  by rewrite i64_u64, i64_id.
Qed.

Lemma countGranted_singleton p : countGranted {[p := true]} = 1.
Proof.
  unfold countGranted. rewrite map_filter_singleton_True by done.
  by rewrite map_size_singleton.
Qed.

Lemma campaign_ok ord m r : raft_inv r -> term_room r -> local_ok m r (campaign ord r).
Proof.
  intros Hi Hroom. pose proof Hi as [H0 _ _ _ _ _].
  pose proof (candidate_ok m r Hi Hroom) as Hc.
  destruct (candidate_core r H0 Hroom) as (E & _).
  destruct (core_is _ _ _ _ _ _ _ _ _ _ _ E) as (E1 & E2 & _ & E4 & _ & E6 & _ & _ & E9 & _).
  rewrite !campaign_eq.
  destruct (Z.eqb_spec (clusterSize (candidate r)) 1) as [Hone|].
  - apply (becomeLeader_ok m r _ {[ID r := true]}); [done|done| |].
    + unfold quorum. rewrite Hone, countGranted_singleton. done.
    + by apply Hc.
  - apply (ok_quiet m r _ _ Hc). apply pending_send_msgs.
    intros x (p & -> & _)%list_elem_of_fmap. apply voteMessage_fresh.
    unfold term_room in Hroom. lia.
Qed.

(** ** The leader's broadcasts *)

Lemma messages_to_elem mk ord ms x :
  messages_to mk ord = Ok ms -> x ∈ ms -> exists p, p ∈ ord /\ mk p = Ok x.
Proof.
  revert ms. induction ord as [|p ord IH]; cbn; intros ms.
  - intros [= <-] Hx. by apply not_elem_of_nil in Hx.
  - intros (m & Hm & H)%bind_Ok_inv. apply bind_Ok_inv in H as (ms' & Hms & H).
    injection H as <-. rewrite elem_of_cons. intros [->|Hx].
    + exists p. split; [by left|done].
    + destruct (IH ms' Hms Hx) as (q & Hq & ?). exists q. split; [by right|done].
Qed.

Lemma broadcast_fresh r mk ord ms :
  (forall p x, mk p = Ok x -> fresh_ok r x) -> messages_to mk ord = Ok ms ->
  forall x, x ∈ ms -> fresh_ok r x.
Proof. intros H Hms x Hx. destruct (messages_to_elem _ _ _ _ Hms Hx) as (p & _ & ?). by eapply H. Qed.

Lemma appendMessage_fresh r p x : appendMessage r p = Ok x -> fresh_ok r x.
Proof.
  unfold appendMessage. intros (t & _ & H)%bind_Ok_inv.
  apply bind_Ok_inv in H as (es & _ & H). injection H as <-.
  apply fresh_no_vote; [done|done|]. repeat split; cbn; lia.
Qed.

Lemma heartbeatMessage_fresh r p x : heartbeatMessage r p = Ok x -> fresh_ok r x.
Proof.
  unfold heartbeatMessage. intros (t & _ & H)%bind_Ok_inv. injection H as <-.
  apply fresh_no_vote; [done|done|]. repeat split; cbn; lia.
Qed.

Lemma replicate_quiet ord m r r' : replicate ord m r = Ok r' -> quiet r r'.
Proof.
  unfold replicate. destruct (negb (isLead r)); [done|].
  destruct (zlen (GetEntries (msg_Entries m)) =? 0); [intros [= <-]; apply quiet_refl|].
  cbv zeta. set (r1 := set_r_raftLog _ r). intros (ms & Hms & H)%bind_Ok_inv.
  injection H as <-. apply (quiet_trans r r1); [apply quiet_log|].
  apply (pending_send_after r1).
  apply (broadcast_fresh r1 (appendMessage r1) ord); [apply appendMessage_fresh|done].
Qed.

Lemma broadcastHeartbeat_quiet ord r r' : broadcastHeartbeat ord r = Ok r' -> quiet r r'.
Proof.
  unfold broadcastHeartbeat. intros (ms & Hms & H)%bind_Ok_inv. injection H as <-.
  apply pending_send_msgs.
  apply (broadcast_fresh r (heartbeatMessage r) ord); [apply heartbeatMessage_fresh|done].
Qed.

(** ** [Step] and [Tick] *)

Lemma quiet_electionTick r n : quiet r (set_electionTick n r).
Proof. split; [done|]. intros x Hx. by left. Qed.

Lemma quiet_heartbeatTick r n : quiet r (set_heartbeatTick n r).
Proof. split; [done|]. intros x Hx. by left. Qed.

Lemma quiet_inv r r' : quiet r r' -> raft_inv r -> raft_inv r'.
Proof. intros [Hc _]. by apply raft_inv_core. Qed.

Lemma handleVote_ok ord m r : raft_inv r -> term_room r -> local_ok m r (handleVote ord m r).
Proof.
  intros Hi Hroom. unfold handleVote.
  destruct (msg_Vote m); [by apply handleVoteRequest_ok|by apply campaign_ok].
Qed.

Lemma Step_ok ord m r r' :
  raft_inv r -> term_room r -> Step ord m r = Ok r' -> local_ok m r r'.
Proof.
  intros Hi Hroom. unfold Step.
  assert (Happ : handleAppendEntries m (set_electionTick 0 r) = Ok r' -> local_ok m r r').
  { intros H. apply (quiet_ok m r (set_electionTick 0 r)); [apply quiet_electionTick|].
    apply handleAppendEntries_ok; [|done]. by eapply quiet_inv; [apply quiet_electionTick|]. }
  pose proof (handleVote_ok ord m r Hi Hroom) as Hvote.
  assert (Hid : Ok r = Ok r' -> local_ok m r r') by (intros [= <-]; by apply local_ok_refl).
  rewrite (inv_step _ Hi). destruct (state r) eqn:Est;
    unfold stepFollower, stepCandidate, stepLeader; destruct (msg_Type m); try done;
    try (intros [= <-]; exact Hvote).
  - by apply handleVoteResponse_ok.
  - unfold wrap_err. destruct (replicate ord m r) eqn:E; try done. intros [= <-].
    apply quiet_local; [done|]. by eapply replicate_quiet.
  - by apply handleAppendResponse_ok.
  - intros H. apply quiet_local; [done|]. by eapply broadcastHeartbeat_quiet.
Qed.

Lemma log_err_Ok r res r' : log_err r res = Ok r' -> r' = r \/ res = Ok r'.
Proof. destruct res; cbn; [by right|intros [= ->]; by left|done]. Qed.

Lemma Tick_ok ord r r' :
  raft_inv r -> term_room r -> Tick ord r = Ok r' ->
  exists m, msg_VoteResp m = None /\ msg_terms_le (currentTerm r) m /\ local_ok m r r'.
Proof.
  intros Hi Hroom. unfold Tick. rewrite (inv_tick _ Hi).
  assert (Hgen : forall t r1, quiet r r1 -> log_err r1 (Step ord (bare_message t) r1) = Ok r' ->
    exists m, msg_VoteResp m = None /\ msg_terms_le (currentTerm r) m /\ local_ok m r r').
  { intros t r1 Hq H. exists (bare_message t). split_and!; [done|by repeat split|].
    apply (quiet_ok _ r r1 r' Hq). pose proof (quiet_inv _ _ Hq Hi) as Hi1.
    apply log_err_Ok in H as [->|H]; [by apply local_ok_refl|].
    apply (Step_ok ord); [done| |done]. unfold term_room in *.
    destruct Hq as [(_ & _ & _ & -> & _)%core_eq _]. done. }
  assert (Hid : forall r1, quiet r r1 -> Ok r1 = Ok r' ->
    exists m, msg_VoteResp m = None /\ msg_terms_le (currentTerm r) m /\ local_ok m r r').
  { intros r1 Hq [= <-]. exists (bare_message MSG_UNKNOWN).
    split_and!; [done|by repeat split|by apply quiet_local]. }
  assert (Helec : tickElection ord r = Ok r' ->
    exists m, msg_VoteResp m = None /\ msg_terms_le (currentTerm r) m /\ local_ok m r r').
  { unfold tickElection. cbv zeta. destruct (_ <=? _).
    - apply Hgen. eapply quiet_trans; apply quiet_electionTick.
    - apply Hid. apply quiet_electionTick. }
  destruct (state r); try exact Helec. unfold tickLeader. cbv zeta. destruct (_ <=? _).
  - apply Hgen. eapply quiet_trans; apply quiet_heartbeatTick.
  - apply Hid. apply quiet_heartbeatTick.
Qed.

(** ** The node's promises *)

(** C19: whatever message a node steps through, its term never goes back, every
    vote it ever gave stays as it was given (one candidate per term), and the
    invariant of its role holds again: the step and tick functions are those
    of the role, only a candidate has a votes map, no vote is for a term ahead
    of its own, and a candidate or leader has voted for itself.  What the call
    leaves for sending is in the node's own name, and a granted vote among it is
    one that the node has recorded, for the node it is sent to and in its
    term. *)
Theorem step_keeps_votes ord m r r' :
  raft_inv r -> term_room r -> Step ord m r = Ok r' ->
  raft_inv r' /\ currentTerm r <= currentTerm r' /\
  (forall t c, votedFor r !! t = Some c -> votedFor r' !! t = Some c) /\
  (forall x, x ∈ pending r' -> x ∉ pending r ->
     msg_From x = ID r /\ forall t, grants x t -> votedFor r' !! t = Some (msg_To x)).
Proof.
  intros Hi Hroom H. pose proof (Step_ok _ _ _ _ Hi Hroom H) as Hok.
  split; [apply Hok|]. split; [apply Hok|]. split.
  - intros t c Hv. eapply lookup_weaken; [exact Hv|apply Hok].
  - intros x Hx Hnew. destruct (ok_sent _ _ _ Hok x Hx) as [?|(Hf & _ & Hg)]; [done|].
    split; [by rewrite Hf, (ok_ID _ _ _ Hok)|exact Hg].
Qed.

(** A follower of term 3 that has voted for node 1 is asked again, by node 2. *)
Definition voter : Raft := set_votedFor {[3 := 1]} (becomeFollower 3 (NewRaft 3 [1; 2])).
Definition second_request : Message :=
  mkMessage MSG_VOTE 3 2 (Some (mkRequestVote (Some 3) 2 0 0)) None None None.

Lemma voter_inv : raft_inv voter.
Proof.
  split; cbn; try done; try lia.
  intros t c Hv. apply lookup_singleton_Some in Hv as [<- <-]. lia.
Qed.

Lemma step_keeps_votes_witness :
  exists r', Step [1; 2] second_request voter = Ok r' /\ votedFor r' !! 3 = Some 1.
Proof.
  eexists. split; [reflexivity|].
  destruct (step_keeps_votes [1; 2] second_request voter _ voter_inv eq_refl eq_refl) as (_ & _ & H & _).
  apply H. reflexivity.
Defined.

(** [n] ticks in a row, with nothing heard in between. *)
Fixpoint ticks (n : nat) (ord : list Z) (r : Raft) : outcome Raft :=
  match n with
  | O => Ok r
  | S n => r ← Tick ord r; ticks n ord r
  end.

Lemma Tick_waits ord r :
  tick r = Some StateFollower \/ tick r = Some StateCandidate ->
  electionTick r + 1 < randomizedTimeout r ->
  Tick ord r = Ok (set_electionTick (electionTick r + 1) r).
Proof.
  intros Ht Hlt. unfold Tick. destruct Ht as [-> | ->]; unfold tickCandidate, tickElection; cbn;
    rewrite (proj2 (Z.leb_gt _ _)); done.
Qed.

Lemma Tick_fires ord r :
  step r = tick r -> tick r = Some StateFollower \/ tick r = Some StateCandidate ->
  randomizedTimeout r <= electionTick r + 1 ->
  Tick ord r = Ok (campaign ord (set_electionTick 0 r)).
Proof.
  intros Hs Ht Hle. unfold Tick. destruct Ht as [E|E]; rewrite E in *; unfold tickCandidate, tickElection; cbn;
    rewrite (proj2 (Z.leb_le _ _)) by done; unfold Step; cbn; rewrite Hs; done.
Qed.

Lemma becomeCandidate_msgs r : msgs (becomeCandidate r) = msgs r.
Proof. unfold becomeCandidate, resetTimeout. cbn. by destruct (0 <? electionTimeout r). Qed.

Lemma candidate_msgs r : msgs (candidate r) = msgs r.
Proof.
  transitivity (msgs (becomeCandidate r)); [|apply becomeCandidate_msgs].
  unfold candidate. generalize (becomeCandidate r). intros c. reflexivity.
Qed.

Lemma campaign_from (ord : list Z) (r c : Raft) :
  clusterSize c = clusterSize r -> currentTerm c = currentTerm r + 1 ->
  votedFor c = <[currentTerm r + 1 := ID r]> (votedFor r) -> state c = StateCandidate ->
  msgs c = msgs r ->
  let r' := if clusterSize c =? 1 then becomeLeader c
            else set_msgs (msgs c ++ (voteMessage c <$> ord)) c in
  currentTerm r' = currentTerm r + 1 /\
  votedFor r' = <[currentTerm r + 1 := ID r]> (votedFor r) /\
  (if clusterSize r =? 1 then state r' = StateLeader
   else state r' = StateCandidate /\ length (msgs r') = (length (msgs r) + length ord)%nat).
Proof.
  intros E2 E4 E5 E6 Em r'. subst r'. rewrite E2.
  destruct (clusterSize r =? 1); cbn; [done|]. by rewrite length_app, length_fmap, Em.
Qed.

Lemma campaign_outcome ord r :
  0 <= currentTerm r -> term_room r ->
  currentTerm (campaign ord r) = currentTerm r + 1 /\
  votedFor (campaign ord r) = <[currentTerm r + 1 := ID r]> (votedFor r) /\
  (if clusterSize r =? 1 then state (campaign ord r) = StateLeader
   else state (campaign ord r) = StateCandidate /\
     length (msgs (campaign ord r)) = (length (msgs r) + length ord)%nat).
Proof.
  intros H0 Hroom. destruct (candidate_core r H0 Hroom) as (E & _ & _).
  destruct (core_is _ _ _ _ _ _ _ _ _ _ _ E) as (E1 & E2 & E3 & E4 & E5 & E6 & _).
  rewrite campaign_eq. exact (campaign_from ord r (candidate r) E2 E4 E5 E6 (candidate_msgs r)).
Qed.

(** A node that hears nothing campaigns: a follower or candidate whose
    timers stand at [electionTick] of [randomizedTimeout] is, after exactly
    the missing number of ticks, a candidate (or, alone in its cluster, the
    leader) of the next term, has voted for itself in it, and has queued a
    vote request to every peer. *)
Theorem election_timeout_fires ord r :
  raft_inv r -> term_room r -> state r <> StateLeader ->
  electionTick r < randomizedTimeout r ->
  exists r', ticks (Z.to_nat (randomizedTimeout r - electionTick r)) ord r = Ok r' /\
    currentTerm r' = currentTerm r + 1 /\
    votedFor r' = <[currentTerm r + 1 := ID r]> (votedFor r) /\
    (if clusterSize r =? 1 then state r' = StateLeader
     else state r' = StateCandidate /\
       length (msgs r') = (length (msgs r) + length ord)%nat).
Proof.
  intros Hi Hroom Hl. remember (Z.to_nat (randomizedTimeout r - electionTick r)) as n eqn:En.
  revert r Hi Hroom Hl En. induction n as [|n IH]; intros r Hi Hroom Hl En Hlt; [lia|].
  assert (Ht : tick r = Some StateFollower \/ tick r = Some StateCandidate).
  { rewrite (inv_tick _ Hi). destruct (state r); auto. done. }
  cbn [ticks]. destruct (decide (n = 0%nat)) as [->|Hn].
  - rewrite Tick_fires by (done || lia || by rewrite (inv_step _ Hi), (inv_tick _ Hi)).
    cbn [mbind outcome_bind ticks]. eexists. split; [done|].
    exact (campaign_outcome ord (set_electionTick 0 r) (inv_term _ Hi) Hroom).
  - rewrite Tick_waits by (done || lia). cbn [mbind outcome_bind].
    apply (IH (set_electionTick (electionTick r + 1) r)); cbn; try done; try lia.
    apply (quiet_inv r); [apply quiet_electionTick|done].
Qed.

Lemma election_timeout_fires_witness :
  exists r', ticks 9 [2; 3] (NewRaft 1 [2; 3]) = Ok r' /\ currentTerm r' = 1 /\
    state r' = StateCandidate.
Proof.
  assert (Hi : raft_inv (NewRaft 1 [2; 3])) by (split; cbn; done).
  destruct (election_timeout_fires [2; 3] (NewRaft 1 [2; 3]) Hi eq_refl) as (r' & H1 & H2 & _ & H3 & _).
  - discriminate.
  - reflexivity.
  - exists r'. split; [exact H1|]. split; [exact H2|exact H3].
Defined.

(** What the unused [randomTimeout] would have given: a time from once to twice
    the minimum. *)
Lemma randomTimeout_range rand minVal :
  0 <= rand -> 0 < minVal < 2 ^ 62 ->
  exists d, randomTimeout rand minVal = Some d /\ minVal <= d < 2 * minVal.
Proof.
  intros Hr Hm. unfold randomTimeout. rewrite (proj2 (Z.eqb_neq _ _)) by lia.
  pose proof (Z.rem_bound_pos rand minVal ltac:(lia) ltac:(lia)). rewrite i64_id by lia.
  eexists. split; [done|lia].
Qed.

(** The election timeout is not randomised: [resetTimeout] adds
    [electionTick % electionTimeout], and every caller has just set
    [electionTick] to zero, so each new follower and each new candidate waits
    exactly [electionTimeout] ticks, on every node. *)
Theorem timeout_not_randomized t r :
  0 < electionTimeout r ->
  randomizedTimeout (becomeFollower t r) = electionTimeout r /\
  randomizedTimeout (becomeCandidate r) = electionTimeout r.
Proof.
  intros H. unfold becomeFollower, becomeCandidate, resetTimeout. cbn.
  rewrite (proj2 (Z.ltb_lt _ _) H). cbn. rewrite Z.rem_0_l by lia. lia.
Qed.

Lemma timeout_not_randomized_witness :
  0 < electionTimeout (NewRaft 7 [2; 3]) /\
  randomizedTimeout (becomeFollower 4 (NewRaft 7 [2; 3])) = 10.
Proof.
  split; [reflexivity|]. exact (proj1 (timeout_not_randomized 4 (NewRaft 7 [2; 3]) eq_refl)).
Defined.
