(* ===== verification/Replication.v ===== *)
(** * Log replication

    What the handlers of [repl/sm.go] do to the log, to the progress records
    and to the append messages: which calls cannot panic, what a proposal and
    an append message do, and when the leader commits. *)
From S2P Require Import Prelude Proto RaftLog Raft Election.

Local Open Scope Z_scope.

(** ** A log whose ids stay below its positions *)

(** No id of [es] is above the position it would have from [n] on. *)
Definition covered (n : Z) (es : list Log) : Prop :=
  forall i e, es !! i = Some e -> 0 <= log_Id e <= n + Z.of_nat i.

Record log_safe (l : raftLog) : Prop := {
  ls_ids : covered 1 (rl_entries l);
  ls_commit : 0 <= rl_commitIndex l;
  ls_applied : 0 <= rl_lastApplied l;
  ls_stable : 0 <= rl_stableIndex l;
}.

(** The entries of an append message fit behind its [prevLogIdx]. *)
Definition msg_safe (x : Message) : Prop :=
  from_option (fun ae => covered (ae_PrevLogIdx ae + 1) (ae_Entries ae)) True (msg_Entries x).

Definition progress_safe (r : Raft) : Prop :=
  forall p, p ∈ peers r ->
    0 <= matchIndex (getProgress (progress r) p) /\ 1 <= nextIndex (getProgress (progress r) p).

Record safe (r : Raft) : Prop := {
  safe_log : log_safe (r_raftLog r);
  safe_progress : state r = StateLeader -> progress_safe r;
  safe_pending x : x ∈ pending r -> msg_safe x;
}.

Lemma covered_app n es1 es2 :
  covered n es1 -> covered (n + zlen es1) es2 -> covered n (es1 ++ es2).
Proof.
  intros H1 H2 i e [He|[Hi He]]%lookup_app_Some; [by apply H1|].
  apply H2 in He. unfold zlen in He. lia.
Qed.

Lemma covered_le n n' es : n <= n' -> covered n es -> covered n' es.
Proof. intros Hn H i e He. apply H in He. lia. Qed.

Lemma covered_drop n es k : covered n es -> covered (n + Z.of_nat k) (drop k es).
Proof. intros H i e He. rewrite lookup_drop in He. apply H in He. lia. Qed.

Lemma covered_take n es k : covered n es -> covered n (take k es).
Proof. intros H i e [He _]%lookup_take_Some. by apply H. Qed.

Lemma lastIndex_covered l :
  covered 1 (rl_entries l) -> 0 <= lastIndex l <= zlen (rl_entries l).
Proof.
  intros H. unfold lastIndex, zlen. rewrite last_lookup.
  destruct (rl_entries l !! pred (length (rl_entries l))) as [e|] eqn:E; cbn; [|lia].
  pose proof (lookup_lt_Some _ _ _ E). apply H in E. lia.
Qed.

Lemma term_total l i : covered 1 (rl_entries l) -> 0 <= i -> exists t, term i l = Ok t.
Proof.
  intros H Hi. pose proof (lastIndex_covered l H). unfold term.
  destruct (Z.eqb_spec i 0); [by eexists|]. destruct (Z.ltb_spec (lastIndex l) i); [by eexists|].
  cbn [orb]. destruct (slot_in_range l i ltac:(lia)) as (e & -> & _). by eexists.
Qed.

Lemma log_safe_append l es :
  log_safe l -> covered (lastIndex l + 1) es -> log_safe (append es l).
Proof.
  intros [H1 H2 H3 H4] Hes. split; cbn; [|done..]. apply covered_app; [done|].
  pose proof (lastIndex_covered l H1). apply (covered_le (lastIndex l + 1)); [lia|done].
Qed.

Lemma log_safe_commit l i : log_safe l -> log_safe (RaftLog.maybeCommit i l).
Proof.
  intros H. unfold RaftLog.maybeCommit.
  destruct (Z.ltb_spec (rl_commitIndex l) i); cbn [andb]; [|done].
  destruct (i <=? lastIndex l); [|done]. destruct H. split; cbn; try done. lia.
Qed.

Lemma lastIndex_commit l i : lastIndex (RaftLog.maybeCommit i l) = lastIndex l.
Proof. unfold RaftLog.maybeCommit. by destruct (_ && _). Qed.

Lemma stampEntries_lookup t n es i :
  stampEntries t n es !! i =
  (fun e => mkLog t (n + Z.of_nat i) (log_Data e)) <$> (es !! i).
Proof.
  revert n i. induction es as [|e es IH]; intros n [|i]; cbn; try done.
  - by rewrite Z.add_0_r.
  - rewrite IH. destruct (es !! i); cbn; [|done]. do 2 f_equal. lia.
Qed.

Lemma stampEntries_length t n es : length (stampEntries t n es) = length es.
Proof. revert n. induction es; intros; cbn; auto. Qed.

Lemma stampEntries_sequential t n es : sequential_from n (stampEntries t n es).
Proof.
  intros i e He. rewrite stampEntries_lookup in He.
  apply fmap_Some in He as (e' & _ & ->). done.
Qed.

Lemma sequential_covered n es : 0 <= n -> sequential_from n es -> covered n es.
Proof. intros Hn H i e He. apply H in He. lia. Qed.

(** ** No handler panics or fails on a safe node *)

Lemma safe_follow t r : safe r -> safe (becomeFollower t r).
Proof.
  intros [H1 H2 H3]. destruct (becomeFollower_rest t r) as [Ep El].
  destruct (core_is _ _ _ _ _ _ _ _ _ _ _ (becomeFollower_core t r)) as (_&_&_&_&_&E6&_).
  split; [by rewrite El|by rewrite E6|by rewrite Ep].
Qed.

Lemma safe_set_log l r : log_safe l -> safe r -> safe (set_r_raftLog l r).
Proof. intros Hl [H1 H2 H3]. by split. Qed.

Lemma safe_send ms r :
  (forall x, x ∈ ms -> msg_safe x) -> safe r -> safe (set_msgs (msgs r ++ ms) r).
Proof.
  intros Hms [H1 H2 H3]. split; [done..|]. intros x. unfold pending in *. cbn.
  rewrite !elem_of_app. intros [[?|?]|?]; auto; apply H3, elem_of_app; auto.
Qed.

Lemma safe_send_after ms r :
  (forall x, x ∈ ms -> msg_safe x) -> safe r ->
  safe (set_msgsAfterAppend (msgsAfterAppend r ++ ms) r).
Proof.
  intros Hms [H1 H2 H3]. split; [done..|]. intros x. unfold pending in *. cbn.
  rewrite !elem_of_app. intros [?|[?|?]]; auto; apply H3, elem_of_app; auto.
Qed.

Lemma safe_send_one x r : msg_safe x -> safe r -> safe (set_msgs (msgs r ++ [x]) r).
Proof. intros Hx. apply safe_send. by intros y ->%list_elem_of_singleton. Qed.

Lemma safe_timers r :
  safe r -> (forall n, safe (set_electionTick n r)) /\ (forall n, safe (set_heartbeatTick n r)).
Proof. intros [H1 H2 H3]. by split; intros; split. Qed.

#[local] Hint Resolve safe_follow safe_set_log safe_send_one log_safe_commit : core.

Lemma logMismatch_total prev prevTerm l :
  log_safe l -> exists b, logMismatch prev prevTerm l = Ok b.
Proof.
  intros [H _ _ _]. unfold logMismatch. destruct (Z.leb_spec prev 0); [by eexists|].
  destruct (lastIndex l <? prev); [by eexists|].
  destruct (term_total l prev H ltac:(lia)) as [t ->]. by eexists.
Qed.

Lemma logMismatch_false prev prevTerm l :
  logMismatch prev prevTerm l = Ok false -> prev <= 0 \/ prev <= lastIndex l.
Proof.
  unfold logMismatch. destruct (Z.leb_spec prev 0); [by left|].
  destruct (Z.ltb_spec (lastIndex l) prev); [done|]. by right.
Qed.

Lemma handleAppendEntries_total m r :
  safe r -> msg_safe m -> exists r', handleAppendEntries m r = Ok r' /\ safe r'.
Proof.
  intros Hs Hm. unfold handleAppendEntries, msg_safe in *.
  destruct (msg_Entries m) as [ae|]; [|by eexists].
  destruct (ae_Term ae <? currentTerm r); [eexists; split; [done|by apply safe_send_one]|].
  set (r1 := if currentTerm r <? ae_Term ae then _ else r). cbv zeta.
  assert (safe r1) as H1 by (unfold r1; destruct (_ <? _); auto). clearbody r1.
  destruct (logMismatch_total (ae_PrevLogIdx ae) (ae_PrevLogTerm ae) (r_raftLog r1)) as [b Hb];
    [apply H1|].
  rewrite Hb. cbn [mbind outcome_bind].
  destruct b; [eexists; split; [done|by apply safe_send_one]|].
  apply logMismatch_false in Hb. eexists. split; [done|].
  set (r2 := if 0 <? zlen (ae_Entries ae) then set_r_raftLog _ r1 else r1).
  assert (safe r2) as H2.
  { unfold r2. destruct (_ <? _); [|done]. apply safe_set_log; [|done].
    apply log_safe_append; [apply H1|]. pose proof (lastIndex_covered _ (ls_ids _ (safe_log _ H1))).
    apply (covered_le (ae_PrevLogIdx ae + 1)); [lia|done]. }
  clearbody r2. set (r3 := if rl_commitIndex _ <? _ then _ else r2).
  assert (safe r3) as H3.
  { unfold r3. destruct (_ <? _); [|done]. apply safe_set_log; [|done].
    apply log_safe_commit, H2. }
  clearbody r3. destruct (_ <? _); [|done].
  apply safe_send_after; [|done]. by intros y ->%list_elem_of_singleton.
Qed.

Lemma maybeCommit_loop_total r idx l :
  Forall (fun i => 0 <= i) idx -> log_safe l ->
  exists l', maybeCommit_loop r idx l = Ok l' /\ log_safe l'.
Proof.
  revert l. induction idx as [|i idx IH]; intros l Hidx Hl; [by eexists|].
  apply Forall_cons in Hidx as [Hi Hidx]. cbn. unfold maybeCommitAt.
  destruct (quorum r <=? replicatedCount r i); [|by apply IH].
  destruct (term_total l i (ls_ids _ Hl) Hi) as [t ->]. cbn.
  destruct (t =? currentTerm r); apply IH; auto.
Qed.

Lemma maybeCommit_total r : safe r -> exists r', maybeCommit r = Ok r' /\ safe r'.
Proof.
  intros Hs. unfold maybeCommit. cbv zeta.
  destruct (maybeCommit_loop_total r
    (seqZ (rl_commitIndex (r_raftLog r) + 1)
       (lastIndex (r_raftLog r) - (rl_commitIndex (r_raftLog r) + 1) + 1)) (r_raftLog r))
    as (l & -> & Hl); [|apply Hs|].
  - apply Forall_forall. intros i Hi%elem_of_seqZ.
    pose proof (ls_commit _ (safe_log _ Hs)). lia.
  - cbn. eexists. split; [done|]. auto.
Qed.

Lemma getProgress_insert m (p q : Z) x :
  getProgress (<[p := x]> m) q = if decide (p = q) then x else getProgress m q.
Proof. unfold getProgress. rewrite lookup_insert. by case_decide. Qed.

Lemma safe_set_progress p x r :
  (p ∈ peers r -> state r = StateLeader -> 0 <= matchIndex x /\ 1 <= nextIndex x) ->
  safe r -> safe (set_progress (<[p := x]> (progress r)) r).
Proof.
  intros Hx [H1 H2 H3]. split; [done| |done]. intros Hl q Hq. cbn.
  rewrite getProgress_insert. cbn in Hl, Hq. case_decide as Hd; [subst; auto|]. by apply H2.
Qed.

Lemma handleAppendResponse_total m r :
  safe r -> exists r', handleAppendResponse m r = Ok r' /\ safe r'.
Proof.
  intros Hs. unfold handleAppendResponse.
  destruct (msg_EntriesResp m) as [resp|]; [|by eexists].
  destruct (currentTerm r <? aer_CurrentTerm resp); [eexists; split; [done|auto]|].
  destruct (aer_CurrentTerm resp <? currentTerm r); [by eexists|].
  pose proof (lastIndex_covered _ (ls_ids _ (safe_log _ Hs))).
  destruct (aer_Success resp).
  - apply maybeCommit_total, safe_set_progress; [|done]. cbn. lia.
  - eexists. split; [done|]. apply safe_set_progress; [|done].
    intros Hp Hl. pose proof (safe_progress _ Hs Hl _ Hp).
    destruct (Z.ltb_spec 1 (nextIndex (getProgress (progress r) (msg_From m)))); cbn; lia.
Qed.

Lemma safe_set_votedFor v r : safe r -> safe (set_votedFor v r).
Proof. intros [H1 H2 H3]. by split. Qed.

Lemma sendVoteResponse_safe to g t r : safe r -> safe (sendVoteResponse to g t r).
Proof. intros Hs. by apply safe_send_one. Qed.

Lemma handleVoteRequest_safe m r : safe r -> safe (handleVoteRequest m r).
Proof.
  intros Hs. unfold handleVoteRequest. destruct (msg_Vote m) as [req|]; [|done]. cbv zeta.
  destruct (_ <? currentTerm r); [by apply sendVoteResponse_safe|].
  set (r1 := if currentTerm r <? _ then _ else r).
  assert (safe r1) as H1 by (unfold r1; destruct (_ <? _); auto). clearbody r1.
  destruct (votedFor r1 !! _) as [voted|].
  - destruct (negb _); apply sendVoteResponse_safe; [done|]. by apply safe_set_votedFor.
  - by apply sendVoteResponse_safe, safe_set_votedFor.
Qed.

Lemma becomeLeader_safe r : safe r -> safe (becomeLeader r).
Proof.
  intros [H1 _ H3]. split; [done| |done]. intros _ p Hp. cbn in *.
  unfold resetProgress, getProgress. cbn.
  rewrite lookup_union_l' by (exists (mkProgress 0 (lastIndex (r_raftLog r) + 1));
    by apply lookup_gset_to_gmap_Some).
  rewrite (proj2 (lookup_gset_to_gmap_Some _ _ p _)) by done. cbn.
  pose proof (lastIndex_covered _ (ls_ids _ H1)). lia.
Qed.

Lemma handleVoteResponse_total m r :
  raft_inv r -> state r = StateCandidate -> safe r ->
  exists r', handleVoteResponse m r = Ok r' /\ safe r'.
Proof.
  intros Hi Hst Hs. unfold handleVoteResponse.
  destruct (msg_VoteResp m) as [resp|]; [|by eexists].
  destruct (rvr_Term resp <? currentTerm r); [by eexists|].
  destruct (currentTerm r <? rvr_Term resp); [eexists; split; [done|auto]|].
  destruct (proj2 (inv_votes _ Hi) Hst) as [v ->]. cbv zeta. eexists. split; [done|].
  assert (safe (set_votes (Some (<[msg_From m := rvr_VoteGranted resp]> v)) r)).
  { destruct Hs as [H1 H2 H3]. by split. }
  destruct (_ <=? _); [by apply becomeLeader_safe|done].
Qed.

Lemma campaign_safe ord r : safe r -> safe (campaign ord r).
Proof.
  intros [H1 H2 H3].
  assert (safe (candidate r)) as Hc.
  { destruct (becomeCandidate_core r) as (E & Ep & El).
    destruct (core_is _ _ _ _ _ _ _ _ _ _ _ E) as (_&_&_&_&_&E6&_).
    destruct (self_vote_core (becomeCandidate r)) as (Ec & Eq & Er). fold (candidate r) in Ec, Eq, Er.
    destruct (core_is _ _ _ _ _ _ _ _ _ _ _ Ec) as (_&_&_&_&_&Ec6&_).
    split; [by rewrite Er, El|by rewrite Ec6, E6|]. intros x. rewrite Eq, Ep. apply H3. }
  rewrite campaign_eq.
  destruct (_ =? _); [by apply becomeLeader_safe|].
  apply safe_send; [|done]. by intros x (p & -> & _)%list_elem_of_fmap.
Qed.

(** *** The leader's broadcasts *)

Lemma messages_to_total mk ord :
  (forall p, p ∈ ord -> exists x, mk p = Ok x /\ msg_safe x) ->
  exists ms, messages_to mk ord = Ok ms /\ forall x, x ∈ ms -> msg_safe x.
Proof.
  induction ord as [|p ord IH]; intros H.
  - exists []. split; [done|]. by intros x Hx%not_elem_of_nil.
  - destruct (H p ltac:(by left)) as (x & Hx & Hsx).
    destruct IH as (ms & Hms & Hsms); [intros q Hq; apply H; by right|].
    exists (x :: ms). cbn. rewrite Hx. cbn. rewrite Hms. split; [done|].
    intros y [->|Hy]%elem_of_cons; auto.
Qed.

(** What a leader sends to a follower after a proposal: the entries from the
    follower's [nextIndex] to the end of the log. *)
Lemma appendMessage_spec r p :
  covered 1 (rl_entries (r_raftLog r)) ->
  let l := r_raftLog r in
  let prev := nextIndex (getProgress (progress r) p) - 1 in
  0 <= prev ->
  exists t, term prev l = Ok t /\
  appendMessage r p =
    Ok (mkMessage MSG_APP p (ID r) None None
          (Some (mkAppendEntries (currentTerm r) (ID r) prev t
                   (take (Z.to_nat (lastIndex l - prev)) (drop (Z.to_nat prev) (rl_entries l)))
                   (rl_commitIndex l))) None).
Proof.
  intros H l prev Hprev. destruct (term_total l prev H Hprev) as [t Ht]. exists t.
  split; [done|]. unfold appendMessage. cbv zeta. fold l. fold prev.
  rewrite collect_spec by lia.
  replace (lastIndex l - nextIndex (getProgress (progress r) p) + 1) with (lastIndex l - prev) by lia.
  fold prev. destruct (Z.ltb_spec 0 prev).
  - by rewrite Ht.
  - assert (prev = 0) as E by lia. rewrite E in Ht. injection Ht as <-. done.
Qed.

Lemma appendMessage_total r p :
  safe r -> state r = StateLeader -> p ∈ peers r ->
  exists x, appendMessage r p = Ok x /\ msg_safe x.
Proof.
  intros Hs Hl Hp. destruct (safe_progress _ Hs Hl p Hp) as [_ Hnext].
  pose proof (ls_ids _ (safe_log _ Hs)) as Hc.
  destruct (appendMessage_spec r p Hc ltac:(lia)) as (t & _ & ->). eexists. split; [done|].
  cbn. apply covered_take. set (prev := nextIndex _ - 1).
  replace (prev + 1) with (1 + Z.of_nat (Z.to_nat prev)) by lia. by apply covered_drop.
Qed.

Lemma heartbeatMessage_total r p :
  safe r -> state r = StateLeader -> p ∈ peers r ->
  exists x, heartbeatMessage r p = Ok x /\ msg_safe x.
Proof.
  intros Hs Hl Hp. destruct (safe_progress _ Hs Hl p Hp) as [Hmatch _].
  unfold heartbeatMessage. cbv zeta.
  destruct (term_total _ _ (ls_ids _ (safe_log _ Hs)) Hmatch) as [t ->].
  eexists. split; [done|]. cbn. intros i e He. by rewrite lookup_nil in He.
Qed.

Lemma broadcastHeartbeat_total ord r :
  safe r -> state r = StateLeader -> range_order r ord ->
  exists r', broadcastHeartbeat ord r = Ok r' /\ safe r'.
Proof.
  intros Hs Hl Hord. unfold broadcastHeartbeat.
  destruct (messages_to_total (heartbeatMessage r) ord) as (ms & -> & Hms).
  - intros p Hp. apply heartbeatMessage_total; [done..|]. by apply (range_order_peers r ord).
  - eexists. split; [done|]. by apply safe_send.
Qed.

Lemma replicate_total ord m r :
  safe r -> state r = StateLeader -> range_order r ord ->
  exists r', replicate ord m r = Ok r' /\ safe r'.
Proof.
  intros Hs Hl Hord. unfold replicate. unfold isLead. rewrite bool_decide_true by done.
  cbn [negb]. cbv zeta. destruct (_ =? 0); [by eexists|].
  set (r1 := set_r_raftLog _ r). pose proof (lastIndex_covered _ (ls_ids _ (safe_log _ Hs))).
  assert (safe r1) as H1.
  { apply safe_set_log; [|done]. apply log_safe_append; [apply Hs|].
    apply sequential_covered; [lia|apply stampEntries_sequential]. }
  destruct (messages_to_total (appendMessage r1) ord) as (ms & -> & Hms).
  - intros p Hp. apply appendMessage_total; [done..|]. by apply (range_order_peers r ord).
  - eexists. split; [done|]. by apply safe_send_after.
Qed.

Lemma Step_total ord m r :
  raft_inv r -> safe r -> msg_safe m -> range_order r ord ->
  exists r', Step ord m r = Ok r' /\ safe r'.
Proof.
  intros Hi Hs Hm Hord. unfold Step. rewrite (inv_step _ Hi).
  assert (Happ : exists r', handleAppendEntries m (set_electionTick 0 r) = Ok r' /\ safe r').
  { apply handleAppendEntries_total; [|done]. by apply safe_timers. }
  assert (Hvote : exists r', Ok (handleVote ord m r) = Ok r' /\ safe r').
  { eexists. split; [done|]. unfold handleVote.
    destruct (msg_Vote m); [by apply handleVoteRequest_safe|by apply campaign_safe]. }
  destruct (state r) eqn:Est; unfold stepFollower, stepCandidate, stepLeader;
    destruct (msg_Type m); try done; try (by eexists).
  - by apply handleVoteResponse_total.
  - destruct (replicate_total ord m r Hs Est Hord) as (r' & -> & ?). by exists r'.
  - by apply handleAppendResponse_total.
  - by apply broadcastHeartbeat_total.
Qed.

Lemma bare_safe t : msg_safe (bare_message t).
Proof. done. Qed.

Lemma Tick_total ord r :
  raft_inv r -> safe r -> range_order r ord -> exists r', Tick ord r = Ok r' /\ safe r'.
Proof.
  intros Hi Hs Hord. unfold Tick. rewrite (inv_tick _ Hi).
  assert (Hgen : forall t r1, quiet r r1 -> safe r1 ->
    exists r', log_err r1 (Step ord (bare_message t) r1) = Ok r' /\ safe r').
  { intros t r1 Hq H1. destruct (Step_total ord (bare_message t) r1) as (r' & -> & ?);
      [by eapply quiet_inv|done|apply bare_safe| |by exists r'].
    unfold range_order in *. destruct Hq as [(_&_&->&_)%core_eq _]. done. }
  destruct (safe_timers r Hs) as [He Hh].
  assert (exists r', tickElection ord r = Ok r' /\ safe r') as Helec.
  { unfold tickElection. cbv zeta. destruct (_ <=? _); [|by eexists].
    apply Hgen; [eapply quiet_trans; apply quiet_electionTick|by apply safe_timers]. }
  destruct (state r); try exact Helec. unfold tickLeader. cbv zeta. destruct (_ <=? _); [|by eexists].
  apply Hgen; [eapply quiet_trans; apply quiet_heartbeatTick|by apply safe_timers].
Qed.

Lemma callReady_total r :
  safe r -> exists o, callReady r = Ok o /\
    forall r', o = Some r' -> safe r' /\
      (readyc r' = readyc r \/
       exists rd, readyc r' = Some rd /\ rd_Messages rd ++ rd_MessagesAfterAppend rd = pending r).
Proof.
  intros [H1 H2 H3]. unfold callReady. destruct (hasReady r).
  2: { eexists. split; [done|]. intros r' [= <-]. split; [by split|by left]. }
  unfold makeReady, volatileEntries, committedEntries. cbv zeta.
  pose proof (ls_applied _ H1). pose proof (ls_stable _ H1).
  assert (Hif : forall b : bool, forall a c, 1 <= a ->
    exists es, (if b then Ok [] else collect (r_raftLog r) a c) = Ok es).
  { intros [] a c Ha; [by eexists|]. rewrite collect_spec by done. by eexists. }
  destruct (Hif (lastIndex (r_raftLog r) <=? rl_stableIndex (r_raftLog r))
    (rl_stableIndex (r_raftLog r) + 1) (lastIndex (r_raftLog r)) ltac:(lia)) as [es ->].
  destruct (Hif (rl_commitIndex (r_raftLog r) <=? rl_lastApplied (r_raftLog r))
    (rl_lastApplied (r_raftLog r) + 1) (rl_commitIndex (r_raftLog r)) ltac:(lia)) as [cs ->].
  cbn. destruct (readyc r).
  - eexists. split; [done|]. done.
  - eexists. split; [done|]. intros r' [= <-]. split.
    + split; [done|done|]. by intros x Hx%not_elem_of_nil.
    + right. by eexists.
Qed.

Lemma markStable_safe i l : log_safe l -> log_safe (markStableTill i l).
Proof.
  intros [H1 H2 H3 H4]. unfold markStableTill.
  destruct (Z.ltb_spec (rl_stableIndex l) i), (i <=? lastIndex l); split; cbn; done || lia.
Qed.

Lemma markApplied_safe i l : log_safe l -> log_safe (markAppliedTill i l).
Proof.
  intros [H1 H2 H3 H4]. unfold markAppliedTill.
  destruct (Z.ltb_spec (rl_lastApplied l) i); split; cbn; done || lia.
Qed.

Lemma Advance_safe r : safe r -> safe (Advance r).
Proof.
  intros Hs. unfold Advance. apply safe_set_log; [|done].
  set (l := if rl_stableIndex _ <? _ then _ else r_raftLog r).
  assert (log_safe l) as Hl.
  { unfold l. destruct (_ <? _); [apply markStable_safe|]; apply Hs. }
  clearbody l. destruct (_ <? _); [by apply markApplied_safe|done].
Qed.

(** ** The leader: proposing *)

Lemma wf_covered l : wf_log l -> covered 1 (rl_entries l).
Proof. intros [H _ _ _]. apply sequential_covered; [lia|done]. Qed.

Lemma wf_append l es :
  wf_log l -> sequential_from (lastIndex l + 1) es -> wf_log (append es l).
Proof.
  intros [H1 H2 H3 H4] Hes. pose proof (lastIndex_sequential l H1) as El.
  assert (sequential_from 1 (rl_entries (append es l))) as Hs.
  { apply sequential_app; [done|]. by replace (1 + zlen (rl_entries l)) with (lastIndex l + 1) by lia. }
  pose proof (lastIndex_sequential _ Hs) as El'. cbn in El'. unfold zlen in *.
  rewrite length_app in El'. split; cbn; try done; rewrite ?El'; lia.
Qed.

Lemma messages_to_spec mk ord (f : Z -> Message) :
  (forall p, p ∈ ord -> mk p = Ok (f p)) -> messages_to mk ord = Ok (f <$> ord).
Proof.
  induction ord as [|p ord IH]; intros H; [done|]. cbn. rewrite H by (by left). cbn.
  rewrite IH; [done|]. intros q Hq. apply H. by right.
Qed.

(** The append message for peer [p] once the leader's log is [l]. *)
Definition suffix_message (r : Raft) (l : raftLog) (p : Z) : Message :=
  let prev := nextIndex (getProgress (progress r) p) - 1 in
  mkMessage MSG_APP p (ID r) None None
    (Some (mkAppendEntries (currentTerm r) (ID r) prev
             (from_option log_Term 0 (if 0 <? prev then rl_entries l !! Z.to_nat (prev - 1) else None))
             (drop (Z.to_nat prev) (rl_entries l)) (rl_commitIndex l))) None.

Lemma term_lookup l i :
  sequential_from 1 (rl_entries l) -> 0 <= i ->
  term i l = Ok (from_option log_Term 0
                   (if 0 <? i then rl_entries l !! Z.to_nat (i - 1) else None)).
Proof.
  intros H Hi. pose proof (lastIndex_sequential l H) as El. unfold term.
  destruct (Z.eqb_spec i 0) as [->|]; [done|]. destruct (Z.ltb_spec 0 i); [|lia]. cbn [orb].
  destruct (Z.ltb_spec (lastIndex l) i).
  - rewrite lookup_ge_None_2; [done|]. unfold zlen in El. lia.
  - destruct (slot_in_range l i ltac:(lia)) as (e & -> & ->). done.
Qed.

Lemma appendMessage_suffix r p :
  sequential_from 1 (rl_entries (r_raftLog r)) ->
  1 <= nextIndex (getProgress (progress r) p) ->
  appendMessage r p = Ok (suffix_message r (r_raftLog r) p).
Proof.
  intros H Hn. pose proof (lastIndex_sequential _ H) as El.
  destruct (appendMessage_spec r p (sequential_covered 1 _ ltac:(lia) H) ltac:(lia)) as (t & Ht & ->).
  rewrite term_lookup in Ht by (done || lia). injection Ht as <-.
  unfold suffix_message. do 4 f_equal.
  rewrite take_ge; [done|]. rewrite length_drop. unfold zlen in El. lia.
Qed.

Lemma replicate_Ok ord m r :
  state r = StateLeader -> wf_log (r_raftLog r) -> progress_safe r -> range_order r ord ->
  GetEntries (msg_Entries m) <> [] ->
  let es := stampEntries (currentTerm r) (lastIndex (r_raftLog r) + 1) (GetEntries (msg_Entries m)) in
  let l := append es (r_raftLog r) in
  wf_log l /\ lastIndex l = lastIndex (r_raftLog r) + zlen (GetEntries (msg_Entries m)) /\
  replicate ord m r =
    Ok (set_msgsAfterAppend (msgsAfterAppend r ++ (suffix_message r l <$> ord))
          (set_r_raftLog l r)).
Proof.
  intros Hl Hwf Hp Hord Hne es l.
  assert (wf_log l) as Hwf' by (apply wf_append; [done|apply stampEntries_sequential]).
  split; [done|]. split.
  - rewrite !lastIndex_sequential by (by apply wf_ids). unfold l, es, zlen. cbn.
    rewrite length_app, stampEntries_length. lia.
  - unfold replicate, isLead. rewrite bool_decide_true by done. cbn [negb]. cbv zeta.
    destruct (Z.eqb_spec (zlen (GetEntries (msg_Entries m))) 0) as [E|_].
    { unfold zlen in E. destruct (GetEntries _); [done|cbn in E; lia]. }
    fold es. fold l. rewrite (messages_to_spec _ _ (suffix_message r l)); [done|].
    intros p Hin. apply (appendMessage_suffix (set_r_raftLog l r)); [apply Hwf'|].
    by apply Hp, (range_order_peers r ord).
Qed.

(** C28: a leader that takes a proposal stamps its entries with its own term
    and the next free ids, appends them to its log, which stays well formed,
    and queues, to be sent after the entries are persisted, exactly one append
    message for each peer: it carries the leader's term and commit index, the
    index before the peer's [nextIndex] with the term the leader's log has
    there, and the whole rest of the log.  Nothing else changes. *)
Theorem replicate_spec ord m r :
  state r = StateLeader -> wf_log (r_raftLog r) -> progress_safe r -> range_order r ord ->
  GetEntries (msg_Entries m) <> [] ->
  let es := stampEntries (currentTerm r) (lastIndex (r_raftLog r) + 1) (GetEntries (msg_Entries m)) in
  let l := append es (r_raftLog r) in
  wf_log l /\ lastIndex l = lastIndex (r_raftLog r) + zlen (GetEntries (msg_Entries m)) /\
  replicate ord m r =
    Ok (set_msgsAfterAppend (msgsAfterAppend r ++ (suffix_message r l <$> ord))
          (set_r_raftLog l r)).
Proof. apply replicate_Ok. Qed.

(** ** The follower *)

(** The state after the term check of [handleAppendEntries]. *)
Definition follow (t : Z) (r : Raft) : Raft :=
  if currentTerm r <? t then becomeFollower t r else r.

Lemma follow_log t r : r_raftLog (follow t r) = r_raftLog r.
Proof. unfold follow. destruct (_ <? _); [apply becomeFollower_rest|done]. Qed.

Lemma follow_term t r : currentTerm r <= t -> currentTerm (follow t r) = t.
Proof.
  intros H. unfold follow. destruct (Z.ltb_spec (currentTerm r) t); [|lia].
  by destruct (core_is _ _ _ _ _ _ _ _ _ _ _ (becomeFollower_core t r)) as (_&_&_&E&_).
Qed.

(** The log has an entry of term [t] at index [i]. *)
Definition has_entry (l : raftLog) (i t : Z) : bool :=
  from_option (fun e => log_Term e =? t) false (rl_entries l !! Z.to_nat (i - 1)).

Lemma logMismatch_spec prev prevTerm l :
  sequential_from 1 (rl_entries l) ->
  logMismatch prev prevTerm l = Ok ((0 <? prev) && negb (has_entry l prev prevTerm)).
Proof.
  intros H. unfold logMismatch, has_entry. pose proof (lastIndex_sequential l H) as El.
  destruct (Z.leb_spec prev 0); [by rewrite (proj2 (Z.ltb_ge _ _)) by done|].
  rewrite (proj2 (Z.ltb_lt 0 prev)) by done. cbn [andb].
  destruct (Z.ltb_spec (lastIndex l) prev) as [Hlt|Hle].
  - rewrite lookup_ge_None_2; [done|]. unfold zlen in El. lia.
  - rewrite term_lookup by (done || lia). rewrite (proj2 (Z.ltb_lt 0 prev)) by done.
    destruct (slot_in_range l prev ltac:(lia)) as (e & _ & ->). done.
Qed.

Lemma has_last_entry l : wf_log l -> 0 < lastIndex l -> has_entry l (lastIndex l) (lastTerm l) = true.
Proof.
  intros Hwf Hpos. pose proof (lastIndex_sequential _ (wf_ids _ Hwf)) as El.
  unfold has_entry, lastTerm. rewrite last_lookup. unfold zlen in El.
  replace (pred (length (rl_entries l))) with (Z.to_nat (lastIndex l - 1)) by lia.
  destruct (slot_in_range l (lastIndex l)) as (e & _ & He); [unfold zlen; lia|].
  rewrite He. cbn. apply Z.eqb_refl.
Qed.

(** The log of a follower that accepts [ae]. *)
Definition accepted_log (ae : AppendEntries) (l : raftLog) : raftLog :=
  let l := append (ae_Entries ae) l in
  mkRaftLog (rl_entries l) (Z.max (rl_commitIndex l) (Z.min (ae_LeaderCommitIdx ae) (lastIndex l)))
    (rl_lastApplied l) (rl_stableIndex l).

Lemma append_nil l : append [] l = l.
Proof. unfold append. rewrite app_nil_r. by destruct l. Qed.

Lemma set_log_id r : set_r_raftLog (r_raftLog r) r = r.
Proof. by destruct r. Qed.

Lemma set_log_twice l l' r : set_r_raftLog l' (set_r_raftLog l r) = set_r_raftLog l' r.
Proof. done. Qed.

Lemma commit_min l c :
  (if rl_commitIndex l <? c then RaftLog.maybeCommit (Z.min c (lastIndex l)) l else l) =
  mkRaftLog (rl_entries l) (Z.max (rl_commitIndex l) (Z.min c (lastIndex l)))
    (rl_lastApplied l) (rl_stableIndex l).
Proof.
  destruct (Z.ltb_spec (rl_commitIndex l) c).
  - unfold RaftLog.maybeCommit.
    destruct (Z.ltb_spec (rl_commitIndex l) (Z.min c (lastIndex l))); cbn [andb].
    + rewrite (proj2 (Z.leb_le _ _)) by lia. f_equal. lia.
    + rewrite Z.max_l by lia. by destruct l.
  - rewrite Z.max_l by lia. by destruct l.
Qed.

Lemma zlen_pos {A} (l : list A) : l <> [] -> 0 < zlen l.
Proof. unfold zlen. destruct l; [done|cbn; lia]. Qed.

(** What an accepted append message does, wherever its entries belong. *)
Lemma append_accepted m ae r :
  msg_Entries m = Some ae -> sequential_from 1 (rl_entries (r_raftLog r)) ->
  currentTerm r <= ae_Term ae -> ae_Entries ae <> [] ->
  (0 < ae_PrevLogIdx ae -> has_entry (r_raftLog r) (ae_PrevLogIdx ae) (ae_PrevLogTerm ae) = true) ->
  let r1 := follow (ae_Term ae) r in
  handleAppendEntries m r =
    Ok (set_msgsAfterAppend (msgsAfterAppend r1 ++ [appendResponse r1 (msg_From m) true])
          (set_r_raftLog (accepted_log ae (r_raftLog r)) r1)).
Proof.
  intros Hm Hseq Ht Hne%zlen_pos Hhas r1. unfold handleAppendEntries.
  rewrite Hm, (proj2 (Z.ltb_ge _ _)) by done. cbv zeta. fold (follow (ae_Term ae) r). fold r1.
  assert (r_raftLog r1 = r_raftLog r) as El by apply follow_log.
  rewrite logMismatch_spec, El by (by rewrite El).
  replace ((0 <? ae_PrevLogIdx ae) && _) with false.
  2: { destruct (Z.ltb_spec 0 (ae_PrevLogIdx ae)); [|done]. by rewrite Hhas. }
  cbn [mbind outcome_bind]. rewrite (proj2 (Z.ltb_lt _ _) Hne).
  pose proof (commit_min (append (ae_Entries ae) (r_raftLog r)) (ae_LeaderCommitIdx ae)) as Hcommit.
  change (mkRaftLog _ _ _ _) with (accepted_log ae (r_raftLog r)) in Hcommit. rewrite <- Hcommit.
  cbn [r_raftLog set_r_raftLog]. destruct (_ <? ae_LeaderCommitIdx ae); done.
Qed.

(** C27: a follower (or a candidate) with a well-formed log and an append
    message that continues it: the term is not stale, the entries come right
    after the last index, and the log has the entry before them.  The entries
    are appended, the log stays well formed, the commit index moves to the
    leader's as far as the log reaches and never back, and the acknowledgement
    is queued to be sent after the entries are persisted. *)
Theorem append_in_order m ae r :
  msg_Entries m = Some ae -> wf_log (r_raftLog r) -> currentTerm r <= ae_Term ae ->
  ae_Entries ae <> [] -> ae_PrevLogIdx ae = lastIndex (r_raftLog r) ->
  ae_PrevLogTerm ae = lastTerm (r_raftLog r) ->
  sequential_from (ae_PrevLogIdx ae + 1) (ae_Entries ae) ->
  let r1 := follow (ae_Term ae) r in
  let l := accepted_log ae (r_raftLog r) in
  wf_log l /\ rl_entries l = rl_entries (r_raftLog r) ++ ae_Entries ae /\
  handleAppendEntries m r =
    Ok (set_msgsAfterAppend (msgsAfterAppend r1 ++ [appendResponse r1 (msg_From m) true])
          (set_r_raftLog l r1)).
Proof.
  intros Hm Hwf Ht Hne Hprev HprevT Hseq r1 l.
  pose proof (wf_append _ (ae_Entries ae) Hwf ltac:(by rewrite <- Hprev)) as [W1 W2 W3 W4].
  split; [|split; [done|]].
  - unfold l, accepted_log. split; cbn in *; try done; lia.
  - apply append_accepted; [done|apply Hwf|done..|]. rewrite Hprev, HprevT. by apply has_last_entry.
Qed.

(** A follower that already has the entries of an append message (the
    leader sent them before, or the network repeated it) does not recognise
    them: they are appended once more, behind its last entry, and the ids of
    its log stop being the positions. *)
Theorem append_again m ae r r' :
  msg_Entries m = Some ae -> wf_log (r_raftLog r) -> currentTerm r <= ae_Term ae ->
  ae_Entries ae <> [] -> ae_PrevLogIdx ae < lastIndex (r_raftLog r) ->
  (0 < ae_PrevLogIdx ae -> has_entry (r_raftLog r) (ae_PrevLogIdx ae) (ae_PrevLogTerm ae) = true) ->
  sequential_from (ae_PrevLogIdx ae + 1) (ae_Entries ae) ->
  handleAppendEntries m r = Ok r' ->
  rl_entries (r_raftLog r') = rl_entries (r_raftLog r) ++ ae_Entries ae /\
  ~ wf_log (r_raftLog r').
Proof.
  intros Hm Hwf Ht Hne Hprev Hhas Hseq H.
  rewrite (append_accepted m ae r) in H by (done || apply Hwf). injection H as <-.
  split; [done|]. intros [W _ _ _]. pose proof (lastIndex_sequential _ (wf_ids _ Hwf)) as El.
  destruct (ae_Entries ae) as [|e es] eqn:E; [done|].
  specialize (Hseq O e eq_refl). cbn in W.
  specialize (W (length (rl_entries (r_raftLog r))) e). unfold zlen in El.
  rewrite E, lookup_app_r, Nat.sub_diag in W by lia. specialize (W eq_refl). lia.
Qed.

Lemma handleAppendEntries_refused m ae r :
  msg_Entries m = Some ae -> sequential_from 1 (rl_entries (r_raftLog r)) ->
  ae_Term ae < currentTerm r \/
    (0 < ae_PrevLogIdx ae /\
     has_entry (r_raftLog r) (ae_PrevLogIdx ae) (ae_PrevLogTerm ae) = false) ->
  let r1 := follow (ae_Term ae) r in
  handleAppendEntries m r = Ok (sendAppendResponse (msg_From m) false r1).
Proof.
  intros Hm Hseq Hno r1. unfold handleAppendEntries. rewrite Hm.
  destruct (Z.ltb_spec (ae_Term ae) (currentTerm r)) as [|Hge].
  { unfold r1, follow. by rewrite (proj2 (Z.ltb_ge _ _)) by lia. }
  cbv zeta. fold (follow (ae_Term ae) r). rewrite logMismatch_spec by (by rewrite follow_log).
  destruct Hno as [?|[Hpos Hf]]; [lia|]. rewrite follow_log, Hf, (proj2 (Z.ltb_lt _ _) Hpos). done.
Qed.

(** A stale term, or an index the log has no entry of the given term at:
    the message is refused.  The log and the votes stay as they are, the node
    adopts the message's term if it is newer, and one negative response, with
    the term the node is now in, is queued. *)
Theorem append_refused m ae r :
  msg_Entries m = Some ae -> sequential_from 1 (rl_entries (r_raftLog r)) ->
  ae_Term ae < currentTerm r \/
    (0 < ae_PrevLogIdx ae /\
     has_entry (r_raftLog r) (ae_PrevLogIdx ae) (ae_PrevLogTerm ae) = false) ->
  exists r1, handleAppendEntries m r =
    Ok (set_msgs (msgs r ++ [appendResponse r1 (msg_From m) false]) r1) /\
  r_raftLog r1 = r_raftLog r /\ votedFor r1 = votedFor r /\
  msgsAfterAppend r1 = msgsAfterAppend r /\ currentTerm r1 = Z.max (currentTerm r) (ae_Term ae).
Proof.
  intros Hm Hseq Hno. exists (follow (ae_Term ae) r).
  assert (Hrest : votedFor (follow (ae_Term ae) r) = votedFor r /\
    msgs (follow (ae_Term ae) r) = msgs r /\
    msgsAfterAppend (follow (ae_Term ae) r) = msgsAfterAppend r).
  { unfold follow, becomeFollower, resetTimeout. cbn.
    by destruct (currentTerm r <? ae_Term ae), (0 <? electionTimeout r). }
  destruct Hrest as (Ev & Em & Ea). split; [|split; [apply follow_log|split; [done|split; [done|]]]].
  - rewrite (handleAppendEntries_refused m ae r) by done. unfold sendAppendResponse. by rewrite Em.
  - unfold follow. destruct (Z.ltb_spec (currentTerm r) (ae_Term ae)); [|lia].
    destruct (core_is _ _ _ _ _ _ _ _ _ _ _ (becomeFollower_core (ae_Term ae) r)) as (_&_&_&->&_). lia.
Qed.

(** ** Committing *)

Definition commit_at (c : Z) (l : raftLog) : raftLog :=
  mkRaftLog (rl_entries l) c (rl_lastApplied l) (rl_stableIndex l).

(** A majority of the cluster has index [i], and its entry is of the current term. *)
Definition committable (r : Raft) (l : raftLog) (i : Z) : Prop :=
  quorum r <= replicatedCount r i /\ has_entry l i (currentTerm r) = true.

Lemma maybeCommitAt_spec r l i :
  sequential_from 1 (rl_entries l) -> rl_commitIndex l < i <= lastIndex l -> 1 <= i ->
  (committable r l i /\ maybeCommitAt r i l = Ok (commit_at i l)) \/
  (~ committable r l i /\ maybeCommitAt r i l = Ok l).
Proof.
  intros H Hi Hpos. pose proof (lastIndex_sequential l H) as El.
  unfold maybeCommitAt, committable, has_entry.
  destruct (Z.leb_spec (quorum r) (replicatedCount r i)); [|right; split; [lia|done]].
  rewrite term_lookup by (done || lia). rewrite (proj2 (Z.ltb_lt 0 i)) by lia.
  destruct (slot_in_range l i ltac:(lia)) as (e & _ & ->). cbn.
  destruct (Z.eqb_spec (log_Term e) (currentTerm r)) as [E|E].
  - left. split; [done|]. unfold RaftLog.maybeCommit.
    by rewrite (proj2 (Z.ltb_lt _ _)), (proj2 (Z.leb_le _ _)) by lia.
  - right. split; [intros [_ ?]; done|done].
Qed.

Lemma maybeCommit_loop_spec r l n first :
  sequential_from 1 (rl_entries l) -> 1 <= first -> rl_commitIndex l < first ->
  first + Z.of_nat n - 1 <= lastIndex l ->
  exists c, maybeCommit_loop r (seqZ first (Z.of_nat n)) l = Ok (commit_at c l) /\
    (c = rl_commitIndex l \/ first <= c < first + Z.of_nat n /\ committable r l c) /\
    forall i, first <= i < first + Z.of_nat n -> c < i -> ~ committable r l i.
Proof.
  revert l first. induction n as [|n IH]; intros l first Hs Hf Hc Hn.
  - exists (rl_commitIndex l). split; [by destruct l|]. split; [by left|]. intros i. lia.
  - rewrite seqZ_cons by lia. replace (Z.pred (Z.of_nat (S n))) with (Z.of_nat n) by lia.
    change (Z.succ first) with (first + 1). cbn [maybeCommit_loop].
    destruct (maybeCommitAt_spec r l first Hs ltac:(lia) Hf) as [[Hyes ->]|[Hno ->]]; cbn [mbind outcome_bind].
    + destruct (IH (commit_at first l) (first + 1)) as (c & -> & Hc' & Hmax);
        [done|lia|cbn; lia|change (lastIndex (commit_at first l)) with (lastIndex l); lia|].
      exists c. split; [done|]. change (committable r (commit_at first l)) with (committable r l) in *.
      cbn in Hc'. split.
      * right. destruct Hc' as [->|[? ?]]; (split; [lia|done]).
      * intros i Hi Hlt. apply Hmax; [|done]. destruct Hc'; lia.
    + destruct (IH l (first + 1)) as (c & -> & Hc' & Hmax); [done|lia|lia|lia|].
      exists c. split; [done|]. split.
      * destruct Hc' as [->|[? ?]]; [by left|right; split; [lia|done]].
      * intros i Hi Hlt. destruct (decide (i = first)) as [->|]; [done|]. apply Hmax; lia.
Qed.

Lemma maybeCommit_Ok r :
  wf_log (r_raftLog r) ->
  let l := r_raftLog r in
  exists c, maybeCommit r = Ok (set_r_raftLog (commit_at c l) r) /\ wf_log (commit_at c l) /\
    rl_commitIndex l <= c <= lastIndex l /\
    (c = rl_commitIndex l \/ committable r l c) /\
    forall i, c < i <= lastIndex l -> ~ committable r l i.
Proof.
  intros Hwf l. pose proof Hwf as [W1 W2 W3 W4]. fold l in W1, W2, W3, W4.
  destruct (maybeCommit_loop_spec r l (Z.to_nat (lastIndex l - rl_commitIndex l))
    (rl_commitIndex l + 1)) as (c & Hloop & Hc & Hmax); [done|lia..|].
  exists c. unfold maybeCommit. fold l. cbv zeta.
  replace (lastIndex l - (rl_commitIndex l + 1) + 1) with
    (Z.of_nat (Z.to_nat (lastIndex l - rl_commitIndex l))) by lia.
  rewrite Hloop. split; [done|].
  assert (rl_commitIndex l <= c <= lastIndex l) as Hbound by (destruct Hc as [->|[? _]]; lia).
  split; [|split; [done|split; [tauto|]]].
  - split; [exact W1|cbn; lia|exact (proj2 Hbound)|exact W4].
  - intros i Hi. apply Hmax; lia.
Qed.

(** C29: the commit index a leader moves to is the largest index that a
    majority of the cluster acknowledged and whose entry is of the leader's
    own term; without one it stays.  It never moves back or past the log, and
    nothing else of the log changes. *)
Theorem maybeCommit_spec r :
  wf_log (r_raftLog r) ->
  let l := r_raftLog r in
  exists c, maybeCommit r = Ok (set_r_raftLog (commit_at c l) r) /\ wf_log (commit_at c l) /\
    rl_commitIndex l <= c <= lastIndex l /\
    (c = rl_commitIndex l \/ committable r l c) /\
    forall i, c < i <= lastIndex l -> ~ committable r l i.
Proof. apply maybeCommit_Ok. Qed.


(** ** The boundary to the I/O layer *)

(** The I/O layer took [rd] from the channel, sent its messages and advanced. *)
Definition consumeReady (r : Raft) : Raft := Advance (set_readyc None r).

Definition ready_messages (rd : Ready) : list Message :=
  rd_Messages rd ++ rd_MessagesAfterAppend rd.

(** The entries after [a], up to and with [b]. *)
Definition entries_between (l : raftLog) (a b : Z) : list Log :=
  take (Z.to_nat (b - a)) (drop (Z.to_nat a) (rl_entries l)).

(** The hand-over the I/O layer gets of [r]. *)
Definition ready_of (r : Raft) : Ready :=
  let l := r_raftLog r in
  mkReady (msgs r) (drop (Z.to_nat (rl_stableIndex l)) (rl_entries l)) (msgsAfterAppend r)
    (entries_between l (rl_lastApplied l) (rl_commitIndex l))
    (mkHardState (currentTerm r) (rl_commitIndex l) (rl_lastApplied l)).

Lemma makeReady_spec r : wf_log (r_raftLog r) -> makeReady r = Ok (ready_of r).
Proof.
  intros [W1 W2 W3 W4]. pose proof (lastIndex_sequential _ W1) as El.
  unfold makeReady, volatileEntries, committedEntries, ready_of, entries_between. cbv zeta.
  set (l := r_raftLog r) in *.
  assert ((if lastIndex l <=? rl_stableIndex l then Ok []
           else collect l (rl_stableIndex l + 1) (lastIndex l)) =
          Ok (drop (Z.to_nat (rl_stableIndex l)) (rl_entries l))) as ->.
  { destruct (Z.leb_spec (lastIndex l) (rl_stableIndex l)).
    - rewrite drop_ge; [done|]. unfold zlen in El. lia.
    - rewrite collect_spec by lia. replace (rl_stableIndex l + 1 - 1) with (rl_stableIndex l) by lia.
      rewrite take_ge; [done|]. rewrite length_drop. unfold zlen in El. lia. }
  cbn [mbind outcome_bind].
  destruct (Z.leb_spec (rl_commitIndex l) (rl_lastApplied l)).
  - replace (Z.to_nat (rl_commitIndex l - rl_lastApplied l)) with O by lia. done.
  - rewrite collect_spec by lia. cbn [mbind outcome_bind].
    replace (rl_lastApplied l + 1 - 1) with (rl_lastApplied l) by lia.
    replace (rl_commitIndex l - (rl_lastApplied l + 1) + 1) with
      (rl_commitIndex l - rl_lastApplied l) by lia. done.
Qed.

Lemma callReady_eq r :
  wf_log (r_raftLog r) ->
  callReady r =
    Ok (if hasReady r then
          match readyc r with
          | None => Some (set_readyc (Some (ready_of r)) (set_msgsAfterAppend [] (set_msgs [] r)))
          | Some _ => None
          end
        else Some r).
Proof.
  intros Hwf. unfold callReady. destruct (hasReady r); [|done].
  rewrite makeReady_spec by done. cbn. by destruct (readyc r).
Qed.

(** [Ready()] on a well-formed log hands over, when there is anything to
    do and the channel is empty, all queued messages, exactly the entries after
    the stable index, exactly the committed entries not applied yet, and the
    hard state; the message buffers are emptied and the log is untouched.  With
    the channel full the call blocks; with nothing to do it changes nothing. *)
Theorem ready_spec r :
  wf_log (r_raftLog r) ->
  callReady r =
    Ok (if hasReady r then
          match readyc r with
          | None => Some (set_readyc (Some (ready_of r)) (set_msgsAfterAppend [] (set_msgs [] r)))
          | Some _ => None
          end
        else Some r).
Proof. apply callReady_eq. Qed.

Lemma markStable_all l :
  rl_stableIndex l <= lastIndex l ->
  (if rl_stableIndex l <? lastIndex l then markStableTill (lastIndex l) l else l) =
  mkRaftLog (rl_entries l) (rl_commitIndex l) (rl_lastApplied l) (lastIndex l).
Proof.
  intros H. unfold markStableTill. destruct (Z.ltb_spec (rl_stableIndex l) (lastIndex l)).
  - by rewrite Z.leb_refl.
  - replace (lastIndex l) with (rl_stableIndex l) by lia. by destruct l.
Qed.

Lemma markApplied_all l :
  rl_lastApplied l <= rl_commitIndex l ->
  (if rl_lastApplied l <? rl_commitIndex l then markAppliedTill (rl_commitIndex l) l else l) =
  mkRaftLog (rl_entries l) (rl_commitIndex l) (rl_commitIndex l) (rl_stableIndex l).
Proof.
  intros H. unfold markAppliedTill. destruct (Z.ltb_spec (rl_lastApplied l) (rl_commitIndex l)); [done|].
  destruct l; cbn in *. f_equal. lia.
Qed.

Lemma Advance_log r :
  wf_log (r_raftLog r) ->
  let l := r_raftLog r in
  r_raftLog (Advance r) =
    mkRaftLog (rl_entries l) (rl_commitIndex l) (rl_commitIndex l) (lastIndex l).
Proof.
  intros [W1 W2 W3 W4] l. unfold Advance. cbv zeta. cbn [r_raftLog set_r_raftLog].
  rewrite markStable_all by lia. by rewrite markApplied_all by (cbn; lia).
Qed.

(** After [Ready()] and [Advance()] everything handed over counts as
    stable and applied: the log is well formed, nothing is left to hand over,
    so no entry is written or applied twice. *)
Theorem ready_advance_drains r r1 :
  wf_log (r_raftLog r) -> callReady r = Ok (Some r1) -> hasReady r = true ->
  let l := r_raftLog (Advance r1) in
  wf_log l /\ rl_entries l = rl_entries (r_raftLog r) /\
  rl_stableIndex l = lastIndex l /\ rl_lastApplied l = rl_commitIndex l /\
  rl_commitIndex l = rl_commitIndex (r_raftLog r) /\ hasReady (Advance r1) = false.
Proof.
  intros Hwf H Hr l. rewrite callReady_eq, Hr in H by done. destruct (readyc r); [done|].
  injection H as <-. set (lr := r_raftLog r) in *.
  assert (l = mkRaftLog (rl_entries lr) (rl_commitIndex lr) (rl_commitIndex lr) (lastIndex lr)) as El
    by by apply Advance_log.
  pose proof Hwf as [W1 W2 W3 W4]. fold lr in W1, W2, W3, W4.
  assert (lastIndex l = lastIndex lr) as Ell by by rewrite El.
  split; [split; rewrite ?Ell, ?El; cbn; try done; lia|].
  rewrite Ell. rewrite El at 1 2 3 4 5. do 4 (split; [done|]).
  unfold hasReady. fold l. rewrite Ell, El. cbn. by rewrite !Z.ltb_irrefl.
Qed.

(** ** The theorems at concrete states *)

Definition put_cmd (k v : string) (id : Z) : Cmd := mkCmd (go_string "PUT") (go_string k) (go_string v) id.

Definition sample_log : raftLog :=
  mkRaftLog [mkLog 1 1 (Some (put_cmd "a" "1" 7)); mkLog 1 2 (Some (put_cmd "b" "2" 8))] 1 0 1.

(** Node 1 of three leads term 1 with two entries; node 2 has acknowledged both. *)
Definition sample_leader : Raft :=
  set_progress (<[2 := mkProgress 2 3]> (gset_to_gmap (mkProgress 0 1) {[2; 3]}))
    (becomeLeader (set_r_raftLog sample_log (set_currentTerm 1 (NewRaft 1 [2; 3])))).

(** Node 2 follows it with the same log. *)
Definition sample_follower : Raft :=
  set_r_raftLog sample_log (becomeFollower 1 (NewRaft 2 [1; 3])).

Lemma sample_log_wf : wf_log sample_log.
Proof.
  split; cbn; try lia. intros [|[|i]] e He; cbn in He; by simplify_eq.
Qed.

Lemma sample_leader_progress : progress_safe sample_leader.
Proof.
  intros p Hp. cbn in Hp.
  apply elem_of_union in Hp as [->%elem_of_singleton|Hp]; [vm_compute; split; discriminate|].
  apply elem_of_union in Hp as [->%elem_of_singleton|[]%elem_of_empty].
  vm_compute; split; discriminate.
Qed.

Definition sample_proposal : Message :=
  mkMessage MSG_APP 0 0 None None
    (Some (mkAppendEntries 0 0 0 0 [mkLog 0 0 (Some (put_cmd "c" "3" 9))] 0)) None.

Lemma replicate_spec_witness :
  exists r', replicate (elements (peers sample_leader)) sample_proposal sample_leader = Ok r' /\ lastIndex (r_raftLog r') = 3 /\
    length (msgsAfterAppend r') = 2%nat.
Proof.
  destruct (replicate_spec (elements (peers sample_leader)) sample_proposal sample_leader eq_refl
    sample_log_wf sample_leader_progress (default_order sample_leader)) as (_ & Hl & Hr).
  - discriminate.
  - eexists. split; [exact Hr|]. split; [exact Hl|]. reflexivity.
Defined.

Definition sample_append (prev prevTerm term : Z) (es : list Log) : AppendEntries :=
  mkAppendEntries term 1 prev prevTerm es 2.

Definition append_message (ae : AppendEntries) : Message :=
  mkMessage MSG_APP 2 1 None None (Some ae) None.

Lemma append_in_order_witness :
  exists r', handleAppendEntries
    (append_message (sample_append 2 1 1 [mkLog 1 3 (Some (put_cmd "c" "3" 9))])) sample_follower = Ok r' /\
    wf_log (r_raftLog r') /\ rl_commitIndex (r_raftLog r') = 2.
Proof.
  destruct (append_in_order
    (append_message (sample_append 2 1 1 [mkLog 1 3 (Some (put_cmd "c" "3" 9))])) _ sample_follower eq_refl)
    as (Hwf & _ & Hr); try reflexivity.
  - exact sample_log_wf.
  - vm_compute. discriminate.
  - intros [|i] e He; cbn in He; [injection He as <-; reflexivity|discriminate].
  - eexists. split; [exact Hr|]. split; [exact Hwf|]. vm_compute. reflexivity.
Defined.

Lemma append_again_witness :
  exists r', handleAppendEntries
    (append_message (sample_append 0 0 1 (rl_entries sample_log))) sample_follower = Ok r' /\
    length (rl_entries (r_raftLog r')) = 4%nat /\ ~ wf_log (r_raftLog r').
Proof.
  eexists. split; [reflexivity|]. split; [reflexivity|].
  refine (proj2 (append_again (append_message (sample_append 0 0 1 (rl_entries sample_log))) _
    sample_follower _ eq_refl sample_log_wf _ _ _ _ _ eq_refl)); try discriminate.
  - vm_compute. reflexivity.
  - exact (wf_ids _ sample_log_wf).
Defined.

Lemma append_refused_witness :
  exists r1, handleAppendEntries
    (append_message (sample_append 5 1 1 [mkLog 1 6 None])) sample_follower =
      Ok (set_msgs (msgs sample_follower ++ [appendResponse r1 1 false]) r1) /\
    r_raftLog r1 = sample_log.
Proof.
  destruct (append_refused (append_message (sample_append 5 1 1 [mkLog 1 6 None])) _ sample_follower
    eq_refl (wf_ids _ sample_log_wf)) as (r1 & Hr & Hl & _).
  - right. split; vm_compute; reflexivity.
  - exists r1. split; [exact Hr|exact Hl].
Defined.

Lemma maybeCommit_spec_witness :
  exists c, maybeCommit sample_leader = Ok (set_r_raftLog (commit_at c sample_log) sample_leader) /\ c = 2.
Proof.
  destruct (maybeCommit_spec sample_leader sample_log_wf) as (c & Hr & _). exists c.
  split; [exact Hr|]. vm_compute in Hr. congruence.
Defined.

Lemma ready_spec_witness :
  callReady sample_leader =
    Ok (Some (set_readyc (Some (ready_of sample_leader)) (set_msgsAfterAppend [] (set_msgs [] sample_leader)))) /\
  rd_CommittedEntries (ready_of sample_leader) = [mkLog 1 1 (Some (put_cmd "a" "1" 7))] /\
  rd_Entries (ready_of sample_leader) = [mkLog 1 2 (Some (put_cmd "b" "2" 8))].
Proof.
  split; [exact (ready_spec sample_leader sample_log_wf)|]. split; reflexivity.
Defined.

Lemma ready_advance_drains_witness :
  exists r1, callReady sample_leader = Ok (Some r1) /\ hasReady (Advance r1) = false.
Proof.
  eexists. split; [reflexivity|].
  destruct (ready_advance_drains sample_leader _ sample_log_wf eq_refl eq_refl) as (_ & _ & _ & _ & _ & H).
  exact H.
Defined.
