(* ===== verification/Growth.v ===== *)
(** * The log of a node only grows

    Every call into the state machine appends to the log at most, never moves
    the commit index back, leaves the stable and applied markers to [Advance],
    and sends no entry it does not hold: [grows] collects it for every handler,
    as [local_ok] does for elections. *)
From S2P Require Import Prelude Proto RaftLog Raft Election Replication.

Local Open Scope Z_scope.

(** Every entry the message carries is one of [es]. *)
Definition carries (es : list Log) (x : Message) : Prop :=
  forall e, e ∈ GetEntries (msg_Entries x) -> e ∈ es.

Record grows (r r' : Raft) : Prop := {
  gr_entries : exists es, rl_entries (r_raftLog r') = rl_entries (r_raftLog r) ++ es;
  gr_commit : rl_commitIndex (r_raftLog r) <= rl_commitIndex (r_raftLog r');
  gr_applied : rl_lastApplied (r_raftLog r') = rl_lastApplied (r_raftLog r);
  gr_stable : rl_stableIndex (r_raftLog r') = rl_stableIndex (r_raftLog r);
  gr_readyc : readyc r' = readyc r;
  gr_pending x : x ∈ pending r' -> x ∈ pending r \/ carries (rl_entries (r_raftLog r')) x;
}.

Lemma carries_app es1 es2 x : carries es1 x -> carries (es1 ++ es2) x.
Proof. intros H e He. apply elem_of_app. left. by apply H. Qed.

Lemma carries_none es x : GetEntries (msg_Entries x) = [] -> carries es x.
Proof. intros E e He. rewrite E in He. by apply not_elem_of_nil in He. Qed.

#[global] Instance grows_refl : Reflexive grows.
Proof.
  intros r. split; try done.
  - exists []. by rewrite app_nil_r.
  - intros x Hx. by left.
Qed.

#[global] Instance grows_trans : Transitive grows.
Proof.
  intros r1 r2 r3 [[es1 E1] C1 A1 S1 R1 P1] [[es2 E2] C2 A2 S2 R2 P2].
  split; try congruence; try lia.
  - exists (es1 ++ es2). by rewrite E2, E1, app_assoc.
  - intros x Hx. destruct (P2 x Hx) as [Hx2|?]; [|by right].
    destruct (P1 x Hx2) as [?|Hc]; [by left|right]. rewrite E2. by apply carries_app.
Qed.

(** ** Single assignments *)

Lemma grows_same r r' :
  r_raftLog r' = r_raftLog r -> readyc r' = readyc r -> pending r' = pending r -> grows r r'.
Proof.
  intros El Er Ep. split; rewrite ?El, ?Er, ?Ep; try done.
  - exists []. by rewrite app_nil_r.
  - intros x Hx. by left.
Qed.

Lemma grows_log l r :
  (exists es, rl_entries l = rl_entries (r_raftLog r) ++ es) ->
  rl_commitIndex (r_raftLog r) <= rl_commitIndex l ->
  rl_lastApplied l = rl_lastApplied (r_raftLog r) ->
  rl_stableIndex l = rl_stableIndex (r_raftLog r) -> grows r (set_r_raftLog l r).
Proof. intros. split; try done. intros x Hx. by left. Qed.

Lemma grows_append es r : grows r (set_r_raftLog (append es (r_raftLog r)) r).
Proof. apply grows_log; try done. by exists es. Qed.

Lemma commit_grows i l :
  rl_entries (RaftLog.maybeCommit i l) = rl_entries l /\
  rl_commitIndex l <= rl_commitIndex (RaftLog.maybeCommit i l) /\
  rl_lastApplied (RaftLog.maybeCommit i l) = rl_lastApplied l /\
  rl_stableIndex (RaftLog.maybeCommit i l) = rl_stableIndex l.
Proof.
  unfold RaftLog.maybeCommit. destruct (Z.ltb_spec (rl_commitIndex l) i); cbn [andb]; [|done].
  destruct (i <=? lastIndex l); cbn; [|done]. split_and!; done || lia.
Qed.

Lemma grows_commit i r : grows r (set_r_raftLog (RaftLog.maybeCommit i (r_raftLog r)) r).
Proof.
  destruct (commit_grows i (r_raftLog r)) as (E & ? & ? & ?). apply grows_log; try done.
  exists []. by rewrite app_nil_r.
Qed.

Lemma grows_send ms r :
  (forall x, x ∈ ms -> carries (rl_entries (r_raftLog r)) x) -> grows r (set_msgs (msgs r ++ ms) r).
Proof.
  intros H. split; try done.
  - exists []. by rewrite app_nil_r.
  - intros x. unfold pending. cbn. rewrite !elem_of_app. intros [[?|?]|?]; auto.
Qed.

Lemma grows_send_after ms r :
  (forall x, x ∈ ms -> carries (rl_entries (r_raftLog r)) x) ->
  grows r (set_msgsAfterAppend (msgsAfterAppend r ++ ms) r).
Proof.
  intros H. split; try done.
  - exists []. by rewrite app_nil_r.
  - intros x. unfold pending. cbn. rewrite !elem_of_app. intros [?|[?|?]]; auto.
Qed.

Lemma grows_send_one x r :
  GetEntries (msg_Entries x) = [] -> grows r (set_msgs (msgs r ++ [x]) r).
Proof. intros E. apply grows_send. intros y ->%list_elem_of_singleton. by apply carries_none. Qed.

Lemma grows_follow t r : grows r (becomeFollower t r).
Proof.
  destruct (becomeFollower_rest t r) as [Ep El]. apply grows_same; [done| |done].
  by destruct (core_is _ _ _ _ _ _ _ _ _ _ _ (becomeFollower_core t r)) as (_&_&_&_&_&_&_&_&_&E).
Qed.

Lemma grows_if (b : bool) r r1 r2 : grows r r1 -> grows r r2 -> grows r (if b then r1 else r2).
Proof. by destruct b. Qed.

#[export] Hint Resolve grows_append grows_commit grows_send_one grows_follow grows_if : core.
#[export] Hint Extern 1 (grows ?r ?r) => reflexivity : core.

(** ** Handlers *)

Lemma handleAppendEntries_grows m r r' : handleAppendEntries m r = Ok r' -> grows r r'.
Proof.
  unfold handleAppendEntries. destruct (msg_Entries m) as [ae|]; [|by intros [= <-]].
  destruct (_ <? currentTerm r); [intros [= <-]; by apply grows_send_one|].
  set (r1 := if currentTerm r <? ae_Term ae then _ else r). cbv zeta.
  assert (grows r r1) as H1 by (unfold r1; auto). clearbody r1.
  intros (mm & _ & H)%bind_Ok_inv. transitivity r1; [done|]. clear H1.
  destruct mm; [injection H as <-; by apply grows_send_one|]. injection H as <-.
  set (r2 := if 0 <? zlen (ae_Entries ae) then set_r_raftLog _ r1 else r1).
  transitivity r2; [unfold r2; auto|]. clearbody r2.
  set (r3 := if rl_commitIndex _ <? _ then _ else r2).
  transitivity r3; [unfold r3; auto|]. clearbody r3.
  apply grows_if; [|done]. apply grows_send_after.
  intros y ->%list_elem_of_singleton. by apply carries_none.
Qed.

Lemma maybeCommit_loop_grows r0 idx l l' :
  maybeCommit_loop r0 idx l = Ok l' ->
  rl_entries l' = rl_entries l /\ rl_commitIndex l <= rl_commitIndex l' /\
  rl_lastApplied l' = rl_lastApplied l /\ rl_stableIndex l' = rl_stableIndex l.
Proof.
  revert l. induction idx as [|i idx IH]; cbn; intros l; [by intros [= <-]|].
  intros (l1 & H1 & (E & C & A & S)%IH)%bind_Ok_inv. unfold maybeCommitAt in H1.
  destruct (_ <=? _); [|injection H1 as <-; done].
  apply bind_Ok_inv in H1 as (t & _ & H1). destruct (_ =? _); injection H1 as <-; [|done].
  destruct (commit_grows i l) as (E' & C' & A' & S'). split_and!; [congruence|lia|congruence..].
Qed.

Lemma handleAppendResponse_grows m r r' : handleAppendResponse m r = Ok r' -> grows r r'.
Proof.
  unfold handleAppendResponse. destruct (msg_EntriesResp m) as [resp|]; [|by intros [= <-]].
  destruct (_ <? _); [intros [= <-]; auto|]. destruct (_ <? _); [by intros [= <-]|].
  destruct (aer_Success resp).
  - unfold maybeCommit. set (r1 := set_progress _ r). cbv zeta.
    intros (l & Hl & H)%bind_Ok_inv. injection H as <-.
    apply maybeCommit_loop_grows in Hl as (E & C & A & S).
    transitivity r1; [by apply grows_same|]. apply grows_log; try done.
    exists []. by rewrite app_nil_r.
  - intros [= <-]. by apply grows_same.
Qed.

Lemma handleVoteRequest_grows m r : grows r (handleVoteRequest m r).
Proof.
  unfold handleVoteRequest. destruct (msg_Vote m) as [req|]; [|done]. cbv zeta.
  destruct (_ <? currentTerm r); [by apply grows_send_one|].
  set (r1 := if currentTerm r <? _ then _ else r).
  transitivity r1; [unfold r1; auto|]. clearbody r1.
  assert (forall t, grows r1 (sendVoteResponse (rv_CandidateId req) true t (set_votedFor
     (<[i64 (GetVoteTerm req) := rv_CandidateId req]> (votedFor r1)) r1))) as Hg.
  { intros t. transitivity (set_votedFor (<[i64 (GetVoteTerm req) := rv_CandidateId req]> (votedFor r1)) r1);
      [by apply grows_same|by apply grows_send_one]. }
  destruct (votedFor r1 !! _); [|apply Hg]. apply grows_if; [by apply grows_send_one|apply Hg].
Qed.

Lemma becomeLeader_grows r : grows r (becomeLeader r).
Proof. by apply grows_same. Qed.

Lemma handleVoteResponse_grows m r r' : handleVoteResponse m r = Ok r' -> grows r r'.
Proof.
  unfold handleVoteResponse. destruct (msg_VoteResp m) as [resp|]; [|by intros [= <-]].
  destruct (_ <? _); [by intros [= <-]|]. destruct (_ <? _); [intros [= <-]; auto|].
  destruct (votes r) as [v|]; [|done]. cbv zeta. set (r1 := set_votes _ r). intros [= <-].
  assert (grows r r1) as H1 by by apply grows_same.
  apply grows_if; [|done]. by transitivity r1; [|apply becomeLeader_grows].
Qed.

Lemma candidate_grows r : grows r (candidate r).
Proof.
  destruct (becomeCandidate_core r) as (E & Ep & El).
  destruct (core_is _ _ _ _ _ _ _ _ _ _ _ E) as (_&_&_&_&_&_&_&_&_&E10).
  transitivity (becomeCandidate r); [by apply grows_same|]. clear.
  unfold candidate. generalize (becomeCandidate r). intros c. by apply grows_same.
Qed.

Lemma campaign_grows ord r : grows r (campaign ord r).
Proof.
  rewrite campaign_eq. transitivity (candidate r); [apply candidate_grows|].
  generalize (candidate r). intros c. apply grows_if; [apply becomeLeader_grows|].
  apply grows_send. intros x (p & -> & _)%list_elem_of_fmap. by apply carries_none.
Qed.

Lemma collect_slots_elem l idx es e : collect_slots l idx = Ok es -> e ∈ es -> e ∈ rl_entries l.
Proof.
  revert es. induction idx as [|i idx IH]; cbn; intros es.
  - intros [= <-] He. by apply not_elem_of_nil in He.
  - destruct (i <? slots l); [|apply IH].
    intros (e1 & He1 & H)%bind_Ok_inv. apply bind_Ok_inv in H as (es1 & Hes1 & H).
    injection H as <-. rewrite elem_of_cons. intros [->|He]; [|by eapply IH].
    unfold slot in He1. destruct (i =? 0); [done|]. apply index_Ok_inv in He1 as [_ He1].
    by eapply list_elem_of_lookup_2.
Qed.

Lemma appendMessage_carries r p x :
  appendMessage r p = Ok x -> carries (rl_entries (r_raftLog r)) x.
Proof.
  unfold appendMessage. intros (t & _ & H)%bind_Ok_inv.
  apply bind_Ok_inv in H as (es & Hes & H). injection H as <-.
  intros e He. cbn in He. by eapply collect_slots_elem.
Qed.

Lemma heartbeatMessage_carries r p x es : heartbeatMessage r p = Ok x -> carries es x.
Proof.
  unfold heartbeatMessage. intros (t & _ & H)%bind_Ok_inv. injection H as <-. by apply carries_none.
Qed.

Lemma replicate_grows ord m r r' : replicate ord m r = Ok r' -> grows r r'.
Proof.
  unfold replicate. destruct (negb (isLead r)); [done|]. cbv zeta.
  destruct (_ =? 0); [by intros [= <-]|].
  set (r1 := set_r_raftLog _ r). intros (ms & Hms & H)%bind_Ok_inv. injection H as <-.
  transitivity r1; [apply grows_append|]. apply (grows_send_after ms r1). intros x Hx.
  destruct (messages_to_elem _ _ _ _ Hms Hx) as (p & _ & Hp). by eapply appendMessage_carries.
Qed.

Lemma broadcastHeartbeat_grows ord r r' : broadcastHeartbeat ord r = Ok r' -> grows r r'.
Proof.
  unfold broadcastHeartbeat. intros (ms & Hms & H)%bind_Ok_inv. injection H as <-.
  apply grows_send. intros x Hx. destruct (messages_to_elem _ _ _ _ Hms Hx) as (p & _ & Hp).
  by eapply heartbeatMessage_carries.
Qed.

Lemma electionTick_grows n r : grows r (set_electionTick n r).
Proof. by apply grows_same. Qed.

Lemma heartbeatTick_grows n r : grows r (set_heartbeatTick n r).
Proof. by apply grows_same. Qed.

Lemma Step_grows ord m r r' : Step ord m r = Ok r' -> grows r r'.
Proof.
  assert (Happ : handleAppendEntries m (set_electionTick 0 r) = Ok r' -> grows r r').
  { intros H%handleAppendEntries_grows. transitivity (set_electionTick 0 r); [|done].
    apply electionTick_grows. }
  assert (Hvote : Ok (handleVote ord m r) = Ok r' -> grows r r').
  { intros [= <-]. unfold handleVote.
    destruct (msg_Vote m); [apply handleVoteRequest_grows|apply campaign_grows]. }
  assert (Hid : Ok r = Ok r' -> grows r r') by by intros [= <-].
  unfold Step, stepFollower, stepCandidate, stepLeader.
  destruct (step r) as [[]|]; destruct (msg_Type m); auto; try done.
  - apply handleVoteResponse_grows.
  - unfold wrap_err. destruct (replicate ord m r) eqn:E; try done. intros [= <-].
    by eapply replicate_grows.
  - apply handleAppendResponse_grows.
  - apply broadcastHeartbeat_grows.
Qed.

Lemma Tick_grows ord r r' : Tick ord r = Ok r' -> grows r r'.
Proof.
  assert (Hgen : forall t r1, grows r r1 -> log_err r1 (Step ord (bare_message t) r1) = Ok r' ->
    grows r r').
  { intros t r1 H1 [->|H]%log_err_Ok; [done|]. transitivity r1; [done|by eapply Step_grows]. }
  assert (Helec : tickElection ord r = Ok r' -> grows r r').
  { unfold tickElection. cbv zeta. destruct (_ <=? _).
    - apply Hgen. etrans; apply electionTick_grows.
    - intros [= <-]. apply electionTick_grows. }
  unfold Tick. destruct (tick r) as [[]|]; try done.
  unfold tickLeader. cbv zeta. destruct (_ <=? _).
  - apply Hgen. etrans; apply heartbeatTick_grows.
  - intros [= <-]. apply heartbeatTick_grows.
Qed.
