(* ===== verification/RaftNode.v ===== *)
(** * The run loop of a Raft node ([repl/raft.go])

    [run] is [for { select { .. } }].  Go evaluates the channel operands of
    all the cases on entering the [select], so every turn calls
    [n.raft.Ready()], whatever case is then chosen; a turn whose call blocks
    never happens.  The node is generic in the [Storage] of the write-ahead log;
    its theorems use the laws [StorageSpec] only.

    [n_sent] and [n_delivered] are histories: the messages given to the network
    and the entries ever put on [applyc]. *)
From S2P Require Import Prelude Proto Wal RaftLog Raft Election Replication Growth.

Local Open Scope Z_scope.

Record ToApply := mkToApply {
  ta_Entries : list Log;
  ta_CommitIndex : Z;
}.

Section node.
Context {W : Type} {HS : Storage W} {HSpec : StorageSpec W}.

Record Node := mkNode {
  n_raft : Raft;
  n_wal : W;
  n_members : list Z;
  n_propc : list Message;
  n_applyc : list ToApply;
  n_tickc : nat;
  n_sent : list Message;
  n_delivered : list Log;
}.

(** Capacities of the channels, from [bootstrapRaftNode]. *)
Definition propc_cap : nat := 256.
Definition applyc_cap : nat := 256.
Definition tickc_cap : nat := 128.

(** [bootstrapRaftNode] once the configuration is read and the peers dialled. *)
Definition bootstrapRaftNode (id : Z) (peerIDs : list Z) (wal : W) : Node :=
  mkNode (NewRaft id peerIDs) wal peerIDs [] [] 0 [] [].

Definition set_n_raft (r : Raft) (n : Node) : Node :=
  mkNode r (n_wal n) (n_members n) (n_propc n) (n_applyc n) (n_tickc n) (n_sent n) (n_delivered n).

(** [stepSM]: [None] while the channel is full. *)
Definition stepSM (m : Message) (n : Node) : option Node :=
  if (length (n_propc n) <? propc_cap)%nat then
    Some (mkNode (n_raft n) (n_wal n) (n_members n) (n_propc n ++ [m]) (n_applyc n) (n_tickc n)
            (n_sent n) (n_delivered n))
  else None.

(** [Node.Tick]: a tick is dropped when the channel is full. *)
Definition node_Tick (n : Node) : Node :=
  if (n_tickc n <? tickc_cap)%nat then
    mkNode (n_raft n) (n_wal n) (n_members n) (n_propc n) (n_applyc n) (S (n_tickc n))
      (n_sent n) (n_delivered n)
  else n.

Definition GetWAL (n : Node) : W := n_wal n.

(** The database receives from [applyc]. *)
Definition receive_apply (n : Node) : option (ToApply * Node) :=
  match n_applyc n with
  | [] => None
  | ap :: rest =>
      Some (ap, mkNode (n_raft n) (n_wal n) (n_members n) (n_propc n) rest (n_tickc n)
                  (n_sent n) (n_delivered n))
  end.

(** One answer of the disk per entry. *)
Fixpoint saveToWAL (ds : list disk_answer) (entries : list Log) (wal : W) : outcome W :=
  match entries with
  | [] => Ok wal
  | entry :: entries =>
      wal ← st_Append (hd disk_fine ds) entry wal;
      saveToWAL (tl ds) entries wal
  end.

(** The messages that leave the node: those to a known peer. *)
Definition send (n : Node) (msgs : list Message) : list Message :=
  filter (fun m => msg_To m <> 0 /\ msg_To m ∈ n_members n) msgs.

(** The case [rd := <-n.raft.Ready()]; [None] when [n.applyc <- ap] blocks. *)
Definition processReady (ds : list disk_answer) (rd : Ready) (n : Node) : outcome (option Node) :=
  wal ← saveToWAL ds (rd_Entries rd) (n_wal n);
  let sent := n_sent n ++ send n (rd_Messages rd) ++ send n (rd_MessagesAfterAppend rd) in
  let raft := Advance (set_readyc None (n_raft n)) in
  match rd_CommittedEntries rd with
  | [] => Ok (Some (mkNode raft wal (n_members n) (n_propc n) (n_applyc n) (n_tickc n) sent
                      (n_delivered n)))
  | _ =>
      if (length (n_applyc n) <? applyc_cap)%nat then
        let ap := mkToApply (rd_CommittedEntries rd) (hs_lastCommitIndex (rd_HardState rd)) in
        Ok (Some (mkNode raft wal (n_members n) (n_propc n) (n_applyc n ++ [ap]) (n_tickc n) sent
                    (n_delivered n ++ rd_CommittedEntries rd)))
      else Ok None
  end.

(** The case the [select] takes. *)
Inductive choice :=
  | ChProp (ord : list Z)
  | ChReady (ds : list disk_answer)
  | ChTick (ord : list Z)
  | ChDefault.

(** The rest of a turn, once [Ready()] has returned; [None] when the case is
    not ready to be taken. *)
Definition run_case (c : choice) (n : Node) : outcome (option Node) :=
  let r := n_raft n in
  match c with
  | ChProp ord =>
      match n_propc n with
      | [] => Ok None
      | m :: rest =>
          r' ← log_err r (Step ord m r);
          Ok (Some (mkNode r' (n_wal n) (n_members n) rest (n_applyc n) (n_tickc n) (n_sent n)
                      (n_delivered n)))
      end
  | ChReady ds =>
      match readyc r with
      | None => Ok None
      | Some rd => processReady ds rd n
      end
  | ChTick ord =>
      match n_tickc n with
      | O => Ok None
      | S k =>
          r' ← Tick ord r;
          Ok (Some (mkNode r' (n_wal n) (n_members n) (n_propc n) (n_applyc n) k (n_sent n)
                      (n_delivered n)))
      end
  | ChDefault =>
      match n_propc n, readyc r, n_tickc n with
      | [], None, O => Ok (Some n)
      | _, _, _ => Ok None
      end
  end.

(** One turn of the loop; [None] when it blocks. *)
Definition run_turn (c : choice) (n : Node) : outcome (option Node) :=
  r ← callReady (n_raft n);
  match r with
  | None => Ok None
  | Some r => run_case c (set_n_raft r n)
  end.

Inductive node_step (n : Node) : Node -> Prop :=
  | ns_process m n' : stepSM m n = Some n' -> node_step n n'
  | ns_tick : node_step n (node_Tick n)
  | ns_apply ap n' : receive_apply n = Some (ap, n') -> node_step n n'
  | ns_turn c n' : run_turn c n = Ok (Some n') -> node_step n n'.

(** No turn is possible: [Ready()] blocks. *)
Definition blocked (n : Node) : Prop := callReady (n_raft n) = Ok None.

End node.
Arguments Node W : clear implicits.

(** ** The write-ahead log, the messages and the applied entries *)

Section run_loop.
Context {W : Type} {HS : Storage W} {HSpec : StorageSpec W}.
Context (base : list Log).

(** [base] is what the write-ahead log held at start. *)
Record loop_inv (n : Node W) : Prop := {
  nv_wf : wf_log (r_raftLog (n_raft n));
  nv_wal :
    let l := r_raftLog (n_raft n) in
    st_GetLogs (n_wal n) = base ++ take (Z.to_nat (rl_stableIndex l)) (rl_entries l);
  nv_delivered :
    let l := r_raftLog (n_raft n) in
    n_delivered n = take (Z.to_nat (rl_lastApplied l)) (rl_entries l);
  nv_ready rd :
    readyc (n_raft n) = Some rd ->
    let l := r_raftLog (n_raft n) in
    rd_Entries rd `prefix_of` drop (Z.to_nat (rl_stableIndex l)) (rl_entries l) /\
    rd_CommittedEntries rd `prefix_of` entries_between l (rl_lastApplied l) (rl_commitIndex l) /\
    forall x, x ∈ ready_messages rd -> carries (rl_entries l) x;
  nv_pending x : x ∈ pending (n_raft n) -> carries (rl_entries (r_raftLog (n_raft n))) x;
  nv_sent x : x ∈ n_sent n -> carries (st_GetLogs (n_wal n)) x;
}.

Lemma entries_between_grow l l' a b b' :
  (exists es, rl_entries l' = rl_entries l ++ es) -> b <= b' -> 0 <= a ->
  b <= zlen (rl_entries l) ->
  entries_between l a b `prefix_of` entries_between l' a b'.
Proof.
  intros [es E] Hb Ha Hlen. unfold entries_between. rewrite E. unfold zlen in Hlen.
  destruct (decide (a <= zlen (rl_entries l))) as [Hal|Hal]; unfold zlen in Hal.
  - rewrite drop_app_le by lia.
    exists (drop (Z.to_nat (b - a)) (take (Z.to_nat (b' - a)) (drop (Z.to_nat a) (rl_entries l) ++ es))).
    rewrite <- (take_drop (Z.to_nat (b - a)) (take (Z.to_nat (b' - a)) _)) at 1. f_equal.
    rewrite take_take, Nat.min_l by lia. rewrite take_app_le; [done|]. rewrite length_drop. lia.
  - replace (Z.to_nat (b - a)) with O by lia. apply prefix_nil.
Qed.

(** The state machine moved on, and nothing else. *)
Lemma loop_inv_grows n r' q k :
  loop_inv n -> grows (n_raft n) r' -> wf_log (r_raftLog r') ->
  loop_inv (mkNode r' (n_wal n) (n_members n) q (n_applyc n) k (n_sent n) (n_delivered n)).
Proof.
  intros [Hwf Hwal Hdel Hrd Hpend Hsent] [Hes Hc Ha Hs Hrc Hp] Hwf'. pose proof Hes as [es Ees].
  pose proof (lastIndex_sequential _ (wf_ids _ Hwf)) as El. destruct Hwf as [W1 W2 W3 W4].
  unfold zlen in El. split; cbn; try done.
  - rewrite Hwal, Hs, Ees, take_app_le by lia. done.
  - rewrite Hdel, Ha, Ees, take_app_le by lia. done.
  - intros rd Erd. rewrite Hrc in Erd. destruct (Hrd rd Erd) as (H1 & H2 & H3). split_and!.
    + rewrite Hs, Ees, drop_app_le by lia. by apply prefix_app_r.
    + rewrite Ha. etransitivity; [exact H2|].
      apply entries_between_grow; [done|done|lia|unfold zlen; lia].
    + intros x Hx. rewrite Ees. by apply carries_app, H3.
  - intros x Hx. destruct (Hp x Hx) as [Hx'|?]; [|done]. rewrite Ees. by apply carries_app, Hpend.
Qed.

Lemma ready_of_all r :
  hasReady r = false -> wf_log (r_raftLog r) ->
  let l := r_raftLog r in
  drop (Z.to_nat (rl_stableIndex l)) (rl_entries l) = [] /\
  entries_between l (rl_lastApplied l) (rl_commitIndex l) = [].
Proof.
  intros Hr Hwf l. pose proof (lastIndex_sequential _ (wf_ids _ Hwf)) as El.
  unfold hasReady in Hr. fold l in Hr, El. destruct Hwf as [W1 W2 W3 W4]. fold l in W2, W3, W4.
  unfold zlen in El. apply orb_false_iff in Hr as [Hr Ha]. apply orb_false_iff in Hr as [_ Hs].
  apply Z.ltb_ge in Ha, Hs. split; [apply drop_ge; lia|].
  unfold entries_between. by replace (Z.to_nat _) with O by lia.
Qed.

(** After [Ready()] the hand-over in the channel, if there is one, is exactly
    what is not yet stable and not yet applied. *)
Lemma callReady_inv n r1 :
  loop_inv n -> callReady (n_raft n) = Ok (Some r1) ->
  loop_inv (set_n_raft r1 n) /\
  forall rd, readyc r1 = Some rd ->
    let l := r_raftLog r1 in
    rd_Entries rd = drop (Z.to_nat (rl_stableIndex l)) (rl_entries l) /\
    rd_CommittedEntries rd = entries_between l (rl_lastApplied l) (rl_commitIndex l).
Proof.
  intros Hn Hc. pose proof Hn as [Hwf Hwal Hdel Hrd Hpend Hsent].
  rewrite callReady_eq in Hc by done. destruct (hasReady (n_raft n)) eqn:Eh.
  - destruct (readyc (n_raft n)) eqn:Erc; [done|]. injection Hc as <-. split.
    + split; cbn; try done.
      * intros rd [= <-]. split_and!; done.
      * intros x Hx. by apply not_elem_of_nil in Hx.
    + by intros rd [= <-].
  - injection Hc as <-. split; [by destruct n|]. intros rd Erd.
    destruct (Hrd rd Erd) as (H1 & H2 & _). destruct (ready_of_all _ Eh Hwf) as [E1 E2].
    cbv zeta. rewrite E1 in *. rewrite E2 in *. split; by apply prefix_nil_inv.
Qed.

Lemma saveToWAL_logs ds es wal wal' :
  saveToWAL ds es wal = Ok wal' -> st_GetLogs wal' = st_GetLogs wal ++ es.
Proof.
  revert ds wal. induction es as [|e es IH]; cbn; intros ds wal.
  - intros [= <-]. by rewrite app_nil_r.
  - intros (w1 & Ha & H1)%bind_Ok_inv. apply IH in H1. rewrite H1, (spec_Append_Ok _ _ _ _ Ha).
    by rewrite <- app_assoc.
Qed.

Lemma send_elem (n : Node W) ms x : x ∈ send n ms -> x ∈ ms.
Proof. unfold send. intros [_ ?]%list_elem_of_filter. done. Qed.

Lemma take_split_between l a b :
  0 <= a <= b ->
  take (Z.to_nat a) (rl_entries l) ++ entries_between l a b = take (Z.to_nat b) (rl_entries l).
Proof.
  intros H. unfold entries_between. replace (Z.to_nat b) with (Z.to_nat a + Z.to_nat (b - a))%nat by lia.
  apply take_take_drop.
Qed.

Lemma wf_advanced l :
  wf_log l -> wf_log (mkRaftLog (rl_entries l) (rl_commitIndex l) (rl_commitIndex l) (lastIndex l)).
Proof.
  intros [W1 W2 W3 W4]. set (l' := mkRaftLog _ _ _ _).
  assert (lastIndex l' = lastIndex l) as El by done. split; rewrite ?El; cbn; done || lia.
Qed.

Lemma processReady_inv ds rd n n' :
  loop_inv n -> readyc (n_raft n) = Some rd ->
  (let l := r_raftLog (n_raft n) in
   rd_Entries rd = drop (Z.to_nat (rl_stableIndex l)) (rl_entries l) /\
   rd_CommittedEntries rd = entries_between l (rl_lastApplied l) (rl_commitIndex l)) ->
  processReady ds rd n = Ok (Some n') ->
  loop_inv n' /\
  st_GetLogs (n_wal n') = base ++ rl_entries (r_raftLog (n_raft n)) /\
  n_delivered n' = n_delivered n ++ rd_CommittedEntries rd.
Proof.
  intros [Hwf Hwal Hdel Hrd Hpend Hsent] Erd [Ees Ecs] H. unfold processReady in H.
  apply bind_Ok_inv in H as (wal & Hw & H). set (l := r_raftLog (n_raft n)) in *.
  apply saveToWAL_logs in Hw. rewrite Hwal, Ees, <- app_assoc, take_drop in Hw.
  set (sent := n_sent n ++ send n _ ++ send n _) in H.
  set (r' := Advance _) in H.
  assert (r_raftLog r' = mkRaftLog (rl_entries l) (rl_commitIndex l) (rl_commitIndex l) (lastIndex l)) as El.
  { apply (Advance_log (set_readyc None (n_raft n))). exact Hwf. }
  assert (readyc r' = None /\ pending r' = pending (n_raft n)) as [Er' Ep'] by done. clearbody r'.
  pose proof (lastIndex_sequential _ (wf_ids _ Hwf)) as Elen. unfold zlen in Elen.
  destruct (Hrd rd Erd) as (_ & _ & Hcar).
  assert (Hgen : forall q ap k del, del = n_delivered n ++ rd_CommittedEntries rd ->
    loop_inv (mkNode r' wal (n_members n) q ap k sent del)).
  { intros q ap k del ->. destruct Hwf as [W1 W2 W3 W4]. split; cbn; rewrite ?El.
    - apply (wf_advanced l). by split.
    - cbn [rl_entries rl_stableIndex]. rewrite Hw, take_ge; [done|]. lia.
    - cbn [rl_entries rl_lastApplied]. rewrite Hdel, Ecs. apply take_split_between. lia.
    - intros rd'. by rewrite Er'.
    - intros x. rewrite Ep'. apply Hpend.
    - intros x Hx. unfold sent in Hx. rewrite !elem_of_app in Hx. intros e He. rewrite Hw.
      destruct Hx as [Hx|Hx].
      + apply (Hsent x Hx) in He. rewrite Hwal in He. apply elem_of_app in He as [He|He]; apply elem_of_app;
          [by left|right]. by eapply elem_of_take in He as (i & He & _); eapply list_elem_of_lookup_2.
      + apply elem_of_app. right. apply (Hcar x); [|done]. unfold ready_messages.
        rewrite elem_of_app. destruct Hx as [Hx%send_elem|Hx%send_elem]; auto. }
  destruct (rd_CommittedEntries rd) as [|c cs] eqn:Ec.
  - injection H as <-. split; [|split; [done|by rewrite app_nil_r]]. apply Hgen. by rewrite app_nil_r.
  - destruct (_ <? _)%nat; [|done]. injection H as <-. split; [by apply Hgen|done].
Qed.

(** A step that leaves the log well formed, as the steps of a leader and of a
    follower that is sent each entry once do ([replicate_spec],
    [append_in_order]). *)
Definition in_order_step (n n' : Node W) : Prop :=
  node_step n n' /\ wf_log (r_raftLog (n_raft n')).

Lemma node_step_inv n n' : loop_inv n -> in_order_step n n' -> loop_inv n'.
Proof.
  intros Hn [Hs Hwf']. destruct Hs as [m n' Hm| |ap n' Ha|c n' Ht].
  - unfold stepSM in Hm. destruct (_ <? _)%nat; [|done]. injection Hm as <-. by destruct Hn.
  - unfold node_Tick. destruct (_ <? _)%nat; [|done]. by destruct Hn.
  - unfold receive_apply in Ha. destruct (n_applyc n) as [|a rest]; [done|].
    injection Ha as <- <-. by destruct Hn.
  - unfold run_turn in Ht. apply bind_Ok_inv in Ht as ([r1|] & Hc & Ht); [|done].
    destruct (callReady_inv n r1 Hn Hc) as [Hn1 Hrd].
    destruct c as [ord|ds|ord|]; cbn in Ht.
    + destruct (n_propc n) as [|m q]; [done|].
      apply bind_Ok_inv in Ht as (r' & Hs & Ht). injection Ht as <-.
      apply (loop_inv_grows (set_n_raft r1 n)); [done| |done].
      apply log_err_Ok in Hs as [->|Hs]; [done|]. by eapply Step_grows.
    + destruct (readyc r1) as [rd|] eqn:Erd; [|done].
      by apply (processReady_inv ds rd (set_n_raft r1 n) n' Hn1 Erd (Hrd rd eq_refl)).
    + destruct (n_tickc n) as [|k]; [done|].
      apply bind_Ok_inv in Ht as (r' & Hs & Ht). injection Ht as <-.
      apply (loop_inv_grows (set_n_raft r1 n)); [done| |done]. by eapply Tick_grows.
    + destruct (n_propc n), (readyc r1), (n_tickc n); try done. by injection Ht as <-.
Qed.

Lemma bootstrap_inv id peerIDs (wal : W) :
  st_GetLogs wal = base -> loop_inv (bootstrapRaftNode id peerIDs wal).
Proof.
  intros Hw. split; cbn; try done.
  - transitivity (base ++ []); [by rewrite app_nil_r|done].
  - intros x Hx. by apply not_elem_of_nil in Hx.
  - intros x Hx. by apply not_elem_of_nil in Hx.
Qed.

Lemma run_inv id peerIDs (wal : W) n :
  st_GetLogs wal = base -> rtc in_order_step (bootstrapRaftNode id peerIDs wal) n -> loop_inv n.
Proof.
  intros Hw Hrun. remember (bootstrapRaftNode id peerIDs wal) as n0 eqn:E.
  assert (loop_inv n0) as H0 by (subst; by apply bootstrap_inv). clear E Hw.
  induction Hrun as [|n0 n1 n2 Hs _ IH]; [done|]. apply IH. by eapply node_step_inv.
Qed.

(** C12: the run loop keeps the write-ahead log, the network and the database
    in step with the log: over any [Storage] that keeps its laws, and in every
    run whose steps all leave the Raft log well formed, which the code does not
    see to (an append message that arrives twice breaks it, [append_again]),
    the write-ahead log holds what it held at start followed by exactly the
    stable entries; what was ever put on [applyc] is exactly the applied prefix
    of the log, each entry once and in order; and every entry of every message
    that was sent was in the write-ahead log before. *)
Theorem run_loop_in_order id peerIDs (wal : W) n :
  st_GetLogs wal = base -> rtc in_order_step (bootstrapRaftNode id peerIDs wal) n ->
  let l := r_raftLog (n_raft n) in
  st_GetLogs (n_wal n) = base ++ take (Z.to_nat (rl_stableIndex l)) (rl_entries l) /\
  n_delivered n = take (Z.to_nat (rl_lastApplied l)) (rl_entries l) /\
  forall x e, x ∈ n_sent n -> e ∈ GetEntries (msg_Entries x) -> e ∈ st_GetLogs (n_wal n).
Proof.
  intros Hw Hrun. destruct (run_inv id peerIDs wal n Hw Hrun) as [_ H1 H2 _ _ H3].
  split; [exact H1|]. split; [exact H2|]. intros x e Hx. by apply H3.
Qed.

(** ** A turn that never happens *)

Lemma blocked_step n n' :
  blocked n -> node_step n n' -> n_raft n' = n_raft n /\ n_wal n' = n_wal n /\ n_sent n' = n_sent n.
Proof.
  unfold blocked. intros Hb Hs. destruct Hs as [m n' Hm| |ap n' Ha|c n' Ht].
  - unfold stepSM in Hm. destruct (_ <? _)%nat; [|done]. by injection Hm as <-.
  - unfold node_Tick. by destruct (_ <? _)%nat.
  - unfold receive_apply in Ha. destruct (n_applyc n) as [|a rest]; [done|]. by injection Ha as _ <-.
  - unfold run_turn in Ht. rewrite Hb in Ht. done.
Qed.

(** A node whose [Ready()] finds the channel full is dead: whatever
    messages, ticks and receives follow, the loop takes no further turn, the
    state machine does not change, nothing is written and nothing is sent. *)
Theorem blocked_forever n n' :
  blocked n -> rtc node_step n n' ->
  blocked n' /\ n_raft n' = n_raft n /\ n_wal n' = n_wal n /\ n_sent n' = n_sent n.
Proof.
  intros Hb Hrun. induction Hrun as [|n n1 n2 Hs _ IH]; [done|].
  destruct (blocked_step n n1 Hb Hs) as (E1 & E2 & E3).
  assert (blocked n1) as Hb1 by (unfold blocked in *; by rewrite E1).
  destruct (IH Hb1) as (? & ? & ? & ?). split_and!; [done|congruence..].
Qed.

End run_loop.

(** ** Running a node on a list of events *)

Inductive event :=
  | EvProcess (m : Message)
  | EvTick
  | EvApply
  | EvTurn (c : choice).

Definition exec_event {W} `{Storage W} (e : event) (n : Node W) : option (Node W) :=
  match e with
  | EvProcess m => stepSM m n
  | EvTick => Some (node_Tick n)
  | EvApply => snd <$> receive_apply n
  | EvTurn c => match run_turn c n with Ok o => o | _ => None end
  end.

Fixpoint sequentialb (n : Z) (es : list Log) : bool :=
  match es with
  | [] => true
  | e :: es => (log_Id e =? n) && sequentialb (n + 1) es
  end.

Definition wf_logb (l : raftLog) : bool :=
  sequentialb 1 (rl_entries l) &&
  ((0 <=? rl_lastApplied l) && (rl_lastApplied l <=? rl_commitIndex l)) &&
  (rl_commitIndex l <=? lastIndex l) &&
  ((0 <=? rl_stableIndex l) && (rl_stableIndex l <=? lastIndex l)).

(** Runs the events, and checks that every state has a well-formed log. *)
Fixpoint exec_events {W} `{Storage W} (es : list event) (n : Node W) : option (Node W) :=
  match es with
  | [] => Some n
  | e :: es =>
      n' ← exec_event e n;
      if wf_logb (r_raftLog (n_raft n')) then exec_events es n' else None
  end.

Lemma sequentialb_sound n es : sequentialb n es = true -> sequential_from n es.
Proof.
  revert n. induction es as [|e es IH]; cbn; intros n H i x Hx; [by rewrite lookup_nil in Hx|].
  apply andb_true_iff in H as [H1%Z.eqb_eq H2]. destruct i as [|i]; cbn in Hx.
  - injection Hx as <-. lia.
  - apply (IH _ H2) in Hx. lia.
Qed.

Lemma wf_logb_sound l : wf_logb l = true -> wf_log l.
Proof.
  unfold wf_logb. rewrite !andb_true_iff, !Z.leb_le. intros (((H1 & H2) & H3) & H4).
  split; [by apply sequentialb_sound|done..].
Qed.

Lemma exec_event_sound {W} `{Storage W} e (n n' : Node W) :
  exec_event e n = Some n' -> node_step n n'.
Proof.
  destruct e as [m| | |c]; cbn.
  - apply ns_process.
  - intros [= <-]. apply ns_tick.
  - intros ([ap n1] & Hr & ->)%fmap_Some. by apply (ns_apply n ap).
  - destruct (run_turn c n) as [[n1|]| |] eqn:E; try done. intros [= <-]. by apply (ns_turn n c).
Qed.

Lemma exec_events_sound {W} `{Storage W} es (n n' : Node W) :
  exec_events es n = Some n' -> rtc in_order_step n n'.
Proof.
  revert n. induction es as [|e es IH]; cbn; intros n; [by intros [= <-]|].
  intros (n1 & H1 & H2)%bind_Some. destruct (wf_logb _) eqn:E; [|done].
  apply (rtc_l _ n n1); [|by apply IH]. split; [by apply (exec_event_sound e)|by apply wf_logb_sound].
Qed.

(** Node 1 of three is elected, takes a proposal, node 2 acknowledges it, and
    the database receives it. *)
Definition granted_by (p : Z) : Message :=
  mkMessage MSG_VOTE_RESP 1 p None (Some (mkRequestVoteResponse 1 true)) None None.
Definition acked_by (p : Z) : Message :=
  mkMessage MSG_APP_RESP 1 p None None None (Some (mkAppendEntriesResponse 1 true)).
Definition tick_turn : list event := [EvTick; EvTurn (ChTick [2; 3])].
Definition step_turn (m : Message) : list event := [EvProcess m; EvTurn (ChProp [2; 3])].
Definition ready_turn : list event := [EvTurn (ChReady [])].

Definition node_run : list event :=
  concat (repeat tick_turn 9) ++ ready_turn ++ step_turn (granted_by 2) ++
  step_turn sample_proposal ++ ready_turn ++ step_turn (acked_by 2) ++ ready_turn ++ [EvApply].

Definition fresh_wal : LogManager := mkLogManager [] 10 [] 0 true.
Definition ran_node : Node LogManager :=
  default (bootstrapRaftNode 1 [2; 3] fresh_wal)
    (exec_events node_run (bootstrapRaftNode 1 [2; 3] fresh_wal)).

Lemma run_loop_in_order_witness :
  st_GetLogs (n_wal ran_node) = [mkLog 1 1 (Some (put_cmd "c" "3" 9))] /\
  n_delivered ran_node = [mkLog 1 1 (Some (put_cmd "c" "3" 9))] /\ length (n_sent ran_node) = 4%nat.
Proof.
  assert (E : st_GetLogs fresh_wal = []) by reflexivity.
  destruct (run_loop_in_order [] 1 [2; 3] fresh_wal ran_node E) as (H1 & H2 & _).
  - apply (exec_events_sound node_run). vm_compute. reflexivity.
  - split; [rewrite H1; vm_compute; reflexivity|]. split; [rewrite H2|]; vm_compute; reflexivity.
Defined.

(** Two vote requests are queued; the loop takes both before it looks at the
    hand-over of the first. *)
Definition vote_request (c : Z) : Message :=
  mkMessage MSG_VOTE 1 c (Some (mkRequestVote (Some 1) c 0 0)) None None None.
Definition blocking_run : list event :=
  [EvProcess (vote_request 2); EvProcess (vote_request 3);
   EvTurn (ChProp [2; 3]); EvTurn (ChProp [2; 3])].
Definition stuck_node : Node LogManager :=
  default (bootstrapRaftNode 1 [2; 3] fresh_wal)
    (exec_events blocking_run (bootstrapRaftNode 1 [2; 3] fresh_wal)).

(** The run loop can stop for ever: a node that has just started and is
    sent two vote requests reaches, by two turns that both take a message, a
    state in which [Ready()] blocks on the channel only the loop itself would
    empty.  Both answers are lost. *)
Theorem run_loop_deadlocks :
  exists n : Node LogManager,
    rtc node_step (bootstrapRaftNode 1 [2; 3] fresh_wal) n /\ blocked n /\ n_sent n = [].
Proof.
  exists stuck_node. split; [|split; vm_compute; reflexivity].
  apply (rtc_subrel in_order_step); [by intros ? ? []|].
  apply (exec_events_sound blocking_run). vm_compute. reflexivity.
Qed.

Lemma blocked_forever_witness :
  blocked stuck_node /\ forall n', rtc node_step stuck_node n' -> n_sent n' = [].
Proof.
  assert (Hb : blocked stuck_node) by (vm_compute; reflexivity). split; [exact Hb|].
  intros n' Hrun. destruct (blocked_forever stuck_node n' Hb Hrun) as (_ & _ & _ & E).
  rewrite E. vm_compute. reflexivity.
Defined.
