(* ===== verification/Cluster.v ===== *)
(** * A cluster of Raft nodes: election safety

    The nodes run [Step], [Tick], [Ready] and [Advance] in any interleaving;
    the network keeps every message that was ever sent, and delivers any of
    them, any number of times, in any order, to the node it is addressed to
    (a lost message is one that is never delivered).  Clients propose entries
    to any node, as [DB.Put] does. *)
From S2P Require Import Prelude Proto RaftLog Raft Election Replication.

Local Open Scope Z_scope.

Record cluster := mkCluster {
  nodes : gmap Z Raft;
  net : list Message;
}.

Inductive cluster_step (s : cluster) : cluster -> Prop :=
  | cs_deliver id r m ord r' :
      nodes s !! id = Some r -> m ∈ net s -> msg_To m = id -> range_order r ord ->
      Step ord m r = Ok r' -> cluster_step s (mkCluster (<[id := r']> (nodes s)) (net s))
  | cs_propose id r c ord r' :
      nodes s !! id = Some r -> range_order r ord -> Step ord (proposal c) r = Ok r' ->
      cluster_step s (mkCluster (<[id := r']> (nodes s)) (net s))
  | cs_tick id r ord r' :
      nodes s !! id = Some r -> range_order r ord -> Tick ord r = Ok r' ->
      cluster_step s (mkCluster (<[id := r']> (nodes s)) (net s))
  | cs_ready id r r' :
      nodes s !! id = Some r -> callReady r = Ok (Some r') ->
      cluster_step s (mkCluster (<[id := r']> (nodes s)) (net s))
  | cs_send id r rd :
      nodes s !! id = Some r -> readyc r = Some rd ->
      cluster_step s (mkCluster (<[id := consumeReady r]> (nodes s))
                        (net s ++ ready_messages rd)).

Definition init_node (ids : list Z) (id : Z) : Raft :=
  NewRaft id (filter (fun p => p <> id) ids).

Definition init_cluster (ids : list Z) : cluster :=
  mkCluster (list_to_map ((fun id => (id, init_node ids id)) <$> ids)) [].

(** ** The invariant *)

(** Every message on its way: queued, in a [Ready], or in the network. *)
Definition outbox (r : Raft) : list Message :=
  pending r ++ from_option ready_messages [] (readyc r).

(** [voter] has given its vote of term [t] to [c]. *)
Definition voted_for (s : cluster) (voter t c : Z) : Prop :=
  exists r, nodes s !! voter = Some r /\ votedFor r !! t = Some c.

Definition good_message (n : Z) (s : cluster) (x : Message) : Prop :=
  msg_terms_le n x /\ forall t, grants x t -> voted_for s (msg_From x) t (msg_To x).

(** [v] holds only votes that were really given to [c] in term [t]. *)
Definition supported (s : cluster) (c t : Z) (v : gmap Z bool) : Prop :=
  forall p, v !! p = Some true -> voted_for s p t c.

Record node_inv (n : Z) (s : cluster) (id : Z) (r : Raft) : Prop := {
  ni_ID : ID r = id;
  ni_raft : raft_inv r;
  ni_size : clusterSize r = Z.of_nat (size (nodes s));
  ni_term : currentTerm r <= n;
  ni_outbox x : x ∈ outbox r -> good_message n s x;
  ni_votes v : votes r = Some v -> supported s id (currentTerm r) v;
  ni_leader : state r = StateLeader ->
    exists v, quorum r <= countGranted v /\ supported s id (currentTerm r) v;
}.

Record cluster_inv (n : Z) (s : cluster) : Prop := {
  ci_nodes id r : nodes s !! id = Some r -> node_inv n s id r;
  ci_net x : x ∈ net s -> good_message n s x;
}.

(** ** Nothing that was established is lost when a node moves on *)

(** [s'] follows [s]: the same nodes, each with at least the votes it had. *)
Definition extends (s s' : cluster) : Prop :=
  forall id r, nodes s !! id = Some r ->
    exists r', nodes s' !! id = Some r' /\ votedFor r ⊆ votedFor r'.

Lemma voted_for_mono s s' p t c : extends s s' -> voted_for s p t c -> voted_for s' p t c.
Proof.
  intros He (r & Hr & Hv). destruct (He _ _ Hr) as (r' & Hr' & Hs).
  exists r'. split; [done|]. by eapply lookup_weaken.
Qed.

Lemma good_message_mono n n' s s' x :
  n <= n' -> extends s s' -> good_message n s x -> good_message n' s' x.
Proof.
  intros Hn He [Hm Hg]. split.
  - by eapply msg_terms_le_mono.
  - intros t Ht. eapply voted_for_mono; eauto.
Qed.

Lemma supported_mono s s' c t v : extends s s' -> supported s c t v -> supported s' c t v.
Proof. intros He Hs p Hp. eapply voted_for_mono; eauto. Qed.

Lemma node_inv_mono n n' s s' id r :
  n <= n' -> extends s s' -> size (nodes s') = size (nodes s) ->
  node_inv n s id r -> node_inv n' s' id r.
Proof.
  intros Hn He Hsz [H1 H2 H3 H4 H5 H6 H7]. split; try done.
  - by rewrite Hsz.
  - lia.
  - intros x Hx. by apply (good_message_mono n _ s); auto.
  - intros v Hv. apply (supported_mono s); auto.
  - intros Hl. destruct (H7 Hl) as (v & ? & ?). exists v. split; [done|].
    by apply (supported_mono s).
Qed.

Section update.
Context (n : Z) (s : cluster) (id : Z) (r r' : Raft) (more : list Message).
Context (Hinv : cluster_inv n s) (Hr : nodes s !! id = Some r).
Let s' := mkCluster (<[id := r']> (nodes s)) (net s ++ more).

Lemma update_size : size (nodes s') = size (nodes s).
Proof using Hr.
  cbn. rewrite map_size_insert, Hr. done.
Qed.

Lemma update_extends : votedFor r ⊆ votedFor r' -> extends s s'.
Proof using Hr.
  intros Hv i x Hx. cbn. destruct (decide (i = id)) as [->|Hne].
  - exists r'. rewrite lookup_insert_eq. split; [done|].
    assert (x = r) as -> by congruence. done.
  - exists x. by rewrite lookup_insert_ne.
Qed.

Lemma update_inv n' :
  n <= n' -> votedFor r ⊆ votedFor r' ->
  node_inv n' s' id r' -> (forall x, x ∈ more -> good_message n' s' x) ->
  cluster_inv n' s'.
Proof using Hinv Hr.
  intros Hn Hv Hni Hmore. pose proof (update_extends Hv) as He. destruct Hinv as [Hnodes Hnet].
  split.
  - intros i x. cbn. destruct (decide (i = id)) as [->|Hne].
    + rewrite lookup_insert_eq. by intros [= <-].
    + rewrite lookup_insert_ne by done. intros Hx.
      apply (node_inv_mono n n' s s'); [done|done|apply update_size|by apply Hnodes].
  - intros x [Hx|Hx]%elem_of_app; [|by apply Hmore].
    by apply (good_message_mono n n' s s'); [| |apply Hnet].
Qed.
End update.

(** One handler call with a message whose votes were really given. *)
Lemma local_step_inv n s id r m r' :
  cluster_inv n s -> nodes s !! id = Some r ->
  local_ok m r r' -> msg_terms_le n m ->
  (forall t, grants m t -> voted_for s (msg_From m) t id) ->
  cluster_inv (n + 1) (mkCluster (<[id := r']> (nodes s)) (net s)).
Proof.
  intros Hinv Hr Hok Hm Hg. pose proof Hok as [HID Hsz _ Hrc Ht Hb Hv Hi Hsent Hvotes Hlead].
  destruct (ci_nodes _ _ Hinv _ _ Hr) as [N1 N2 N3 N4 N5 N6 N7].
  pose proof (update_extends s id r r' [] Hr Hv) as He.
  pose proof (update_size s id r r' [] Hr) as Esz.
  pose proof (update_inv n s id r r' [] Hinv Hr (n + 1)) as Hup.
  rewrite app_nil_r in *. set (s' := mkCluster _ _) in *.
  assert (Hsup : forall v, state r' <> StateFollower ->
    votes_explained m r r' v -> supported s' id (currentTerm r') v).
  { intros v Hst' Hex p Hp. destruct (Hex p Hp) as [->|[(Hst & Et & v0 & Ev & Hv0)|[-> Hgr]]].
    - exists r'. split; [rewrite N1; cbn; by rewrite lookup_insert_eq|].
      rewrite (inv_self _ Hi Hst'). congruence.
    - rewrite Et. apply (voted_for_mono s); [done|]. by apply (N6 v0).
    - apply (voted_for_mono s); [done|]. by apply Hg. }
  apply Hup; [lia|done| |by intros x Hx%not_elem_of_nil]. split; try done.
  - congruence.
  - by rewrite Esz, Hsz.
  - by apply Hb.
  - intros x. unfold outbox. rewrite Hrc, elem_of_app. intros [Hx|Hx].
    + apply Hsent in Hx as [Hx|(Hf & Hterms & Hgr)].
      * apply (good_message_mono n _ s); [lia|done|]. apply N5, elem_of_app. by left.
      * assert (currentTerm r' <= n + 1) by by apply Hb.
        split; [by eapply msg_terms_le_mono|].
        intros t Ht'. exists r'. split; [|by apply Hgr].
        rewrite Hf, HID, N1. cbn. by rewrite lookup_insert_eq.
    + apply (good_message_mono n _ s); [lia|done|]. apply N5, elem_of_app. by right.
  - intros v Ev. apply Hsup; [|by apply Hvotes].
    assert (state r' = StateCandidate) as -> by (apply (inv_votes _ Hi); by eexists). done.
  - intros Hl. destruct (Hlead Hl) as [[Hst Et]|(v & Hq & Hex)].
    + destruct (N7 Hst) as (v & Hq & Hs). exists v. unfold quorum in *. rewrite Hsz, Et.
      split; [done|]. by apply (supported_mono s).
    + exists v. split; [done|]. apply Hsup; [by rewrite Hl|done].
Qed.

(** ** The steps of the I/O layer *)

(** Moving messages between the buffers changes nothing an election is about. *)
Definition same_election (r r' : Raft) : Prop :=
  ID r' = ID r /\ clusterSize r' = clusterSize r /\ currentTerm r' = currentTerm r /\
  votedFor r' = votedFor r /\ state r' = state r /\ step r' = step r /\ tick r' = tick r /\
  votes r' = votes r.

Lemma node_inv_same n s id r r' :
  same_election r r' -> (forall x, x ∈ outbox r' -> x ∈ outbox r) ->
  node_inv n s id r -> node_inv n s id r'.
Proof.
  intros (E1 & E2 & E3 & E4 & E5 & E6 & E7 & E8) Hout [H1 H2 H3 H4 H5 H6 H7].
  split; unfold quorum in *; rewrite ?E1, ?E2, ?E3, ?E5, ?E8; auto.
  destruct H2. split; rewrite ?E1, ?E3, ?E4, ?E5, ?E6, ?E7, ?E8; done.
Qed.

Lemma callReady_same r r' :
  callReady r = Ok (Some r') ->
  same_election r r' /\ forall x, x ∈ outbox r' -> x ∈ outbox r.
Proof.
  unfold callReady. destruct (hasReady r); [|by intros [= <-]].
  intros (rd & Hrd & H)%bind_Ok_inv. unfold makeReady in Hrd.
  apply bind_Ok_inv in Hrd as (es & _ & Hrd). apply bind_Ok_inv in Hrd as (cs & _ & Hrd).
  injection Hrd as <-. cbn in H. destruct (readyc r) eqn:E; [done|]. injection H as <-.
  split; [done|]. intros x. unfold outbox, pending, ready_messages. cbn. rewrite E. cbn.
  by rewrite app_nil_r.
Qed.

Lemma consumeReady_same r rd :
  readyc r = Some rd ->
  same_election r (consumeReady r) /\
  (forall x, x ∈ outbox (consumeReady r) -> x ∈ outbox r) /\
  (forall x, x ∈ ready_messages rd -> x ∈ outbox r).
Proof.
  intros E. unfold consumeReady, Advance, outbox, pending. split; [done|].
  split; intros x; cbn; rewrite E; cbn; rewrite !elem_of_app; [|tauto].
  rewrite elem_of_nil. tauto.
Qed.

Lemma io_step_inv n s id r r' more :
  cluster_inv n s -> nodes s !! id = Some r -> same_election r r' ->
  (forall x, x ∈ outbox r' -> x ∈ outbox r) -> (forall x, x ∈ more -> x ∈ outbox r) ->
  cluster_inv n (mkCluster (<[id := r']> (nodes s)) (net s ++ more)).
Proof.
  intros Hinv Hr Hs Hout Hmore. assert (votedFor r ⊆ votedFor r') as Hv
    by (destruct Hs as (_ & _ & _ & -> & _); done).
  pose proof (update_extends s id r r' more Hr Hv) as He.
  pose proof (ci_nodes _ _ Hinv _ _ Hr) as Hni.
  apply (update_inv n s id r); [done|done|lia|done| |].
  - apply (node_inv_mono n n s); [lia|done|apply (update_size s id r r' more Hr)|].
    by apply (node_inv_same n s id r).
  - intros x Hx. apply (good_message_mono n n s); [lia|done|].
    apply (ni_outbox _ _ _ _ Hni). by apply Hmore.
Qed.

(** ** Every state of a run satisfies the invariant *)

Lemma node_room n s id r :
  cluster_inv n s -> n < 2 ^ 63 - 1 -> nodes s !! id = Some r -> raft_inv r /\ term_room r.
Proof.
  intros Hinv Hn Hr. destruct (ci_nodes _ _ Hinv _ _ Hr) as [_ Hi _ Ht _ _ _].
  split; [done|]. unfold term_room. lia.
Qed.

Lemma cluster_inv_weaken n n' s : n <= n' -> cluster_inv n s -> cluster_inv n' s.
Proof.
  intros Hn [H1 H2]. assert (extends s s) as He by (intros i x Hx; by exists x).
  split.
  - intros id r Hr. apply (node_inv_mono n n' s s); auto.
  - intros x Hx. apply (good_message_mono n n' s s); auto.
Qed.

Lemma cluster_step_inv n s s' :
  0 <= n < 2 ^ 63 - 1 -> cluster_inv n s -> cluster_step s s' -> cluster_inv (n + 1) s'.
Proof.
  intros Hn Hinv Hstep.
  destruct Hstep as [id r m ord r' Hr Hm Hto _ Hs|id r c ord r' Hr _ Hs
                    |id r ord r' Hr _ Ht|id r r' Hr Hc|id r rd Hr Hc];
    destruct (node_room _ _ _ _ Hinv ltac:(lia) Hr) as [Hi Hroom].
  - destruct (ci_net _ _ Hinv _ Hm) as [Hterms Hg].
    apply (local_step_inv n s id r m); auto; [by apply (Step_ok ord)|].
    intros t Ht. rewrite <- Hto. by apply Hg.
  - apply (local_step_inv n s id r (proposal c)); auto; [by apply (Step_ok ord)| |].
    + repeat split; cbn; lia.
    + intros t (v & Hv & _). done.
  - destruct (Tick_ok ord r r' Hi Hroom Ht) as (m & Hnone & Hterms & Hok).
    apply (local_step_inv n s id r m); auto.
    + eapply msg_terms_le_mono; [|done]. apply (ni_term _ _ _ _ (ci_nodes _ _ Hinv _ _ Hr)).
    + intros t (v & Hv & _). congruence.
  - apply (cluster_inv_weaken n); [lia|]. apply callReady_same in Hc as [Hsame Hout].
    rewrite <- (app_nil_r (net s)). apply (io_step_inv n s id r); auto.
    by intros x Hx%not_elem_of_nil.
  - apply (cluster_inv_weaken n); [lia|].
    destruct (consumeReady_same r rd Hc) as (Hsame & Hout & Hmore).
    by apply (io_step_inv n s id r).
Qed.

Lemma filter_others (id : Z) (ids : list Z) :
  id ∉ ids -> filter (fun p => p <> id) ids = ids.
Proof.
  induction ids as [|x ids IH]; [done|]. rewrite not_elem_of_cons. intros [Hne Hin].
  rewrite filter_cons_True by congruence. by rewrite IH.
Qed.

Lemma init_node_inv ids id s :
  NoDup ids -> id ∈ ids -> size (nodes s) = length ids ->
  node_inv 0 s id (init_node ids id).
Proof.
  intros Hnd Hid Hsz. split; try done.
  - split; cbn; try done.
  - unfold init_node, NewRaft. cbn. rewrite Hsz. unfold zlen.
    assert (length ids = S (length (filter (fun p => p <> id) ids))); [|lia].
    clear Hsz. induction Hnd as [|x ids Hx Hnd IH]; [by apply not_elem_of_nil in Hid|].
    rewrite filter_cons. case_decide as Hd; cbn.
    + rewrite <- IH; [done|]. by apply elem_of_cons in Hid as [->|].
    + assert (x = id) as -> by (destruct (decide (x = id)); tauto).
      by rewrite filter_others.
  - intros x Hx%not_elem_of_nil. done.
Qed.

Lemma init_cluster_inv ids : NoDup ids -> cluster_inv 0 (init_cluster ids).
Proof.
  intros Hnd. split; [|intros x Hx%not_elem_of_nil; done].
  intros id r Hr. unfold init_cluster in Hr. cbn in Hr.
  assert (NoDup (((fun id => (id, init_node ids id)) <$> ids).*1)) as Hfst.
  { rewrite <- list_fmap_compose. by rewrite list_fmap_id. }
  apply elem_of_list_to_map_2, list_elem_of_fmap in Hr as (id' & [= -> ->] & Hin).
  apply init_node_inv; [done|done|]. cbn.
  rewrite map_size_list_to_map by done. by rewrite length_fmap.
Qed.

Lemma cluster_run_inv ids n s :
  NoDup ids -> Z.of_nat n < 2 ^ 63 -> nsteps cluster_step n (init_cluster ids) s ->
  cluster_inv (Z.of_nat n) s.
Proof.
  intros Hnd Hn Hrun. revert s Hrun Hn.
  induction n as [|n IH]; intros s Hrun Hn.
  - inversion Hrun; subst. by apply init_cluster_inv.
  - apply nsteps_inv_r in Hrun as (s1 & Hrun & Hstep).
    replace (Z.of_nat (S n)) with (Z.of_nat n + 1) by lia.
    apply (cluster_step_inv (Z.of_nat n) s1); [lia| |done].
    apply IH; [done|lia].
Qed.

(** ** No node panics *)

Definition node_safe (r : Raft) : Prop :=
  safe r /\ forall rd, readyc r = Some rd -> forall x, x ∈ ready_messages rd -> msg_safe x.

Definition cluster_safe (s : cluster) : Prop :=
  (forall id r, nodes s !! id = Some r -> node_safe r) /\ (forall x, x ∈ net s -> msg_safe x).

Lemma cluster_safe_update s id r' more :
  cluster_safe s -> node_safe r' -> (forall x, x ∈ more -> msg_safe x) ->
  cluster_safe (mkCluster (<[id := r']> (nodes s)) (net s ++ more)).
Proof.
  intros [Hn Hm] Hr Hmore. split.
  - intros i x. cbn. rewrite lookup_insert. case_decide; [by intros [= <-]|]. apply Hn.
  - intros x [Hx|Hx]%elem_of_app; auto.
Qed.

Lemma cluster_safe_node s id r' :
  cluster_safe s -> node_safe r' -> cluster_safe (mkCluster (<[id := r']> (nodes s)) (net s)).
Proof.
  intros Hs Hr. rewrite <- (app_nil_r (net s)).
  apply cluster_safe_update; [done|done|]. by intros x Hx%not_elem_of_nil.
Qed.

Lemma node_safe_kept r r' : node_safe r -> readyc r' = readyc r -> safe r' -> node_safe r'.
Proof. intros [_ H] E Hs. split; [done|]. by rewrite E. Qed.

Lemma proposal_safe c : msg_safe (proposal c).
Proof.
  cbn. intros i e He. apply list_lookup_singleton_Some in He as [-> <-]. cbn. lia.
Qed.

Lemma consumeReady_safe r : node_safe r -> node_safe (consumeReady r).
Proof.
  intros [Hs _]. split; [|done]. apply Advance_safe. destruct Hs as [H1 H2 H3]. by split.
Qed.

Lemma cluster_safe_step n s s' :
  0 <= n < 2 ^ 63 - 1 -> cluster_inv n s -> cluster_safe s -> cluster_step s s' -> cluster_safe s'.
Proof.
  intros Hn Hinv Hsafe Hstep. pose proof Hsafe as [Hnodes Hnet].
  assert (Hmsg : forall id r m ord r', nodes s !! id = Some r -> msg_safe m ->
    range_order r ord -> Step ord m r = Ok r' -> node_safe r').
  { intros id r m ord r' Hr Hm Ho H. destruct (node_room _ _ _ _ Hinv ltac:(lia) Hr) as [Hi Hroom].
    pose proof (Step_ok _ _ _ _ Hi Hroom H) as Hok.
    destruct (Step_total ord m r Hi (proj1 (Hnodes _ _ Hr)) Hm Ho) as (r1 & E & Hs).
    assert (r1 = r') as -> by congruence.
    apply (node_safe_kept r); [by apply (Hnodes id)|apply Hok|done]. }
  destruct Hstep as [id r m ord r' Hr Hm Hto Ho Hs|id r c ord r' Hr Ho Hs
                    |id r ord r' Hr Ho Ht|id r r' Hr Hc|id r rd Hr Hc].
  - apply cluster_safe_node; [done|]. by apply (Hmsg id r m ord); auto.
  - apply cluster_safe_node; [done|]. apply (Hmsg id r (proposal c) ord); auto using proposal_safe.
  - apply cluster_safe_node; [done|]. destruct (node_room _ _ _ _ Hinv ltac:(lia) Hr) as [Hi Hroom].
    destruct (Tick_ok _ _ _ Hi Hroom Ht) as (m & _ & _ & Hok).
    destruct (Tick_total ord r Hi (proj1 (Hnodes _ _ Hr)) Ho) as (r1 & E & Hs).
    assert (r1 = r') as -> by congruence.
    apply (node_safe_kept r); [by apply (Hnodes id)|apply Hok|done].
  - apply cluster_safe_node; [done|]. destruct (Hnodes _ _ Hr) as [Hs Hrd].
    destruct (callReady_total r Hs) as (o & E & Ho). assert (o = Some r') as -> by congruence.
    destruct (Ho r' eq_refl) as [Hs' [Erc|(rd & Erc & Em)]].
    + by apply (node_safe_kept r).
    + split; [done|]. intros rd' Hrd' x Hx. assert (rd' = rd) as -> by congruence.
      unfold ready_messages in Hx. rewrite Em in Hx. by apply Hs.
  - apply cluster_safe_update; [done|by apply consumeReady_safe, (Hnodes id)|].
    by apply (Hnodes id r Hr).
Qed.

Lemma init_node_safe ids id : node_safe (init_node ids id).
Proof.
  split; [split|]; [|done| |done].
  - split; [|done..]. intros i e He. cbn in He. by rewrite lookup_nil in He.
  - intros x Hx. by apply not_elem_of_nil in Hx.
Qed.

Lemma init_cluster_safe ids : cluster_safe (init_cluster ids).
Proof.
  split; [|by intros x Hx%not_elem_of_nil]. intros id r Hr. cbn in Hr.
  apply elem_of_list_to_map_2, list_elem_of_fmap in Hr as (id' & [= -> ->] & _).
  apply init_node_safe.
Qed.

Lemma cluster_run_safe ids n s :
  NoDup ids -> Z.of_nat n < 2 ^ 63 -> nsteps cluster_step n (init_cluster ids) s ->
  cluster_safe s.
Proof.
  intros Hnd Hn Hrun. revert s Hrun Hn.
  induction n as [|n IH]; intros s Hrun Hn.
  - inversion Hrun; subst. apply init_cluster_safe.
  - apply nsteps_inv_r in Hrun as (s1 & Hrun & Hstep).
    apply (cluster_safe_step (Z.of_nat n) s1); [lia| |apply IH; [done|lia]|done].
    apply (cluster_run_inv ids); [done|lia|done].
Qed.

(** ** Quorums intersect *)

Definition granted (v : gmap Z bool) : gset Z := dom (filter (fun p : Z * bool => p.2 = true) v).

Lemma elem_of_granted v p : p ∈ granted v <-> v !! p = Some true.
Proof.
  unfold granted. rewrite elem_of_dom. split.
  - intros [b Hb]. apply map_lookup_filter_Some in Hb as [Hb E]. cbn in E. congruence.
  - intros H. exists true. by apply map_lookup_filter_Some.
Qed.

Lemma countGranted_size v : countGranted v = Z.of_nat (size (granted v)).
Proof. unfold countGranted, granted. by rewrite size_dom. Qed.

Lemma supported_members s c t v : supported s c t v -> granted v ⊆ dom (nodes s).
Proof.
  intros H p Hp%elem_of_granted. destruct (H p Hp) as (r & Hr & _). by eapply elem_of_dom_2.
Qed.

(** Two sets of more than half the members share one. *)
Lemma majorities_meet (X Y U : gset Z) :
  X ⊆ U -> Y ⊆ U -> (size U < size X + size Y)%nat -> exists p, p ∈ X /\ p ∈ Y.
Proof.
  intros HX HY Hsz. destruct (decide (X ∩ Y = ∅)) as [E|E].
  - exfalso. assert (X ∪ Y ⊆ U) as Hle%subseteq_size by (apply union_least; done).
    rewrite size_union in Hle; [lia|]. apply disjoint_intersection_L, E.
  - apply set_choose_L in E as [p Hp]. exists p. set_solver.
Qed.

(** ** Running a cluster on a list of actions *)

Inductive action :=
  | Deliver (i : nat)
  | Propose (id : Z) (c : Cmd)
  | TickAt (id : Z)
  | ReadyAt (id : Z)
  | SendAt (id : Z).

Definition ok_option {A} (m : outcome A) : option A :=
  match m with Ok a => Some a | _ => None end.

Definition exec (a : action) (s : cluster) : option cluster :=
  let set id r := mkCluster (<[id := r]> (nodes s)) (net s) in
  match a with
  | Deliver i =>
      m ← net s !! i; r ← nodes s !! msg_To m;
      set (msg_To m) <$> ok_option (Step (elements (peers r)) m r)
  | Propose id c =>
      r ← nodes s !! id; set id <$> ok_option (Step (elements (peers r)) (proposal c) r)
  | TickAt id => r ← nodes s !! id; set id <$> ok_option (Tick (elements (peers r)) r)
  | ReadyAt id => r ← nodes s !! id; r' ← ok_option (callReady r); set id <$> r'
  | SendAt id =>
      r ← nodes s !! id; rd ← readyc r;
      Some (mkCluster (<[id := consumeReady r]> (nodes s)) (net s ++ ready_messages rd))
  end.

Fixpoint exec_all (acts : list action) (s : cluster) : option cluster :=
  match acts with
  | [] => Some s
  | a :: acts => s ← exec a s; exec_all acts s
  end.

Lemma ok_option_Some {A} (m : outcome A) a : ok_option m = Some a -> m = Ok a.
Proof. destruct m; [by intros [= ->]|done|done]. Qed.

Lemma exec_sound a s s' : exec a s = Some s' -> cluster_step s s'.
Proof.
  destruct a as [i|id c|id|id|id]; cbn; intros H.
  - apply bind_Some in H as (m & Hm & (r & Hr & (r' & Hs & ->)%fmap_Some)%bind_Some).
    apply ok_option_Some in Hs.
    by apply (cs_deliver s _ r m (elements (peers r)));
      [|eapply list_elem_of_lookup_2| |apply default_order|].
  - apply bind_Some in H as (r & Hr & (r' & Hs%ok_option_Some & ->)%fmap_Some).
    by apply (cs_propose s id r c (elements (peers r))); [|apply default_order|].
  - apply bind_Some in H as (r & Hr & (r' & Hs%ok_option_Some & ->)%fmap_Some).
    by apply (cs_tick s id r (elements (peers r))); [|apply default_order|].
  - apply bind_Some in H as (r & Hr & (ro & Hs%ok_option_Some & (r' & -> & ->)%fmap_Some)%bind_Some).
    by apply (cs_ready s id r).
  - apply bind_Some in H as (r & Hr & (rd & Hrd & [= <-])%bind_Some).
    by apply (cs_send s id r rd).
Qed.

Lemma exec_all_sound acts s s' :
  exec_all acts s = Some s' -> nsteps cluster_step (length acts) s s'.
Proof.
  revert s. induction acts as [|a acts IH]; cbn; intros s.
  - intros [= ->]. constructor.
  - intros (s1 & Ha & H)%bind_Some. apply (nsteps_l _ _ _ s1); [by apply (exec_sound a)|by apply IH].
Qed.

(** Three nodes elect node 1 and hold the votes that made it leader. *)
Definition election_run : list action :=
  repeat (TickAt 1) 9 ++ [ReadyAt 1; SendAt 1] ++
  [Deliver 0; Deliver 1; ReadyAt 2; SendAt 2; ReadyAt 3; SendAt 3; Deliver 2; Deliver 3].

Definition elected : cluster :=
  default (init_cluster []) (exec_all election_run (init_cluster [1; 2; 3])).

Example elected_leader :
  exists r, nodes elected !! 1 = Some r /\ state r = StateLeader /\ currentTerm r = 1.
Proof. vm_compute. eauto. Qed.

Lemma elected_run :
  nsteps cluster_step (length election_run) (init_cluster [1; 2; 3]) elected.
Proof. apply exec_all_sound. vm_compute. reflexivity. Qed.

Lemma nodup_123 : NoDup [1; 2; 3].
Proof. apply (bool_decide_unpack _). vm_compute. exact I. Qed.

(** ** Election safety *)

(** A leader was voted for by a majority of the members. *)
Lemma leader_quorum n s id r :
  cluster_inv n s -> nodes s !! id = Some r -> state r = StateLeader ->
  exists X : gset Z, X ⊆ dom (nodes s) /\ Z.of_nat (size (dom (nodes s))) < 2 * Z.of_nat (size X) /\
    forall p, p ∈ X -> voted_for s p (currentTerm r) id.
Proof.
  intros Hinv Hr Hl. destruct (ci_nodes _ _ Hinv _ _ Hr) as [_ _ Hsz _ _ _ Hlead].
  destruct (Hlead Hl) as (v & Hq & Hs). exists (granted v). split_and!.
  - by eapply supported_members.
  - rewrite size_dom. unfold quorum in Hq. rewrite countGranted_size, Hsz in Hq.
    rewrite Z.quot_div_nonneg in Hq by lia.
    pose proof (Z.div_mod (Z.of_nat (size (nodes s))) 2 ltac:(lia)).
    pose proof (Z.mod_pos_bound (Z.of_nat (size (nodes s))) 2 ltac:(lia)). lia.
  - intros p Hp%elem_of_granted. by apply Hs.
Qed.

Lemma one_leader n s id1 id2 r1 r2 :
  cluster_inv n s -> nodes s !! id1 = Some r1 -> nodes s !! id2 = Some r2 ->
  state r1 = StateLeader -> state r2 = StateLeader -> currentTerm r1 = currentTerm r2 -> id1 = id2.
Proof.
  intros Hinv Hr1 Hr2 Hl1 Hl2 Ht.
  destruct (leader_quorum _ _ _ _ Hinv Hr1 Hl1) as (X & HX & HXsz & HXv).
  destruct (leader_quorum _ _ _ _ Hinv Hr2 Hl2) as (Y & HY & HYsz & HYv).
  destruct (majorities_meet X Y (dom (nodes s)) HX HY ltac:(lia)) as (p & Hp1 & Hp2).
  destruct (HXv p Hp1) as (q1 & Hq1 & Hv1). destruct (HYv p Hp2) as (q2 & Hq2 & Hv2). congruence.
Qed.

(** C1: election safety.  In every state a cluster of distinct nodes reaches
    from start-up (no node restarting), whatever the interleaving of ticks,
    proposals, I/O and deliveries (lost, repeated and reordered messages
    included), two leaders of the same term are the same node. *)
Theorem election_safety ids n s id1 id2 r1 r2 :
  NoDup ids -> Z.of_nat n < 2 ^ 63 -> nsteps cluster_step n (init_cluster ids) s ->
  nodes s !! id1 = Some r1 -> nodes s !! id2 = Some r2 ->
  state r1 = StateLeader -> state r2 = StateLeader ->
  currentTerm r1 = currentTerm r2 -> id1 = id2.
Proof. intros Hnd Hn Hrun. apply (one_leader (Z.of_nat n)). by apply (cluster_run_inv ids). Qed.

Lemma election_safety_witness :
  NoDup [1; 2; 3] /\ Z.of_nat (length election_run) < 2 ^ 63 /\
  nsteps cluster_step (length election_run) (init_cluster [1; 2; 3]) elected /\
  exists r, nodes elected !! 1 = Some r /\ state r = StateLeader /\ currentTerm r = 1 /\
    forall id2 r2, nodes elected !! id2 = Some r2 -> state r2 = StateLeader ->
      currentTerm r2 = 1 -> 1 = id2.
Proof.
  split; [exact nodup_123|]. split; [vm_compute; reflexivity|]. split; [exact elected_run|].
  destruct elected_leader as (r & Hr & Hl & Ht). exists r.
  split; [exact Hr|]. split; [exact Hl|]. split; [exact Ht|].
  intros id2 r2 Hr2 Hl2 Ht2.
  refine (election_safety [1; 2; 3] (length election_run) elected 1 id2 r r2 nodup_123 _ elected_run Hr Hr2 Hl Hl2 _).
  - vm_compute. reflexivity.
  - congruence.
Defined.

(** C18: no call into the state machine panics, and none returns an error.  In
    every state a cluster of distinct nodes reaches, the delivery of any
    message on the network to any node, a client's proposal, a tick and a
    [Ready()] all return: the [nil] step function, the write into a [nil]
    votes map and the reads of [entries] out of range do not happen. *)
Theorem cluster_no_panic ids n s id r ord :
  NoDup ids -> Z.of_nat n < 2 ^ 63 - 1 -> nsteps cluster_step n (init_cluster ids) s ->
  nodes s !! id = Some r -> range_order r ord ->
  (forall m, m ∈ net s -> exists r', Step ord m r = Ok r') /\
  (forall c, exists r', Step ord (proposal c) r = Ok r') /\
  (exists r', Tick ord r = Ok r') /\ (exists o, callReady r = Ok o).
Proof.
  intros Hnd Hn Hrun Hr Ho.
  pose proof (cluster_run_inv ids n s Hnd ltac:(lia) Hrun) as Hinv.
  destruct (cluster_run_safe ids n s Hnd ltac:(lia) Hrun) as [Hnodes Hnet].
  destruct (node_room (Z.of_nat n) s id r Hinv ltac:(lia) Hr) as [Hi _]. destruct (Hnodes _ _ Hr) as [Hs _].
  split_and!.
  - intros m Hm. destruct (Step_total ord m r) as (r' & ? & _); auto. by exists r'.
  - intros c. destruct (Step_total ord (proposal c) r) as (r' & ? & _);
      auto using proposal_safe. by exists r'.
  - destruct (Tick_total ord r) as (r' & ? & _); auto. by exists r'.
  - destruct (callReady_total r Hs) as (o & ? & _). by exists o.
Qed.

Lemma cluster_no_panic_witness :
  exists r, nodes elected !! 1 = Some r /\ state r = StateLeader /\
  forall m, m ∈ net elected -> exists r', Step (elements (peers r)) m r = Ok r'.
Proof.
  destruct elected_leader as (r & Hr & Hl & Ht). exists r.
  split; [exact Hr|]. split; [exact Hl|].
  refine (proj1 (cluster_no_panic [1; 2; 3] (length election_run) elected 1 r
    (elements (peers r)) nodup_123 _ elected_run Hr (default_order r))).
  vm_compute. reflexivity.
Defined.

(** ** The shape of a node's state *)

Lemma init_size ids : NoDup ids -> size (nodes (init_cluster ids)) = length ids.
Proof.
  intros Hnd. unfold init_cluster. cbn. rewrite map_size_list_to_map; [by rewrite length_fmap|].
  rewrite <- list_fmap_compose. by rewrite list_fmap_id.
Qed.

Lemma cluster_step_size s s' : cluster_step s s' -> size (nodes s') = size (nodes s).
Proof.
  assert (Hins : forall id (r r' : Raft), nodes s !! id = Some r -> size (<[id := r']> (nodes s)) = size (nodes s)).
  { intros id r r' Hr. rewrite map_size_insert. by rewrite Hr. }
  destruct 1; cbn; by eapply Hins.
Qed.

Lemma cluster_run_size ids n s :
  NoDup ids -> nsteps cluster_step n (init_cluster ids) s -> size (nodes s) = length ids.
Proof.
  intros Hnd Hrun. rewrite <- init_size by done. revert Hrun. generalize (init_cluster ids). intros s0.
  induction 1 as [|n s1 s2 s3 Hs _ IH]; [done|]. rewrite IH. by apply cluster_step_size.
Qed.

(** C25: the state of a node is well typed in every reachable cluster: it keeps
    its id and the size of the cluster, the functions in [step] and [tick] are
    those of its role (never nil, never another role's), there is a vote map
    exactly while it is a candidate, it has no vote of a later term, and a
    candidate or leader has voted for itself in its term. *)
Theorem cluster_well_typed ids n s id r :
  NoDup ids -> Z.of_nat n < 2 ^ 63 -> nsteps cluster_step n (init_cluster ids) s -> nodes s !! id = Some r ->
  ID r = id /\ clusterSize r = zlen ids /\ 0 <= currentTerm r <= Z.of_nat n /\
  step r = Some (state r) /\ tick r = Some (state r) /\
  (is_Some (votes r) <-> state r = StateCandidate) /\
  (forall t c, votedFor r !! t = Some c -> t <= currentTerm r) /\
  (state r <> StateFollower -> votedFor r !! currentTerm r = Some id).
Proof.
  intros Hnd Hn Hrun Hr. destruct (cluster_run_inv ids n s Hnd Hn Hrun) as [Hnodes _].
  destruct (Hnodes _ _ Hr) as [E Hi Hsz Ht _ _ _]. rewrite (cluster_run_size ids n s Hnd Hrun) in Hsz.
  destruct Hi. rewrite E in *. by split_and!.
Qed.

Lemma cluster_well_typed_witness :
  exists r, nodes elected !! 1 = Some r /\ state r = StateLeader /\ tick r = Some StateLeader /\
    clusterSize r = 3 /\ votedFor r !! 1 = Some 1.
Proof.
  destruct elected_leader as (r & Hr & Hl & Ht). exists r. split; [exact Hr|]. split; [exact Hl|].
  destruct (cluster_well_typed [1; 2; 3] (length election_run) elected 1 r nodup_123 ltac:(vm_compute; reflexivity)
    elected_run Hr) as (_ & Hsz & _ & _ & Htk & _ & _ & Hv).
  split; [rewrite Htk, Hl; reflexivity|]. split; [exact Hsz|]. rewrite Ht in Hv. apply Hv. rewrite Hl. discriminate.
Defined.

(** ** What replication does not give

    Three runs without a lost, repeated or reordered message. *)

Definition cmd_a : Cmd := put_cmd "a" "1" 7.
Definition cmd_b : Cmd := put_cmd "b" "2" 8.

(** Run [acts] from the elected cluster. *)
Definition after (acts : list action) : cluster :=
  default (init_cluster []) (exec_all acts elected).

Lemma exec_all_app acts1 acts2 s s1 :
  exec_all acts1 s = Some s1 -> exec_all (acts1 ++ acts2) s = exec_all acts2 s1.
Proof.
  revert s. induction acts1 as [|a acts1 IH]; cbn; intros s.
  - by intros [= ->].
  - intros (s' & -> & H)%bind_Some. by apply IH.
Qed.

Lemma after_run acts :
  is_Some (exec_all acts elected) ->
  nsteps cluster_step (length (election_run ++ acts)) (init_cluster [1; 2; 3]) (after acts).
Proof.
  intros [s H]. apply exec_all_sound. rewrite (exec_all_app _ _ _ elected).
  - unfold after. by rewrite H.
  - unfold elected. vm_compute. reflexivity.
Qed.

(** Two proposals before the first acknowledgement; one follower's answers and
    one heartbeat. *)
Definition pipelined_run : list action :=
  [Propose 1 cmd_a; Propose 1 cmd_b; ReadyAt 1; SendAt 1; Deliver 5; Deliver 7;
   ReadyAt 2; SendAt 2; Deliver 8; ReadyAt 1; SendAt 1; TickAt 1; ReadyAt 1; SendAt 1; Deliver 11;
   ReadyAt 2].

(** The commands a node has handed out as committed. *)
Definition committed_commands (r : Raft) : list (option Cmd) :=
  log_Data <$> entries_between (r_raftLog r) 0 (rl_commitIndex (r_raftLog r)).

(** State-machine safety does not hold.  The leader of three nodes takes
    two proposals before a follower answers the first; every message arrives
    once and in order.  The follower's log then holds the first entry twice,
    and both nodes commit two entries: the leader its two, the follower the
    first one twice. *)
Theorem committed_logs_diverge :
  exists n s r1 r2,
    nsteps cluster_step n (init_cluster [1; 2; 3]) s /\
    nodes s !! 1 = Some r1 /\ nodes s !! 2 = Some r2 /\ currentTerm r1 = currentTerm r2 /\
    rl_commitIndex (r_raftLog r1) = 2 /\ rl_commitIndex (r_raftLog r2) = 2 /\
    committed_commands r1 = [Some cmd_a; Some cmd_b] /\
    committed_commands r2 = [Some cmd_a; Some cmd_a].
Proof.
  eexists _, (after pipelined_run), _, _.
  split; [apply after_run; vm_compute; by eexists|]. vm_compute. split_and!; reflexivity.
Qed.

(** The acknowledgement of the first entry arrives after the leader has
    appended, and not yet sent, the second. *)
Definition early_ack_run : list action :=
  [Propose 1 cmd_a; ReadyAt 1; SendAt 1; Deliver 5; ReadyAt 2; SendAt 2;
   Propose 1 cmd_b; Deliver 6].

(** A leader commits entries that no other node has: any positive answer
    counts as an acknowledgement of the leader's whole log ([matchIndex] is set
    to the leader's last index), so the second of two entries is committed
    although it was never sent. *)
Theorem commit_without_majority :
  exists n s r1,
    nsteps cluster_step n (init_cluster [1; 2; 3]) s /\
    nodes s !! 1 = Some r1 /\ committed_commands r1 = [Some cmd_a; Some cmd_b] /\
    (forall x es, x ∈ net s -> GetEntries (msg_Entries x) = es -> Some cmd_b ∉ log_Data <$> es) /\
    (forall id r, nodes s !! id = Some r -> id <> 1 -> Some cmd_b ∉ log_Data <$> rl_entries (r_raftLog r)).
Proof.
  eexists _, (after early_ack_run), _.
  split; [apply after_run; vm_compute; by eexists|]. split; [vm_compute; reflexivity|].
  split; [vm_compute; reflexivity|]. split.
  - assert (H : forallb (fun x => bool_decide (Some cmd_b ∉ log_Data <$> GetEntries (msg_Entries x)))
      (net (after early_ack_run)) = true) by (vm_compute; reflexivity).
    intros x es Hx <-. rewrite forallb_forall in H. apply list_elem_of_In, H in Hx.
    by apply bool_decide_eq_true in Hx.
  - assert (H : map_Forall (fun id r => bool_decide (id <> 1 ->
        Some cmd_b ∉ log_Data <$> rl_entries (r_raftLog r)) = true)
      (nodes (after early_ack_run))) by (apply (bool_decide_unpack _); vm_compute; exact I).
    intros id r Hr. apply H in Hr. by apply bool_decide_eq_true in Hr.
Qed.

(** A node stops and starts again: [bootstrapRaftNode] builds its state
    machine with [NewRaft]. *)
Definition restart (ids : list Z) (id : Z) (s : cluster) : cluster :=
  mkCluster (<[id := init_node ids id]> (nodes s)) (net s).

(** Node 3 was only delivered the messages of its own election. *)
Definition first_election : list action :=
  repeat (TickAt 1) 9 ++ [ReadyAt 1; SendAt 1; Deliver 1; ReadyAt 2; SendAt 2; Deliver 2].
Definition second_election : list action :=
  repeat (TickAt 3) 7 ++ [ReadyAt 3; SendAt 3; Deliver 3; Deliver 4; ReadyAt 2; SendAt 2; Deliver 5].

(** One restart is enough for two leaders in one term: the votes a node
    gave are not restored when it starts, so it votes again. *)
Theorem restart_breaks_election_safety :
  exists n1 n2 s1 s2 r1 r3,
    nsteps cluster_step n1 (init_cluster [1; 2; 3]) s1 /\
    nsteps cluster_step n2 (restart [1; 2; 3] 2 s1) s2 /\
    nodes s2 !! 1 = Some r1 /\ nodes s2 !! 3 = Some r3 /\
    state r1 = StateLeader /\ state r3 = StateLeader /\ currentTerm r1 = 1 /\ currentTerm r3 = 1.
Proof.
  exists (length first_election), (length second_election),
    (default (init_cluster []) (exec_all first_election (init_cluster [1; 2; 3]))),
    (default (init_cluster []) (exec_all second_election
      (restart [1; 2; 3] 2 (default (init_cluster []) (exec_all first_election (init_cluster [1; 2; 3])))))).
  eexists _, _. split; [apply exec_all_sound; vm_compute; reflexivity|].
  split; [apply exec_all_sound; vm_compute; reflexivity|].
  vm_compute. split_and!; reflexivity.
Qed.
