(* ===== verification/Steady.v ===== *)
(** * Replication under one leader, one proposal at a time

    Log replication of [repl/sm.go] is not safe in general ([Cluster] has the
    runs).  This file says when it is: while one leader stays, the network
    delivers no message twice, and a client proposes only when every append
    message of the leader was answered.  Messages may be lost and overtake each
    other, followers may be behind, and every node takes its [Ready]s when it
    likes.  Here are the steps, the invariant, and that every step keeps it. *)
From S2P Require Import Prelude Proto RaftLog Raft Election Replication Cluster.

Local Open Scope Z_scope.

(** ** Messages under way *)

(** The messages in the network, and those that still sit in a node. *)
Definition flight (s : cluster) : list Message :=
  net s ++ (map_to_list (nodes s) ≫= fun kv => outbox kv.2).

(** An append message with entries to [p], or an answer of [p]. *)
Definition concerns (p : Z) (m : Message) : Prop :=
  (msg_Type m = MSG_APP /\ msg_To m = p /\ GetEntries (msg_Entries m) <> []) \/
  (msg_Type m = MSG_APP_RESP /\ msg_From m = p).

#[global] Instance concerns_dec p m : Decision (concerns p m).
Proof. unfold concerns. apply _. Defined.

Definition exchange (p : Z) (f : list Message) : list Message := filter (concerns p) f.

(** Every append message was answered, and the leader has had the answers. *)
Definition answered (L : Z) (s : cluster) : Prop :=
  forall p, p <> L -> p ∈ dom (nodes s) -> exchange p (flight s) = [].

(** ** The steps *)

Inductive steady_step (L : Z) (s : cluster) : cluster -> Prop :=
  | ss_deliver pre m post r ord r' :
      net s = pre ++ m :: post -> nodes s !! msg_To m = Some r -> range_order r ord ->
      Step ord m r = Ok r' ->
      steady_step L s (mkCluster (<[msg_To m := r']> (nodes s)) (pre ++ post))
  | ss_propose r c ord r' :
      nodes s !! L = Some r -> answered L s -> range_order r ord -> Step ord (proposal c) r = Ok r' ->
      steady_step L s (mkCluster (<[L := r']> (nodes s)) (net s))
  | ss_tick id r ord r' :
      nodes s !! id = Some r -> (id <> L -> electionTick r + 1 < randomizedTimeout r) ->
      range_order r ord -> Tick ord r = Ok r' ->
      steady_step L s (mkCluster (<[id := r']> (nodes s)) (net s))
  | ss_ready id r r' :
      nodes s !! id = Some r -> callReady r = Ok (Some r') ->
      steady_step L s (mkCluster (<[id := r']> (nodes s)) (net s))
  | ss_send id r rd :
      nodes s !! id = Some r -> readyc r = Some rd ->
      steady_step L s (mkCluster (<[id := consumeReady r]> (nodes s)) (net s ++ ready_messages rd)).

(** ** The invariant *)

(** The term of the entry at index [i]; 0 where there is none. *)
Definition term_at (l : raftLog) (i : Z) : Z :=
  from_option log_Term 0 (if 0 <? i then rl_entries l !! Z.to_nat (i - 1) else None).

(** The append message after index [prev], and an answer. *)
Definition suffix (L t p : Z) (l : raftLog) (prev c : Z) : Message :=
  mkMessage MSG_APP p L None None
    (Some (mkAppendEntries t L prev (term_at l prev) (drop (Z.to_nat prev) (rl_entries l)) c)) None.

Definition answer (L t p : Z) (b : bool) : Message :=
  mkMessage MSG_APP_RESP L p None None None (Some (mkAppendEntriesResponse t b)).

(** Between the leader, whose log is [l], and a follower, whose log is [lp] and
    progress [pr], at most one append message or answer is under way. *)
Inductive link (L t p : Z) (l lp : raftLog) (pr : Progress) : list Message -> Prop :=
  | link_idle :
      lastIndex lp < nextIndex pr <= lastIndex l + 1 -> link L t p l lp pr []
  | link_sent c :
      lastIndex lp <= nextIndex pr - 1 < lastIndex l -> c <= rl_commitIndex l ->
      link L t p l lp pr [suffix L t p l (nextIndex pr - 1) c]
  | link_acked :
      lastIndex lp = lastIndex l -> 1 <= nextIndex pr -> link L t p l lp pr [answer L t p true]
  | link_refused :
      lastIndex lp + 1 < nextIndex pr <= lastIndex l + 1 -> link L t p l lp pr [answer L t p false].

(** A heartbeat: [r] has the entry it names, so that it is not refused. *)
Definition beat_ok (t : Z) (l : raftLog) (r : Raft) (m : Message) : Prop :=
  forall ae, msg_Entries m = Some ae -> ae_Entries ae = [] ->
    ae_Term ae = t /\ ae_PrevLogIdx ae <= lastIndex (r_raftLog r) /\
    ae_PrevLogTerm ae = term_at l (ae_PrevLogIdx ae) /\ ae_LeaderCommitIdx ae <= rl_commitIndex l.

(** What may be under way; [MSG_HEARTBEAT] and a vote without a request are
    triggers inside a node. *)
Definition calm (L t : Z) (l : raftLog) (ns : gmap Z Raft) (m : Message) : Prop :=
  msg_terms_le t m /\
  match msg_Type m with
  | MSG_VOTE => msg_Vote m <> None
  | MSG_VOTE_RESP => True
  | MSG_APP => msg_To m <> L /\ forall r, ns !! msg_To m = Some r -> beat_ok t l r m
  | MSG_APP_RESP => msg_To m = L /\ msg_From m <> L /\ msg_From m ∈ dom ns
  | _ => False
  end.

Definition in_role (r : Raft) (x : State) : Prop :=
  state r = x /\ step r = Some x /\ tick r = Some x.

(** The nodes whose log reaches index [i]. *)
Definition holders (ns : gmap Z Raft) (i : Z) : gmap Z Raft :=
  filter (fun kv : Z * Raft => i <= lastIndex (r_raftLog kv.2)) ns.

Record leader_ok (L t : Z) (ns : gmap Z Raft) (r : Raft) : Prop := {
  lo_ID : ID r = L;
  lo_role : in_role r StateLeader;
  lo_term : currentTerm r = t;
  lo_log : wf_log (r_raftLog r);
  lo_peers : peers r = dom ns ∖ {[L]};
  lo_progress : dom (progress r) ⊆ peers r;
  lo_size : clusterSize r = Z.of_nat (size ns);
  lo_commit i : 1 <= i <= rl_commitIndex (r_raftLog r) -> quorum r <= Z.of_nat (size (holders ns i));
}.

Record follower_ok (t p : Z) (l : raftLog) (pr : Progress) (r : Raft) : Prop := {
  fo_ID : ID r = p;
  fo_role : in_role r StateFollower;
  fo_term : currentTerm r <= t;
  fo_log : wf_log (r_raftLog r);
  fo_prefix : rl_entries (r_raftLog r) `prefix_of` rl_entries l;
  fo_commit : rl_commitIndex (r_raftLog r) <= rl_commitIndex l;
  fo_match : 0 <= matchIndex pr <= lastIndex (r_raftLog r);
}.

Record steady_at (L t : Z) (ns : gmap Z Raft) (f : list Message) (rL : Raft) : Prop := {
  sa_lookup : ns !! L = Some rL;
  sa_leader : leader_ok L t ns rL;
  sa_follower p r : p <> L -> ns !! p = Some r ->
    follower_ok t p (r_raftLog rL) (getProgress (progress rL) p) r;
  sa_link p r : p <> L -> ns !! p = Some r ->
    link L t p (r_raftLog rL) (r_raftLog r) (getProgress (progress rL) p) (exchange p f);
  sa_calm m : m ∈ f -> calm L t (r_raftLog rL) ns m;
}.

(** [L] leads in term [t], and the others follow it. *)
Definition steady (L t : Z) (s : cluster) : Prop :=
  exists rL, steady_at L t (nodes s) (flight s) rL.

(** ** Messages under way, as a multiset *)

#[global] Instance exchange_perm p : Proper ((≡ₚ) ==> (≡ₚ)) (exchange p).
Proof. intros f f' H. unfold exchange. by rewrite H. Qed.

Lemma exchange_app p f f' : exchange p (f ++ f') = exchange p f ++ exchange p f'.
Proof. apply filter_app. Qed.

Lemma exchange_none p f : (forall m, m ∈ f -> ~ concerns p m) -> exchange p f = [].
Proof. apply filter_none. Qed.

(** At most one message: the order of the others does not matter. *)
Lemma link_perm L t p l lp pr f f' : f ≡ₚ f' -> link L t p l lp pr f -> link L t p l lp pr f'.
Proof.
  intros Hp Hl. inversion Hl; subst;
    (apply Permutation_nil_l in Hp || apply Permutation_singleton_l in Hp); subst; by constructor.
Qed.

(** A node apart from the others. *)
Lemma flight_split s id r :
  nodes s !! id = Some r ->
  exists rest, flight s ≡ₚ net s ++ outbox r ++ rest /\
    forall r' net', flight (mkCluster (<[id := r']> (nodes s)) net') ≡ₚ net' ++ outbox r' ++ rest.
Proof.
  intros Hr. destruct (map_bind_split (nodes s) id r outbox Hr) as (rest & E & E').
  exists rest. unfold flight. cbn [nodes net]. split; [by rewrite E|]. intros r' net'. by rewrite E'.
Qed.

(** The message [m] left the network, [more] joined it, and [r'] queued [new]. *)
Lemma flight_step s id r r' f new :
  nodes s !! id = Some r -> outbox r' ≡ₚ new ++ outbox r -> f ≡ₚ flight s ->
  flight (mkCluster (<[id := r']> (nodes s)) (net s)) ≡ₚ new ++ f.
Proof.
  intros Hr Hn ->. destruct (flight_split s id r Hr) as (rest & -> & ->). rewrite Hn.
  rewrite <- !app_assoc. by rewrite (Permutation_app_swap_app (net s) new).
Qed.

Lemma outbox_eq r r' : pending r' ≡ₚ pending r -> readyc r' = readyc r -> outbox r' ≡ₚ outbox r.
Proof. unfold outbox. by intros -> ->. Qed.

Lemma outbox_send r r' ms :
  pending r' ≡ₚ ms ++ pending r -> readyc r' = readyc r -> outbox r' ≡ₚ ms ++ outbox r.
Proof. unfold outbox. intros -> ->. by rewrite app_assoc. Qed.

Lemma pending_set_msgs r ms : pending (set_msgs (msgs r ++ ms) r) ≡ₚ ms ++ pending r.
Proof. unfold pending. cbn. rewrite <- app_assoc. apply Permutation_app_swap_app. Qed.

Lemma pending_set_after r ms :
  pending (set_msgsAfterAppend (msgsAfterAppend r ++ ms) r) ≡ₚ ms ++ pending r.
Proof. unfold pending. cbn. rewrite app_assoc. apply Permutation_app_comm. Qed.

(** ** Logs that are prefixes *)

Lemma wf_last l : wf_log l -> lastIndex l = zlen (rl_entries l).
Proof. intros H. apply lastIndex_sequential, H. Qed.

Lemma prefix_last l l' :
  wf_log l -> wf_log l' -> rl_entries l `prefix_of` rl_entries l' -> lastIndex l <= lastIndex l'.
Proof. intros H H' Hp%prefix_length. rewrite !wf_last by done. unfold zlen. lia. Qed.

Lemma prefix_term l l' i :
  wf_log l -> rl_entries l `prefix_of` rl_entries l' -> i <= lastIndex l ->
  term_at l' i = term_at l i.
Proof.
  intros H [k E] Hi. rewrite (wf_last l H) in Hi. unfold term_at, zlen in *.
  destruct (Z.ltb_spec 0 i); [|done]. by rewrite E, lookup_app_l by lia.
Qed.

Lemma prefix_drop (es es' : list Log) k :
  es `prefix_of` es' -> (length es <= k)%nat -> k = length es -> es ++ drop k es' = es'.
Proof. intros [x ->] _ ->. by rewrite drop_app_length. Qed.

Lemma has_entry_term l i t :
  wf_log l -> 1 <= i <= lastIndex l -> has_entry l i t = true <-> term_at l i = t.
Proof.
  intros H Hi. rewrite (wf_last l H) in Hi. unfold has_entry, term_at.
  rewrite (proj2 (Z.ltb_lt 0 i)) by lia.
  destruct (slot_in_range l i Hi) as (e & _ & ->). cbn. apply Z.eqb_eq.
Qed.

(** ** One node moves *)

Lemma holders_mono ns i p r r' :
  ns !! p = Some r -> lastIndex (r_raftLog r) <= lastIndex (r_raftLog r') ->
  (size (holders ns i) <= size (holders (<[p := r']> ns) i))%nat.
Proof.
  intros Hr Hle. rewrite <- !size_dom. apply subseteq_size. intros q Hq.
  apply elem_of_dom in Hq as [x [Hx Hi]%map_lookup_filter_Some]. apply elem_of_dom.
  destruct (decide (q = p)) as [->|Hne].
  - exists r'. apply map_lookup_filter_Some. rewrite lookup_insert_eq. cbn in *.
    split; [done|]. assert (x = r) as -> by congruence. lia.
  - exists x. apply map_lookup_filter_Some. by rewrite lookup_insert_ne.
Qed.

Lemma calm_moves L t l ns p r r' m :
  ns !! p = Some r -> lastIndex (r_raftLog r) <= lastIndex (r_raftLog r') ->
  calm L t l ns m -> calm L t l (<[p := r']> ns) m.
Proof.
  intros Hr Hle [Ht Hm]. split; [done|]. destruct (msg_Type m); try done.
  - destruct Hm as [Hto Hb]. split; [done|]. intros x Hx ae Hae Hes.
    destruct (decide (msg_To m = p)) as [E|Hne].
    + rewrite E, lookup_insert_eq in Hx. injection Hx as <-. rewrite E in Hb.
      destruct (Hb r Hr ae Hae Hes) as (? & ? & ? & ?). split_and!; (done || lia).
    + rewrite lookup_insert_ne in Hx by done. by apply Hb.
  - by rewrite dom_insert_lookup_L by eauto.
Qed.

Lemma calm_log L t l l' ns m :
  wf_log l -> rl_entries l `prefix_of` rl_entries l' -> rl_commitIndex l <= rl_commitIndex l' ->
  (forall p r, p <> L -> ns !! p = Some r -> lastIndex (r_raftLog r) <= lastIndex l) ->
  calm L t l ns m -> calm L t l' ns m.
Proof.
  intros Hwf Hp Hc Hlast [Ht Hm]. split; [done|]. destruct (msg_Type m); try done.
  destruct Hm as [Hto Hb]. split; [done|]. intros r Hr ae Hae Hes.
  destruct (Hb r Hr ae Hae Hes) as (? & ? & -> & ?). specialize (Hlast _ _ Hto Hr).
  split_and!; try done; [|lia]. symmetry. apply prefix_term; [done..|lia].
Qed.

Lemma follower_moves L t ns f rL p r r' f' :
  steady_at L t ns f rL -> p <> L -> ns !! p = Some r ->
  follower_ok t p (r_raftLog rL) (getProgress (progress rL) p) r' ->
  lastIndex (r_raftLog r) <= lastIndex (r_raftLog r') ->
  link L t p (r_raftLog rL) (r_raftLog r') (getProgress (progress rL) p) (exchange p f') ->
  (forall q, q <> p -> exchange q f ≡ₚ exchange q f') ->
  (forall m, m ∈ f' -> m ∈ f \/ calm L t (r_raftLog rL) ns m) ->
  steady_at L t (<[p := r']> ns) f' rL.
Proof.
  intros [Hl [? ? ? ? Hps Hpr Hsz Hcommit] Hf Hlink Hcalm] Hp Hr Hf' Hle Hlink' Hex Hm.
  split.
  - by rewrite lookup_insert_ne.
  - split; try done.
    + rewrite Hps. by rewrite dom_insert_lookup_L by eauto.
    + rewrite Hsz, map_size_insert, Hr. done.
    + intros i Hi. specialize (Hcommit i Hi). pose proof (holders_mono ns i p r r' Hr Hle). lia.
  - intros q x Hq. destruct (decide (q = p)) as [->|Hne].
    + rewrite lookup_insert_eq. by intros [= <-].
    + rewrite lookup_insert_ne by done. by apply Hf.
  - intros q x Hq. destruct (decide (q = p)) as [->|Hne].
    + rewrite lookup_insert_eq. by intros [= <-].
    + rewrite lookup_insert_ne by done. intros Hx.
      eapply link_perm; [by apply Hex|by apply Hlink].
  - intros m Hin. eapply calm_moves; [done..|]. destruct (Hm m Hin); auto.
Qed.

Lemma leader_moves L t ns f rL rL' f' :
  steady_at L t ns f rL -> leader_ok L t (<[L := rL']> ns) rL' ->
  rl_entries (r_raftLog rL) `prefix_of` rl_entries (r_raftLog rL') ->
  rl_commitIndex (r_raftLog rL) <= rl_commitIndex (r_raftLog rL') ->
  (forall p r, p <> L -> ns !! p = Some r ->
    0 <= matchIndex (getProgress (progress rL') p) <= lastIndex (r_raftLog r) /\
    link L t p (r_raftLog rL') (r_raftLog r) (getProgress (progress rL') p) (exchange p f')) ->
  (forall m, m ∈ f' -> m ∈ f \/ calm L t (r_raftLog rL') ns m) ->
  steady_at L t (<[L := rL']> ns) f' rL'.
Proof.
  intros [Hl Hlo Hf Hlink Hcalm] Hlo' Hp Hc Hpeer Hm.
  pose proof (prefix_last _ _ (lo_log _ _ _ _ Hlo) (lo_log _ _ _ _ Hlo') Hp) as Hle.
  split; [by rewrite lookup_insert_eq|done| | |].
  - intros p r Hne Hr. rewrite lookup_insert_ne in Hr by done.
    destruct (Hf p r Hne Hr) as [? ? ? ? Hpre ? ?]. split; try done; [by etrans|lia|by apply Hpeer].
  - intros p r Hne Hr. rewrite lookup_insert_ne in Hr by done. by apply Hpeer.
  - intros m Hin. eapply calm_moves; [done..|]. destruct (Hm m Hin) as [Hin'|]; [|done].
    eapply calm_log; [apply Hlo|done|done| |by apply Hcalm].
    intros p r Hne Hr. destruct (Hf p r Hne Hr). apply prefix_last; [done|apply Hlo|done].
Qed.

#[global] Instance steady_at_perm L t ns : Proper ((≡ₚ) ==> (=) ==> iff) (steady_at L t ns).
Proof.
  assert (forall f f' rL, f ≡ₚ f' -> steady_at L t ns f rL -> steady_at L t ns f' rL) as H.
  { intros f f' rL Hp [H1 H2 H3 H4 H5]. split; try done.
    - intros p r Hne Hr. eapply link_perm; [by rewrite <- Hp|by apply H4].
    - intros m. rewrite <- Hp. apply H5. }
  intros f f' Hp rL ? <-. split; apply H; [done|by symmetry].
Qed.

(** ** A follower handles a message *)

Lemma link_last L t p l lp lp' pr f :
  lastIndex lp' = lastIndex lp -> link L t p l lp pr f -> link L t p l lp' pr f.
Proof. intros E H. inversion H; subst; constructor; by rewrite ?E. Qed.

Lemma follower_stays L t ns f rL p r r' f' :
  steady_at L t ns f rL -> p <> L -> ns !! p = Some r ->
  follower_ok t p (r_raftLog rL) (getProgress (progress rL) p) r' ->
  lastIndex (r_raftLog r') = lastIndex (r_raftLog r) ->
  (forall q, exchange q f ≡ₚ exchange q f') ->
  (forall m, m ∈ f' -> m ∈ f \/ calm L t (r_raftLog rL) ns m) ->
  steady_at L t (<[p := r']> ns) f' rL.
Proof.
  intros H Hp Hr Hf' E Hex Hm. eapply follower_moves; [done..|by rewrite E| |auto|done].
  eapply link_perm; [apply Hex|]. eapply link_last; [done|]. by eapply sa_link.
Qed.

(** [m] was taken, and [new] queued; neither is of an exchange. *)
Lemma follower_takes L t ns m g rL p r r' new :
  steady_at L t ns (m :: g) rL -> p <> L -> ns !! p = Some r ->
  follower_ok t p (r_raftLog rL) (getProgress (progress rL) p) r' ->
  lastIndex (r_raftLog r') = lastIndex (r_raftLog r) ->
  (forall q, ~ concerns q m) ->
  (forall x, x ∈ new -> msg_Type x = MSG_VOTE_RESP /\ msg_terms_le t x) ->
  steady_at L t (<[p := r']> ns) (new ++ g) rL.
Proof.
  intros H Hp Hr Hf' E Hm Hnew. eapply follower_stays; [done..| |].
  - intros q. rewrite exchange_app, (exchange_none q new).
    + unfold exchange. by rewrite filter_cons_False.
    + intros x Hx [[Ht _]|[Ht _]]; destruct (Hnew x Hx) as [? _]; congruence.
  - intros x [Hx|Hx]%elem_of_app; [right|left; by right].
    destruct (Hnew x Hx) as [Ht Hle]. split; [done|]. by rewrite Ht.
Qed.

Lemma follower_same t p l pr r r' :
  follower_ok t p l pr r -> ID r' = p -> in_role r' StateFollower -> currentTerm r' <= t ->
  r_raftLog r' = r_raftLog r -> follower_ok t p l pr r'.
Proof. intros [] ? ? ? E. split; by rewrite ?E. Qed.

Lemma follow_role t r :
  in_role r StateFollower -> in_role (follow t r) StateFollower /\ ID (follow t r) = ID r /\
  currentTerm (follow t r) = Z.max (currentTerm r) t /\ readyc (follow t r) = readyc r /\
  pending (follow t r) = pending r.
Proof.
  intros [? [? ?]]. unfold follow. destruct (Z.ltb_spec (currentTerm r) t).
  - destruct (core_is _ _ _ _ _ _ _ _ _ _ _ (becomeFollower_core t r))
      as (E1 & _ & _ & E4 & _ & E6 & E7 & E8 & _ & E10). unfold in_role.
    rewrite E1, E4, E6, E7, E8, E10. split_and!; try done; [lia|]. apply becomeFollower_rest.
  - split_and!; try done. lia.
Qed.

Lemma vote_request_effect m v r t :
  msg_Vote m = Some v -> i64 (GetVoteTerm v) <= t -> currentTerm r <= t -> in_role r StateFollower ->
  exists x, msg_Type x = MSG_VOTE_RESP /\ msg_terms_le t x /\
    let r' := handleVoteRequest m r in
    outbox r' ≡ₚ [x] ++ outbox r /\ r_raftLog r' = r_raftLog r /\ ID r' = ID r /\
    in_role r' StateFollower /\ currentTerm r' <= t.
Proof.
  intros Hv Ht Hr Hrole. set (q := i64 (GetVoteTerm v)) in *.
  destruct (follow_role q r Hrole) as (Hrole' & HID & Hterm & Hrc & Hpend).
  pose proof (follow_log q r) as Hlog.
  assert (Hsend : forall x r0, in_role r0 StateFollower -> ID r0 = ID r -> currentTerm r0 <= t ->
    readyc r0 = readyc r -> pending r0 = pending r -> r_raftLog r0 = r_raftLog r ->
    msg_Type x = MSG_VOTE_RESP /\ msg_terms_le t x -> exists x0,
      msg_Type x0 = MSG_VOTE_RESP /\ msg_terms_le t x0 /\
      let r' := set_msgs (msgs r0 ++ [x]) r0 in
      outbox r' ≡ₚ [x0] ++ outbox r /\ r_raftLog r' = r_raftLog r /\ ID r' = ID r /\
      in_role r' StateFollower /\ currentTerm r' <= t).
  { intros x r0 ? ? ? ? Hp ? [? ?]. exists x. cbv zeta. split_and!; try done. apply outbox_send; [|done].
    by rewrite pending_set_msgs, Hp. }
  unfold handleVoteRequest. rewrite Hv. cbv zeta. fold q. fold (follow q r).
  destruct (Z.ltb_spec q (currentTerm r)).
  { by apply Hsend. }
  unfold sendVoteResponse. destruct (votedFor (follow q r) !! q) as [w|] eqn:Ew; [destruct (negb _)|];
    apply Hsend; try done; cbn; (lia || (split; [done|split_and!; cbn; done || lia])).
Qed.

(** A heartbeat that is not refused moves the commit index. *)
Lemma heartbeat_accepted m ae r :
  msg_Entries m = Some ae -> wf_log (r_raftLog r) -> currentTerm r <= ae_Term ae ->
  ae_Entries ae = [] -> ae_PrevLogIdx ae <= lastIndex (r_raftLog r) ->
  ae_PrevLogTerm ae = term_at (r_raftLog r) (ae_PrevLogIdx ae) ->
  handleAppendEntries m r = Ok (set_r_raftLog (accepted_log ae (r_raftLog r)) (follow (ae_Term ae) r)).
Proof.
  intros Hm Hwf Ht Hes Hprev HprevT. unfold handleAppendEntries.
  rewrite Hm, (proj2 (Z.ltb_ge _ _)) by done. cbv zeta. fold (follow (ae_Term ae) r).
  rewrite logMismatch_spec, follow_log by (rewrite follow_log; apply Hwf).
  replace ((0 <? ae_PrevLogIdx ae) && _) with false.
  2: { destruct (Z.ltb_spec 0 (ae_PrevLogIdx ae)); [|done].
       by rewrite (proj2 (has_entry_term _ (ae_PrevLogIdx ae) _ Hwf ltac:(lia))). }
  cbn [mbind outcome_bind]. rewrite Hes.
  change (0 <? zlen (@nil Log)) with false. cbv beta iota. rewrite follow_log.
  pose proof (commit_min (r_raftLog r) (ae_LeaderCommitIdx ae)) as Hcommit.
  unfold accepted_log. rewrite ?Hes, append_nil. cbv zeta. rewrite <- Hcommit.
  destruct (_ <? ae_LeaderCommitIdx ae); [done|].
  by rewrite <- (follow_log (ae_Term ae) r), set_log_id.
Qed.

Lemma term_at_last l : wf_log l -> term_at l (lastIndex l) = lastTerm l.
Proof.
  intros H. destruct (decide (0 < lastIndex l)).
  - apply has_entry_term; [done|lia|]. by apply has_last_entry.
  - pose proof (wf_last l H) as E. unfold term_at, lastTerm, zlen in *.
    rewrite (proj2 (Z.ltb_ge _ _)) by lia. by destruct (rl_entries l); [|cbn in *; lia].
Qed.

(** What [p] queued is all that is under way between [p] and the leader. *)
Lemma exchange_answer L t p b g :
  exchange p g = [] -> exchange p (answer L t p b :: g) = [answer L t p b].
Proof. unfold exchange. intros E. rewrite filter_cons_True, E; [done|]. by right. Qed.

Lemma exchange_other q p x g : q <> p -> msg_From x = p -> msg_Type x = MSG_APP_RESP ->
  exchange q (x :: g) = exchange q g.
Proof.
  intros Hne Hf Ht. unfold exchange. rewrite filter_cons_False; [done|].
  intros [[? _]|[_ ?]]; congruence.
Qed.

Lemma exchange_sent q p m g : q <> p -> msg_To m = p -> msg_Type m = MSG_APP ->
  exchange q (m :: g) = exchange q g.
Proof.
  intros Hne Hf Ht. unfold exchange. rewrite filter_cons_False; [done|].
  intros [[_ [? _]]|[? _]]; congruence.
Qed.

(** The follower answers the append message [m]. *)
Lemma follower_answers L t ns m g rL p r r' b :
  steady_at L t ns (m :: g) rL -> p <> L -> ns !! p = Some r ->
  msg_To m = p -> msg_Type m = MSG_APP -> exchange p g = [] ->
  follower_ok t p (r_raftLog rL) (getProgress (progress rL) p) r' ->
  lastIndex (r_raftLog r) <= lastIndex (r_raftLog r') ->
  link L t p (r_raftLog rL) (r_raftLog r') (getProgress (progress rL) p) [answer L t p b] ->
  steady_at L t (<[p := r']> ns) (answer L t p b :: g) rL.
Proof.
  intros H Hp Hr Hto Hty Hg Hf Hle Hlink. eapply follower_moves; [done..| | |].
  - by rewrite exchange_answer.
  - intros q Hq. by rewrite (exchange_sent q p m), (exchange_other q p (answer _ _ _ _)).
  - intros x [->|Hx]%elem_of_cons; [right|left; by right]. split.
    { unfold msg_terms_le. cbn. split_and!; done || lia. }
    cbn. split_and!; try done. apply elem_of_dom. by eexists.
Qed.

Lemma wf_accepted ae l : wf_log (append (ae_Entries ae) l) -> wf_log (accepted_log ae l).
Proof. intros [W1 W2 W3 W4]. split; cbn in *; try done; lia. Qed.

(** The log of a follower that takes the suffix it lacks is the leader's. *)
Lemma accept_suffix t L l lp c :
  let prev := lastIndex lp in
  let la := accepted_log (mkAppendEntries t L prev (term_at l prev) (drop (Z.to_nat prev) (rl_entries l)) c) lp in
  wf_log l -> wf_log lp -> rl_entries lp `prefix_of` rl_entries l ->
  rl_commitIndex lp <= rl_commitIndex l -> c <= rl_commitIndex l ->
  wf_log la /\ rl_entries la = rl_entries l /\ rl_commitIndex la <= rl_commitIndex l.
Proof.
  intros prev la Hl Hlp Hpre Hc Hcl. pose proof (wf_last _ Hlp) as Elp. unfold zlen in Elp.
  assert (rl_entries la = rl_entries l) as Ela.
  { cbn. apply prefix_drop; [done|..]; unfold prev; lia. }
  pose proof (prefix_last _ _ Hlp Hl Hpre) as Hle.
  split; [|split; [done|cbn; lia]]. apply wf_accepted, wf_append; [done|].
  intros i e Hi. cbn in Hi. rewrite lookup_drop in Hi. apply (wf_ids _ Hl) in Hi. unfold prev in *. lia.
Qed.

Section append.
Context (L t : Z) (ns : gmap Z Raft) (g : list Message) (rL : Raft) (p : Z) (r r' : Raft) (c : Z).
Let l := r_raftLog rL.
Let pr := getProgress (progress rL) p.
Let m := suffix L t p l (nextIndex pr - 1) c.
Context (H : steady_at L t ns (m :: g) rL) (Hp : p <> L) (Hr : ns !! p = Some r).
Context (Hg : exchange p g = []) (Hcl : c <= rl_commitIndex l).
Context (Hprev : lastIndex (r_raftLog r) <= nextIndex pr - 1 < lastIndex l).
Context (Hstep : handleAppendEntries m r = Ok r').

Lemma follower_accepts :
  nextIndex pr - 1 = lastIndex (r_raftLog r) ->
  outbox r' ≡ₚ [answer L t p true] ++ outbox r /\
  steady_at L t (<[p := r']> ns) (answer L t p true :: g) rL.
Proof using All.
  intros Eprev. pose proof (sa_follower _ _ _ _ _ H p r Hp Hr) as [HID Hrole Hterm Hwf Hpre Hc Hmatch].
  pose proof (lo_log _ _ _ _ (sa_leader _ _ _ _ _ H)) as Hwfl. fold l in Hwfl, Hpre, Hc. fold pr in Hmatch.
  destruct (follow_role t r Hrole) as (Hrole' & HID' & Hterm' & Hrc & Hpend).
  rewrite Z.max_r in Hterm' by done. pose proof (wf_last _ Hwf) as Elp. unfold zlen in Elp.
  destruct (accept_suffix t L l _ c Hwfl Hwf Hpre Hc Hcl) as (Hwfa & Ela & Hca).
  rewrite <- Eprev in Hwfa, Ela, Hca. set (ae := mkAppendEntries _ _ _ _ _ _) in *.
  rewrite (append_accepted m ae r) in Hstep; [|reflexivity|apply Hwf|exact Hterm| |].
  2: { apply (f_equal length) in Ela. cbn in Ela. rewrite length_app in Ela. intros E0.
       change (drop (Z.to_nat (nextIndex pr - 1)) (rl_entries l) = []) in E0. rewrite E0 in Ela.
       pose proof (wf_last _ Hwfl). unfold zlen in *. cbn in Ela. lia. }
  2: { intros Hpos. apply has_entry_term; [done|cbn in *; lia|]. cbn. symmetry.
       apply prefix_term; [done..|lia]. }
  assert (lastIndex (accepted_log ae (r_raftLog r)) = lastIndex l) as Elast by (by rewrite !wf_last, Ela).
  injection Hstep as <-. change (ae_Term ae) with t. change (msg_From m) with L.
  assert (appendResponse (follow t r) L true = answer L t p true) as Eans
    by (unfold appendResponse, answer; congruence). split.
  - apply outbox_send; [|exact Hrc]. rewrite <- Eans, <- Hpend.
    exact (pending_set_after (set_r_raftLog (accepted_log ae (r_raftLog r)) (follow t r)) _).
  - eapply follower_answers; [done..| | |]; cbn [r_raftLog set_r_raftLog set_msgsAfterAppend].
    + split; try done; cbn [r_raftLog set_r_raftLog set_msgsAfterAppend].
      * cbn. congruence.
      * cbn. lia.
      * fold l. by rewrite Ela.
      * fold pr. rewrite Elast. lia.
    + rewrite Elast. lia.
    + apply link_acked; [done|]. fold pr. lia.
Qed.

Lemma follower_refuses :
  nextIndex pr - 1 <> lastIndex (r_raftLog r) ->
  outbox r' ≡ₚ [answer L t p false] ++ outbox r /\
  steady_at L t (<[p := r']> ns) (answer L t p false :: g) rL.
Proof using All.
  intros Hgap. pose proof (sa_follower _ _ _ _ _ H p r Hp Hr) as Hf.
  pose proof Hf as [HID Hrole Hterm Hwf Hpre Hc Hmatch].
  destruct (follow_role t r Hrole) as (Hrole' & HID' & Hterm' & Hrc & Hpend).
  rewrite Z.max_r in Hterm' by done. pose proof (wf_last _ Hwf) as Elp. unfold zlen in Elp.
  rewrite (handleAppendEntries_refused m _ r eq_refl (wf_ids _ Hwf)) in Hstep.
  2: { right. cbn. split; [lia|]. unfold has_entry. rewrite lookup_ge_None_2; [done|]. lia. }
  cbn in Hstep. injection Hstep as <-. unfold sendAppendResponse.
  assert (appendResponse (follow t r) L false = answer L t p false) as Eans
    by (unfold appendResponse, answer; congruence). split.
  - apply outbox_send; [|exact Hrc]. rewrite <- Eans, <- Hpend. apply pending_set_msgs.
  - pose proof (follow_log t r) as El.
    eapply follower_answers; [done..| | |]; cbn [r_raftLog set_msgs]; rewrite ?El; [|done|].
    + eapply follower_same; [done|cbn; congruence|done|cbn; lia|done].
    + apply link_refused. fold l pr. lia.
Qed.
End append.

Lemma link_append L t p l lp pr m f :
  link L t p l lp pr (m :: f) -> msg_Type m = MSG_APP ->
  f = [] /\ exists c, m = suffix L t p l (nextIndex pr - 1) c /\ c <= rl_commitIndex l /\
    lastIndex lp <= nextIndex pr - 1 < lastIndex l.
Proof. intros H Ht. inversion H; subst; try done. eauto 6. Qed.

Lemma follower_append L t ns m g rL p r r' :
  steady_at L t ns (m :: g) rL -> p <> L -> ns !! p = Some r ->
  msg_To m = p -> msg_Type m = MSG_APP -> GetEntries (msg_Entries m) <> [] ->
  handleAppendEntries m r = Ok r' ->
  exists b, outbox r' ≡ₚ [answer L t p b] ++ outbox r /\
    steady_at L t (<[p := r']> ns) (answer L t p b :: g) rL.
Proof.
  intros H Hp Hr Hto Hty Hes Hstep. pose proof (sa_link _ _ _ _ _ H p r Hp Hr) as Hlink.
  unfold exchange in Hlink. rewrite filter_cons_True in Hlink by (by left).
  apply link_append in Hlink as (Eg & c & -> & Hcl & Hprev); [|done].
  destruct (decide (nextIndex (getProgress (progress rL) p) - 1 = lastIndex (r_raftLog r))).
  - exists true. by eapply follower_accepts.
  - exists false. by eapply follower_refuses.
Qed.

Lemma follower_heartbeat L t ns m g rL p r r' :
  steady_at L t ns (m :: g) rL -> p <> L -> ns !! p = Some r ->
  msg_To m = p -> msg_Type m = MSG_APP -> GetEntries (msg_Entries m) = [] ->
  handleAppendEntries m r = Ok r' ->
  outbox r' ≡ₚ outbox r /\ steady_at L t (<[p := r']> ns) g rL.
Proof.
  intros H Hp Hr Hto Hty Hes Hstep.
  pose proof (sa_follower _ _ _ _ _ H p r Hp Hr) as Hf. pose proof Hf as [HID Hrole Hterm Hwf Hpre Hc Hmatch].
  pose proof (lo_log _ _ _ _ (sa_leader _ _ _ _ _ H)) as Hwfl.
  assert (forall q, ~ concerns q m) as Hno by (intros q [[_ [_ ?]]|[? _]]; congruence).
  assert (Htake : forall r1, follower_ok t p (r_raftLog rL) (getProgress (progress rL) p) r1 ->
    lastIndex (r_raftLog r1) = lastIndex (r_raftLog r) -> steady_at L t (<[p := r1]> ns) g rL).
  { intros r1 Hf1 El. apply (follower_takes L t ns m g rL p r r1 []); try done.
    intros x Hx. by apply not_elem_of_nil in Hx. }
  destruct (msg_Entries m) as [ae|] eqn:Hm.
  2: { unfold handleAppendEntries in Hstep. rewrite Hm in Hstep. injection Hstep as <-.
       split; [done|by apply Htake]. }
  destruct (sa_calm _ _ _ _ _ H m ltac:(by left)) as [_ Hcalm]. rewrite Hty in Hcalm.
  destruct Hcalm as [_ Hb]. rewrite Hto in Hb.
  destruct (Hb r Hr ae Hm Hes) as (Et & Hprev & HprevT & Hcommit).
  rewrite (prefix_term _ _ _ Hwf Hpre Hprev) in HprevT.
  rewrite (heartbeat_accepted m ae r) in Hstep by (done || lia). injection Hstep as <-.
  destruct (follow_role (ae_Term ae) r Hrole) as (Hrole' & HID' & Hterm' & Hrc & Hpend).
  split; [apply outbox_eq; [by rewrite <- Hpend|done]|].
  change (ae_Entries ae = []) in Hes.
  assert (lastIndex (accepted_log ae (r_raftLog r)) = lastIndex (r_raftLog r)) as El
    by (unfold lastIndex; cbn; by rewrite Hes, app_nil_r).
  apply Htake; [|done]. split; try done; cbn [r_raftLog set_r_raftLog].
  - cbn. congruence.
  - cbn. lia.
  - apply wf_accepted. by rewrite Hes, append_nil.
  - cbn. by rewrite Hes, app_nil_r.
  - cbn. lia.
  - by rewrite El.
Qed.

Lemma follower_step L t ns m g rL p r r' ord :
  steady_at L t ns (m :: g) rL -> p <> L -> ns !! p = Some r -> msg_To m = p ->
  Step ord m r = Ok r' ->
  exists new, outbox r' ≡ₚ new ++ outbox r /\ steady_at L t (<[p := r']> ns) (new ++ g) rL.
Proof.
  intros H Hp Hr Hto Hstep. pose proof (sa_follower _ _ _ _ _ H p r Hp Hr) as Hf.
  pose proof (sa_calm _ _ _ _ _ H m ltac:(by left)) as [(Hv & _) Hcalm].
  pose proof (fo_role _ _ _ _ _ Hf) as (_ & Es & _). unfold Step in Hstep. rewrite Es in Hstep.
  unfold stepFollower in Hstep. destruct (msg_Type m) eqn:Hty; try done.
  - set (r0 := set_electionTick 0 r) in *.
    assert (steady_at L t (<[p := r0]> ns) (m :: g) rL) as H0.
    { eapply follower_stays; [done..| |done|done|by left]. by eapply follower_same; [done|..]; destruct Hf. }
    assert (<[p := r0]> ns !! p = Some r0) as Hr0 by apply lookup_insert_eq.
    rewrite <- (insert_insert_eq ns p r' r0).
    destruct (decide (GetEntries (msg_Entries m) = [])).
    + exists []. by apply (follower_heartbeat L t _ m g rL p r0 r').
    + destruct (follower_append L t _ m g rL p r0 r' H0 Hp Hr0 Hto Hty n Hstep) as (b & ? & ?).
      by exists [answer L t p b].
  - by destruct Hcalm as [? _]; subst.
  - unfold handleVote in Hstep. destruct (msg_Vote m) as [v|] eqn:Hvote; [|done]. injection Hstep as <-.
    destruct (vote_request_effect m v r t) as (x & Hx & Hxt & Hout & Hlog & HID & Hrole & Hterm);
      [done|done|by destruct Hf|by destruct Hf|].
    exists [x]. split; [done|]. eapply follower_takes; [done..| | | |].
    + eapply follower_same; [done|rewrite HID; by destruct Hf|done..].
    + by rewrite Hlog.
    + intros q [[? _]|[? _]]; congruence.
    + by intros y ->%list_elem_of_singleton.
  - injection Hstep as <-. exists []. split; [done|]. eapply follower_takes; [done..| | |].
    + done.
    + intros q [[? _]|[? _]]; congruence.
    + intros y Hy. by apply not_elem_of_nil in Hy.
Qed.

(** ** The leader handles a message *)

(** A message the leader ignores. *)
Lemma steady_drop L t ns m g rL :
  steady_at L t ns (m :: g) rL -> (forall q, ~ concerns q m) -> steady_at L t ns g rL.
Proof.
  intros [H1 H2 H3 H4 H5] Hm. split; try done.
  - intros p r Hp Hr. specialize (H4 p r Hp Hr). unfold exchange in *.
    by rewrite filter_cons_False in H4.
  - intros x Hx. apply H5. by right.
Qed.

(** Who acknowledged index [c] has it. *)
Lemma replicated_holders L ns rL r c i :
  ns !! L = Some rL -> dom (progress r) ⊆ dom ns ∖ {[L]} -> i <= c -> c <= lastIndex (r_raftLog rL) ->
  (forall p rp, p <> L -> ns !! p = Some rp ->
    matchIndex (getProgress (progress r) p) <= lastIndex (r_raftLog rp)) ->
  replicatedCount r c <= Z.of_nat (size (holders ns i)).
Proof.
  intros HL Hdom Hi Hc Hmatch. unfold replicatedCount.
  set (acks := filter (fun p : Z * Progress => c <= matchIndex p.2) (progress r)).
  assert (Hacks : forall p, p ∈ dom acks -> exists rp, p <> L /\ ns !! p = Some rp /\ i <= lastIndex (r_raftLog rp)).
  { intros p [pr [Hpr Hle]%map_lookup_filter_Some]%elem_of_dom.
    assert (p ∈ dom ns ∖ {[L]}) as [[rp Hrp]%elem_of_dom Hne]%elem_of_difference
      by (apply Hdom, elem_of_dom; by eexists).
    exists rp. rewrite not_elem_of_singleton in Hne. split_and!; [done|done|].
    specialize (Hmatch p rp Hne Hrp). unfold getProgress in Hmatch. rewrite Hpr in Hmatch. cbn in *. lia. }
  assert (size ({[L]} ∪ dom acks) <= size (dom (holders ns i)))%nat as Hsz.
  { apply subseteq_size. intros p [->%elem_of_singleton|Hp]%elem_of_union; apply elem_of_dom.
    - exists rL. apply map_lookup_filter_Some. split; [done|cbn; lia].
    - destruct (Hacks p Hp) as (rp & _ & Hrp & ?). exists rp. by apply map_lookup_filter_Some. }
  rewrite size_union, size_singleton, !size_dom in Hsz; [lia|].
  apply disjoint_singleton_l. intros Hp. by destruct (Hacks L Hp) as (? & ? & _).
Qed.

Lemma quorum_same r r' : clusterSize r' = clusterSize r -> quorum r' = quorum r.
Proof. unfold quorum. by intros ->. Qed.

Lemma link_answer L t p l lp pr m f :
  link L t p l lp pr (m :: f) -> msg_Type m = MSG_APP_RESP ->
  f = [] /\ exists b, m = answer L t p b /\
    if b : bool then lastIndex lp = lastIndex l /\ 1 <= nextIndex pr
    else lastIndex lp + 1 < nextIndex pr <= lastIndex l + 1.
Proof.
  intros H Ht. inversion H; subst; try done.
  - split; [done|]. by exists true.
  - split; [done|]. by exists false.
Qed.

Lemma wf_commit_at l c : wf_log l -> rl_commitIndex l <= c <= lastIndex l -> wf_log (commit_at c l).
Proof.
  intros [W1 W2 W3 W4] Hc. split; try done; [cbn; lia|].
  change (lastIndex (commit_at c l)) with (lastIndex l). cbn. lia.
Qed.

Lemma link_commit L t p l l' lp pr f :
  rl_entries l' = rl_entries l -> rl_commitIndex l <= rl_commitIndex l' ->
  link L t p l lp pr f -> link L t p l' lp pr f.
Proof.
  intros E Hc H. assert (lastIndex l' = lastIndex l) as El by (unfold lastIndex; by rewrite E).
  destruct H as [|c ? ?| |]; [apply link_idle| |apply link_acked|apply link_refused]; rewrite ?El; try done.
  unfold suffix, term_at. rewrite <- E. apply (link_sent L t p l'); rewrite ?El; [done|lia].
Qed.

(** Recording an answer of [p] in the progress table. *)
Lemma leader_records L t ns p b g rL rp pr c :
  let l := r_raftLog rL in
  let r1 := set_progress (<[p := pr]> (progress rL)) rL in
  let rL' := set_r_raftLog (commit_at c l) r1 in
  steady_at L t ns (answer L t p b :: g) rL -> p <> L -> ns !! p = Some rp -> exchange p g = [] ->
  0 <= matchIndex pr <= lastIndex (r_raftLog rp) ->
  lastIndex (r_raftLog rp) < nextIndex pr <= lastIndex l + 1 ->
  rl_commitIndex l <= c <= lastIndex l -> (c = rl_commitIndex l \/ quorum r1 <= replicatedCount r1 c) ->
  steady_at L t (<[L := rL']> ns) g rL'.
Proof.
  intros l r1 rL' H Hp Hrp Hg Hmatch Hnext Hc Hcommit.
  pose proof H as [HL Hlo Hf Hlink Hcalm]. pose proof Hlo as [? Hrole ? Hwf Hps Hpr Hsz Hheld].
  assert (forall q rq, q <> L -> ns !! q = Some rq ->
    0 <= matchIndex (getProgress (progress r1) q) <= lastIndex (r_raftLog rq) /\
    link L t q (commit_at c l) (r_raftLog rq) (getProgress (progress r1) q) (exchange q g)) as Hpeer.
  { intros q rq Hq Hrq. cbn. rewrite getProgress_insert. destruct (decide (q = p)) as [->|Hne].
    - assert (rq = rp) as -> by congruence. rewrite decide_True by done. split; [done|].
      rewrite Hg. by apply link_idle.
    - rewrite decide_False by done. split; [by apply (Hf q rq Hq Hrq)|].
      specialize (Hlink q rq Hq Hrq). rewrite (exchange_other q p) in Hlink by done.
      apply (link_commit L t q l); [done|cbn; lia|done]. }
  assert (dom (progress r1) ⊆ dom ns ∖ {[L]}) as Hdom.
  { cbn. rewrite dom_insert, <- Hps. apply union_subseteq. split; [|done].
    rewrite Hps. intros q ->%elem_of_singleton. apply elem_of_difference. split.
    - apply elem_of_dom. by eexists.
    - by rewrite not_elem_of_singleton. }
  eapply leader_moves; [done| |done|cbn; fold l; lia|exact Hpeer|intros m Hm; left; by right].
  split; try done.
  - by apply wf_commit_at.
  - cbn. rewrite Hps. by rewrite dom_insert_lookup_L by eauto.
  - cbn [progress peers set_r_raftLog set_progress r1 rL']. by rewrite Hps.
  - cbn. rewrite Hsz, map_size_insert, HL. done.
  - intros i [Hi Hic]. cbn in Hic.
    pose proof (holders_mono ns i L rL rL' HL ltac:(done)) as Hmono.
    rewrite (quorum_same rL rL') by done.
    destruct (decide (i <= rl_commitIndex l)) as [Hle|Hgt].
    + specialize (Hheld i (conj Hi Hle)). lia.
    + destruct Hcommit as [->|Hq]; [lia|]. rewrite (quorum_same rL r1) in Hq by done.
      pose proof (replicated_holders L ns rL r1 c i HL Hdom ltac:(lia) ltac:(fold l; lia)) as Hrep.
      specialize (Hrep (fun q rq Hq Hrq => proj2 (proj1 (Hpeer q rq Hq Hrq)))). lia.
Qed.

Lemma leader_response L t ns m g rL rL' :
  steady_at L t ns (m :: g) rL -> msg_Type m = MSG_APP_RESP ->
  handleAppendResponse m rL = Ok rL' ->
  outbox rL' ≡ₚ outbox rL /\ steady_at L t (<[L := rL']> ns) g rL'.
Proof.
  intros H Hty Hstep. pose proof H as [HL Hlo Hf Hlink Hcalm].
  destruct (Hcalm m ltac:(by left)) as [_ Hm]. rewrite Hty in Hm. destruct Hm as (Hto & Hp & Hin).
  set (p := msg_From m) in *. apply elem_of_dom in Hin as [rp Hrp].
  pose proof (Hlink p rp Hp Hrp) as Hl. unfold exchange in Hl.
  rewrite filter_cons_True in Hl by (by right). apply link_answer in Hl as (Hg & b & Em & Hb); [|done].
  destruct (Hf p rp Hp Hrp) as [_ _ _ Hwfp Hpre _ Hmatch].
  pose proof (lo_log _ _ _ _ Hlo) as Hwf. rewrite Em in H.
  unfold handleAppendResponse in Hstep. fold p in Hstep. rewrite Em in Hstep.
  cbn [answer msg_EntriesResp aer_CurrentTerm aer_Success] in Hstep.
  rewrite (lo_term _ _ _ _ Hlo), Z.ltb_irrefl in Hstep. destruct b.
  - destruct Hb as [Elast Hnext]. pose proof (wf_last _ Hwfp) as Hpos. unfold zlen in Hpos.
    set (last := lastIndex (r_raftLog rL)) in *.
    set (r1 := set_progress (<[p := mkProgress last (last + 1)]> (progress rL)) rL) in *.
    destruct (maybeCommit_Ok r1 Hwf) as (c & Hc & _ & Hrange & Hcommit & _).
    rewrite Hc in Hstep. injection Hstep as <-. split; [done|].
    eapply leader_records; [done..| | | |]; cbn; [lia|lia|done|]. destruct Hcommit as [?|[? _]]; [by left|by right].
  - injection Hstep as <-. split; [done|].
    pose proof (leader_records L t ns p false g rL rp
      (mkProgress (matchIndex (getProgress (progress rL) p)) (nextIndex (getProgress (progress rL) p) - 1))
      (rl_commitIndex (r_raftLog rL)) H Hp Hrp Hg Hmatch) as Hrec.
    pose proof (wf_last _ Hwfp) as Hpos. unfold zlen in Hpos. pose proof (wf_commit _ Hwf).
    rewrite (proj2 (Z.ltb_lt _ _)) by lia. specialize (Hrec ltac:(cbn; lia) ltac:(lia) ltac:(by left)).
    replace (set_r_raftLog _ _) with (set_progress
      (<[p := mkProgress (matchIndex (getProgress (progress rL) p)) (nextIndex (getProgress (progress rL) p) - 1)]>
        (progress rL)) rL) in Hrec by (by destruct rL as [? ? ? ? ? ? ? ? ? ? ? ? ? ? ? ? ? [] ?]).
    exact Hrec.
Qed.

Lemma leader_step L t ns m g rL rL' ord :
  steady_at L t ns (m :: g) rL -> msg_To m = L -> Step ord m rL = Ok rL' ->
  outbox rL' ≡ₚ outbox rL /\ steady_at L t (<[L := rL']> ns) g rL'.
Proof.
  intros H Hto Hstep. pose proof H as [HL Hlo _ _ Hcalm].
  destruct (Hcalm m ltac:(by left)) as [_ Hm]. destruct (lo_role _ _ _ _ Hlo) as (_ & Es & _).
  unfold Step in Hstep. rewrite Es in Hstep. unfold stepLeader in Hstep.
  destruct (msg_Type m) eqn:Hty; try done.
  - by destruct Hm.
  - by eapply leader_response.
  - injection Hstep as <-. split; [done|]. rewrite insert_id by done. eapply steady_drop; [done|].
    intros q [[? _]|[? _]]; congruence.
  - injection Hstep as <-. split; [done|]. rewrite insert_id by done. eapply steady_drop; [done|].
    intros q [[? _]|[? _]]; congruence.
Qed.

(** ** The leader sends *)

Lemma elements_fmap_filter (ord : list Z) (f : Z -> Message) p :
  NoDup ord -> p ∈ ord -> (forall q, concerns p (f q) <-> q = p) ->
  exchange p (f <$> ord) = [f p].
Proof.
  intros Hnd Hp Hf. induction Hnd as [|q ord Hq Hnd IH]; [by apply not_elem_of_nil in Hp|].
  rewrite fmap_cons. unfold exchange in *. apply elem_of_cons in Hp as [->|Hp].
  - rewrite filter_cons_True by (by apply Hf). f_equal. apply exchange_none.
    intros m (x & -> & Hx)%list_elem_of_fmap Hc. apply Hf in Hc. by subst.
  - rewrite filter_cons_False; [by apply IH|]. intros Hc%Hf. by subst.
Qed.

Lemma leader_sends L t ns f rL rL' ms :
  steady_at L t ns f rL -> ID rL' = L -> in_role rL' StateLeader -> currentTerm rL' = t ->
  wf_log (r_raftLog rL') -> peers rL' = peers rL -> progress rL' = progress rL ->
  clusterSize rL' = clusterSize rL -> rl_commitIndex (r_raftLog rL') = rl_commitIndex (r_raftLog rL) ->
  rl_entries (r_raftLog rL) `prefix_of` rl_entries (r_raftLog rL') ->
  (forall p r, p <> L -> ns !! p = Some r ->
    link L t p (r_raftLog rL') (r_raftLog r) (getProgress (progress rL) p) (exchange p (ms ++ f))) ->
  (forall m, m ∈ ms -> calm L t (r_raftLog rL') ns m) ->
  steady_at L t (<[L := rL']> ns) (ms ++ f) rL'.
Proof.
  intros H HID Hrole Hterm Hwf Hps Hpr Hsz Hc Hpre Hlink Hm.
  pose proof H as [HL [_ _ _ Hwf0 Hps0 Hdom Hsz0 Hheld] Hf _ _].
  eapply leader_moves; [done| |done|by rewrite Hc| |].
  - split; try done.
    + rewrite Hps, Hps0. by rewrite dom_insert_lookup_L by eauto.
    + by rewrite Hpr, Hps.
    + rewrite Hsz, Hsz0, map_size_insert, HL. done.
    + rewrite Hc, (quorum_same rL rL') by done. intros i Hi. specialize (Hheld i Hi).
      pose proof (holders_mono ns i L rL rL' HL (prefix_last _ _ Hwf0 Hwf Hpre)). lia.
  - intros p r Hp Hr. rewrite Hpr. split; [by apply (Hf p r Hp Hr)|by apply Hlink].
  - intros m [Hin|Hin]%elem_of_app; [right; by apply Hm|by left].
Qed.

Definition beat (r : Raft) (p : Z) : Message :=
  let prev := matchIndex (getProgress (progress r) p) in
  mkMessage MSG_APP p (ID r) None None
    (Some (mkAppendEntries (currentTerm r) (ID r) prev (term_at (r_raftLog r) prev) []
             (rl_commitIndex (r_raftLog r)))) None.

Lemma leader_peers L t ns f rL ord p :
  steady_at L t ns f rL -> range_order rL ord -> p ∈ ord <-> p <> L /\ p ∈ dom ns.
Proof.
  intros H Hord. rewrite Hord, elem_of_elements, (lo_peers _ _ _ _ (sa_leader _ _ _ _ _ H)).
  rewrite elem_of_difference, not_elem_of_singleton. tauto.
Qed.

Lemma leader_beats L t ns f rL rL' ord r0 :
  steady_at L t ns f rL -> range_order rL ord ->
  (exists n, r0 = set_heartbeatTick n rL) -> broadcastHeartbeat ord r0 = Ok rL' ->
  exists new, outbox rL' ≡ₚ new ++ outbox rL /\ steady_at L t (<[L := rL']> ns) (new ++ f) rL'.
Proof.
  intros H Hord [n ->] Hstep. pose proof H as [HL [HID Hrole Hterm Hwf Hps Hdom Hsz Hheld] Hf Hlink _].
  unfold broadcastHeartbeat in Hstep. rewrite (messages_to_spec _ _ (beat rL)) in Hstep.
  2: { intros p Hp. apply (leader_peers L t ns f rL ord p H Hord) in Hp as [Hne [r Hr]%elem_of_dom].
       destruct (Hf p r Hne Hr) as [_ _ _ _ _ _ Hmatch]. unfold heartbeatMessage. cbn -[term].
       by rewrite term_lookup by (apply Hwf || apply Hmatch). }
  injection Hstep as <-. exists (beat rL <$> ord). split.
  { apply outbox_send; [|done]. exact (pending_set_msgs (set_heartbeatTick n rL) _). }
  eapply leader_sends; [done..| |].
  - intros p r Hp Hr. rewrite exchange_app, (exchange_none p (beat rL <$> ord)); [by apply Hlink|].
    intros m (q & -> & _)%list_elem_of_fmap [[_ [_ ?]]|[? _]]; done.
  - intros m (q & -> & Hq)%list_elem_of_fmap.
    apply (leader_peers L t ns f rL ord q H Hord) in Hq as [Hne _].
    split; [unfold msg_terms_le; cbn; split_and!; done || lia|]. cbn. split; [done|].
    intros r Hr ae [= <-] _. cbn. destruct (Hf q r Hne Hr) as [_ _ _ _ _ _ ?]. split_and!; done || lia.
Qed.

Lemma leader_timer L t ns f rL n :
  steady_at L t ns f rL -> steady_at L t (<[L := set_heartbeatTick n rL]> ns) f (set_heartbeatTick n rL).
Proof.
  intros H. pose proof H as [HL [HID Hrole Hterm Hwf Hps Hdom Hsz Hheld] Hf Hlink _].
  apply (leader_sends L t ns f rL _ []); try done. intros m Hm. by apply not_elem_of_nil in Hm.
Qed.

Lemma leader_tick L t ns f rL rL' ord :
  steady_at L t ns f rL -> range_order rL ord -> Tick ord rL = Ok rL' ->
  exists new, outbox rL' ≡ₚ new ++ outbox rL /\ steady_at L t (<[L := rL']> ns) (new ++ f) rL'.
Proof.
  intros H Hord Hstep. destruct (lo_role _ _ _ _ (sa_leader _ _ _ _ _ H)) as (_ & Es & Et).
  unfold Tick in Hstep. rewrite Et in Hstep. unfold tickLeader in Hstep.
  destruct (_ <=? _).
  - apply log_err_Ok in Hstep as [->|Hstep].
    + exists []. split; [done|]. exact (leader_timer L t ns f rL 0 H).
    + unfold Step in Hstep. cbn [step set_heartbeatTick] in Hstep. rewrite Es in Hstep.
      eapply leader_beats; [done..| |exact Hstep]. by exists 0.
  - injection Hstep as <-. exists []. split; [done|]. exact (leader_timer L t ns f rL _ H).
Qed.

(** ** A proposal *)

(** The answers are in: a proposal has the entries it needs. *)
Lemma answered_safe L t ns f rL :
  steady_at L t ns f rL -> (forall p, p <> L -> p ∈ dom ns -> exchange p f = []) -> progress_safe rL.
Proof.
  intros H Hquiet p Hp. pose proof H as [HL [_ _ _ _ Hps _ _ _] Hf Hlink _].
  rewrite Hps in Hp. apply elem_of_difference in Hp as [[r Hr]%elem_of_dom Hp].
  rewrite not_elem_of_singleton in Hp. destruct (Hf p r Hp Hr) as [_ _ _ Hwfp _ _ Hmatch].
  specialize (Hlink p r Hp Hr). rewrite Hquiet in Hlink by (done || apply elem_of_dom; by eexists).
  inversion Hlink. lia.
Qed.

Lemma leader_proposes L t ns f rL rL' ord c :
  steady_at L t ns f rL -> range_order rL ord ->
  (forall p, p <> L -> p ∈ dom ns -> exchange p f = []) ->
  Step ord (proposal c) rL = Ok rL' ->
  exists new, outbox rL' ≡ₚ new ++ outbox rL /\ steady_at L t (<[L := rL']> ns) (new ++ f) rL'.
Proof.
  intros H Hord Hquiet Hstep. pose proof H as [HL [HID Hrole Hterm Hwf Hps Hdom Hsz Hheld] Hf Hlink _].
  destruct Hrole as (El & Es & Et). unfold Step in Hstep. rewrite Es in Hstep. cbn in Hstep.
  assert (Hidle : forall p r, p <> L -> ns !! p = Some r ->
    0 <= lastIndex (r_raftLog r) < nextIndex (getProgress (progress rL) p) /\
    nextIndex (getProgress (progress rL) p) <= lastIndex (r_raftLog rL) + 1).
  { intros p r Hp Hr. specialize (Hlink p r Hp Hr). pose proof (fo_match _ _ _ _ _ (Hf p r Hp Hr)).
    rewrite Hquiet in Hlink by (done || apply elem_of_dom; by eexists). inversion Hlink. lia. }
  pose proof (answered_safe L t ns f rL H Hquiet) as Hsafe.
  destruct (replicate_Ok ord (proposal c) rL El Hwf Hsafe Hord) as (Hwf' & Elast & Hrep); [done|].
  rewrite Hrep in Hstep. cbn [wrap_err] in Hstep. injection Hstep as <-.
  set (l' := append _ (r_raftLog rL)) in *. change (zlen _) with 1 in Elast.
  set (rL' := set_msgsAfterAppend _ _). exists (suffix_message rL l' <$> ord). split.
  { apply outbox_send; [|done]. exact (pending_set_after (set_r_raftLog l' rL) _). }
  assert (Hsuffix : forall p, suffix_message rL l' p =
    suffix L t p l' (nextIndex (getProgress (progress rL) p) - 1) (rl_commitIndex l')).
  { intros p. unfold suffix_message, suffix. by rewrite HID, Hterm. }
  assert (Hconc : forall p q, p ∈ ord -> concerns p (suffix_message rL l' q) <-> q = p).
  { intros p q Hp. apply (leader_peers L t ns f rL ord p H Hord) in Hp as [Hne [r Hr]%elem_of_dom].
    split; [by intros [[_ [? _]]|[? _]]|]. intros ->. left. split_and!; [done..|].
    intros E%(f_equal length). rewrite Hsuffix in E. cbn -[l' drop] in E. rewrite length_drop in E.
    pose proof (Hidle p r Hne Hr). pose proof (wf_last _ Hwf') as El'. unfold zlen in El'. lia. }
  eapply leader_sends; [done|done|done|done|done|done|done|done|done| | |].
  - by eexists.
  - intros p r Hp Hr. assert (p ∈ ord) as Hin.
    { apply (leader_peers L t ns f rL ord p H Hord). split; [done|]. apply elem_of_dom. by eexists. }
    rewrite exchange_app, Hquiet, app_nil_r by (done || apply elem_of_dom; by eexists).
    rewrite (elements_fmap_filter ord _ p); [|rewrite Hord; apply NoDup_elements|done|exact (fun q => Hconc p q Hin)].
    rewrite Hsuffix. pose proof (Hidle p r Hp Hr). apply (link_sent L t p l'); [lia|done].
  - intros m (q & -> & Hq)%list_elem_of_fmap. rewrite Hsuffix.
    assert (concerns q (suffix_message rL l' q)) as Hc by (by apply (Hconc q q Hq)).
    rewrite Hsuffix in Hc. destruct Hc as [[_ [_ Hne]]|[? _]]; [|done].
    apply (leader_peers L t ns f rL ord q H Hord) in Hq as [HqL _].
    split; [unfold msg_terms_le; cbn; split_and!; done || lia|]. cbn. split; [done|].
    intros r Hr ae [= <-] Hes. by cbn in Hes.
Qed.

(** ** Timers and the I/O layer *)

(** Nothing the invariant speaks of changes but the place of the messages. *)
Record same_node (r r' : Raft) : Prop := {
  sn_ID : ID r' = ID r;
  sn_state : state r' = state r;
  sn_step : step r' = step r;
  sn_tick : tick r' = tick r;
  sn_term : currentTerm r' = currentTerm r;
  sn_peers : peers r' = peers r;
  sn_progress : progress r' = progress r;
  sn_size : clusterSize r' = clusterSize r;
  sn_entries : rl_entries (r_raftLog r') = rl_entries (r_raftLog r);
  sn_commit : rl_commitIndex (r_raftLog r') = rl_commitIndex (r_raftLog r);
  sn_log : wf_log (r_raftLog r) -> wf_log (r_raftLog r');
  sn_voted : votedFor r' = votedFor r;
  sn_votes : votes r' = votes r;
}.

Lemma steady_same L t ns f rL id r r' :
  steady_at L t ns f rL -> ns !! id = Some r -> same_node r r' ->
  exists rL', steady_at L t (<[id := r']> ns) f rL'.
Proof.
  intros H Hr [E1 E2 E3 E4 E5 E6 E7 E8 E9 E10 Hw _ _].
  assert (lastIndex (r_raftLog r') = lastIndex (r_raftLog r)) as El by (unfold lastIndex; by rewrite E9).
  destruct (decide (id = L)) as [->|Hne].
  - pose proof H as [HL [HID (? & ? & ?) Hterm Hwf _ _ _ _] Hf Hlink _].
    assert (r = rL) as -> by congruence. exists r'.
    apply (leader_sends L t ns f rL r' []); try done; try congruence.
    + split_and!; congruence.
    + by apply Hw.
    + by rewrite E9.
    + intros p rp Hp Hrp. apply (link_commit L t p (r_raftLog rL)); [done|lia|by apply Hlink].
    + intros m Hm. by apply not_elem_of_nil in Hm.
  - exists rL. eapply follower_stays; try done; [|by left].
    destruct (sa_follower _ _ _ _ _ H id r Hne Hr) as [? (? & ? & ?) ? ? ? ? ?].
    split; rewrite ?E9, ?E10, ?El; try done; [congruence|split_and!; congruence|lia|by apply Hw].
Qed.

Lemma Advance_same r : wf_log (r_raftLog r) -> same_node r (consumeReady r).
Proof.
  intros H. pose proof (Advance_log (set_readyc None r) H) as E. cbv zeta in E.
  split; try done; change (consumeReady r) with (Advance (set_readyc None r)); rewrite E; try done.
  intros [W1 W2 W3 W4]. set (l := mkRaftLog _ _ _ _). change (lastIndex l) with (lastIndex (r_raftLog r)).
  split; change (lastIndex l) with (lastIndex (r_raftLog r)); cbn; try done; lia.
Qed.

Lemma node_log L t ns f rL id r : steady_at L t ns f rL -> ns !! id = Some r -> wf_log (r_raftLog r).
Proof.
  intros H Hr. destruct (decide (id = L)) as [->|Hne].
  - pose proof (sa_lookup _ _ _ _ _ H). assert (r = rL) as -> by congruence. apply H.
  - by eapply sa_follower.
Qed.

Lemma callReady_moves r r' :
  wf_log (r_raftLog r) -> callReady r = Ok (Some r') -> same_node r r' /\ outbox r' ≡ₚ outbox r.
Proof.
  intros Hwf H. rewrite callReady_eq in H by done. destruct (hasReady r); [|by injection H as <-].
  destruct (readyc r) eqn:E; [done|]. injection H as <-. split; [done|].
  unfold outbox. rewrite E. cbn. by rewrite app_nil_r.
Qed.

(** ** Every step keeps the invariant *)

Lemma steady_step_inv L t s s' : steady L t s -> steady_step L s s' -> steady L t s'.
Proof.
  intros [rL H] Hs. destruct Hs as [pre m post r ord r' Hnet Hr Hord Hstep|r c ord r' Hr Hq Hord Hstep
    |id r ord r' Hr Hlate Hord Hstep|id r r' Hr Hready|id r rd Hr Hrd].
  - destruct (flight_split s _ r Hr) as (rest & Ef & Ef'). rewrite Hnet in Ef.
    set (g := (pre ++ post) ++ outbox r ++ rest).
    assert (flight s ≡ₚ m :: g) as Eg.
    { rewrite Ef. unfold g. rewrite <- !app_assoc. cbn. by rewrite <- Permutation_middle. }
    rewrite Eg in H. unfold steady. cbn [nodes].
    assert (exists new rL', outbox r' ≡ₚ new ++ outbox r /\
      steady_at L t (<[msg_To m := r']> (nodes s)) (new ++ g) rL') as (new & rL' & Hout & H').
    { destruct (decide (msg_To m = L)) as [E|Hne].
      - rewrite E in *. pose proof (sa_lookup _ _ _ _ _ H). assert (r = rL) as -> by congruence.
        destruct (leader_step L t _ m g rL r' ord H E Hstep). by exists [], r'.
      - destruct (follower_step L t _ m g rL _ r r' ord H Hne Hr eq_refl Hstep) as (new & ? & ?). eauto. }
    exists rL'. rewrite Ef', Hout, <- (app_assoc new).
    by rewrite (Permutation_app_swap_app (pre ++ post) new).
  - assert (r = rL) as -> by (pose proof (sa_lookup _ _ _ _ _ H); congruence).
    destruct (leader_proposes L t _ _ rL r' ord c H Hord Hq Hstep) as (new & Hout & H').
    exists r'. cbn [nodes]. by rewrite (flight_step s L rL r' (flight s) new).
  - destruct (decide (id = L)) as [->|Hne].
    + assert (r = rL) as -> by (pose proof (sa_lookup _ _ _ _ _ H); congruence).
      destruct (leader_tick L t _ _ rL r' ord H Hord Hstep) as (new & Hout & H').
      exists r'. cbn [nodes]. by rewrite (flight_step s L rL r' (flight s) new).
    + destruct (fo_role _ _ _ _ _ (sa_follower _ _ _ _ _ H id r Hne Hr)) as (_ & _ & Et).
      unfold Tick, tickElection in Hstep. rewrite Et in Hstep. cbn in Hstep.
      specialize (Hlate Hne). rewrite (proj2 (Z.leb_gt _ _)) in Hstep by lia. injection Hstep as <-.
      destruct (steady_same L t _ _ rL id r (set_electionTick (electionTick r + 1) r) H Hr) as [rL' H'];
        [by split|].
      exists rL'. cbn [nodes]. by rewrite (flight_step s id r _ (flight s) []).
  - destruct (callReady_moves r r' (node_log _ _ _ _ _ _ _ H Hr) Hready) as [Hsame Hout].
    destruct (steady_same L t _ _ rL id r r' H Hr Hsame) as [rL' H'].
    exists rL'. cbn [nodes]. by rewrite (flight_step s id r r' (flight s) []).
  - destruct (steady_same L t _ _ rL id r _ H Hr (Advance_same r (node_log _ _ _ _ _ _ _ H Hr))) as [rL' H'].
    exists rL'. cbn [nodes]. destruct (flight_split s id r Hr) as (rest & Ef & Ef').
    assert (outbox r ≡ₚ ready_messages rd ++ outbox (consumeReady r)) as Hout.
    { unfold outbox. rewrite Hrd. cbn. rewrite app_nil_r. apply Permutation_app_comm. }
    rewrite Ef', <- app_assoc. by rewrite Ef, Hout, <- app_assoc in H'.
Qed.

Lemma steady_run_inv L t s s' : steady L t s -> rtc (steady_step L) s s' -> steady L t s'.
Proof. intros H Hs. revert H. induction Hs; eauto using steady_step_inv. Qed.

(** A steady run is a run of the cluster, whose network only forgets nothing. *)
Definition within (s c : cluster) : Prop := nodes s = nodes c /\ net s ⊆ net c.

Lemma steady_step_cluster L s s' c :
  within s c -> steady_step L s s' -> exists c', cluster_step c c' /\ within s' c'.
Proof.
  intros [En Hnet] Hs. destruct Hs as [pre m post r ord r' Em Hr Hord Hstep|r x ord r' Hr _ Hord Hstep
    |id r ord r' Hr _ Hord Hstep|id r r' Hr Hready|id r rd Hr Hrd]; rewrite En in Hr.
  - eexists. split; [eapply (cs_deliver c (msg_To m) r m); [done| |done..]; apply Hnet; rewrite Em; set_solver|].
    split; [by rewrite <- En|]. cbn. rewrite Em in Hnet. set_solver.
  - eexists. split; [by eapply cs_propose|]. split; [by rewrite <- En|done].
  - eexists. split; [by eapply cs_tick|]. split; [by rewrite <- En|done].
  - eexists. split; [by eapply cs_ready|]. split; [by rewrite <- En|done].
  - eexists. split; [by eapply cs_send|]. split; [by rewrite <- En|]. cbn. set_solver.
Qed.

Lemma steady_run_cluster L s s' c :
  within s c -> rtc (steady_step L) s s' -> exists c', rtc cluster_step c c' /\ within s' c'.
Proof.
  intros Hw Hs. revert c Hw. induction Hs as [s|s s1 s' Hs _ IH]; intros c Hw; [by exists c|].
  destruct (steady_step_cluster L s s1 c Hw Hs) as (c1 & Hc & Hw1).
  destruct (IH c1 Hw1) as (c' & ? & ?). exists c'. split; [by eapply rtc_l|done].
Qed.
