(* ===== verification/Agreement.v ===== *)
(** * Agreement on the committed entries

    What the invariant of [Steady] gives: a majority stores every committed
    entry, and no node has another one at its index.  A leader just elected in a
    fresh cluster satisfies it, and a run shows two proposals.  The last section
    shows why one leader is asked for. *)
From S2P Require Import Prelude Proto RaftLog Raft Election Replication Cluster Steady.

Local Open Scope Z_scope.

(** ** A leader just elected, with nothing logged *)

Definition vote_message (t : Z) (m : Message) : Prop :=
  match msg_Type m with
  | MSG_VOTE => match msg_Vote m with Some v => i64 (GetVoteTerm v) <= t | None => False end
  | MSG_VOTE_RESP => match msg_VoteResp m with Some v => rvr_Term v <= t | None => True end
  | _ => False
  end /\ match msg_Type m, msg_VoteResp m with MSG_VOTE, Some _ => False | _, _ => True end /\
  match msg_Type m, msg_Vote m with MSG_VOTE_RESP, Some _ => False | _, _ => True end /\
  match msg_Entries m, msg_EntriesResp m with None, None => True | _, _ => False end.

#[global] Instance vote_message_dec t m : Decision (vote_message t m).
Proof. unfold vote_message. repeat case_match; apply _. Defined.

Lemma vote_message_calm L t l ns m : vote_message t m -> calm L t l ns m /\ forall q, ~ concerns q m.
Proof.
  unfold vote_message, calm, msg_terms_le, concerns. intros (Hm & H1 & H2 & H3).
  destruct (msg_Type m); try done; split; try (intros q [[? _]|[? _]]; done);
    destruct (msg_Vote m), (msg_VoteResp m), (msg_Entries m), (msg_EntriesResp m); cbn in *; split_and!; done.
Qed.

Lemma newRaftLog_wf : wf_log newRaftLog.
Proof. split; cbn; try lia. intros i e He. by rewrite lookup_nil in He. Qed.

Lemma fresh_steady L t s rL :
  nodes s !! L = Some rL -> in_role rL StateLeader -> currentTerm rL = t ->
  peers rL = dom (nodes s) ∖ {[L]} -> progress rL = gset_to_gmap (mkProgress 0 1) (peers rL) ->
  clusterSize rL = Z.of_nat (size (nodes s)) ->
  (forall id r, nodes s !! id = Some r -> ID r = id /\ r_raftLog r = newRaftLog /\
    (id <> L -> in_role r StateFollower /\ currentTerm r <= t)) ->
  (forall m, m ∈ flight s -> vote_message t m) ->
  steady L t s.
Proof.
  intros HL Hrole Hterm Hps Hpr Hsz Hnodes Hm. exists rL. destruct (Hnodes L rL HL) as (HID & Hlog & _).
  assert (Hprog : forall p r, p <> L -> nodes s !! p = Some r -> getProgress (progress rL) p = mkProgress 0 1).
  { intros p r Hp Hr. unfold getProgress. rewrite Hpr, lookup_gset_to_gmap, Hps.
    rewrite option_guard_True; [done|]. apply elem_of_difference. rewrite not_elem_of_singleton.
    split; [apply elem_of_dom; by eexists|done]. }
  split; try done.
  - split; rewrite ?Hlog; try apply newRaftLog_wf; try done; [by rewrite Hpr, dom_gset_to_gmap|cbn; lia].
  - intros p r Hp Hr. destruct (Hnodes p r Hr) as (? & E & Hf). destruct (Hf Hp).
    rewrite (Hprog p r Hp Hr), Hlog. split; rewrite ?E; done || apply newRaftLog_wf.
  - intros p r Hp Hr. destruct (Hnodes p r Hr) as (_ & E & _). rewrite (Hprog p r Hp Hr), Hlog, E.
    rewrite exchange_none; [by apply link_idle|]. intros m Hin. by apply (vote_message_calm L t newRaftLog (nodes s)), Hm.
  - intros m Hin. by apply vote_message_calm, Hm.
Qed.

(** ** Agreement *)

(** The nodes that store [e] at index [i + 1]. *)
Definition storing (ns : gmap Z Raft) (i : nat) (e : Log) : gmap Z Raft :=
  filter (fun kv : Z * Raft => rl_entries (r_raftLog kv.2) !! i = Some e) ns.

Lemma steady_agreed L t s id r i e :
  steady L t s -> nodes s !! id = Some r -> rl_entries (r_raftLog r) !! i = Some e ->
  Z.of_nat i < rl_commitIndex (r_raftLog r) ->
  Z.of_nat (size (nodes s)) < 2 * Z.of_nat (size (storing (nodes s) i e)) /\
  forall q rq eq, nodes s !! q = Some rq -> rl_entries (r_raftLog rq) !! i = Some eq -> eq = e.
Proof.
  intros [rL H] Hr He Hi.
  pose proof H as [HL [_ _ _ Hwf _ _ Hsz Hheld] Hf _ _].
  assert (Hpre : forall q rq, nodes s !! q = Some rq ->
    rl_entries (r_raftLog rq) `prefix_of` rl_entries (r_raftLog rL) /\
    wf_log (r_raftLog rq) /\ rl_commitIndex (r_raftLog rq) <= rl_commitIndex (r_raftLog rL)).
  { intros q rq Hq. destruct (decide (q = L)) as [->|Hne].
    - assert (rq = rL) as -> by congruence. done.
    - by destruct (Hf q rq Hne Hq). }
  assert (Hsame : forall q rq, nodes s !! q = Some rq -> forall j x, rl_entries (r_raftLog rq) !! j = Some x ->
    rl_entries (r_raftLog rL) !! j = Some x).
  { intros q rq Hq j x Hx. eapply prefix_lookup_Some; [done|by apply (Hpre q rq Hq)]. }
  pose proof (Hsame id r Hr i e He) as HeL. split.
  - destruct (Hpre id r Hr) as (_ & _ & Hc). specialize (Hheld (Z.of_nat i + 1) ltac:(lia)).
    assert (size (holders (nodes s) (Z.of_nat i + 1)) <= size (storing (nodes s) i e))%nat as Hle.
    { rewrite <- !size_dom. apply subseteq_size. intros q Hq.
      apply elem_of_dom in Hq as [x [Hx Hlast]%map_lookup_filter_Some]. apply elem_of_dom. exists x.
      apply map_lookup_filter_Some. split; [done|]. cbn in *. destruct (Hpre q x Hx) as (_ & Hwfx & _).
      rewrite (wf_last _ Hwfx) in Hlast. unfold zlen in Hlast.
      destruct (lookup_lt_is_Some_2 (rl_entries (r_raftLog x)) i) as [y Hy]; [lia|].
      rewrite Hy. specialize (Hsame q x Hx i y Hy). congruence. }
    unfold quorum in Hheld. rewrite Hsz in Hheld.
    set (n := Z.of_nat (size (nodes s))) in *.
    pose proof (Z.quot_div_nonneg n 2 ltac:(lia) ltac:(lia)). pose proof (Z.div_mod n 2 ltac:(lia)).
    pose proof (Z.mod_pos_bound n 2 ltac:(lia)). lia.
  - intros q rq eq Hq Heq. specialize (Hsame q rq Hq i eq Heq). congruence.
Qed.

(** One leader stays, no message arrives twice, and clients propose only
    when every append message was answered; messages may be lost or overtake
    each other.  Then a committed entry, the leader's or a follower's, is
    stored at its index by a majority of the nodes, and no node has another
    entry there. *)
Theorem sequential_replication_safe L t s s' id r i e :
  steady L t s -> rtc (steady_step L) s s' ->
  nodes s' !! id = Some r -> rl_entries (r_raftLog r) !! i = Some e ->
  Z.of_nat i < rl_commitIndex (r_raftLog r) ->
  Z.of_nat (size (nodes s')) < 2 * Z.of_nat (size (storing (nodes s') i e)) /\
  forall q rq eq, nodes s' !! q = Some rq -> rl_entries (r_raftLog rq) !! i = Some eq -> eq = e.
Proof. intros Hs Hrun. apply (steady_agreed L t). by eapply steady_run_inv. Qed.

(** ** A run *)

Definition exec_steady (L : Z) (a : action) (s : cluster) : option cluster :=
  match a with
  | Deliver i =>
      m ← net s !! i; r ← nodes s !! msg_To m;
      r' ← ok_option (Step (elements (peers r)) m r);
      Some (mkCluster (<[msg_To m := r']> (nodes s)) (take i (net s) ++ drop (S i) (net s)))
  | Propose id c =>
      if bool_decide (id = L /\ set_Forall (fun p => p = L \/ exchange p (flight s) = []) (dom (nodes s)))
      then exec a s else None
  | TickAt id =>
      r ← nodes s !! id;
      if bool_decide (id = L \/ electionTick r + 1 < randomizedTimeout r) then exec a s else None
  | _ => exec a s
  end.

Fixpoint exec_steady_all (L : Z) (acts : list action) (s : cluster) : option cluster :=
  match acts with
  | [] => Some s
  | a :: acts => s ← exec_steady L a s; exec_steady_all L acts s
  end.

Lemma exec_steady_sound L a s s' : exec_steady L a s = Some s' -> steady_step L s s'.
Proof.
  destruct a as [i|id c|id|id|id]; cbn -[exchange flight]; intros H.
  - apply bind_Some in H as (m & Hm & (r & Hr & (r' & Hs%ok_option_Some & [= <-])%bind_Some)%bind_Some).
    apply (ss_deliver L s _ m _ r (elements (peers r))); [|done|apply default_order|done].
    symmetry. by apply take_drop_middle.
  - case_bool_decide as Hq; [|done]. destruct Hq as [-> Hq].
    apply bind_Some in H as (r & Hr & (r' & Hs%ok_option_Some & ->)%fmap_Some).
    apply (ss_propose L s r c (elements (peers r))); [done| |apply default_order|done].
    intros p Hp Hin. by destruct (Hq p Hin).
  - apply bind_Some in H as (r & Hr & H). case_bool_decide as Hq; [|done].
    rewrite Hr in H. apply fmap_Some in H as (r' & Hs%ok_option_Some & ->).
    apply (ss_tick L s id r (elements (peers r))); [done| |apply default_order|done]. tauto.
  - apply bind_Some in H as (r & Hr & (ro & Hs%ok_option_Some & (r' & -> & ->)%fmap_Some)%bind_Some).
    by apply (ss_ready L s id r).
  - apply bind_Some in H as (r & Hr & (rd & Hrd & [= <-])%bind_Some). by apply (ss_send L s id r rd).
Qed.

Lemma exec_steady_all_sound L acts s s' : exec_steady_all L acts s = Some s' -> rtc (steady_step L) s s'.
Proof.
  revert s. induction acts as [|a acts IH]; cbn [exec_steady_all]; intros s.
  - intros [= ->]. constructor.
  - intros (s1 & Ha%exec_steady_sound & H)%bind_Some. eapply rtc_l; [done|by apply IH].
Qed.

(** The leader replicates one command to both followers, then a second to one
    of them, whose answer is enough to commit; the other's message is lost. *)
Definition two_proposals : list action :=
  [Propose 1 cmd_a; ReadyAt 1; SendAt 1; Deliver 5; Deliver 4; ReadyAt 2; SendAt 2; ReadyAt 3; SendAt 3;
   Deliver 5; Deliver 4; Propose 1 cmd_b; ReadyAt 1; SendAt 1; Deliver 5; ReadyAt 2; SendAt 2; Deliver 5;
   TickAt 3; TickAt 1; ReadyAt 1; SendAt 1; Deliver 6].

Definition replicated : cluster := default (init_cluster []) (exec_steady_all 1 two_proposals elected).

Example replicated_logs :
  (fun r => (committed_commands r, lastIndex (r_raftLog r))) <$> nodes replicated =
  {[1 := ([Some cmd_a; Some cmd_b], 2); 2 := ([Some cmd_a; Some cmd_b], 2); 3 := ([], 1)]}.
Proof. vm_compute. reflexivity. Qed.

#[global] Instance raftLog_eq_dec : EqDecision raftLog.
Proof. solve_decision. Defined.

#[global] Instance in_role_dec r x : Decision (in_role r x).
Proof. unfold in_role. apply _. Defined.

#[global] Instance Progress_eq_dec : EqDecision Progress.
Proof. solve_decision. Defined.

(** What [fresh_steady] asks of the leader. *)
Definition fresh_leader (L t : Z) (s : cluster) (r : Raft) : Prop :=
  in_role r StateLeader /\ currentTerm r = t /\ peers r = dom (nodes s) ∖ {[L]} /\
  progress r = gset_to_gmap (mkProgress 0 1) (peers r) /\ clusterSize r = Z.of_nat (size (nodes s)).

#[global] Instance fresh_leader_dec L t s r : Decision (fresh_leader L t s r).
Proof. unfold fresh_leader. apply _. Defined.

(** What [fresh_steady] asks of a cluster. *)
Definition fresh_clusterb (L t : Z) (s : cluster) : bool :=
  from_option (fun r => bool_decide (fresh_leader L t s r)) false (nodes s !! L) &&
  bool_decide (map_Forall (fun id r => ID r = id /\ r_raftLog r = newRaftLog /\
    (id <> L -> in_role r StateFollower /\ currentTerm r <= t)) (nodes s)) &&
  bool_decide (Forall (vote_message t) (flight s)).

Lemma fresh_clusterb_sound L t s : fresh_clusterb L t s = true -> steady L t s.
Proof.
  unfold fresh_clusterb. rewrite !andb_true_iff. intros [[Hl Hn%bool_decide_eq_true] Hm%bool_decide_eq_true].
  destruct (nodes s !! L) as [rL|] eqn:HL; [|done]. apply bool_decide_eq_true in Hl as (? & ? & ? & ? & ?).
  rewrite Forall_forall in Hm. by apply (fresh_steady L t s rL HL).
Qed.

Lemma elected_steady : steady 1 1 elected.
Proof. apply fresh_clusterb_sound. vm_compute. reflexivity. Qed.

Lemma sequential_replication_safe_witness :
  exists r e, nodes replicated !! 2 = Some r /\ rl_entries (r_raftLog r) !! 1%nat = Some e /\
    log_Data e = Some cmd_b /\
    Z.of_nat (size (nodes replicated)) < 2 * Z.of_nat (size (storing (nodes replicated) 1 e)).
Proof.
  destruct (nodes replicated !! 2) as [r|] eqn:Hr; [|by vm_compute in Hr].
  destruct (rl_entries (r_raftLog r) !! 1%nat) as [e|] eqn:He;
    [|vm_compute in Hr; injection Hr as <-; by vm_compute in He].
  exists r, e. split; [reflexivity|]. split; [exact He|].
  assert (log_Data e = Some cmd_b /\ Z.of_nat 1 < rl_commitIndex (r_raftLog r)) as [Hb Hc].
  { vm_compute in Hr. injection Hr as <-. vm_compute in He. injection He as <-. by vm_compute. }
  split; [exact Hb|].
  refine (proj1 (sequential_replication_safe 1 1 elected replicated 2 r 1 e elected_steady _ Hr He Hc)).
  apply (exec_steady_all_sound 1 two_proposals). vm_compute. reflexivity.
Defined.

(** ** Why one leader *)

(** Node 1 commits a command with node 3; node 3 then elects node 2, whose log
    is empty, and node 2 commits another command with it. *)
Definition lagging_candidate : list action :=
  [Propose 1 cmd_a; ReadyAt 1; SendAt 1; Deliver 4; ReadyAt 3; SendAt 3; Deliver 6] ++
  repeat (TickAt 2) 10 ++ [ReadyAt 2; SendAt 2; Deliver 7; ReadyAt 3; SendAt 3; Deliver 9;
  Propose 2 cmd_b; ReadyAt 2; SendAt 2; Deliver 10; ReadyAt 3; SendAt 3; Deliver 12].

(** [handleVoteRequest] does not compare the logs: with proposals one at a time
    and no message repeated or out of order, a second leader can still commit
    another command at an index that is committed. *)
Theorem lagging_leader_overwrites :
  exists n s r1 r2,
    nsteps cluster_step n (init_cluster [1; 2; 3]) s /\
    nodes s !! 1 = Some r1 /\ nodes s !! 2 = Some r2 /\
    committed_commands r1 = [Some cmd_a] /\ committed_commands r2 = [Some cmd_b].
Proof.
  eexists _, (after lagging_candidate), _, _.
  split; [apply after_run; vm_compute; by eexists|]. vm_compute. split_and!; reflexivity.
Qed.
