(* ===== verification/Progress.v ===== *)
(** * Proposals are committed

    The other half of [Agreement]: from a steady state in which every append
    message was answered and a majority is up to date, the leader can commit the
    next proposal, with each node taking part once.  The run is given: the leader
    proposes and sends; each of the majority takes its message and answers; the
    leader takes the answers. *)
From S2P Require Import Prelude Proto RaftLog Raft Election Replication Cluster Steady Agreement.

Local Open Scope Z_scope.

(** ** Steps that are always possible *)

Lemma deliver_run L s m r ord r' :
  m ∈ net s -> nodes s !! msg_To m = Some r -> range_order r ord -> Step ord m r = Ok r' ->
  exists s', steady_step L s s' /\ nodes s' = <[msg_To m := r']> (nodes s) /\ net s ≡ₚ m :: net s'.
Proof.
  intros Hm Hr Hord Hs. destruct (list_elem_of_split _ _ Hm) as (pre & post & E).
  exists (mkCluster (<[msg_To m := r']> (nodes s)) (pre ++ post)). split; [by eapply ss_deliver|].
  split; [done|]. rewrite E. cbn [net]. by rewrite Permutation_middle.
Qed.

Lemma same_trans r1 r2 r3 : same_node r1 r2 -> same_node r2 r3 -> same_node r1 r3.
Proof. intros [] []. split; try congruence. auto. Qed.

Lemma same_refl r : same_node r r.
Proof. by split. Qed.

(** ** A node empties its queues *)

Section drain.
Context (R : cluster -> cluster -> Prop).
Context (R_ready : forall s id r r', nodes s !! id = Some r -> callReady r = Ok (Some r') ->
  R s (mkCluster (<[id := r']> (nodes s)) (net s))).
Context (R_send : forall s id r rd, nodes s !! id = Some r -> readyc r = Some rd ->
  R s (mkCluster (<[id := consumeReady r]> (nodes s)) (net s ++ ready_messages rd))).

(** A node puts its [Ready] on the wire. *)
Lemma send_run s id r rd :
  nodes s !! id = Some r -> readyc r = Some rd -> wf_log (r_raftLog r) ->
  exists s' r', R s s' /\ nodes s' = <[id := r']> (nodes s) /\ same_node r r' /\
    net s' = net s ++ ready_messages rd /\ pending r' = pending r /\ readyc r' = None.
Proof.
  intros Hr Hrd Hwf. eexists _, (consumeReady r). split; [by apply (R_send s id r rd)|].
  split; [done|]. split; [by apply Advance_same|]. by split_and!.
Qed.

Lemma ready_run s id r :
  nodes s !! id = Some r -> readyc r = None -> pending r <> [] -> wf_log (r_raftLog r) ->
  exists s' r' rd, R s s' /\ nodes s' = <[id := r']> (nodes s) /\ same_node r r' /\
    net s' = net s /\ readyc r' = Some rd /\ ready_messages rd = pending r /\ pending r' = [].
Proof.
  intros Hr Hrd Hp Hwf. pose proof (callReady_eq r Hwf) as Hc.
  assert (hasReady r = true) as Hh.
  { unfold hasReady, pending in *. destruct (msgs r); [|done]. destruct (msgsAfterAppend r); [done|].
    by rewrite orb_true_r. }
  rewrite Hh, Hrd in Hc. set (r' := set_readyc _ _) in Hc.
  exists (mkCluster (<[id := r']> (nodes s)) (net s)), r', (ready_of r).
  split; [by eapply R_ready|]. by split_and!; [|apply (callReady_moves r r' Hwf)|..].
Qed.

Lemma outbox_empty r : pending r = [] -> readyc r = None -> outbox r = [].
Proof. unfold outbox. by intros -> ->. Qed.

(** Whatever a node has queued can be sent. *)
Lemma drain s id r :
  nodes s !! id = Some r -> wf_log (r_raftLog r) ->
  exists s' r', rtc R s s' /\ nodes s' = <[id := r']> (nodes s) /\ same_node r r' /\ outbox r' = [] /\
    forall m, m ∈ net s \/ m ∈ outbox r -> m ∈ net s'.
Proof.
  intros Hr Hwf.
  assert (Hidle : forall s r, nodes s !! id = Some r -> wf_log (r_raftLog r) -> readyc r = None ->
    exists s' r', rtc R s s' /\ nodes s' = <[id := r']> (nodes s) /\ same_node r r' /\ outbox r' = [] /\
      forall m, m ∈ net s \/ m ∈ pending r -> m ∈ net s').
  { clear - R_ready R_send. intros s r Hr Hwf Hrd. destruct (decide (pending r = [])) as [E|Hne].
    - exists s, r. split; [constructor|]. split; [by rewrite insert_id|]. split; [apply same_refl|].
      split; [by apply outbox_empty|]. rewrite E. intros m [?|Hm]; [done|]. by apply not_elem_of_nil in Hm.
    - destruct (ready_run s id r Hr Hrd Hne Hwf) as (s1 & r1 & rd & S1 & N1 & Hsame1 & E1 & Hrd1 & Em & Ep1).
      destruct (send_run s1 id r1 rd) as (s2 & r2 & S2 & N2 & Hsame2 & E2 & Ep2 & Hrd2);
        [rewrite N1; apply lookup_insert_eq|done|by apply Hsame1|].
      exists s2, r2. split; [eapply rtc_l, rtc_once; done|].
      split; [by rewrite N2, N1, insert_insert_eq|]. split; [by eapply same_trans|].
      split; [apply outbox_empty; [by rewrite Ep2|done]|].
      intros m Hm. rewrite E2, E1, Em. by apply elem_of_app. }
  destruct (readyc r) as [rd|] eqn:Hrd; unfold outbox at 2; rewrite Hrd; cbn [from_option].
  - destruct (send_run s id r rd Hr Hrd Hwf) as (s1 & r1 & S1 & N1 & Hsame1 & E1 & Ep & Hrd1).
    destruct (Hidle s1 r1) as (s2 & r2 & S2 & N2 & Hsame2 & Eo & Hm); [rewrite N1; apply lookup_insert_eq|by apply Hsame1|done|].
    exists s2, r2. split; [by eapply rtc_l|]. split; [by rewrite N2, N1, insert_insert_eq|].
    split; [by eapply same_trans|]. split; [done|]. intros m Hin. apply Hm. rewrite E1, Ep, !elem_of_app in *. tauto.
  - rewrite app_nil_r. by apply Hidle.
Qed.

End drain.

(** ** One follower *)

Lemma link_sent_inv L t p l lp pr m f :
  link L t p l lp pr f -> m ∈ f -> msg_Type m = MSG_APP ->
  exists c, m = suffix L t p l (nextIndex pr - 1) c /\ lastIndex lp <= nextIndex pr - 1 < lastIndex l.
Proof.
  intros H Hm Ht. destruct H; try (apply list_elem_of_singleton in Hm; subst; try done; eauto).
  by apply not_elem_of_nil in Hm.
Qed.

Lemma link_acked_inv L t p l lp pr m f :
  link L t p l lp pr f -> m ∈ f -> msg_Type m = MSG_APP_RESP -> nextIndex pr <= lastIndex lp + 1 ->
  m = answer L t p true.
Proof.
  intros H Hm Ht Hn. destruct H; try (apply list_elem_of_singleton in Hm; subst; try done); [|lia].
  by apply not_elem_of_nil in Hm.
Qed.

Lemma elem_of_exchange p m f : m ∈ f -> concerns p m -> m ∈ exchange p f.
Proof. intros. by apply list_elem_of_filter. Qed.

Lemma net_flight s m : m ∈ net s -> m ∈ flight s.
Proof. intros. unfold flight. apply elem_of_app. by left. Qed.

(** A follower that is up to date takes the message and queues an answer. *)
Lemma accept_run L t s rL p r m :
  steady L t s -> nodes s !! L = Some rL -> p <> L -> nodes s !! p = Some r ->
  m ∈ net s -> msg_To m = p -> msg_Type m = MSG_APP -> GetEntries (msg_Entries m) <> [] ->
  nextIndex (getProgress (progress rL) p) <= lastIndex (r_raftLog r) + 1 ->
  exists s' r' a, steady_step L s s' /\ nodes s' = <[p := r']> (nodes s) /\ net s ≡ₚ m :: net s' /\
    a ∈ outbox r' /\ msg_Type a = MSG_APP_RESP /\ msg_From a = p /\
    lastIndex (r_raftLog r) <= lastIndex (r_raftLog r').
Proof.
  intros [x Hat] HL Hp Hr Hm Hto Hty Hes Hnext.
  assert (x = rL) as -> by (pose proof (sa_lookup _ _ _ _ _ Hat); congruence).
  pose proof (sa_follower _ _ _ _ _ Hat p r Hp Hr) as [HID Hrole Hterm Hwf Hpre _ _].
  pose proof (lo_log _ _ _ _ (sa_leader _ _ _ _ _ Hat)) as Hwfl.
  destruct (link_sent_inv _ _ _ _ _ _ m _ (sa_link _ _ _ _ _ Hat p r Hp Hr)) as (c & Em & Hlast);
    [apply elem_of_exchange; [by apply net_flight|by left]|done|].
  set (r0 := set_electionTick 0 r).
  set (ae := mkAppendEntries t L (nextIndex (getProgress (progress rL) p) - 1)
    (term_at (r_raftLog rL) (nextIndex (getProgress (progress rL) p) - 1))
    (drop (Z.to_nat (nextIndex (getProgress (progress rL) p) - 1)) (rl_entries (r_raftLog rL))) c).
  assert (msg_Entries m = Some ae) as Eae by by rewrite Em.
  assert (Hacc : handleAppendEntries m r0 = Ok (set_msgsAfterAppend
    (msgsAfterAppend (follow t r0) ++ [appendResponse (follow t r0) (msg_From m) true])
    (set_r_raftLog (accepted_log ae (r_raftLog r0)) (follow t r0)))).
  { apply (append_accepted m ae r0 Eae); [apply Hwf|exact Hterm|by rewrite Eae in Hes|].
    intros Hpos. cbn [ae_PrevLogIdx ae_PrevLogTerm ae] in *. apply has_entry_term; [exact Hwf|cbn; lia|].
    symmetry. apply prefix_term; [done..|change (r_raftLog r0) with (r_raftLog r); lia]. }
  set (r' := set_msgsAfterAppend _ _) in Hacc.
  assert (Hstep : Step (elements (peers r)) m r = Ok r').
  { unfold Step. destruct Hrole as (_ & -> & _). unfold stepFollower. by rewrite Hty. }
  destruct (deliver_run L s m r (elements (peers r)) r') as (s' & S & N & E); [done|by rewrite Hto|apply default_order|done|].
  rewrite Hto in N. exists s', r', (appendResponse (follow t r0) (msg_From m) true). split_and!; try done.
  - unfold outbox, pending. cbn. rewrite !elem_of_app. left; right; right. by left.
  - cbn. destruct (follow_role t r0 Hrole) as (_ & -> & _). exact HID.
  - assert (wf_log (r_raftLog r')) as Hwf'.
    { destruct (steady_step_inv L t s s' ltac:(by eexists) S) as [y Hy]. apply (node_log _ _ _ _ _ p _ Hy).
      rewrite N. apply lookup_insert_eq. }
    rewrite !wf_last by done. unfold zlen. cbn. rewrite length_app. lia.
Qed.

Definition complete (r : Raft) : Prop :=
  forall i, rl_commitIndex (r_raftLog r) < i <= lastIndex (r_raftLog r) -> ~ committable r (r_raftLog r) i.

(** The leader but for its progress, its commit index and what it queued. *)
Record same_leader (r r' : Raft) : Prop := {
  sl_size : clusterSize r' = clusterSize r;
  sl_term : currentTerm r' = currentTerm r;
  sl_entries : rl_entries (r_raftLog r') = rl_entries (r_raftLog r);
}.

(** The leader takes the answer, and commits what it can. *)
Lemma answer_run L t s rL p r a :
  steady L t s -> nodes s !! L = Some rL -> p <> L -> nodes s !! p = Some r ->
  a ∈ net s -> msg_Type a = MSG_APP_RESP -> msg_From a = p ->
  nextIndex (getProgress (progress rL) p) <= lastIndex (r_raftLog r) + 1 ->
  exists s' rL', steady_step L s s' /\ nodes s' = <[L := rL']> (nodes s) /\ net s ≡ₚ a :: net s' /\
    same_leader rL rL' /\ complete rL' /\
    let last := lastIndex (r_raftLog rL) in
    progress rL' = <[p := mkProgress last (last + 1)]> (progress rL).
Proof.
  intros [x Hat] HL Hp Hr Ha Hty Hfrom Hnext.
  assert (x = rL) as -> by (pose proof (sa_lookup _ _ _ _ _ Hat); congruence).
  pose proof (sa_leader _ _ _ _ _ Hat) as [HID (_ & Es & _) Hterm Hwf _ _ _ _].
  assert (a = answer L t p true) as ->.
  { eapply link_acked_inv; [exact (sa_link _ _ _ _ _ Hat p r Hp Hr)|..]; try done.
    apply elem_of_exchange; [by apply net_flight|by right]. }
  set (last := lastIndex (r_raftLog rL)).
  set (r1 := set_progress (<[p := mkProgress last (last + 1)]> (progress rL)) rL).
  destruct (maybeCommit_Ok r1 Hwf) as (c & Hc & _ & _ & _ & Hmax).
  set (rL' := set_r_raftLog _ r1) in Hc.
  assert (Hstep : Step (elements (peers rL)) (answer L t p true) rL = Ok rL').
  { unfold Step. rewrite Es. cbn [stepLeader answer msg_Type]. unfold handleAppendResponse.
    cbn [answer msg_EntriesResp aer_CurrentTerm aer_Success msg_From].
    by rewrite Hterm, Z.ltb_irrefl. }
  destruct (deliver_run L s (answer L t p true) rL (elements (peers rL)) rL') as (s' & S & N & E);
    [done|done|apply default_order|done|].
  exists s', rL'. by split_and!.
Qed.

(** The message that waits for an up-to-date follower. *)
Definition waits_for (s : cluster) (rL : Raft) (p : Z) : Prop :=
  exists r m, nodes s !! p = Some r /\ m ∈ net s /\ msg_To m = p /\ msg_Type m = MSG_APP /\
    GetEntries (msg_Entries m) <> [] /\ nextIndex (getProgress (progress rL) p) <= lastIndex (r_raftLog r) + 1.

(** One follower: it takes its message, answers, and the leader takes the answer. *)
Lemma round L t s rL p :
  steady L t s -> nodes s !! L = Some rL -> p <> L -> waits_for s rL p ->
  exists s' rL', rtc (steady_step L) s s' /\ nodes s' !! L = Some rL' /\ same_leader rL rL' /\ complete rL' /\
    (let last := lastIndex (r_raftLog rL) in
     progress rL' = <[p := mkProgress last (last + 1)]> (progress rL)) /\
    (forall q, q <> L -> q <> p -> nodes s' !! q = nodes s !! q) /\
    (forall x, x ∈ net s -> msg_To x <> p -> msg_To x <> L -> x ∈ net s').
Proof.
  intros Hst HL Hp (r & m & Hr & Hm & Hto & Hty & Hes & Hnext).
  destruct (accept_run L t s rL p r m) as (s1 & r1 & a & S1 & N1 & E1 & Ha & Hat & Hfrom & Hlast); [done..|].
  pose proof (steady_step_inv L t s s1 Hst S1) as Hst1.
  assert (nodes s1 !! p = Some r1) as Hr1 by (rewrite N1; apply lookup_insert_eq).
  assert (nodes s1 !! L = Some rL) as HL1 by (by rewrite N1, lookup_insert_ne).
  assert (wf_log (r_raftLog r1)) as Hwf1 by (destruct Hst1 as [y Hy]; by eapply node_log).
  destruct (drain (steady_step L) (ss_ready L) (ss_send L) s1 p r1 Hr1 Hwf1) as (s2 & r2 & S2 & N2 & Hsame & _ & Hnet2).
  pose proof (steady_run_inv L t s1 s2 Hst1 S2) as Hst2.
  assert (nodes s2 !! L = Some rL) as HL2 by (by rewrite N2, lookup_insert_ne).
  assert (lastIndex (r_raftLog r2) = lastIndex (r_raftLog r1)) as El by (unfold lastIndex; by rewrite (sn_entries _ _ Hsame)).
  destruct (answer_run L t s2 rL p r2 a) as (s3 & rL' & S3 & N3 & E3 & Hsl & Hcomp & Hprog);
    [done|done|done|rewrite N2; apply lookup_insert_eq|apply Hnet2; by right|done|done|lia|].
  assert (msg_To a = L) as Hato.
  { destruct Hst2 as [y Hy]. destruct (sa_calm _ _ _ _ _ Hy a) as [_ Hc]; [apply net_flight, Hnet2; by right|].
    rewrite Hat in Hc. by destruct Hc. }
  exists s3, rL'. split_and!; try done.
  - eapply rtc_l; [done|]. etrans; [done|]. by apply rtc_once.
  - rewrite N3. apply lookup_insert_eq.
  - intros q HqL Hqp. by rewrite N3, N2, N1, !lookup_insert_ne by done.
  - intros x Hx Hxp HxL. assert (x ∈ net s2) as Hx2.
    { apply Hnet2. left. rewrite E1 in Hx. apply elem_of_cons in Hx as [->|?]; done. }
    rewrite E3 in Hx2. apply elem_of_cons in Hx2 as [->|?]; done.
Qed.

Lemma same_leader_trans r1 r2 r3 : same_leader r1 r2 -> same_leader r2 r3 -> same_leader r1 r3.
Proof. intros [] []. split; congruence. Qed.

(** Several followers, one after another. *)
Lemma rounds L t Q s rL :
  steady L t s -> nodes s !! L = Some rL -> NoDup Q -> L ∉ Q -> (forall p, p ∈ Q -> waits_for s rL p) ->
  exists s' rL', rtc (steady_step L) s s' /\ nodes s' !! L = Some rL' /\ same_leader rL rL' /\
    (Q <> [] \/ complete rL -> complete rL') /\
    (forall p, p ∈ Q -> progress rL' !! p = Some (mkProgress (lastIndex (r_raftLog rL)) (lastIndex (r_raftLog rL) + 1))) /\
    (forall p, p ∉ Q -> progress rL' !! p = progress rL !! p).
Proof.
  intros Hst HL Hnd. revert s rL Hst HL. induction Hnd as [|p Q Hp Hnd IH]; intros s rL Hst HL HQ Hw.
  - exists s, rL. split_and!; try done; [by intros [?|?]|]. intros p Hp. by apply not_elem_of_nil in Hp.
  - apply not_elem_of_cons in HQ as [HpL HQ].
    destruct (round L t s rL p Hst HL) as (s1 & rL1 & S1 & HL1 & Hsl1 & Hc1 & Hp1 & Hn1 & Hm1); [done|apply Hw; by left|].
    assert (lastIndex (r_raftLog rL1) = lastIndex (r_raftLog rL)) as El by (unfold lastIndex; by rewrite (sl_entries _ _ Hsl1)).
    cbv zeta in Hp1.
    destruct (IH s1 rL1) as (s2 & rL2 & S2 & HL2 & Hsl2 & Hc2 & Hin2 & Hout2); [by eapply steady_run_inv|done|done| |].
    { intros q Hq. assert (q <> p /\ q <> L) as [Hqp HqL] by (split; intros ->; done).
      destruct (Hw q ltac:(by right)) as (r & m & Hr & Hm & Hto & Hty & Hes & Hnext). exists r, m.
      rewrite Hn1 by done. split_and!; try done; [apply Hm1; congruence|].
      unfold getProgress. by rewrite Hp1, lookup_insert_ne by done. }
    exists s2, rL2. split; [by etrans|]. split; [done|]. split; [by eapply same_leader_trans|].
    split; [|split].
    + intros _. apply Hc2. by right.
    + intros q [->|Hq]%elem_of_cons; [|by rewrite <- El; apply Hin2].
      rewrite Hout2, Hp1 by done. by rewrite lookup_insert_eq.
    + intros q [Hqp Hq]%not_elem_of_cons. by rewrite Hout2, Hp1, lookup_insert_ne by done.
Qed.

(** ** A proposal is committed *)

Lemma acks_counted (r : Raft) Q i :
  NoDup Q -> (forall p, p ∈ Q -> exists pr, progress r !! p = Some pr /\ i <= matchIndex pr) ->
  1 + Z.of_nat (length Q) <= replicatedCount r i.
Proof.
  intros Hnd Hq. unfold replicatedCount.
  assert (length Q <= size (filter (fun p : Z * Progress => (i <= matchIndex p.2)%Z) (progress r)))%nat; [|lia].
  rewrite <- size_dom, <- (size_list_to_set (C := gset Z) Q) by done. apply subseteq_size.
  intros p Hp%elem_of_list_to_set. destruct (Hq p Hp) as (pr & Hpr & Hi). apply elem_of_dom. exists pr.
  by apply map_lookup_filter_Some.
Qed.

Lemma stamp_one t n (c : Cmd) : stampEntries t n [mkLog 0 0 (Some c)] = [mkLog t n (Some c)].
Proof. reflexivity. Qed.

(** The proposal is logged and its messages are sent. *)
Lemma propose_run L t s rL c :
  steady L t s -> nodes s !! L = Some rL -> answered L s ->
  exists s' rL', rtc (steady_step L) s s' /\ nodes s' = <[L := rL']> (nodes s) /\
    clusterSize rL' = clusterSize rL /\ currentTerm rL' = t /\ progress rL' = progress rL /\
    rl_entries (r_raftLog rL') = rl_entries (r_raftLog rL) ++ [mkLog t (lastIndex (r_raftLog rL) + 1) (Some c)] /\
    forall p r, p <> L -> nodes s !! p = Some r -> lastIndex (r_raftLog r) = lastIndex (r_raftLog rL) ->
      waits_for s' rL' p.
Proof.
  intros Hst HL Hans. pose proof Hst as [x Hat].
  assert (x = rL) as -> by (pose proof (sa_lookup _ _ _ _ _ Hat); congruence).
  pose proof (sa_leader _ _ _ _ _ Hat) as [HID (El & Es & _) Hterm Hwf Hps _ _ _].
  set (ord := elements (peers rL)).
  destruct (replicate_Ok ord (proposal c) rL El Hwf) as (Hwf' & Elast & Hrep);
    [by eapply answered_safe|apply default_order|done|].
  cbn [proposal msg_Entries GetEntries ae_Entries from_option] in Hwf', Elast, Hrep.
  rewrite stamp_one, Hterm in Hwf', Elast, Hrep. set (l' := append _ (r_raftLog rL)) in *.
  set (rL1 := set_msgsAfterAppend _ _) in Hrep.
  assert (Hstep : Step ord (proposal c) rL = Ok rL1) by (unfold Step; rewrite Es; cbn; by rewrite Hrep).
  set (s1 := mkCluster (<[L := rL1]> (nodes s)) (net s)).
  assert (S1 : steady_step L s s1) by (apply (ss_propose L s rL c ord); [done|done|apply default_order|done]).
  destruct (drain (steady_step L) (ss_ready L) (ss_send L) s1 L rL1) as (s2 & rL2 & S2 & N2 & [_ _ _ _ E5 _ E7 E8 E9 _ _ _ _] & _ & Hnet); [apply lookup_insert_eq|exact Hwf'|].
  exists s2, rL2. split; [by eapply rtc_l|]. split; [rewrite N2; apply insert_insert_eq|].
  split; [done|]. split; [by rewrite E5|]. split; [done|]. split; [by rewrite E9|].
  intros p r Hp Hr Hlast. exists r, (suffix_message rL l' p).
  assert (p ∈ ord) as Hord.
  { apply elem_of_elements. rewrite Hps. apply elem_of_difference. rewrite not_elem_of_singleton.
    split; [apply elem_of_dom; by eexists|done]. }
  pose proof (sa_link _ _ _ _ _ Hat p r Hp Hr) as Hlink.
  rewrite (Hans p Hp) in Hlink by (apply elem_of_dom; by eexists). inversion Hlink as [Hn| | |].
  split_and!; try done.
  - rewrite N2, lookup_insert_ne by done. cbn [nodes s1]. by rewrite lookup_insert_ne.
  - apply Hnet. right. unfold outbox, pending. rewrite !elem_of_app. left; right. cbn. rewrite elem_of_app. right.
    apply list_elem_of_fmap. by exists p.
  - cbn -[l']. intros E%(f_equal length). rewrite length_drop in E. cbn [length] in E.
    pose proof (wf_last _ Hwf') as Ell. pose proof (wf_last _ Hwf) as Ell0.
    unfold zlen in Ell, Elast, Ell0. cbn [length] in Elast. lia.
  - rewrite E7. cbn [progress rL1 set_msgsAfterAppend set_r_raftLog]. lia.
Qed.

(** C9: a proposal can always be committed.  From a steady state in which every
    append message was answered, with a majority of the nodes, the leader
    and at least one other included, that have all of its log, there is a run in which the leader logs a
    proposal as its next entry and commits it. *)
Theorem proposal_commits L t s rL c Q :
  steady L t s -> nodes s !! L = Some rL -> answered L s -> NoDup Q -> L ∉ Q -> Q <> [] ->
  (forall p, p ∈ Q -> exists r, nodes s !! p = Some r /\ lastIndex (r_raftLog r) = lastIndex (r_raftLog rL)) ->
  quorum rL <= 1 + Z.of_nat (length Q) ->
  exists s' rL', rtc (steady_step L) s s' /\ nodes s' !! L = Some rL' /\
    rl_entries (r_raftLog rL') = rl_entries (r_raftLog rL) ++ [mkLog t (lastIndex (r_raftLog rL) + 1) (Some c)] /\
    rl_commitIndex (r_raftLog rL') = lastIndex (r_raftLog rL) + 1.
Proof.
  intros Hst HL Hans Hnd HLQ Hne HQ Hq.
  destruct (propose_run L t s rL c Hst HL Hans) as (s1 & rL1 & S1 & N1 & Esz & Et & Epr & Ees & Hw).
  destruct (rounds L t Q s1 rL1) as (s2 & rL2 & S2 & HL2 & [Esz2 Et2 Ees2] & Hc & Hin & _).
  - by eapply steady_run_inv.
  - rewrite N1. apply lookup_insert_eq.
  - done.
  - done.
  - intros p Hp. destruct (HQ p Hp) as (r & Hr & Hlast). apply (Hw p r); [by intros ->|done|done].
  - exists s2, rL2. split; [by etrans|]. split; [done|]. split; [by rewrite Ees2|].
    assert (wf_log (r_raftLog rL2)) as Hwf2.
    { destruct (steady_run_inv L t s s2 Hst ltac:(by etrans)) as [y Hy]. by eapply node_log. }
    assert (lastIndex (r_raftLog rL1) = lastIndex (r_raftLog rL) + 1) as El1.
    { unfold lastIndex at 1. by rewrite Ees, last_snoc. }
    assert (lastIndex (r_raftLog rL2) = lastIndex (r_raftLog rL) + 1) as El2.
    { unfold lastIndex at 1. by rewrite Ees2, Ees, last_snoc. }
    pose proof (wf_commit _ Hwf2). destruct (decide (rl_commitIndex (r_raftLog rL2) = lastIndex (r_raftLog rL) + 1)) as [|Hlt];
      [done|exfalso]. apply (Hc ltac:(by left) (lastIndex (r_raftLog rL) + 1)); [lia|]. split.
    + rewrite (quorum_same rL rL2) by congruence. etransitivity; [exact Hq|]. apply acks_counted; [done|].
      intros p Hp. eexists. split; [by apply Hin|]. cbn. lia.
    + assert (0 <= lastIndex (r_raftLog rL)) as Hpos.
      { pose proof (wf_last _ Hwf2) as E. rewrite El2, Ees2, Ees in E. unfold zlen in E. rewrite length_app in E. cbn in E. lia. }
      apply has_entry_term; [done|lia|]. unfold term_at. rewrite (proj2 (Z.ltb_lt _ _)) by lia.
      pose proof (wf_last _ Hwf2) as E. rewrite El2, Ees2, Ees in E. unfold zlen in E. rewrite length_app in E. cbn in E.
      rewrite Ees2, Ees, lookup_app_r by lia. replace (_ - _)%nat with O by lia. cbn. congruence.
Qed.

Lemma proposal_commits_witness :
  exists s' rL', rtc (steady_step 1) elected s' /\ nodes s' !! 1 = Some rL' /\
    rl_entries (r_raftLog rL') = [mkLog 1 1 (Some cmd_a)] /\ rl_commitIndex (r_raftLog rL') = 1.
Proof.
  destruct (nodes elected !! 1) as [rL|] eqn:HL; [|by vm_compute in HL].
  destruct (nodes elected !! 2) as [r2|] eqn:H2; [|by vm_compute in H2].
  assert (r_raftLog rL = newRaftLog /\ quorum rL = 2) as [El Eq].
  { vm_compute in HL. injection HL as <-. vm_compute. split; reflexivity. }
  assert (r_raftLog r2 = newRaftLog) as E2.
  { vm_compute in H2. injection H2 as <-. vm_compute. reflexivity. }
  assert (answered 1 elected) as Hans.
  { assert (set_Forall (fun p => exchange p (flight elected) = []) (dom (nodes elected))) as Hall
      by (apply (bool_decide_eq_true_1 _); vm_compute; reflexivity).
    intros p _ Hin. exact (Hall p Hin). }
  destruct (proposal_commits 1 1 elected rL cmd_a [2] elected_steady HL Hans) as (s' & rL' & Hrun & HL' & Ees & Ec).
  - apply NoDup_singleton.
  - intros Hin. apply list_elem_of_singleton in Hin. discriminate Hin.
  - discriminate.
  - intros p Hp. apply list_elem_of_singleton in Hp as ->. exists r2. split; [exact H2|]. rewrite E2, El. reflexivity.
  - rewrite Eq. vm_compute. discriminate.
  - exists s', rL'. split; [exact Hrun|]. split; [exact HL'|]. rewrite El in Ees, Ec. split; [exact Ees|exact Ec].
Defined.
