(* ===== verification/Reigns.v ===== *)
(** * Leaders that follow one another

    [Steady] is about one leader.  Here leaders change: after a while under one
    leader comes an election, in which candidates campaign, nodes vote and an old
    leader learns of the newer term, and then a while under the next leader.
    [handleVoteRequest] does not compare the logs ([Agreement]), so the candidate
    that wins has to be one whose log reaches as far as any; with that, what was
    committed under one leader stays under all that follow. *)
From S2P Require Import Prelude Proto RaftLog Raft Election Replication Growth Cluster Steady Agreement Progress.

Local Open Scope Z_scope.

(** ** The steps of an election *)

(** The messages of an election: requests and answers of a vote; a heartbeat of
    an older term, which is refused; the refusal, from which an old leader learns
    of the newer term; a heartbeat that reaches an old leader, who ignores it; and
    the trigger of a heartbeat inside a node. *)
Definition electoral (r : Raft) (m : Message) : Prop :=
  match msg_Type m with
  | MSG_VOTE | MSG_VOTE_RESP => True
  | MSG_APP =>
      match msg_Entries m with
      | Some ae => ae_Entries ae = [] /\ (step r = Some StateLeader \/ ae_Term ae < currentTerm r)
      | None => False
      end
  | MSG_APP_RESP =>
      match msg_EntriesResp m with
      | Some resp => step r <> Some StateLeader \/ currentTerm r < aer_CurrentTerm resp
      | None => False
      end
  | MSG_HEARTBEAT => msg_Entries m = None
  | _ => False
  end.

#[global] Instance electoral_dec r m : Decision (electoral r m).
Proof. unfold electoral. repeat case_match; apply _. Defined.

(** Nobody proposes; any timer may run out, and messages may be lost. *)
Inductive election_step (s : cluster) : cluster -> Prop :=
  | el_deliver pre m post r ord r' :
      net s = pre ++ m :: post -> nodes s !! msg_To m = Some r -> range_order r ord ->
      electoral r m -> Step ord m r = Ok r' ->
      election_step s (mkCluster (<[msg_To m := r']> (nodes s)) (pre ++ post))
  | el_tick id r ord r' :
      nodes s !! id = Some r -> range_order r ord -> Tick ord r = Ok r' ->
      election_step s (mkCluster (<[id := r']> (nodes s)) (net s))
  | el_ready id r r' :
      nodes s !! id = Some r -> callReady r = Ok (Some r') ->
      election_step s (mkCluster (<[id := r']> (nodes s)) (net s))
  | el_send id r rd :
      nodes s !! id = Some r -> readyc r = Some rd ->
      election_step s (mkCluster (<[id := consumeReady r]> (nodes s)) (net s ++ ready_messages rd))
  | el_lose f : f ⊆+ net s -> election_step s (mkCluster (nodes s) f).

(** [L] has won the election of term [t], its log reaches as far as any, and it
    knows of all that is committed; the others know that they do not lead. *)
Record takes_over (L t : Z) (s : cluster) (rL : Raft) : Prop := {
  to_lookup : nodes s !! L = Some rL;
  to_role : in_role rL StateLeader;
  to_term : currentTerm rL = t;
  to_others p r : p <> L -> nodes s !! p = Some r ->
    in_role r StateFollower /\ currentTerm r <= t /\
    lastIndex (r_raftLog r) <= lastIndex (r_raftLog rL) /\
    rl_commitIndex (r_raftLog r) <= rl_commitIndex (r_raftLog rL);
  to_flight m : m ∈ flight s -> vote_message t m;
}.

(** A leader, its term and the cluster. *)
Inductive reign_step : Z * Z * cluster -> Z * Z * cluster -> Prop :=
  | reign_on L t s s' : steady_step L s s' -> reign_step (L, t, s) (L, t, s')
  | reign_change L t s L' t' s' rL :
      rtc election_step s s' -> t < t' -> takes_over L' t' s' rL ->
      reign_step (L, t, s) (L', t', s').

(** ** What a node keeps during an election *)

(** The progress [becomeLeader] writes, for a node that tracks its peers. *)
Definition fresh_progress (r : Raft) : gmap Z Progress :=
  gset_to_gmap (mkProgress 0 (lastIndex (r_raftLog r) + 1)) (peers r).

(** The log does not move, and a node that leads where it did not has the
    progress of a new leader. *)
Record campaigns (r r' : Raft) : Prop := {
  ca_ID : ID r' = ID r;
  ca_peers : peers r' = peers r;
  ca_size : clusterSize r' = clusterSize r;
  ca_entries : rl_entries (r_raftLog r') = rl_entries (r_raftLog r);
  ca_commit : rl_commitIndex (r_raftLog r') = rl_commitIndex (r_raftLog r);
  ca_log : wf_log (r_raftLog r) -> wf_log (r_raftLog r');
  ca_lead :
    (progress r' = progress r /\
      (state r' = StateLeader -> state r = StateLeader /\ currentTerm r' = currentTerm r)) \/
    (dom (progress r) ⊆ peers r -> progress r' = fresh_progress r);
}.

#[global] Instance campaigns_refl : Reflexive campaigns.
Proof. intros r. split; try done. by left. Qed.

Lemma fresh_dom r : dom (fresh_progress r) = peers r.
Proof. apply dom_gset_to_gmap. Qed.

#[global] Instance campaigns_trans : Transitive campaigns.
Proof.
  intros r1 r2 r3 [I1 P1 S1 E1 C1 W1 H1] [I2 P2 S2 E2 C2 W2 H2].
  assert (fresh_progress r2 = fresh_progress r1) as Ef.
  { unfold fresh_progress, lastIndex. by rewrite P1, E1. }
  split; try congruence; [auto|].
  destruct H1 as [[Ep1 Hl1]|Hf1], H2 as [[Ep2 Hl2]|Hf2].
  - left. split; [congruence|]. intros Hl. destruct (Hl2 Hl) as [Hl' ?].
    destruct (Hl1 Hl'). split; [done|congruence].
  - right. intros Hd. rewrite <- Ef. apply Hf2. by rewrite Ep1, P1.
  - right. intros Hd. rewrite Ep2. auto.
  - right. intros Hd. rewrite <- Ef. apply Hf2. by rewrite (Hf1 Hd), fresh_dom, P1.
Qed.

(** Neither the log nor the progress moves, and the role is not won. *)
Lemma campaigns_quiet r r' :
  ID r' = ID r -> peers r' = peers r -> clusterSize r' = clusterSize r -> r_raftLog r' = r_raftLog r ->
  progress r' = progress r ->
  (state r' = StateLeader -> state r = StateLeader /\ currentTerm r' = currentTerm r) -> campaigns r r'.
Proof. intros ? ? ? El ? ?. split; rewrite ?El; try done. by left. Qed.

Lemma campaigns_follow t r : campaigns r (becomeFollower t r).
Proof.
  destruct (core_is _ _ _ _ _ _ _ _ _ _ _ (becomeFollower_core t r)) as (E1 & E2 & E3 & _ & _ & E6 & _).
  apply campaigns_quiet; [done..|apply becomeFollower_rest| |by rewrite E6].
  unfold becomeFollower, resetTimeout. cbn. by destruct (0 <? electionTimeout r).
Qed.

Lemma campaigns_lead r : campaigns r (becomeLeader r).
Proof.
  split; try done. right. intros Hd.
  change (progress (becomeLeader r)) with (fresh_progress r ∪ progress r).
  apply map_eq. intros p. rewrite lookup_union. unfold fresh_progress. rewrite lookup_gset_to_gmap.
  destruct (decide (p ∈ peers r)) as [Hp|Hp].
  - rewrite option_guard_True by done. by destruct (progress r !! p).
  - rewrite option_guard_False by done.
    rewrite (proj1 (not_elem_of_dom (progress r) p)) by auto. done.
Qed.

Lemma campaigns_candidate r : campaigns r (candidate r).
Proof.
  destruct (becomeCandidate_core r) as (E & _ & El).
  destruct (core_is _ _ _ _ _ _ _ _ _ _ _ E) as (E1 & E2 & E3 & _ & _ & E6 & _).
  assert (progress (becomeCandidate r) = progress r) as Ep.
  { unfold becomeCandidate, resetTimeout. cbn. by destruct (0 <? electionTimeout r). }
  unfold candidate. revert E1 E2 E3 E6 El Ep. generalize (becomeCandidate r). intros c E1 E2 E3 E6 El Ep.
  destruct (self_vote_core c) as (Ec & _ & El').
  destruct (core_is _ _ _ _ _ _ _ _ _ _ _ Ec) as (F1 & F2 & F3 & _ & _ & F6 & _).
  apply campaigns_quiet; [congruence..|exact Ep|]. rewrite F6, E6. done.
Qed.

Lemma campaigns_send ms r : campaigns r (set_msgs (msgs r ++ ms) r).
Proof. by apply campaigns_quiet. Qed.

Lemma campaigns_if (b : bool) r r1 r2 : campaigns r r1 -> campaigns r r2 -> campaigns r (if b then r1 else r2).
Proof. by destruct b. Qed.

#[local] Hint Resolve campaigns_follow campaigns_lead campaigns_candidate campaigns_send campaigns_if : core.
#[local] Hint Extern 1 (campaigns ?r ?r) => reflexivity : core.

Lemma campaigns_campaign ord r : campaigns r (campaign ord r).
Proof.
  rewrite campaign_eq. transitivity (candidate r); [auto|]. generalize (candidate r). intros c. auto.
Qed.

Lemma handleVoteRequest_campaigns m r : campaigns r (handleVoteRequest m r).
Proof.
  unfold handleVoteRequest. destruct (msg_Vote m) as [req|]; [|done]. cbv zeta.
  destruct (_ <? currentTerm r); [apply campaigns_send|].
  set (r1 := if currentTerm r <? _ then _ else r).
  transitivity r1; [unfold r1; auto|]. clearbody r1.
  assert (forall to b t x, campaigns r1 (sendVoteResponse to b t (set_votedFor x r1))) as Hg
    by by intros; apply campaigns_quiet.
  assert (forall to b t, campaigns r1 (sendVoteResponse to b t r1)) as H
    by by intros; apply campaigns_quiet.
  destruct (votedFor r1 !! i64 (GetVoteTerm req)); [apply campaigns_if|]; (apply Hg || apply H).
Qed.

Lemma handleVoteResponse_campaigns m r r' :
  handleVoteResponse m r = Ok r' -> campaigns r r'.
Proof.
  unfold handleVoteResponse. destruct (msg_VoteResp m) as [resp|]; [|by intros [= <-]].
  destruct (_ <? _); [by intros [= <-]|]. destruct (_ <? _); [intros [= <-]; auto|].
  destruct (votes r) as [v|]; [|done]. cbv zeta. set (r1 := set_votes _ r). intros [= <-].
  transitivity r1; [by apply campaigns_quiet|]. auto.
Qed.

Lemma heartbeat_refused m ae r r' :
  msg_Entries m = Some ae -> ae_Term ae < currentTerm r ->
  handleAppendEntries m (set_electionTick 0 r) = Ok r' -> campaigns r r'.
Proof.
  intros E Hlt. unfold handleAppendEntries. rewrite E. cbn. rewrite (proj2 (Z.ltb_lt _ _)) by done.
  intros [= <-]. by apply campaigns_quiet.
Qed.

Lemma trigger_ignored m r r' :
  msg_Entries m = None -> handleAppendEntries m (set_electionTick 0 r) = Ok r' -> campaigns r r'.
Proof. intros E. unfold handleAppendEntries. rewrite E. intros [= <-]. by apply campaigns_quiet. Qed.

Lemma Step_campaigns ord m r r' : electoral r m -> Step ord m r = Ok r' -> campaigns r r'.
Proof.
  assert (Hid : forall x, x = Ok r' -> x = Ok r -> campaigns r r') by by intros x -> [= <-].
  assert (Hvote : Ok (handleVote ord m r) = Ok r' -> campaigns r r').
  { intros [= <-]. unfold handleVote.
    destruct (msg_Vote m); [apply handleVoteRequest_campaigns|apply campaigns_campaign]. }
  unfold electoral, Step, stepFollower, stepCandidate, stepLeader.
  destruct (msg_Type m); try done; destruct (step r) as [[]|]; try done; intros Hm Hs;
    try (by apply Hvote); try (by eapply Hid); try (by eapply handleVoteResponse_campaigns).
  - destruct (msg_Entries m) as [ae|] eqn:E; [|done]. destruct Hm as [_ [?|?]]; [done|]. by eapply heartbeat_refused.
  - destruct (msg_Entries m) as [ae|] eqn:E; [|done]. destruct Hm as [_ [?|?]]; [done|]. by eapply heartbeat_refused.
  - destruct (msg_Entries m) as [ae|] eqn:E; [|done]. destruct Hm as [Hes _]. unfold replicate in Hs.
    destruct (negb (isLead r)); [done|]. rewrite E in Hs. cbn in Hs. rewrite Hes in Hs. by eapply Hid.
  - unfold handleAppendResponse in Hs. destruct (msg_EntriesResp m) as [resp|]; [|done].
    destruct Hm as [?|Hlt]; [done|]. rewrite (proj2 (Z.ltb_lt _ _)) in Hs by done. injection Hs as <-. auto.
  - by eapply trigger_ignored.
  - by eapply trigger_ignored.
  - unfold broadcastHeartbeat in Hs. apply bind_Ok_inv in Hs as (ms & _ & Hs). injection Hs as <-. auto.
Qed.

Lemma Tick_campaigns ord r r' : Tick ord r = Ok r' -> campaigns r r'.
Proof.
  assert (Helect : tickElection ord r = Ok r' -> campaigns r r').
  { unfold tickElection. cbv zeta. destruct (_ <=? _); [|intros [= <-]; by apply campaigns_quiet].
    set (r1 := set_electionTick 0 _). intros H. transitivity r1; [by apply campaigns_quiet|].
    apply log_err_Ok in H as [->|H]; [done|]. by eapply Step_campaigns; [|exact H]. }
  unfold Tick. destruct (tick r) as [[]|]; try done.
  unfold tickLeader. cbv zeta. destruct (_ <=? _); [|intros [= <-]; by apply campaigns_quiet].
  set (r1 := set_heartbeatTick 0 _). intros H. transitivity r1; [by apply campaigns_quiet|].
  apply log_err_Ok in H as [->|H]; [done|]. by eapply Step_campaigns; [|exact H].
Qed.

(** ** An election *)

Definition campaigns_all (s s' : cluster) : Prop :=
  dom (nodes s') = dom (nodes s) /\
  (forall id r', nodes s' !! id = Some r' -> exists r, nodes s !! id = Some r /\ campaigns r r').

Lemma campaigns_update s id r r' f :
  nodes s !! id = Some r -> campaigns r r' -> campaigns_all s (mkCluster (<[id := r']> (nodes s)) f).
Proof.
  intros Hr Hc. split; [by apply dom_insert_lookup_L; eexists|]. cbn. intros q x Hq.
  destruct (decide (q = id)) as [->|Hne].
  - rewrite lookup_insert_eq in Hq. injection Hq as <-. by exists r.
  - rewrite lookup_insert_ne in Hq by done. by exists x.
Qed.

Lemma campaigns_same r r' : same_node r r' -> campaigns r r'.
Proof. intros []. split; try done. left. split; [done|]. intros. split; congruence. Qed.

(** The logs of all nodes are as they should be. *)
Definition logs_wf (s : cluster) : Prop := map_Forall (fun _ r => wf_log (r_raftLog r)) (nodes s).

Lemma election_step_campaigns s s' : logs_wf s -> election_step s s' -> campaigns_all s s'.
Proof.
  intros Hwf Hs. destruct Hs as [pre m post r ord r' _ Hr _ Hm Hs|id r ord r' Hr _ Hs|id r r' Hr Hs|id r rd Hr _|f _].
  - eapply campaigns_update; [done|by eapply Step_campaigns].
  - eapply campaigns_update; [done|by eapply Tick_campaigns].
  - eapply campaigns_update; [done|]. apply campaigns_same. by apply (callReady_moves r r' (Hwf _ _ Hr)).
  - eapply campaigns_update; [done|]. apply campaigns_same, Advance_same, (Hwf _ _ Hr).
  - split; [done|]. intros id r Hr. by exists r.
Qed.

Lemma campaigns_wf s s' : logs_wf s -> campaigns_all s s' -> logs_wf s'.
Proof. intros Hwf [_ Hc] id r' Hr'. destruct (Hc id r' Hr') as (r & Hr & Hcr). apply Hcr, (Hwf _ _ Hr). Qed.

Lemma election_campaigns s s' : logs_wf s -> rtc election_step s s' -> campaigns_all s s'.
Proof.
  intros Hwf Hs. induction Hs as [s|s s1 s' Hs _ IH].
  - split; [done|]. intros id r Hr. by exists r.
  - pose proof (election_step_campaigns s s1 Hwf Hs) as H1. destruct (IH (campaigns_wf s s1 Hwf H1)) as [D2 H2].
    split; [by rewrite D2, (proj1 H1)|]. intros id r2 Hr2.
    destruct (H2 id r2 Hr2) as (r1 & Hr1 & Hc2). destruct (proj2 H1 id r1 Hr1) as (r & Hr & Hc1).
    exists r. split; [done|by etrans].
Qed.

(** ** Nodes track their peers and nobody else *)

Record tidy_node (ns : gmap Z Raft) (id : Z) (r : Raft) : Prop := {
  td_ID : ID r = id;
  td_peers : peers r = dom ns ∖ {[id]};
  td_size : clusterSize r = Z.of_nat (size ns);
  td_progress : dom (progress r) ⊆ peers r;
}.

Definition tidy (s : cluster) : Prop := map_Forall (tidy_node (nodes s)) (nodes s).

Record keeps (r r' : Raft) : Prop := {
  kp_ID : ID r' = ID r;
  kp_peers : peers r' = peers r;
  kp_size : clusterSize r' = clusterSize r;
  kp_progress : dom (progress r) ⊆ peers r -> dom (progress r') ⊆ peers r;
}.

#[global] Instance keeps_refl : Reflexive keeps.
Proof. by intros r. Qed.

#[global] Instance keeps_trans : Transitive keeps.
Proof.
  intros r1 r2 r3 [I1 P1 S1 D1] [I2 P2 S2 D2]. split; try congruence. intros H. rewrite <- P1. apply D2.
  rewrite P1. auto.
Qed.

Lemma campaigns_keeps r r' : campaigns r r' -> keeps r r'.
Proof.
  intros [? ? ? _ _ _ Hl]. split; try done. intros Hd. destruct Hl as [[-> _]|Hl]; [done|].
  by rewrite (Hl Hd), fresh_dom.
Qed.

Lemma keeps_log l r : keeps r (set_r_raftLog l r).
Proof. done. Qed.

Lemma keeps_if (b : bool) r r1 r2 : keeps r r1 -> keeps r r2 -> keeps r (if b then r1 else r2).
Proof. by destruct b. Qed.

Lemma handleAppendEntries_keeps m r r' : handleAppendEntries m r = Ok r' -> keeps r r'.
Proof.
  unfold handleAppendEntries. destruct (msg_Entries m) as [ae|]; [|by intros [= <-]].
  destruct (_ <? currentTerm r); [by intros [= <-]|].
  set (r1 := if currentTerm r <? ae_Term ae then _ else r). cbv zeta.
  assert (keeps r r1) as H1 by (unfold r1; apply keeps_if; [apply campaigns_keeps, campaigns_follow|done]).
  clearbody r1. intros (mm & _ & H)%bind_Ok_inv. transitivity r1; [done|]. clear H1.
  destruct mm; injection H as <-; [done|].
  set (r2 := if 0 <? zlen (ae_Entries ae) then set_r_raftLog _ r1 else r1).
  transitivity r2; [unfold r2; by apply keeps_if|]. clearbody r2.
  set (r3 := if rl_commitIndex _ <? _ then _ else r2).
  transitivity r3; [unfold r3; by apply keeps_if|]. clearbody r3.
  by apply keeps_if.
Qed.

(** A follower of a steady cluster. *)
Lemma follower_keeps ord m r r' :
  in_role r StateFollower -> (msg_Type m = MSG_VOTE -> msg_Vote m <> None) ->
  Step ord m r = Ok r' -> keeps r r'.
Proof.
  intros (_ & Es & _) Hv. unfold Step, stepFollower. rewrite Es.
  assert (Happ : handleAppendEntries m (set_electionTick 0 r) = Ok r' -> keeps r r').
  { intros H%handleAppendEntries_keeps. by transitivity (set_electionTick 0 r). }
  destruct (msg_Type m); try (by intros [= <-]); [exact Happ| |exact Happ].
  intros [= <-]. unfold handleVote. destruct (msg_Vote m); [|by destruct Hv].
  apply campaigns_keeps, handleVoteRequest_campaigns.
Qed.

Lemma tidy_kept ns ns' id r r' :
  dom ns' = dom ns -> keeps r r' -> tidy_node ns id r -> tidy_node ns' id r'.
Proof.
  intros Hd [? ? ? Hp] [? ? ? ?]. assert (size ns' = size ns) as Es by by rewrite <- !size_dom, Hd.
  split; rewrite ?Hd, ?Es; try congruence. rewrite kp_peers0. auto.
Qed.

Lemma keeps_update s id r r' f :
  nodes s !! id = Some r -> keeps r r' -> tidy s -> tidy (mkCluster (<[id := r']> (nodes s)) f).
Proof.
  intros Hr Hk Ht. assert (dom (<[id := r']> (nodes s)) = dom (nodes s)) as Hd by by apply dom_insert_lookup_L; eexists.
  intros q x Hq. cbn in *. destruct (decide (q = id)) as [->|Hne].
  - rewrite lookup_insert_eq in Hq. injection Hq as <-. eapply tidy_kept; [done|done|by apply Ht].
  - rewrite lookup_insert_ne in Hq by done. eapply tidy_kept; [done|done|by apply Ht].
Qed.

(** The invariant of [Steady] has it for the leader. *)
Lemma leader_update L t s rL r' f :
  nodes s !! L = Some rL -> steady L t (mkCluster (<[L := r']> (nodes s)) f) ->
  tidy s -> tidy (mkCluster (<[L := r']> (nodes s)) f).
Proof.
  intros HL [x Hat] Ht. pose proof (sa_lookup _ _ _ _ _ Hat) as E. cbn in E. rewrite lookup_insert_eq in E.
  injection E as <-. destruct (sa_leader _ _ _ _ _ Hat) as [? ? ? ? Hps ? ? ?]. cbn [nodes] in *.
  assert (keeps rL r') as Hk; [|by eapply keeps_update].
  destruct (Ht L rL HL) as [? Hps0 Hsz0 ?].
  assert (dom (<[L := r']> (nodes s)) = dom (nodes s)) as Hd by by apply dom_insert_lookup_L; eexists.
  rewrite Hd in Hps. rewrite map_size_insert_Some in lo_size by by eexists.
  split; try congruence. intros _. replace (peers rL) with (peers r') by congruence. done.
Qed.

Lemma steady_step_tidy L t s s' : steady L t s -> steady_step L s s' -> tidy s -> tidy s'.
Proof.
  intros Hst Hs. pose proof (steady_step_inv L t s s' Hst Hs) as Hst'. destruct Hst as [rL Hat].
  assert (Hrole : forall id r, id <> L -> nodes s !! id = Some r -> in_role r StateFollower).
  { intros id r Hne Hr. by destruct (sa_follower _ _ _ _ _ Hat id r Hne Hr). }
  assert (Hgen : forall id r r' f, nodes s !! id = Some r -> s' = mkCluster (<[id := r']> (nodes s)) f ->
    (id <> L -> keeps r r') -> tidy s -> tidy s').
  { intros id r r' f Hr -> Hk Ht. destruct (decide (id = L)) as [->|Hne].
    - by eapply leader_update.
    - eapply keeps_update; [done|by apply Hk|done]. }
  destruct Hs as [pre m post r ord r' Hnet Hr Hord Hs|r c ord r' Hr _ _ _|id r ord r' Hr Hlate _ Hs|id r r' Hr Hs|id r rd Hr _];
    (eapply Hgen; [done..|]); intros Hne.
  - eapply follower_keeps; [by eapply Hrole| |done]. intros Hv.
    assert (m ∈ flight s) as Hm by (apply net_flight; rewrite Hnet; set_solver).
    destruct (sa_calm _ _ _ _ _ Hat m Hm) as [_ Hc]. by rewrite Hv in Hc.
  - done.
  - destruct (Hrole id r Hne Hr) as (_ & _ & Et). unfold Tick, tickElection in Hs. rewrite Et in Hs. cbn in Hs.
    specialize (Hlate Hne). rewrite (proj2 (Z.leb_gt _ _)) in Hs by lia. by injection Hs as <-.
  - apply campaigns_keeps, campaigns_same. by apply (callReady_moves r r' (node_log _ _ _ _ _ _ _ Hat Hr)).
  - by apply campaigns_keeps, campaigns_same, Advance_same, (node_log _ _ _ _ _ _ _ Hat Hr).
Qed.

(** ** The next leader *)

Lemma tidy_campaigns s s' : campaigns_all s s' -> tidy s -> tidy s'.
Proof.
  intros [Hd Hc] Ht id r' Hr'. destruct (Hc id r' Hr') as (r & Hr & Hcr).
  eapply tidy_kept; [done|by apply campaigns_keeps|by apply Ht].
Qed.

Lemma steady_wf_logs L t s : steady L t s -> logs_wf s.
Proof. intros [rL H] id r Hr. by eapply node_log. Qed.

(** All logs are prefixes of one. *)
Lemma prefix_shorter (es es1 es2 : list Log) :
  es1 `prefix_of` es -> es2 `prefix_of` es -> (length es1 <= length es2)%nat -> es1 `prefix_of` es2.
Proof. intros H1 H2 Hle. destruct (prefix_weak_total _ _ _ H1 H2) as [|H]; [done|].
  by rewrite (prefix_length_eq _ _ H Hle). Qed.

Lemma steady_log L t s id r rL :
  steady_at L t (nodes s) (flight s) rL -> nodes s !! id = Some r ->
  rl_entries (r_raftLog r) `prefix_of` rl_entries (r_raftLog rL) /\
  rl_commitIndex (r_raftLog r) <= rl_commitIndex (r_raftLog rL).
Proof.
  intros H Hr. destruct (decide (id = L)) as [->|Hne].
  - pose proof (sa_lookup _ _ _ _ _ H). by assert (r = rL) as -> by congruence.
  - by destruct (sa_follower _ _ _ _ _ H id r Hne Hr).
Qed.

(** The winner of the election tracks its peers with the progress of a new leader. *)
Lemma winner_progress L t s L' t' s' rL' :
  steady L t s -> tidy s -> campaigns_all s s' -> t < t' -> takes_over L' t' s' rL' ->
  progress rL' = fresh_progress rL'.
Proof.
  intros [rL H] Ht [_ Hc] Hlt [HL' (Hl & _) Hterm _ _].
  destruct (Hc L' rL' HL') as (r & Hr & [? Hps _ Hes _ _ Hlead]).
  assert (fresh_progress rL' = fresh_progress r) as -> by (unfold fresh_progress, lastIndex; by rewrite Hps, Hes).
  destruct Hlead as [[_ Hl']|Hf]; [|by apply Hf, (Ht L' r Hr)].
  destruct (Hl' Hl) as [Hlr Etr]. destruct (decide (L' = L)) as [->|Hne].
  - pose proof (sa_lookup _ _ _ _ _ H). assert (r = rL) as -> by congruence.
    pose proof (lo_term _ _ _ _ (sa_leader _ _ _ _ _ H)). lia.
  - destruct (fo_role _ _ _ _ _ (sa_follower _ _ _ _ _ H L' r Hne Hr)). congruence.
Qed.

Lemma holders_same s s' i :
  campaigns_all s s' -> (size (holders (nodes s) i) <= size (holders (nodes s') i))%nat.
Proof.
  intros [Hd Hc]. rewrite <- !size_dom. apply subseteq_size. intros q Hq.
  apply elem_of_dom in Hq as [x [Hx Hi]%map_lookup_filter_Some].
  assert (q ∈ dom (nodes s')) as [x' Hx']%elem_of_dom by (rewrite Hd; apply elem_of_dom; by eexists).
  apply elem_of_dom. exists x'. apply map_lookup_filter_Some. split; [done|].
  destruct (Hc q x' Hx') as (y & Hy & Hcy). assert (y = x) as -> by congruence.
  cbn in *. unfold lastIndex in *. by rewrite (ca_entries _ _ Hcy).
Qed.

Lemma winner_ok L t s L' t' s' rL' :
  steady L t s -> tidy s -> campaigns_all s s' -> takes_over L' t' s' rL' -> leader_ok L' t' (nodes s') rL'.
Proof.
  intros Hst Ht Hc [HL' Hrole Hterm _ _].
  pose proof (tidy_campaigns s s' Hc Ht L' rL' HL') as [HID Hps Hsz Hdom].
  pose proof (campaigns_wf s s' (steady_wf_logs L t s Hst) Hc L' rL' HL') as Hwf.
  destruct Hst as [rL H]. split; try done. intros i Hi.
  destruct (proj2 Hc L' rL' HL') as (r & Hr & Hcr). rewrite (ca_commit _ _ Hcr) in Hi.
  destruct (steady_log L t s L' r rL H Hr) as [_ Hle].
  pose proof (lo_commit _ _ _ _ (sa_leader _ _ _ _ _ H) i ltac:(lia)) as Hq.
  pose proof (holders_same s s' i Hc). unfold quorum in *.
  rewrite (lo_size _ _ _ _ (sa_leader _ _ _ _ _ H)) in Hq. rewrite Hsz.
  rewrite <- !size_dom in *. rewrite (proj1 Hc). rewrite !size_dom in *. lia.
Qed.

Lemma handover_steady L t s L' t' s' rL' :
  steady L t s -> tidy s -> campaigns_all s s' -> t < t' -> takes_over L' t' s' rL' -> steady L' t' s'.
Proof.
  intros Hst Ht Hc Hlt Hto. pose proof (winner_ok L t s L' t' s' rL' Hst Ht Hc Hto) as Hlo.
  pose proof (winner_progress L t s L' t' s' rL' Hst Ht Hc Hlt Hto) as Hprog.
  pose proof (campaigns_wf s s' (steady_wf_logs L t s Hst) Hc) as Hwf.
  pose proof (tidy_campaigns s s' Hc Ht) as Ht'. destruct Hst as [rL H].
  destruct Hto as [HL' Hrole Hterm Hothers Hflight].
  assert (Hpr : forall p r, p <> L' -> nodes s' !! p = Some r ->
    getProgress (progress rL') p = mkProgress 0 (lastIndex (r_raftLog rL') + 1)).
  { intros p r Hp Hr. unfold getProgress. rewrite Hprog. unfold fresh_progress.
    rewrite lookup_gset_to_gmap, option_guard_True; [done|]. rewrite (lo_peers _ _ _ _ Hlo).
    apply elem_of_difference. rewrite not_elem_of_singleton. split; [apply elem_of_dom; by eexists|done]. }
  assert (Hlast : forall p r, nodes s' !! p = Some r -> lastIndex (r_raftLog r) = zlen (rl_entries (r_raftLog r))).
  { intros p r Hr. apply wf_last, (Hwf p r Hr). }
  exists rL'. split; [done|done| | |].
  - intros p r Hp Hr. destruct (Hothers p r Hp Hr) as (Hf & Htm & Hle & Hcm).
    rewrite (Hpr p r Hp Hr). split; try done; [by apply (Ht' p r Hr)|by apply (Hwf p r Hr)| |].
    + destruct (proj2 Hc p r Hr) as (r0 & Hr0 & Hcr). destruct (proj2 Hc L' rL' HL') as (rL0 & HrL0 & HcL).
      apply (prefix_shorter (rl_entries (r_raftLog rL))).
      * rewrite (ca_entries _ _ Hcr). apply (steady_log L t s p r0 rL H Hr0).
      * rewrite (ca_entries _ _ HcL). apply (steady_log L t s L' rL0 rL H HrL0).
      * rewrite (Hlast p r Hr), (Hlast L' rL' HL') in Hle. unfold zlen in Hle. lia.
    + cbn. rewrite (Hlast p r Hr). unfold zlen. lia.
  - intros p r Hp Hr. destruct (Hothers p r Hp Hr) as (_ & _ & Hle & _). rewrite (Hpr p r Hp Hr).
    rewrite exchange_none; [apply link_idle; cbn; lia|].
    intros m Hin. by apply (vote_message_calm L' t' (r_raftLog rL') (nodes s')), Hflight.
  - intros m Hin. by apply vote_message_calm, Hflight.
Qed.

(** ** What is committed stays committed *)

(** Every node keeps its entries and its commit index. *)
Definition logs_grow (s s' : cluster) : Prop :=
  forall id r, nodes s !! id = Some r -> exists r', nodes s' !! id = Some r' /\
    rl_entries (r_raftLog r) `prefix_of` rl_entries (r_raftLog r') /\
    rl_commitIndex (r_raftLog r) <= rl_commitIndex (r_raftLog r').

#[global] Instance logs_grow_refl : Reflexive logs_grow.
Proof. intros s id r Hr. by exists r. Qed.

#[global] Instance logs_grow_trans : Transitive logs_grow.
Proof.
  intros s1 s2 s3 H1 H2 id r Hr. destruct (H1 id r Hr) as (r2 & Hr2 & ? & ?).
  destruct (H2 id r2 Hr2) as (r3 & ? & ? & ?). exists r3. split_and!; [done|by etrans|lia].
Qed.

Lemma logs_grow_update s id r r' f :
  nodes s !! id = Some r -> rl_entries (r_raftLog r) `prefix_of` rl_entries (r_raftLog r') ->
  rl_commitIndex (r_raftLog r) <= rl_commitIndex (r_raftLog r') ->
  logs_grow s (mkCluster (<[id := r']> (nodes s)) f).
Proof.
  intros Hr Hp Hc q x Hx. cbn. destruct (decide (q = id)) as [->|Hne].
  - rewrite lookup_insert_eq. exists r'. assert (x = r) as -> by congruence. done.
  - rewrite lookup_insert_ne by done. by exists x.
Qed.

Lemma grows_update s id r r' f :
  nodes s !! id = Some r -> grows r r' -> logs_grow s (mkCluster (<[id := r']> (nodes s)) f).
Proof. intros Hr [[es E] Hc _ _ _ _]. eapply logs_grow_update; [done| |done]. by exists es. Qed.

Lemma same_update s id r r' f :
  nodes s !! id = Some r -> same_node r r' -> logs_grow s (mkCluster (<[id := r']> (nodes s)) f).
Proof. intros Hr [_ _ _ _ _ _ _ _ Ee Ec _ _ _]. eapply logs_grow_update; [done|by rewrite Ee|lia]. Qed.

Lemma steady_step_grows L t s s' : steady L t s -> steady_step L s s' -> logs_grow s s'.
Proof.
  intros [rL Hat] Hs. destruct Hs as [pre m post r ord r' _ Hr _ Hs|r c ord r' Hr _ _ Hs|id r ord r' Hr _ _ Hs
    |id r r' Hr Hs|id r rd Hr _].
  - eapply grows_update; [done|by eapply Step_grows].
  - eapply grows_update; [done|by eapply Step_grows].
  - eapply grows_update; [done|by eapply Tick_grows].
  - eapply same_update; [done|]. by apply (callReady_moves r r' (node_log _ _ _ _ _ _ _ Hat Hr)).
  - eapply same_update; [done|]. apply Advance_same, (node_log _ _ _ _ _ _ _ Hat Hr).
Qed.

Lemma campaigns_grow s s' : campaigns_all s s' -> logs_grow s s'.
Proof.
  intros [Hd Hc] id r Hr.
  assert (id ∈ dom (nodes s')) as [r' Hr']%elem_of_dom by (rewrite Hd; apply elem_of_dom; by eexists).
  destruct (Hc id r' Hr') as (x & Hx & Hcx). assert (x = r) as -> by congruence.
  exists r'. split; [done|]. by rewrite (ca_entries _ _ Hcx), (ca_commit _ _ Hcx).
Qed.

Definition reign_ok (x : Z * Z * cluster) : Prop := let '(L, t, s) := x in steady L t s /\ tidy s.

Lemma reign_step_ok x x' : reign_ok x -> reign_step x x' -> reign_ok x' /\ logs_grow x.2 x'.2.
Proof.
  intros Hx Hs. destruct Hs as [L t s s' Hs|L t s L' t' s' rL Hs Hlt Hto]; destruct Hx as [Hst Ht]; cbn.
  - split; [split; [by eapply steady_step_inv|by eapply steady_step_tidy]|by eapply steady_step_grows].
  - pose proof (election_campaigns s s' (steady_wf_logs L t s Hst) Hs) as Hc.
    split; [split; [by eapply handover_steady|by eapply tidy_campaigns]|by apply campaigns_grow].
Qed.

Lemma reign_run_ok x x' : reign_ok x -> rtc reign_step x x' -> reign_ok x' /\ logs_grow x.2 x'.2.
Proof.
  intros Hx Hs. induction Hs as [x|x x1 x' Hs _ IH]; [done|].
  destruct (reign_step_ok x x1 Hx Hs) as [H1 G1]. destruct (IH H1) as [H2 G2]. split; [done|by etrans].
Qed.


(** ** These are runs of the cluster *)

Lemma election_step_cluster s s' c :
  within s c -> election_step s s' -> exists c', rtc cluster_step c c' /\ within s' c'.
Proof.
  intros [En Hnet] Hs. destruct Hs as [pre m post r ord r' Em Hr Hord _ Hstep|id r ord r' Hr Hord Hstep
    |id r r' Hr Hready|id r rd Hr Hrd|f Hf]; try rewrite En in Hr.
  - eexists. split; [apply rtc_once; eapply (cs_deliver c (msg_To m) r m); [done| |done..]; apply Hnet; rewrite Em; set_solver|].
    split; [by rewrite <- En|]. cbn. rewrite Em in Hnet. set_solver.
  - eexists. split; [apply rtc_once; by eapply cs_tick|]. split; [by rewrite <- En|done].
  - eexists. split; [apply rtc_once; by eapply cs_ready|]. split; [by rewrite <- En|done].
  - eexists. split; [apply rtc_once; by eapply cs_send|]. split; [by rewrite <- En|]. cbn. set_solver.
  - exists c. split; [constructor|]. split; [done|]. cbn. intros m Hm. apply Hnet. by eapply elem_of_submseteq.
Qed.

Lemma election_run_cluster s s' c :
  within s c -> rtc election_step s s' -> exists c', rtc cluster_step c c' /\ within s' c'.
Proof.
  intros Hw Hs. revert c Hw. induction Hs as [s|s s1 s' Hs _ IH]; intros c Hw; [by exists c|].
  destruct (election_step_cluster s s1 c Hw Hs) as (c1 & Hc & Hw1).
  destruct (IH c1 Hw1) as (c' & ? & ?). exists c'. split; [by etrans|done].
Qed.

Lemma reign_run_cluster x x' c :
  within x.2 c -> rtc reign_step x x' -> exists c', rtc cluster_step c c' /\ within x'.2 c'.
Proof.
  intros Hw Hs. revert c Hw. induction Hs as [x|x x1 x' Hs _ IH]; intros c Hw; [by exists c|].
  assert (exists c1, rtc cluster_step c c1 /\ within x1.2 c1) as (c1 & Hc & Hw1).
  { destruct Hs as [L t s s' Hs|L t s L' t' s' rL Hs _ _]; cbn in *.
    - destruct (steady_step_cluster L s s' c Hw Hs) as (c1 & ? & ?). exists c1. split; [by apply rtc_once|done].
    - by eapply election_run_cluster. }
  destruct (IH c1 Hw1) as (c' & ? & ?). exists c'. split; [by etrans|done].
Qed.

(** ** Two leaders *)

Definition exec_election (a : action) (s : cluster) : option cluster :=
  match a with
  | Deliver i =>
      m ← net s !! i; r ← nodes s !! msg_To m;
      if bool_decide (electoral r m) then
        r' ← ok_option (Step (elements (peers r)) m r);
        Some (mkCluster (<[msg_To m := r']> (nodes s)) (take i (net s) ++ drop (S i) (net s)))
      else None
  | Propose _ _ => None
  | _ => exec a s
  end.

Fixpoint exec_election_all (acts : list action) (s : cluster) : option cluster :=
  match acts with
  | [] => Some s
  | a :: acts => s ← exec_election a s; exec_election_all acts s
  end.

Lemma exec_election_sound a s s' : exec_election a s = Some s' -> election_step s s'.
Proof.
  destruct a as [i|id c|id|id|id]; cbn; intros H; [|done|..].
  - apply bind_Some in H as (m & Hm & (r & Hr & H)%bind_Some). case_bool_decide as Hel; [|done].
    apply bind_Some in H as (r' & Hs%ok_option_Some & [= <-]).
    apply (el_deliver s _ m _ r (elements (peers r))); [|done|apply default_order|done|done].
    symmetry. by apply take_drop_middle.
  - apply bind_Some in H as (r & Hr & (r' & Hs%ok_option_Some & ->)%fmap_Some).
    by apply (el_tick s id r (elements (peers r))); [|apply default_order|].
  - apply bind_Some in H as (r & Hr & (ro & Hs%ok_option_Some & (r' & -> & ->)%fmap_Some)%bind_Some).
    by apply (el_ready s id r).
  - apply bind_Some in H as (r & Hr & (rd & Hrd & [= <-])%bind_Some). by apply (el_send s id r rd).
Qed.

Lemma exec_election_all_sound acts s s' : exec_election_all acts s = Some s' -> rtc election_step s s'.
Proof.
  revert s. induction acts as [|a acts IH]; cbn [exec_election_all]; intros s.
  - intros [= ->]. constructor.
  - intros (s1 & Ha%exec_election_sound & H)%bind_Some. eapply rtc_l; [done|by apply IH].
Qed.

(** All but the messages of votes are lost. *)
Definition forget (t : Z) (s : cluster) : cluster := mkCluster (nodes s) (filter (vote_message t) (net s)).

(** Node 1 replicates a command and announces that it is committed; node 2 is
    elected, node 1 learns it from the refusal of its heartbeat; node 2
    replicates another command. *)
Definition first_reign : list action :=
  [Propose 1 cmd_a; ReadyAt 1; SendAt 1; Deliver 5; Deliver 4; ReadyAt 2; SendAt 2; ReadyAt 3; SendAt 3;
   Deliver 5; Deliver 4; TickAt 1; ReadyAt 1; SendAt 1; Deliver 5; Deliver 4].
Definition campaign_of_2 : list action :=
  repeat (TickAt 2) 10 ++ [ReadyAt 2; SendAt 2; Deliver 5; Deliver 4; ReadyAt 3; SendAt 3; Deliver 4;
   TickAt 1; ReadyAt 1; SendAt 1; Deliver 4; ReadyAt 3; SendAt 3; Deliver 5].
Definition second_reign : list action :=
  [Propose 2 cmd_b; ReadyAt 2; SendAt 2; Deliver 5; Deliver 4; ReadyAt 1; SendAt 1; Deliver 4].

Definition reign_of_1 : cluster := default (init_cluster []) (exec_steady_all 1 first_reign elected).
Definition won_by_2 : cluster := default (init_cluster []) (exec_election_all campaign_of_2 reign_of_1).
Definition reign_of_2 : cluster := default (init_cluster []) (exec_steady_all 2 second_reign (forget 2 won_by_2)).

Example two_reigns :
  (fun r => (state r, currentTerm r, committed_commands r, lastIndex (r_raftLog r))) <$> nodes reign_of_2 =
  {[1 := (StateFollower, 2, [Some cmd_a], 2); 2 := (StateLeader, 2, [Some cmd_a; Some cmd_b], 2);
    3 := (StateFollower, 2, [Some cmd_a], 2)]}.
Proof. vm_compute. reflexivity. Qed.

(** The conditions, as they are checked on a given cluster. *)
Definition tidyb (s : cluster) : bool :=
  bool_decide (map_Forall (fun id r => ID r = id /\ peers r = dom (nodes s) ∖ {[id]} /\
    clusterSize r = Z.of_nat (size (nodes s)) /\ dom (progress r) ⊆ peers r) (nodes s)).

Lemma tidyb_sound s : tidyb s = true -> tidy s.
Proof. intros H%bool_decide_eq_true id r Hr. destruct (H id r Hr) as (? & ? & ? & ?). by split. Qed.

Definition takes_overb (L t : Z) (s : cluster) (rL : Raft) : bool :=
  bool_decide (in_role rL StateLeader /\ currentTerm rL = t) &&
  bool_decide (map_Forall (fun p r => p = L \/
    in_role r StateFollower /\ currentTerm r <= t /\
    lastIndex (r_raftLog r) <= lastIndex (r_raftLog rL) /\
    rl_commitIndex (r_raftLog r) <= rl_commitIndex (r_raftLog rL)) (nodes s)) &&
  bool_decide (Forall (vote_message t) (flight s)).

Lemma takes_overb_sound L t s rL : nodes s !! L = Some rL -> takes_overb L t s rL = true -> takes_over L t s rL.
Proof.
  intros HL. unfold takes_overb. rewrite !andb_true_iff, !bool_decide_eq_true, Forall_forall.
  intros [[[? ?] Ho] Hf]. split; try done. intros p r Hp Hr. by destruct (Ho p r Hr).
Qed.

Lemma reign_on_run L t s s' : rtc (steady_step L) s s' -> rtc reign_step (L, t, s) (L, t, s').
Proof. intros Hs. induction Hs; [constructor|]. eapply rtc_l; [by apply reign_on|done]. Qed.

Lemma reigns_run : rtc reign_step (1, 1, reign_of_1) (2, 2, reign_of_2).
Proof.
  destruct (nodes (forget 2 won_by_2) !! 2) as [rL|] eqn:HL; [|vm_compute in HL; discriminate HL].
  eapply rtc_l.
  - apply (reign_change 1 1 reign_of_1 2 2 (forget 2 won_by_2) rL); [|reflexivity|].
    + eapply rtc_r; [apply (exec_election_all_sound campaign_of_2 reign_of_1 won_by_2); vm_compute; reflexivity|].
      apply el_lose, sublist_submseteq, sublist_filter.
    + apply (takes_overb_sound _ _ _ _ HL). vm_compute in HL. injection HL as <-. vm_compute. reflexivity.
  - assert (rtc (steady_step 2) (forget 2 won_by_2) reign_of_2) as Hs
      by (apply (exec_steady_all_sound 2 second_reign); vm_compute; reflexivity).
    clear HL. exact (reign_on_run 2 2 _ _ Hs).
Qed.


(** ** Why an old leader has to know *)

(** Node 2 is elected as above and replicates a command before node 1 has learnt
    of its term.  [stepLeader] takes the append message for a proposal: node 1
    logs the entries as its own and answers nothing.  When it follows at last,
    node 2 sends the entries again. *)
Definition deposed_leader : list action :=
  [Propose 1 cmd_a; ReadyAt 1; SendAt 1; Deliver 4; Deliver 5; ReadyAt 2; SendAt 2; ReadyAt 3; SendAt 3;
   Deliver 6; Deliver 7; TickAt 1; ReadyAt 1; SendAt 1; Deliver 8; Deliver 9] ++
  repeat (TickAt 2) 10 ++
  [ReadyAt 2; SendAt 2; Deliver 10; ReadyAt 3; SendAt 3; Deliver 12;
   Propose 2 cmd_b; ReadyAt 2; SendAt 2; Deliver 13; Deliver 14; ReadyAt 3; SendAt 3; ReadyAt 1; SendAt 1;
   Deliver 15; Deliver 16; ReadyAt 3; SendAt 3; Deliver 18;
   Propose 2 cmd_a; ReadyAt 2; SendAt 2; Deliver 19; Deliver 20; ReadyAt 3; SendAt 3; ReadyAt 1; SendAt 1;
   Deliver 21; Deliver 22; TickAt 2; ReadyAt 2; SendAt 2; Deliver 23; Deliver 24].

(** With a winner that has the whole log, and every message delivered in order
    and at most once, two nodes commit different commands at one index. *)
Theorem deposed_leader_diverges :
  exists n s r1 r2,
    nsteps cluster_step n (init_cluster [1; 2; 3]) s /\
    nodes s !! 1 = Some r1 /\ nodes s !! 2 = Some r2 /\
    committed_commands r1 = [Some cmd_a; Some cmd_b; Some cmd_b] /\
    committed_commands r2 = [Some cmd_a; Some cmd_b; Some cmd_a].
Proof.
  eexists _, (after deposed_leader), _, _.
  split; [apply after_run; vm_compute; by eexists|]. vm_compute. split_and!; reflexivity.
Qed.
