(* ===== verification/Handover.v ===== *)
(** * Leadership can pass

    [Reigns] says what holds when a leader takes over from another.  This file
    says that it can happen: from a steady state, a node whose log reaches as far
    as any can win an election that ends with all the others following.  The run
    is given: the leader sends heartbeats; the node campaigns until its term is
    the highest; it refuses the heartbeat, from which the old leader learns of
    the term; the others vote; what is still under way is lost. *)
From S2P Require Import Prelude Proto RaftLog Raft Election Replication Growth Cluster Steady Agreement Progress Reigns.

Local Open Scope Z_scope.

(** ** Single steps *)

Lemma tick_run s id r ord r' :
  nodes s !! id = Some r -> range_order r ord -> Tick ord r = Ok r' ->
  exists s', rtc election_step s s' /\ nodes s' = <[id := r']> (nodes s) /\ net s' = net s.
Proof. intros. eexists. split; [apply rtc_once; by eapply el_tick|done]. Qed.

(** The other messages stay. *)
Lemma take_run s m r ord r' :
  m ∈ net s -> nodes s !! msg_To m = Some r -> range_order r ord -> electoral r m -> Step ord m r = Ok r' ->
  exists s', rtc election_step s s' /\ nodes s' = <[msg_To m := r']> (nodes s) /\
    forall x, x ∈ net s -> x <> m -> x ∈ net s'.
Proof.
  intros Hm Hr Hord Hel Hs. destruct (list_elem_of_split _ _ Hm) as (pre & post & E).
  eexists. split; [apply rtc_once; by eapply el_deliver|]. split; [done|].
  intros x. rewrite E. cbn [net]. rewrite !elem_of_app, elem_of_cons. tauto.
Qed.

Definition empty_out (s : cluster) (id : Z) (r : Raft) :=
  drain election_step el_ready el_send s id r.

(** ** Campaigns *)

(** The timer of a node that does not lead runs out. *)
Lemma timeout_run s id r :
  nodes s !! id = Some r -> step r = tick r ->
  tick r = Some StateFollower \/ tick r = Some StateCandidate ->
  exists s', rtc election_step s s' /\ net s' = net s /\
    nodes s' = <[id := campaign (elements (peers r)) (set_electionTick 0 r)]> (nodes s).
Proof.
  intros Hr Es Et. remember (Z.to_nat (randomizedTimeout r - electionTick r)) as n eqn:En.
  revert s r Hr Es Et En. induction n as [n IH] using lt_wf_ind. intros s r Hr Es Et En.
  destruct (Z.leb_spec (randomizedTimeout r) (electionTick r + 1)) as [Hle|Hgt].
  - destruct (tick_run s id r (elements (peers r)) (campaign (elements (peers r)) (set_electionTick 0 r)))
      as (s' & Hs & Hn & Hnet); [done|apply default_order|by apply Tick_fires|]. by exists s'.
  - set (r1 := set_electionTick (electionTick r + 1) r).
    destruct (tick_run s id r (elements (peers r)) r1) as (s1 & Hs1 & Hn1 & Hnet1);
      [done|apply default_order|by apply Tick_waits|].
    destruct (IH (Z.to_nat (randomizedTimeout r1 - electionTick r1)) ltac:(cbn; lia) s1 r1)
      as (s' & Hs & Hnet & Hn); try done; [rewrite Hn1; apply lookup_insert_eq|].
    exists s'. split; [by etrans|]. split; [congruence|]. by rewrite Hn, Hn1, insert_insert_eq.
Qed.

(** A request of [p] to [q] for its vote in term [T]. *)
Definition is_request (p T q : Z) (m : Message) : Prop :=
  msg_Type m = MSG_VOTE /\ msg_To m = q /\
  exists v, msg_Vote m = Some v /\ i64 (GetVoteTerm v) = T /\ rv_CandidateId v = p.

(** What an election does not change of a node. *)
Record candidate_of (p T : Z) (ps : gset Z) (n : Z) (r : Raft) : Prop := {
  co_ID : ID r = p;
  co_peers : peers r = ps;
  co_size : clusterSize r = n;
  co_role : in_role r StateCandidate;
  co_term : currentTerm r = T;
  co_votes : votes r = Some {[p := true]};
}.

Lemma campaign_candidate ord r ps n :
  0 <= currentTerm r -> term_room r -> peers r = ps -> clusterSize r = n -> n <> 1 ->
  candidate_of (ID r) (currentTerm r + 1) ps n (campaign ord r) /\
  forall q, q ∈ ord -> exists m, m ∈ outbox (campaign ord r) /\ is_request (ID r) (currentTerm r + 1) q m.
Proof.
  intros H0 Hroom <- <- Hn. destruct (candidate_core r H0 Hroom) as (E & Hpend & _).
  destruct (core_is _ _ _ _ _ _ _ _ _ _ _ E) as (E1 & E2 & E3 & E4 & _ & E6 & E7 & E8 & E9 & _).
  rewrite campaign_eq, E2, (proj2 (Z.eqb_neq _ _)) by done. revert E1 E2 E3 E4 E6 E7 E8 E9. clear E Hpend.
  generalize (candidate r). intros c E1 E2 E3 E4 E6 E7 E8 E9. split.
  - by split.
  - intros q Hq. exists (voteMessage c q). split.
    + unfold outbox, pending. cbn. rewrite !elem_of_app, list_elem_of_fmap. left; left; right. by exists q.
    + split; [done|]. split; [done|]. eexists. split; [done|]. cbn. split; [|done].
      rewrite i64_u64, E4, i64_id; [done|]. unfold term_room in Hroom. lia.
Qed.

Lemma candidate_same p T ps n r r' : same_node r r' -> candidate_of p T ps n r -> candidate_of p T ps n r'.
Proof. intros [] [? ? ? (? & ? & ?) ? ?]. split; try congruence. by split_and!; congruence. Qed.

Definition requests (p T : Z) (ps : gset Z) (s : cluster) : Prop :=
  forall q, q ∈ ps -> exists m, m ∈ net s /\ is_request p T q m.

(** One campaign, and its requests are on the wire. *)
Lemma campaign_run s p r :
  nodes s !! p = Some r -> ID r = p -> in_role r StateFollower \/ in_role r StateCandidate ->
  0 <= currentTerm r -> term_room r -> clusterSize r <> 1 -> wf_log (r_raftLog r) ->
  exists s' r', rtc election_step s s' /\ nodes s' = <[p := r']> (nodes s) /\ wf_log (r_raftLog r') /\
    candidate_of p (currentTerm r + 1) (peers r) (clusterSize r) r' /\
    requests p (currentTerm r + 1) (peers r) s' /\ forall x, x ∈ net s -> x ∈ net s'.
Proof.
  intros Hr HID Hrole H0 Hroom Hn Hwf.
  assert (step r = tick r /\ (tick r = Some StateFollower \/ tick r = Some StateCandidate)) as [Es Et].
  { destruct Hrole as [(_ & -> & ->)|(_ & -> & ->)]; auto. }
  destruct (timeout_run s p r Hr Es Et) as (s1 & R1 & Hnet1 & N1).
  set (r0 := set_electionTick 0 r) in N1. set (c := campaign (elements (peers r)) r0) in N1.
  destruct (campaign_candidate (elements (peers r)) r0 (peers r) (clusterSize r)) as [Hc Hreq]; try done.
  fold c in Hc, Hreq. change (ID r0) with (ID r) in Hc, Hreq. rewrite HID in Hc, Hreq.
  pose proof (ca_log _ _ (campaigns_campaign (elements (peers r)) r0) Hwf) as Hwfc. fold c in Hwfc. clearbody c.
  destruct (empty_out s1 p c) as (s2 & r2 & R2 & N2 & Hsame & _ & Hnet2); [rewrite N1; apply lookup_insert_eq|done|].
  exists s2, r2. split; [by etrans|]. split; [by rewrite N2, N1, insert_insert_eq|]. split; [by apply Hsame|].
  split; [by eapply candidate_same|]. split.
  - intros q Hq. destruct (Hreq q) as (m & Hm & Hmr); [by apply elem_of_elements|].
    exists m. split; [|done]. apply Hnet2. by right.
  - intros x Hx. apply Hnet2. left. by rewrite Hnet1.
Qed.

(** Campaign after campaign, up to the term [T]. *)
Lemma campaigns_run T s p r :
  nodes s !! p = Some r -> ID r = p -> in_role r StateFollower \/ in_role r StateCandidate ->
  0 <= currentTerm r < T -> T < 2 ^ 63 -> clusterSize r <> 1 -> wf_log (r_raftLog r) ->
  exists s' r', rtc election_step s s' /\ nodes s' = <[p := r']> (nodes s) /\ wf_log (r_raftLog r') /\
    candidate_of p T (peers r) (clusterSize r) r' /\
    requests p T (peers r) s' /\ forall x, x ∈ net s -> x ∈ net s'.
Proof.
  intros Hr HID Hrole Ht HT Hn Hwf. remember (Z.to_nat (T - currentTerm r)) as k eqn:Ek.
  revert s r Hr HID Hrole Ht Hn Hwf Ek. induction k as [|k IH]; intros s r Hr HID Hrole Ht Hn Hwf Ek; [lia|].
  destruct (campaign_run s p r) as (s1 & r1 & R1 & N1 & Hwf1 & Hc1 & Hq1 & Hnet1); try done; [lia|unfold term_room; lia|].
  destruct (decide (currentTerm r + 1 = T)) as [<-|Hne]; [by exists s1, r1|].
  pose proof Hc1 as [? Ep Ez Hrole1 Et1 _].
  destruct (IH s1 r1) as (s2 & r2 & R2 & N2 & Hwf2 & Hc2 & Hq2 & Hnet2); try done;
    [rewrite N1; apply lookup_insert_eq|by right|lia|by rewrite Ez|lia|].
  rewrite Ep in *. rewrite Ez in Hc2. exists s2, r2. split; [by etrans|].
  split; [by rewrite N2, N1, insert_insert_eq|]. split_and!; try done. auto.
Qed.

(** ** The old leader *)

(** A heartbeat of [L] to [p] in term [t], and its refusal in term [T]. *)
Definition is_beat (L t p : Z) (m : Message) : Prop :=
  msg_Type m = MSG_APP /\ msg_To m = p /\ msg_From m = L /\
  exists ae, msg_Entries m = Some ae /\ ae_Entries ae = [] /\ ae_Term ae = t.

(** The heartbeat timer runs out. *)
Lemma beat_run L t s rL :
  steady_at L t (nodes s) (flight s) rL ->
  exists s' n, rtc election_step s s' /\ net s' = net s /\
    nodes s' = <[L := set_msgs (msgs rL ++ (beat rL <$> elements (peers rL))) (set_heartbeatTick n rL)]> (nodes s).
Proof.
  intros H. pose proof H as [HL [HID (_ & Es & Et) _ Hwf _ _ _ _] Hf _ _].
  assert (Hbeats : forall n, broadcastHeartbeat (elements (peers rL)) (set_heartbeatTick n rL) =
    Ok (set_msgs (msgs rL ++ (beat rL <$> elements (peers rL))) (set_heartbeatTick n rL))).
  { intros n. unfold broadcastHeartbeat. rewrite (messages_to_spec _ _ (beat rL)); [done|].
    intros p Hp. apply (leader_peers L t _ _ rL _ p H (default_order rL)) in Hp as [Hne [r Hr]%elem_of_dom].
    destruct (Hf p r Hne Hr) as [_ _ _ _ _ _ Hmatch]. unfold heartbeatMessage. cbn -[term].
    by rewrite term_lookup by (apply Hwf || apply Hmatch). }
  assert (Hgo : forall k s1 n, rtc election_step s s1 -> net s1 = net s ->
    nodes s1 = <[L := set_heartbeatTick n rL]> (nodes s) -> k = Z.to_nat (heartbeatTimeout rL - n) ->
    exists s' n', rtc election_step s s' /\ net s' = net s /\
      nodes s' = <[L := set_msgs (msgs rL ++ (beat rL <$> elements (peers rL))) (set_heartbeatTick n' rL)]> (nodes s)).
  { induction k as [k IH] using lt_wf_ind. intros s1 n R1 Hnet1 N1 Ek.
    assert (nodes s1 !! L = Some (set_heartbeatTick n rL)) as Hr1 by (rewrite N1; apply lookup_insert_eq).
    destruct (Z.leb_spec (heartbeatTimeout rL) (n + 1)) as [Hle|Hgt].
    - destruct (tick_run s1 L _ (elements (peers rL))
        (set_msgs (msgs rL ++ (beat rL <$> elements (peers rL))) (set_heartbeatTick 0 rL)) Hr1) as (s2 & R2 & N2 & Hnet2).
      + apply (default_order rL).
      + unfold Tick. cbn [tick set_heartbeatTick]. rewrite Et. unfold tickLeader. cbn.
        rewrite (proj2 (Z.leb_le _ _)) by done. unfold Step. cbn [step set_heartbeatTick]. rewrite Es.
        cbn [stepLeader bare_message msg_Type]. exact (f_equal (log_err _) (Hbeats 0)).
      + exists s2, 0. split; [by etrans|]. split; [congruence|]. by rewrite N2, N1, insert_insert_eq.
    - destruct (tick_run s1 L _ (elements (peers rL)) (set_heartbeatTick (n + 1) rL) Hr1) as (s2 & R2 & N2 & Hnet2).
      + apply (default_order rL).
      + unfold Tick. cbn [tick set_heartbeatTick]. rewrite Et. unfold tickLeader. cbn.
        by rewrite (proj2 (Z.leb_gt _ _)).
      + apply (IH (Z.to_nat (heartbeatTimeout rL - (n + 1))) ltac:(lia) s2 (n + 1)); [by etrans|congruence| |done].
        by rewrite N2, N1, insert_insert_eq. }
  apply (Hgo (Z.to_nat (heartbeatTimeout rL - heartbeatTick rL)) s (heartbeatTick rL)); [constructor|done| |done].
  rewrite insert_id; [done|]. rewrite HL. by destruct rL.
Qed.

Record old_leader (L t T : Z) (r : Raft) : Prop := {
  ol_ID : ID r = L;
  ol_role : in_role r StateLeader;
  ol_term : currentTerm r = t;
  ol_voted : votedFor r !! T = None;
}.

(** A node that has no vote in term [T] yet, and would follow. *)
Record voter_of (T q : Z) (r : Raft) : Prop := {
  vo_ID : ID r = q;
  vo_role : in_role r StateFollower;
  vo_term : currentTerm r <= T;
  vo_voted : votedFor r !! T = None;
}.

Lemma becomeFollower_voter T q r : ID r = q -> votedFor r !! T = None -> voter_of T q (becomeFollower T r).
Proof.
  intros HID Hv. destruct (core_is _ _ _ _ _ _ _ _ _ _ _ (becomeFollower_core T r))
    as (E1 & _ & _ & E4 & E5 & E6 & E7 & E8 & _).
  split; [congruence|by split_and!|lia|by rewrite E5].
Qed.

(** [p] refuses the heartbeat, and [L] learns of its term. *)
Lemma depose_run s L t p T ps n rL r m :
  logs_wf s -> nodes s !! L = Some rL -> old_leader L t T rL -> p <> L -> t < T ->
  nodes s !! p = Some r -> candidate_of p T ps n r -> m ∈ net s -> is_beat L t p m ->
  exists s' rL' r', rtc election_step s s' /\ nodes s' = <[L := rL']> (<[p := r']> (nodes s)) /\
    voter_of T L rL' /\ candidate_of p T ps n r' /\
    forall x, x ∈ net s -> msg_Type x = MSG_VOTE -> x ∈ net s'.
Proof.
  intros Hwf HL [HLID (HLst & HLstep & HLtick) HLt HLv] Hne Hlt Hr Hc Hm (Hty & Hto & Hfrom & ae & Eae & Hes & Hae).
  pose proof Hc as [HID Hps Hsz (Hst & Hstep & Htick) Hterm Hvotes].
  set (r0 := set_electionTick 0 r). set (a := appendResponse r0 L false).
  set (r1 := set_msgs (msgs r0 ++ [a]) r0).
  destruct (take_run s m r (elements (peers r)) r1) as (s1 & R1 & N1 & Hnet1);
    [done|by rewrite Hto|apply default_order| | |].
  { unfold electoral. rewrite Hty, Eae. split; [done|]. right. lia. }
  { unfold Step. rewrite Hstep. unfold stepCandidate. rewrite Hty. unfold handleAppendEntries. rewrite Eae.
    cbn [currentTerm set_electionTick]. rewrite (proj2 (Z.ltb_lt _ _)) by lia. by rewrite Hfrom. }
  rewrite Hto in N1.
  assert (candidate_of p T ps n r1) as Hc1 by by split.
  destruct (empty_out s1 p r1) as (s2 & r2 & R2 & N2 & Hsame & _ & Hnet2);
    [rewrite N1; apply lookup_insert_eq|exact (Hwf p r Hr)|].
  assert (Ha : a ∈ net s2).
  { apply Hnet2. right. unfold outbox, pending, r1. cbn. rewrite !elem_of_app. left; left; right. by left. }
  assert (HL2 : nodes s2 !! L = Some rL) by (by rewrite N2, N1, !lookup_insert_ne).
  destruct (take_run s2 a rL (elements (peers rL)) (becomeFollower T rL)) as (s3 & R3 & N3 & Hnet3);
    [done|done|apply default_order| | |].
  { cbn. right. change (currentTerm r0) with (currentTerm r). lia. }
  { unfold Step. rewrite HLstep. cbn [stepLeader a appendResponse msg_Type]. unfold handleAppendResponse.
    cbn [msg_EntriesResp aer_CurrentTerm a appendResponse]. change (currentTerm r0) with (currentTerm r).
    rewrite (proj2 (Z.ltb_lt _ _)) by lia. by rewrite Hterm. }
  exists s3, (becomeFollower T rL), r2. split; [by etrans; [|etrans]|].
  split; [by rewrite N3, N2, N1, insert_insert_eq|].
  split; [by apply becomeFollower_voter|]. split; [by eapply candidate_same|].
  intros x Hx Hvote. apply Hnet3; [|by intros ->]. apply Hnet2. left. apply Hnet1; [done|]. intros ->. congruence.
Qed.

(** ** The votes *)

Definition grant (p T q : Z) : Message :=
  mkMessage MSG_VOTE_RESP p q None (Some (mkRequestVoteResponse T true)) None None.

Lemma follow_voted T r : votedFor (follow T r) = votedFor r.
Proof.
  unfold follow. destruct (_ <? _); [|done].
  by destruct (core_is _ _ _ _ _ _ _ _ _ _ _ (becomeFollower_core T r)) as (_ & _ & _ & _ & E5 & _).
Qed.

Lemma vote_granted p T q m r :
  voter_of T q r -> is_request p T q m ->
  let r' := handleVoteRequest m r in
  in_role r' StateFollower /\ currentTerm r' = T /\ r_raftLog r' = r_raftLog r /\ grant p T q ∈ outbox r'.
Proof.
  intros [HID Hrole Ht Hv] (_ & _ & v & Ev & Et & Ec).
  destruct (follow_role T r Hrole) as (Hrole' & HID' & Hterm & Hrc & Hpend). rewrite Z.max_r in Hterm by done.
  unfold handleVoteRequest. rewrite Ev. cbv zeta. rewrite Et, Ec. fold (follow T r).
  rewrite (proj2 (Z.ltb_ge _ _)) by done. rewrite follow_voted, Hv. cbn.
  split; [done|]. split; [done|]. split; [apply follow_log|].
  unfold outbox, pending. cbn. rewrite HID', HID, Hterm, !elem_of_app. left; left; right. by left.
Qed.

(** The node that polls, when those of [D] have voted for it. *)
Record polling (p T n : Z) (D : list Z) (r : Raft) : Prop := {
  po_ID : ID r = p;
  po_size : clusterSize r = n;
  po_term : currentTerm r = T;
  po_role : in_role r StateLeader \/
    (in_role r StateCandidate /\ 1 + zlen D < quorum r /\
      exists v, votes r = Some v /\ forall x, x ∈ p :: D -> v !! x = Some true);
}.

Lemma polling_same p T n D r r' : same_node r r' -> polling p T n D r -> polling p T n D r'.
Proof.
  intros [] [? Hs ? Hr]. split; try congruence. unfold in_role in *.
  destruct Hr as [(? & ? & ?)|[(? & ? & ?) [Hq (v & Hv & Hin)]]]; [left; split_and!; congruence|right].
  split; [split_and!; congruence|]. split; [unfold quorum in *; congruence|]. exists v. split; [congruence|done].
Qed.

(** Enough votes are counted. *)
Lemma votes_counted (v : gmap Z bool) l :
  NoDup l -> (forall x, x ∈ l -> v !! x = Some true) -> zlen l <= countGranted v.
Proof.
  intros Hnd Hl. rewrite countGranted_size. unfold zlen.
  assert (length l <= size (granted v))%nat; [|lia].
  rewrite <- (size_list_to_set (C := gset Z) l) by done. apply subseteq_size. intros x Hx.
  apply elem_of_granted, Hl. by apply elem_of_list_to_set in Hx.
Qed.

Lemma vote_taken p T n D q r ord :
  NoDup (p :: q :: D) -> polling p T n D r ->
  exists r', Step ord (grant p T q) r = Ok r' /\ polling p T n (q :: D) r' /\ r_raftLog r' = r_raftLog r.
Proof.
  intros Hnd [HID Hsz Ht [(Hst & Hstep & Htick)|[(Hst & Hstep & Htick) [Hq (v & Hv & Hin)]]]].
  - exists r. unfold Step. rewrite Hstep. split; [done|]. split; [|done]. split; try done. by left.
  - set (v' := <[q := true]> v). set (r1 := set_votes (Some v') r).
    exists (if quorum r1 <=? countGranted v' then becomeLeader r1 else r1).
    assert (Hin' : forall x, x ∈ p :: q :: D -> v' !! x = Some true).
    { intros x Hx. unfold v'. destruct (decide (x = q)) as [->|Hne]; [apply lookup_insert_eq|].
      rewrite lookup_insert_ne by done. apply Hin. rewrite !elem_of_cons in *. tauto. }
    split.
    + unfold Step. rewrite Hstep. cbn [stepCandidate grant msg_Type]. unfold handleVoteResponse.
      cbn [grant msg_VoteResp rvr_Term msg_From rvr_VoteGranted]. rewrite Ht, Z.ltb_irrefl, Hv. done.
    + pose proof (votes_counted v' (p :: q :: D) Hnd Hin') as Hc.
      destruct (Z.leb_spec (quorum r1) (countGranted v')) as [Hle|Hgt]; (split; [|done]); (split; [done..|]).
      * by left.
      * right. split; [done|]. split; [|by exists v'].
        unfold zlen in *. cbn [length] in *. lia.
Qed.

(** A vote: the request is taken, answered, and the answer taken. *)
Lemma vote_run s p T n D q r rq m :
  logs_wf s -> NoDup (p :: q :: D) -> nodes s !! p = Some r -> polling p T n D r ->
  nodes s !! q = Some rq -> voter_of T q rq -> m ∈ net s -> is_request p T q m ->
  exists s' r' rq', rtc election_step s s' /\ nodes s' = <[p := r']> (<[q := rq']> (nodes s)) /\
    polling p T n (q :: D) r' /\ in_role rq' StateFollower /\ currentTerm rq' = T /\
    forall x, x ∈ net s -> msg_Type x = MSG_VOTE -> x <> m -> x ∈ net s'.
Proof.
  intros Hwf Hnd Hr Hpo Hq Hvo Hm Hreq. pose proof Hreq as (Hty & Hto & v & Ev & Et & Ec).
  assert (q <> p) as Hne by (intros ->; inversion Hnd as [|? ? Hin]; apply Hin; by left).
  set (r1 := handleVoteRequest m rq). destruct (vote_granted p T q m rq Hvo Hreq) as (Hrole1 & Ht1 & Hl1 & Ha).
  fold r1 in Hrole1, Ht1, Hl1, Ha.
  destruct (take_run s m rq (elements (peers rq)) r1) as (s1 & R1 & N1 & Hnet1);
    [done|by rewrite Hto|apply default_order| | |].
  { unfold electoral. by rewrite Hty. }
  { destruct (vo_role _ _ _ Hvo) as (_ & Es & _). unfold Step. rewrite Es. unfold stepFollower. rewrite Hty.
    unfold handleVote. by rewrite Ev. }
  rewrite Hto in N1. clearbody r1.
  destruct (empty_out s1 q r1) as (s2 & r2 & R2 & N2 & Hsame & _ & Hnet2);
    [rewrite N1; apply lookup_insert_eq|rewrite Hl1; exact (Hwf q rq Hq)|].
  destruct (vote_taken p T n D q r (elements (peers r)) Hnd Hpo) as (r' & Hs & Hpo' & _).
  destruct (take_run s2 (grant p T q) r (elements (peers r)) r') as (s3 & R3 & N3 & Hnet3);
    [apply Hnet2; by right|by rewrite N2, N1, !lookup_insert_ne|apply default_order|done|done|].
  exists s3, r', r2. split; [by etrans; [|etrans]|]. split; [by rewrite N3, N2, N1, insert_insert_eq|].
  split; [done|]. destruct Hsame, Hrole1 as (? & ? & ?). split; [split_and!; congruence|]. split; [congruence|].
  intros x Hx Hvote Hxm. apply Hnet3; [|by intros ->]. apply Hnet2. left. by apply Hnet1.
Qed.

(** All of [Q] vote. *)
Lemma votes_run s p T n D Q :
  logs_wf s -> NoDup (p :: Q ++ D) ->
  (exists r, nodes s !! p = Some r /\ polling p T n D r) ->
  (forall q, q ∈ Q -> exists rq m, nodes s !! q = Some rq /\ voter_of T q rq /\ m ∈ net s /\ is_request p T q m) ->
  (forall q, q ∈ D -> exists rq, nodes s !! q = Some rq /\ in_role rq StateFollower /\ currentTerm rq <= T) ->
  exists s' D', rtc election_step s s' /\ D' ≡ₚ Q ++ D /\
    (exists r, nodes s' !! p = Some r /\ polling p T n D' r) /\
    forall q, q ∈ D' -> exists rq, nodes s' !! q = Some rq /\ in_role rq StateFollower /\ currentTerm rq <= T.
Proof.
  revert s D. induction Q as [|q Q IH]; intros s D Hwf Hnd (r & Hr & Hpo) HQ HD.
  { exists s, D. split; [constructor|]. split; [done|]. split; [by exists r|done]. }
  destruct (HQ q ltac:(by left)) as (rq & m & Hq & Hvo & Hm & Hreq).
  assert (Hnd' : NoDup (p :: q :: Q ++ D)) by exact Hnd.
  apply NoDup_cons in Hnd' as [Hp [HqQ HndQ]%NoDup_cons]. rewrite !not_elem_of_cons, not_elem_of_app in Hp.
  rewrite not_elem_of_app in HqQ. destruct Hp as (Hpq & HpQ & HpD), HqQ as [HqQ HqD].
  apply NoDup_app in HndQ as (HndQ & Hdisj & HndD).
  destruct (vote_run s p T n D q r rq m) as (s1 & r1 & rq1 & R1 & N1 & Hpo1 & Hrole1 & Ht1 & Hnet1); try done.
  { apply NoDup_cons. rewrite not_elem_of_cons. split; [done|]. by apply NoDup_cons. }
  assert (Hother : forall x, x <> p -> x <> q -> nodes s1 !! x = nodes s !! x)
    by (intros; by rewrite N1, !lookup_insert_ne).
  destruct (IH s1 (q :: D)) as (s2 & D2 & R2 & ED & Hpo2 & HD2).
  - eapply campaigns_wf; [exact Hwf|by apply election_campaigns].
  - rewrite <- Permutation_middle. exact Hnd.
  - exists r1. split; [rewrite N1; apply lookup_insert_eq|done].
  - intros x Hx. destruct (HQ x ltac:(by right)) as (rx & mx & Hx1 & Hx2 & Hx3 & Hx4).
    exists rx, mx. rewrite Hother by (intros ->; done). split; [done|]. split; [done|]. split; [|done].
    destruct Hx4 as (Hty & Hto & _), Hreq as (_ & Hto' & _). apply Hnet1; [done|done|].
    intros ->. rewrite Hto in Hto'. by subst.
  - intros x [->|Hx]%elem_of_cons.
    + exists rq1. rewrite N1, lookup_insert_ne, lookup_insert_eq by done. split; [done|]. split; [done|lia].
    + destruct (HD x Hx) as (rx & ? & ?). exists rx. rewrite Hother by (intros ->; done). done.
  - exists s2, D2. split; [by etrans|]. split; [|done]. rewrite ED. by rewrite <- Permutation_middle.
Qed.

(** ** Silence *)

(** All queues are emptied, and the rest is lost. *)
Lemma silence s (l : list Z) :
  logs_wf s -> exists s', rtc election_step s s' /\ dom (nodes s') = dom (nodes s) /\
    forall id r', nodes s' !! id = Some r' -> exists r, nodes s !! id = Some r /\ same_node r r' /\
      (id ∈ l -> outbox r' = []).
Proof.
  induction l as [|i l IH]; intros Hwf.
  { exists s. split; [constructor|]. split; [done|]. intros id r Hr. exists r. split; [done|].
    split; [apply same_refl|]. by intros ?%not_elem_of_nil. }
  destruct (IH Hwf) as (s1 & R1 & D1 & H1). destruct (nodes s1 !! i) as [ri|] eqn:Hi.
  - assert (logs_wf s1) as Hwf1 by (eapply campaigns_wf; [exact Hwf|by apply election_campaigns]).
    destruct (empty_out s1 i ri Hi (Hwf1 i ri Hi)) as (s2 & r2 & R2 & N2 & Hsame & Ho & _).
    exists s2. split; [by etrans|]. split; [rewrite N2, <- D1; apply dom_insert_lookup_L; by eexists|].
    intros id r' Hr'. rewrite N2 in Hr'. destruct (decide (id = i)) as [->|Hne].
    + rewrite lookup_insert_eq in Hr'. injection Hr' as <-. destruct (H1 i ri Hi) as (r & Hr & Hs & _).
      exists r. split; [done|]. split; [by eapply same_trans|done].
    + rewrite lookup_insert_ne in Hr' by done. destruct (H1 id r' Hr') as (r & Hr & Hs & Ho').
      exists r. split; [done|]. split; [done|]. rewrite elem_of_cons. intros [?|?]; [done|auto].
  - exists s1. split; [done|]. split; [done|]. intros id r' Hr'. destruct (H1 id r' Hr') as (r & Hr & Hs & Ho).
    exists r. split; [done|]. split; [done|]. rewrite elem_of_cons. intros [->|?]; [congruence|auto].
Qed.

(** ** Leadership can pass *)

Lemma election_wf s s' : logs_wf s -> rtc election_step s s' -> logs_wf s'.
Proof. intros Hwf Hs. eapply campaigns_wf; [exact Hwf|by apply election_campaigns]. Qed.

Lemma quorum_bounds r n : clusterSize r = Z.of_nat n -> (2 <= n)%nat -> 2 <= quorum r <= Z.of_nat n.
Proof.
  intros E Hn. unfold quorum. rewrite E. pose proof (Z.quot_div_nonneg (Z.of_nat n) 2 ltac:(lia) ltac:(lia)).
  pose proof (Z.div_mod (Z.of_nat n) 2 ltac:(lia)). pose proof (Z.mod_pos_bound (Z.of_nat n) 2 ltac:(lia)). lia.
Qed.

(** A vote of a later term has not been given. *)
Lemma no_vote_yet N s id r t : cluster_inv N s -> nodes s !! id = Some r -> currentTerm r <= t -> votedFor r !! (t + 1) = None.
Proof.
  intros Hinv Hr Ht. destruct (votedFor r !! (t + 1)) as [c|] eqn:E; [|done].
  pose proof (inv_voted _ (ni_raft _ _ _ _ (ci_nodes _ _ Hinv id r Hr)) _ _ E). lia.
Qed.

(** Up to the point where all others follow and the votes are asked for. *)
Lemma canvass_run N L t s p r rL :
  cluster_inv N s -> steady_at L t (nodes s) (flight s) rL -> tidy s -> t + 1 < 2 ^ 63 ->
  p <> L -> nodes s !! p = Some r -> (2 <= size (nodes s))%nat ->
  exists s' r' rL', rtc election_step s s' /\ nodes s' = <[L := rL']> (<[p := r']> (nodes s)) /\
    voter_of (t + 1) L rL' /\ candidate_of p (t + 1) (peers r) (clusterSize r) r' /\
    requests p (t + 1) (peers r) s'.
Proof.
  intros Hinv Hat Htidy Hroom Hne Hr Hsize. pose proof (steady_wf_logs L t s (ex_intro _ rL Hat)) as Hwf.
  pose proof Hat as [HL [HLID HLrole HLt _ HLps _ _ _] Hf _ _].
  destruct (beat_run L t s rL Hat) as (s1 & k & R1 & _ & N1). set (rb := set_msgs _ _) in N1.
  destruct (empty_out s1 L rb) as (s2 & rL2 & R2 & N2 & Hsame & _ & Hnet2);
    [rewrite N1; apply lookup_insert_eq|exact (Hwf L rL HL)|].
  rewrite N1, insert_insert_eq in N2.
  assert (Hbeat : beat rL p ∈ net s2).
  { apply Hnet2. right. unfold outbox, pending, rb. cbn. rewrite !elem_of_app, list_elem_of_fmap.
    left; left; right. exists p. split; [done|]. apply elem_of_elements. rewrite HLps.
    apply elem_of_difference. rewrite not_elem_of_singleton. split; [apply elem_of_dom; by eexists|done]. }
  assert (Hold : old_leader L t (t + 1) rL2).
  { destruct Hsame, HLrole as (? & ? & ?). split; [cbn in *; congruence|cbn in *; split_and!; congruence|cbn in *; congruence|].
    rewrite sn_voted. apply (no_vote_yet N s L rL); [done|done|lia]. }
  assert (Hr2 : nodes s2 !! p = Some r) by by rewrite N2, lookup_insert_ne.
  destruct (Hf p r Hne Hr) as [HID Hrole Ht _ _ _ _]. pose proof (td_size _ _ _ (Htidy p r Hr)) as Hsz.
  destruct (campaigns_run (t + 1) s2 p r) as (s3 & r3 & R3 & N3 & Hwf3 & Hc3 & Hq3 & Hnet3);
    [done|done|by left| |lia|lia|exact (Hwf p r Hr)|].
  { pose proof (inv_term _ (ni_raft _ _ _ _ (ci_nodes _ _ Hinv p r Hr))). lia. }
  assert (Hwfs3 : logs_wf s3) by (apply (election_wf s); [exact Hwf|by etrans; [|etrans]]).
  destruct (depose_run s3 L t p (t + 1) (peers r) (clusterSize r) rL2 r3 (beat rL p)) as (s4 & rL4 & r4 & R4 & N4 & Hvo & Hc4 & Hnet4);
    try done; [by rewrite N3, lookup_insert_ne, N2, lookup_insert_eq|lia|rewrite N3; apply lookup_insert_eq|by apply Hnet3| |].
  { split; [done|]. split; [done|]. split; [done|]. eexists. split; [done|]. by split. }
  exists s4, r4, rL4. split; [by etrans; [|etrans; [|etrans]]|].
  split; [|split; [done|split; [done|]]].
  - rewrite N4, N3, N2, insert_insert_eq. rewrite (insert_insert_ne (nodes s) p L) by done. by rewrite insert_insert_eq.
  - intros q Hq. destruct (Hq3 q Hq) as (m & Hm & Hreq). exists m. split; [|done]. apply Hnet4; [done|apply Hreq].
Qed.

(** The election is won: with nothing more under way, [p] takes over. *)
Lemma close_run s s2 p T r r2 :
  logs_wf s -> nodes s !! p = Some r -> rtc election_step s s2 ->
  nodes s2 !! p = Some r2 -> in_role r2 StateLeader -> currentTerm r2 = T ->
  (forall q, q <> p -> q ∈ dom (nodes s) ->
    exists rq, nodes s2 !! q = Some rq /\ in_role rq StateFollower /\ currentTerm rq <= T) ->
  (forall q rq, nodes s !! q = Some rq -> lastIndex (r_raftLog rq) <= lastIndex (r_raftLog r) /\
    rl_commitIndex (r_raftLog rq) <= rl_commitIndex (r_raftLog r)) ->
  exists s' r', rtc election_step s s' /\ takes_over p T s' r'.
Proof.
  intros Hwf Hr R2 Hr2 Hlead HT HD Hmost. pose proof (election_wf s s2 Hwf R2) as Hwf2.
  destruct (silence s2 (elements (dom (nodes s2))) Hwf2) as (s3 & R3 & D3 & H3).
  set (s4 := mkCluster (nodes s3) []).
  assert (R4 : rtc election_step s s4).
  { etrans; [exact R2|]. eapply rtc_r; [exact R3|]. apply el_lose. apply submseteq_nil_l. }
  pose proof (election_campaigns s s4 Hwf R4) as Hca.
  assert (exists r3, nodes s3 !! p = Some r3) as [r3 Hr3].
  { apply elem_of_dom. rewrite D3. apply elem_of_dom. by eexists. }
  destruct (proj2 Hca p r3 Hr3) as (x & Hx & Hcx). assert (x = r) as -> by congruence.
  destruct (H3 p r3 Hr3) as (y & Hy & Hsame & _). assert (y = r2) as -> by congruence.
  exists s4, r3. split; [done|]. split; [done| | | |].
  - destruct Hsame, Hlead as (? & ? & ?). split_and!; congruence.
  - by rewrite (sn_term _ _ Hsame).
  - clear Hsame. intros q rq Hqp Hq. destruct (H3 q rq Hq) as (y & Hyq & Hsame & _).
    destruct (HD q Hqp) as (z & Hz & Hrole & Htm); [rewrite <- (proj1 Hca); apply elem_of_dom; by eexists|].
    assert (z = y) as -> by congruence.
    destruct (proj2 Hca q rq Hq) as (w & Hw & Hcw). destruct (Hmost q w Hw) as [Hl1 Hl2].
    unfold lastIndex in *. rewrite (ca_entries _ _ Hcw), (ca_entries _ _ Hcx), (ca_commit _ _ Hcw), (ca_commit _ _ Hcx).
    destruct Hsame, Hrole as (? & ? & ?). split; [split_and!; congruence|]. split; [lia|done].
  - intros m Hm. exfalso. unfold flight in Hm. apply list_elem_of_bind in Hm as ([q rq] & Hm & Hq%elem_of_map_to_list).
    destruct (H3 q rq Hq) as (z & Hz & _ & Ho). cbn in Hm. rewrite Ho in Hm.
    + by apply not_elem_of_nil in Hm.
    + apply elem_of_elements, elem_of_dom. by eexists.
Qed.

(** C8: leadership can pass to any node that has everything.  From a steady state
    of a cluster of at least two nodes in which the log and the commit index of a
    follower reach as far as any, there is a run of the election that ends with
    this follower leading in the next term as [Reigns] asks for: all the others
    follow, and nothing of the old leader is under way. *)
Theorem leadership_can_pass N L t s p r :
  cluster_inv N s -> steady L t s -> tidy s -> t + 1 < 2 ^ 63 -> p <> L -> nodes s !! p = Some r ->
  (forall q rq, nodes s !! q = Some rq -> lastIndex (r_raftLog rq) <= lastIndex (r_raftLog r) /\
    rl_commitIndex (r_raftLog rq) <= rl_commitIndex (r_raftLog r)) ->
  exists s' r', rtc election_step s s' /\ takes_over p (t + 1) s' r' /\ steady p (t + 1) s'.
Proof.
  intros Hinv Hst Htidy Hroom Hne Hr Hmost. pose proof (steady_wf_logs L t s Hst) as Hwf.
  pose proof Hst as [rL Hat]. pose proof (sa_lookup _ _ _ _ _ Hat) as HL.
  assert (Hsize : (2 <= size (nodes s))%nat).
  { rewrite <- size_dom. change 2%nat with (length [p; L]). rewrite <- (size_list_to_set (C := gset Z) [p; L]).
    - apply subseteq_size. intros x. rewrite elem_of_list_to_set, !elem_of_cons. intros [->|[->|Hx]];
        [apply elem_of_dom; by eexists..|by apply not_elem_of_nil in Hx].
    - apply NoDup_cons. split; [by intros ?%list_elem_of_singleton|apply NoDup_singleton]. }
  destruct (Htidy p r Hr) as [HID Hps Hsz _].
  destruct (canvass_run N L t s p r rL) as (s1 & r1 & rL1 & R1 & N1 & Hvo & [C1 C2 C3 C4 C5 C6] & Hreq); [done..|].
  set (Q := elements (dom (nodes s) ∖ {[p]})).
  assert (HQ : forall q, q ∈ Q <-> q <> p /\ q ∈ dom (nodes s)).
  { intros q. unfold Q. rewrite elem_of_elements, elem_of_difference, not_elem_of_singleton. tauto. }
  destruct (votes_run s1 p (t + 1) (clusterSize r) [] Q) as (s2 & D & R2 & ED & (r2 & Hr2 & Hpo2) & HD).
  - by eapply election_wf.
  - rewrite app_nil_r. apply NoDup_cons. split; [|apply NoDup_elements]. rewrite HQ. by intros [? _].
  - exists r1. split; [by rewrite N1, lookup_insert_ne, lookup_insert_eq|]. split; try done. right.
    split; [done|]. destruct (quorum_bounds r1 (size (nodes s))) as [Hq2 _]; [by rewrite C3|done|].
    split; [unfold zlen; cbn [length]; lia|]. exists {[p := true]}. split; [done|]. intros x ->%list_elem_of_singleton. apply lookup_singleton_eq.
  - intros q Hq. apply HQ in Hq as [Hqp [rq Hq]%elem_of_dom].
    destruct (Hreq q) as (m & Hm & Hmr).
    { rewrite Hps. apply elem_of_difference. rewrite not_elem_of_singleton. split; [apply elem_of_dom; by eexists|done]. }
    destruct (decide (q = L)) as [->|HqL].
    + exists rL1, m. rewrite N1, lookup_insert_eq. done.
    + exists rq, m. rewrite N1, !lookup_insert_ne by done. split; [done|]. split; [|done].
      destruct (sa_follower _ _ _ _ _ Hat q rq HqL Hq) as [? ? ? _ _ _ _]. split; [done|done|lia|].
      by apply (no_vote_yet N s q rq).
  - intros q Hq. by apply not_elem_of_nil in Hq.
  - rewrite app_nil_r in ED.
    assert (Hlead : in_role r2 StateLeader).
    { destruct (po_role _ _ _ _ _ Hpo2) as [|[_ [Hlt _]]]; [done|exfalso].
      destruct (quorum_bounds r2 (size (nodes s))) as [_ Hq2]; [by rewrite (po_size _ _ _ _ _ Hpo2)|done|].
      assert (length Q = size (dom (nodes s) ∖ {[p]})) as EQ by done.
      rewrite size_difference, size_singleton, size_dom in EQ
        by (apply singleton_subseteq_l, elem_of_dom; by eexists).
      unfold zlen in Hlt. rewrite ED, EQ in Hlt. lia. }
    destruct (close_run s s2 p (t + 1) r r2) as (s3 & r3 & R3 & Hto); try done; [by etrans|by apply Hpo2| |].
    + intros q Hqp Hq. apply HD. by rewrite ED, HQ.
    + exists s3, r3. split; [done|]. split; [done|].
      eapply handover_steady; [done|done|by apply election_campaigns|lia|done].
Qed.

Lemma leadership_can_pass_witness :
  exists s' r', rtc election_step elected s' /\ takes_over 2 2 s' r' /\ steady 2 2 s'.
Proof.
  destruct (nodes elected !! 2) as [r|] eqn:Hr; [|vm_compute in Hr; discriminate Hr].
  apply (leadership_can_pass (Z.of_nat (length election_run)) 1 1 elected 2 r).
  - apply (cluster_run_inv [1; 2; 3]); [exact nodup_123|vm_compute; reflexivity|exact elected_run].
  - exact elected_steady.
  - apply tidyb_sound. vm_compute. reflexivity.
  - reflexivity.
  - discriminate.
  - exact Hr.
  - assert (map_Forall (fun _ rq => lastIndex (r_raftLog rq) <= 0 /\ rl_commitIndex (r_raftLog rq) <= 0) (nodes elected)) as Hall
      by (apply (bool_decide_eq_true_1 _); vm_compute; reflexivity).
    assert (lastIndex (r_raftLog r) = 0 /\ rl_commitIndex (r_raftLog r) = 0) as [El Ec].
    { vm_compute in Hr. injection Hr as <-. vm_compute. split; reflexivity. }
    intros q rq Hq. rewrite El, Ec. exact (Hall q rq Hq).
Defined.
