(* ===== verification/Generator.v ===== *)
(** * Request ids ([generator.go])

    An id is the member in its two high bytes and a 48-bit suffix that starts
    at the clock and grows by one.  The addition is the atomic one of the code:
    a call is one step. *)
From S2P Require Import Prelude.

Local Open Scope Z_scope.

Definition tsLen : Z := 5 * 8.
Definition cntLen : Z := 8.
Definition suffixLen : Z := tsLen + cntLen.

Definition lowbit (x n : Z) : Z := Z.land x (Z.shiftr (2 ^ 64 - 1) (64 - n)).

Record Generator := mkGenerator {
  g_prefix : Z;
  g_suffix : Z;
}.

(** [unixNano] is what [now.UnixNano()] gives, an [int64]. *)
Definition NewGenerator (memberID unixNano : Z) : Generator :=
  let prefix := u64 (Z.shiftl memberID suffixLen) in
  let unixMilli := u64 unixNano / 1000000 in
  let suffix := u64 (Z.shiftl (lowbit unixMilli tsLen) cntLen) in
  mkGenerator prefix suffix.

Definition Next (g : Generator) : Z * Generator :=
  let suffix := u64 (g_suffix g + 1) in
  (Z.lor (g_prefix g) (lowbit suffix suffixLen), mkGenerator (g_prefix g) suffix).

(** The ids of [n] calls. *)
Fixpoint take_ids (n : nat) (g : Generator) : list Z :=
  match n with
  | O => []
  | S n => let '(id, g) := Next g in id :: take_ids n g
  end.

(** ** Arithmetic of the fields *)

Lemma lowbit_mod x n : 0 <= n <= 64 -> lowbit x n = x mod 2 ^ n.
Proof.
  intros Hn. unfold lowbit. rewrite <- Z.land_ones by lia. f_equal.
  rewrite Z.shiftr_div_pow2 by lia. rewrite Z.ones_equiv.
  replace (2 ^ 64) with (2 ^ n * 2 ^ (64 - n)) by (rewrite <- Z.pow_add_r by lia; f_equal; lia).
  pose proof (Z.pow_pos_nonneg 2 n ltac:(lia) ltac:(lia)).
  pose proof (Z.pow_pos_nonneg 2 (64 - n) ltac:(lia) ltac:(lia)).
  symmetry. apply (Z.div_unique_pos _ _ _ (2 ^ (64 - n) - 1)); lia.
Qed.

Lemma suffix_mod x : lowbit x suffixLen = x mod 2 ^ 48.
Proof. apply (lowbit_mod x 48). lia. Qed.

(** A prefix of whole 48-bit units and a suffix do not overlap. *)
Lemma lor_prefix m x : 0 <= m -> 0 <= x < 2 ^ 48 -> Z.lor (m * 2 ^ 48) x = m * 2 ^ 48 + x.
Proof.
  intros Hm Hx. rewrite <- Z.shiftl_mul_pow2 by lia. rewrite <- Z.add_lor_land.
  enough (Z.land (Z.shiftl m 48) x = 0) as -> by lia.
  apply Z.bits_inj'. intros i Hi. rewrite Z.land_spec, Z.shiftl_spec, Z.bits_0 by lia.
  destruct (Z.ltb_spec i 48) as [Hlt|Hge].
  - by rewrite Z.testbit_neg_r by lia.
  - rewrite (Z.bits_above_log2 x i); [apply andb_false_r|lia|].
    destruct (decide (x = 0)) as [->|]; [cbn; lia|].
    apply Z.log2_lt_pow2; [lia|]. apply (Z.lt_le_trans _ (2 ^ 48)); [lia|]. apply Z.pow_le_mono_r; lia.
Qed.

Lemma mod_mod_pow x : u64 x mod 2 ^ 48 = x mod 2 ^ 48.
Proof.
  unfold u64. replace (2 ^ 64) with (2 ^ 48 * 2 ^ 16) by reflexivity.
  rewrite Z.rem_mul_r, (Z.mul_comm (2 ^ 48)), Z.mod_add, Z.mod_mod by lia. done.
Qed.

(** ** The ids of one generator *)

Definition id_at (m s : Z) (i : nat) : Z := m * 2 ^ 48 + (s + 1 + Z.of_nat i) mod 2 ^ 48.

Lemma Next_id m s :
  0 <= m -> Next (mkGenerator (m * 2 ^ 48) s) = (id_at m s 0, mkGenerator (m * 2 ^ 48) (u64 (s + 1))).
Proof.
  intros Hm. unfold Next. cbn [g_prefix g_suffix].
  rewrite suffix_mod, mod_mod_pow, lor_prefix; [|done|apply Z.mod_pos_bound; lia].
  unfold id_at. by rewrite Z.add_0_r.
Qed.

Lemma id_at_next m s i : id_at m (u64 (s + 1)) i = id_at m s (S i).
Proof.
  unfold id_at. f_equal. rewrite <- Z.add_assoc, <- Z.add_mod_idemp_l, mod_mod_pow by lia.
  rewrite Z.add_mod_idemp_l by lia. f_equal. lia.
Qed.

Lemma take_ids_spec n m s :
  0 <= m -> take_ids n (mkGenerator (m * 2 ^ 48) s) = id_at m s <$> seq 0 n.
Proof.
  intros Hm. revert s. induction n as [|n IH]; intros s; [done|].
  cbn [take_ids seq]. rewrite Next_id by done. rewrite IH. cbn. f_equal.
  rewrite <- (fmap_S_seq 0 n), <- list_fmap_compose. apply list_fmap_ext. intros i j _. apply id_at_next.
Qed.

Lemma NewGenerator_eq m t :
  0 <= m < 2 ^ 16 -> 0 <= t < 2 ^ 63 ->
  NewGenerator m t = mkGenerator (m * 2 ^ 48) ((t / 1000000) mod 2 ^ 40 * 2 ^ 8).
Proof.
  intros Hm Ht. unfold NewGenerator. rewrite (lowbit_mod _ 40) by lia.
  change suffixLen with 48. change cntLen with 8. rewrite !Z.shiftl_mul_pow2 by lia.
  unfold u64. rewrite (Z.mod_small t) by lia.
  pose proof (Z.mod_pos_bound (t / 1000000) (2 ^ 40) ltac:(lia)).
  f_equal; apply Z.mod_small; lia.
Qed.

(** Positions less than 2^48 apart have different suffixes. *)
Lemma suffix_inj a b : a mod 2 ^ 48 = b mod 2 ^ 48 -> Z.abs (a - b) < 2 ^ 48 -> a = b.
Proof.
  intros E Hd. pose proof (Z.div_mod a (2 ^ 48) ltac:(lia)). pose proof (Z.div_mod b (2 ^ 48) ltac:(lia)).
  rewrite E in *. assert (a / 2 ^ 48 = b / 2 ^ 48) by nia. lia.
Qed.

Lemma id_at_prefix m s i : 0 <= m -> Z.shiftr (id_at m s i) 48 = m.
Proof.
  intros Hm. rewrite Z.shiftr_div_pow2 by lia. unfold id_at.
  rewrite Z.add_comm, Z.div_add, Z.div_small by (try apply Z.mod_pos_bound; lia). lia.
Qed.

(** C39: the ids of a generator are pairwise different for the first 2^48 calls,
    and the two high bytes of each are the member: two members never make the
    same id. *)
Theorem generator_ids_unique m t n :
  0 <= m < 2 ^ 16 -> 0 <= t < 2 ^ 63 -> Z.of_nat n <= 2 ^ 48 ->
  NoDup (take_ids n (NewGenerator m t)) /\
  forall id, id ∈ take_ids n (NewGenerator m t) -> Z.shiftr id 48 = m.
Proof.
  intros Hm Ht Hn. rewrite NewGenerator_eq, take_ids_spec by lia. split.
  - apply NoDup_fmap_2_strong; [|apply NoDup_seq]. intros i j Hi%elem_of_seq Hj%elem_of_seq E.
    unfold id_at in E. enough (Z.of_nat i = Z.of_nat j) by lia.
    apply Z.add_reg_l, suffix_inj in E; lia.
  - intros id (i & -> & _)%list_elem_of_fmap. apply id_at_prefix. lia.
Qed.

(** C40: ids stay unique over a restart of a member: as long as the first
    generator made fewer than 256 ids per millisecond up to the start of the
    second, and the second is not 2^40 milliseconds old, no id of one is an id
    of the other. *)
Theorem generator_restart m t1 t2 n1 n2 id :
  0 <= m < 2 ^ 16 -> 0 <= t1 -> t1 < t2 < 2 ^ 63 ->
  let ms := t2 / 1000000 - t1 / 1000000 in
  Z.of_nat n1 <= 256 * ms -> 256 * ms + Z.of_nat n2 <= 2 ^ 48 ->
  id ∈ take_ids n1 (NewGenerator m t1) -> id ∉ take_ids n2 (NewGenerator m t2).
Proof.
  intros Hm H1 H2 ms Hn1 Hn2. rewrite !NewGenerator_eq, !take_ids_spec by lia.
  intros (i & -> & Hi%elem_of_seq)%list_elem_of_fmap (j & E & Hj%elem_of_seq)%list_elem_of_fmap.
  unfold id_at in E. apply Z.add_reg_l in E.
  assert (Hw : forall x k, (x mod 2 ^ 40 * 2 ^ 8 + k) mod 2 ^ 48 = (x * 2 ^ 8 + k) mod 2 ^ 48).
  { intros x k. rewrite (Z.div_mod x (2 ^ 40)) at 2 by lia.
    replace ((2 ^ 40 * (x / 2 ^ 40) + x mod 2 ^ 40) * 2 ^ 8 + k)
      with (x mod 2 ^ 40 * 2 ^ 8 + k + x / 2 ^ 40 * 2 ^ 48) by ring. by rewrite Z.mod_add by lia. }
  rewrite <- !Z.add_assoc, !Hw in E. subst ms. apply suffix_inj in E; lia.
Qed.

(** ** Witnesses *)

Lemma generator_ids_unique_witness :
  NoDup (take_ids 300 (NewGenerator 3 1700000000000000000)) /\
  forall id, id ∈ take_ids 300 (NewGenerator 3 1700000000000000000) -> Z.shiftr id 48 = 3.
Proof. apply (generator_ids_unique 3 1700000000000000000 300); [lia|lia|]. vm_compute. discriminate. Defined.

Definition old_id : Z := List.nth 150 (take_ids 200 (NewGenerator 3 1700000000000000000)) 0.

Lemma generator_restart_witness :
  old_id ∈ take_ids 200 (NewGenerator 3 1700000000000000000) /\
  old_id ∉ take_ids 200 (NewGenerator 3 1700000000001000000).
Proof.
  assert (old_id ∈ take_ids 200 (NewGenerator 3 1700000000000000000)) as Hin.
  { apply (list_elem_of_lookup_2 _ 150%nat). vm_compute. reflexivity. }
  split; [exact Hin|].
  apply (generator_restart 3 1700000000000000000 1700000000001000000 200 200 old_id);
    [lia|lia|lia|vm_compute; discriminate|vm_compute; discriminate|exact Hin].
Defined.
