(* ===== verification/Wait.v ===== *)
(** * Waiting for writes and reads ([wait.go], [wait_time.go])

    Both waiters hand out channels that are only ever closed.  A channel is a
    number; [chans] is the heap of the channels a waiter made, with the set of
    those that are closed, and [close] of a closed one panics.  The mutexes make each method
    one step. *)
From S2P Require Import Prelude.

Local Open Scope Z_scope.

Record chans := mkChans {
  ch_next : nat;
  ch_closed : gset nat;
}.

Definition make_chan (h : chans) : nat * chans := (ch_next h, mkChans (S (ch_next h)) (ch_closed h)).

Definition close_chan (ch : nat) (h : chans) : outcome chans :=
  if decide (ch ∈ ch_closed h) then Panic CloseOfClosedChannel
  else Ok (mkChans (ch_next h) ({[ch]} ∪ ch_closed h)).

(** What holds of a waiter's channels: those that are closed were made before,
    and those it still holds are open and each belongs to one key. *)
Record open_chans (h : chans) (m : gmap Z nat) : Prop := {
  oc_made ch : ch ∈ ch_closed h -> (ch < ch_next h)%nat;
  oc_open k ch : m !! k = Some ch -> (ch < ch_next h)%nat /\ ch ∉ ch_closed h;
  oc_inj k k' ch : m !! k = Some ch -> m !! k' = Some ch -> k = k';
}.

(** ** [waiter] *)

Record waiter := mkWaiter { w_chans : gmap Z nat }.

Definition newWaiter : waiter := mkWaiter ∅.

Definition waiter_Trigger (id : Z) (h : chans) (w : waiter) : outcome (chans * waiter) :=
  match w_chans w !! id with
  | Some ch =>
      h ← close_chan ch h;
      Ok (h, mkWaiter (delete id (w_chans w)))
  | None => Ok (h, w)
  end.

Definition waiter_Register (id : Z) (h : chans) (w : waiter) : nat * (chans * waiter) :=
  match w_chans w !! id with
  | Some ch => (ch, (h, w))
  | None =>
      let '(ch, h) := make_chan h in
      (ch, (h, mkWaiter (<[id := ch]> (w_chans w))))
  end.

(** ** [waitTime]

    [closec] is the one channel that is closed when the program starts: it is
    [None], and the channels the waiter makes are [Some]. *)

Record waitTime := mkWaitTime {
  lastTriggered : Z;
  wt_m : gmap Z nat;
}.

Definition newWaitTime : waitTime := mkWaitTime 0 ∅.

Definition waitTime_Wait (deadline : Z) (h : chans) (w : waitTime)
    : option nat * (chans * waitTime) :=
  if deadline <=? lastTriggered w then (None, (h, w))
  else
    match wt_m w !! deadline with
    | Some ch => (Some ch, (h, w))
    | None =>
        let '(ch, h) := make_chan h in
        (Some ch, (h, mkWaitTime (lastTriggered w) (<[deadline := ch]> (wt_m w))))
    end.

(** The range over the map, in the order [ord] that Go happens to choose. *)
Fixpoint trigger_loop (ord : list Z) (t : Z) (h : chans) (m : gmap Z nat)
    : outcome (chans * gmap Z nat) :=
  match ord with
  | [] => Ok (h, m)
  | d :: ord =>
      match m !! d with
      | None => trigger_loop ord t h m
      | Some ch =>
          if d <=? t then
            h ← close_chan ch h;
            trigger_loop ord t h (delete d m)
          else trigger_loop ord t h m
      end
  end.

Definition waitTime_Trigger (ord : list Z) (t : Z) (h : chans) (w : waitTime)
    : outcome (chans * waitTime) :=
  '(h, m) ← trigger_loop ord t h (wt_m w);
  Ok (h, mkWaitTime t m).

(** The orders a range over the map can take: every key, once. *)
Definition map_order {A} (m : gmap Z A) (ord : list Z) : Prop :=
  NoDup ord /\ forall k, k ∈ ord <-> is_Some (m !! k).

(** ** The heap *)

Lemma open_chans_new : open_chans (mkChans 0 ∅) ∅.
Proof. split; [set_solver|intros ? ? H|intros ? ? ? H]; by rewrite lookup_empty in H. Qed.

Lemma open_chans_make h m k :
  open_chans h m -> m !! k = None ->
  open_chans (mkChans (S (ch_next h)) (ch_closed h)) (<[k := ch_next h]> m).
Proof.
  intros [H0 H1 H2] Hk. split; cbn.
  - intros ch Hc%H0. lia.
  - intros j ch [[-> <-]|[_ Hj]]%lookup_insert_Some; [|destruct (H1 j ch Hj); split; [lia|done]].
    split; [lia|]. intros Hc%H0. lia.
  - intros j j' ch [[-> <-]|[Hne Hj]]%lookup_insert_Some [[-> E]|[_ Hj']]%lookup_insert_Some; subst.
    + done.
    + apply H1 in Hj'. lia.
    + apply H1 in Hj. lia.
    + by apply (H2 _ _ ch).
Qed.

(** Closing the channel of one key keeps those of the others open. *)
Lemma close_open h m k ch :
  open_chans h m -> m !! k = Some ch ->
  close_chan ch h = Ok (mkChans (ch_next h) ({[ch]} ∪ ch_closed h)) /\
  open_chans (mkChans (ch_next h) ({[ch]} ∪ ch_closed h)) (delete k m).
Proof.
  intros [H0 H1 H2] Hk. destruct (H1 k ch Hk) as [Hlt Ho]. unfold close_chan. rewrite decide_False by done.
  split; [done|]. split; cbn.
  - intros c [->%elem_of_singleton|Hc%H0]%elem_of_union; done.
  - intros j c [Hne Hj]%lookup_delete_Some. destruct (H1 j c Hj). split; [done|].
    intros [->%elem_of_singleton|?]%elem_of_union; [|done]. by destruct Hne; apply (H2 _ _ ch).
  - intros j j' c [_ Hj]%lookup_delete_Some [_ Hj']%lookup_delete_Some. by apply (H2 _ _ c).
Qed.

(** ** Writes: a registered channel is closed by its trigger and by no other *)

Inductive wait_op :=
  | OpRegister (id : Z)
  | OpTrigger (id : Z).

Definition wait_exec (op : wait_op) (s : chans * waiter) : outcome (chans * waiter) :=
  let '(h, w) := s in
  match op with
  | OpRegister id => Ok (waiter_Register id h w).2
  | OpTrigger id => waiter_Trigger id h w
  end.

Fixpoint wait_run (ops : list wait_op) (s : chans * waiter) : outcome (chans * waiter) :=
  match ops with
  | [] => Ok s
  | op :: ops => s ← wait_exec op s; wait_run ops s
  end.

Definition waiter_ok (s : chans * waiter) : Prop := open_chans s.1 (w_chans s.2).

Lemma Register_ok id h w ch s :
  waiter_ok (h, w) -> waiter_Register id h w = (ch, s) ->
  waiter_ok s /\ w_chans s.2 !! id = Some ch /\ ch_closed s.1 = ch_closed h /\ w_chans w ⊆ w_chans s.2.
Proof.
  unfold waiter_ok, waiter_Register. cbn. intros Ho. destruct (w_chans w !! id) as [c|] eqn:E; intros [= <- <-]; cbn.
  - done.
  - split_and!; [by apply open_chans_make|by rewrite lookup_insert_eq|done|by apply insert_subseteq].
Qed.

(** What a trigger does: the channel of the id, if there is one, is closed. *)
Lemma Trigger_ok id h w :
  waiter_ok (h, w) ->
  exists s, waiter_Trigger id h w = Ok s /\ waiter_ok s /\ w_chans s.2 = delete id (w_chans w) /\
    ch_closed s.1 = from_option (fun ch => {[ch]} ∪ ch_closed h) (ch_closed h) (w_chans w !! id).
Proof.
  unfold waiter_ok, waiter_Trigger. cbn. intros Ho. destruct (w_chans w !! id) as [ch|] eqn:E; cbn.
  - destruct (close_open _ _ _ _ Ho E) as [-> Ho']. eexists. split; [done|]. done.
  - exists (h, w). split_and!; try done. cbn. by rewrite delete_id.
Qed.

Lemma wait_run_closed ops s ch :
  waiter_ok s -> ch ∈ ch_closed s.1 ->
  exists s', wait_run ops s = Ok s' /\ waiter_ok s' /\ ch ∈ ch_closed s'.1.
Proof.
  revert s. induction ops as [|op ops IH]; intros [h w] Hs Hc; [by exists (h, w)|]. cbn.
  destruct op as [id|id]; cbn.
  - destruct (waiter_Register id h w) as [c s1] eqn:E. destruct (Register_ok _ _ _ _ _ Hs E) as (Ho & _ & Ec & _).
    apply IH; [done|]. cbn. by rewrite Ec.
  - destruct (Trigger_ok id h w Hs) as (s1 & -> & Ho & _ & Ec). apply IH; [done|]. rewrite Ec.
    destruct (w_chans w !! id); cbn; set_solver.
Qed.

Lemma wait_run_open ops s id ch :
  waiter_ok s -> w_chans s.2 !! id = Some ch ->
  exists s', wait_run ops s = Ok s' /\ waiter_ok s' /\ (ch ∈ ch_closed s'.1 <-> OpTrigger id ∈ ops).
Proof.
  revert s. induction ops as [|op ops IH]; intros [h w] Hs Hk.
  - exists (h, w). split_and!; [done..|]. cbn in Hk. split; [|by intros ?%not_elem_of_nil].
    intros Hc. by destruct (oc_open _ _ Hs id ch Hk).
  - cbn. destruct op as [j|j]; cbn in *.
    + destruct (waiter_Register j h w) as [c s1] eqn:E.
      destruct (Register_ok _ _ _ _ _ Hs E) as (Ho & _ & _ & Hsub).
      cbn. destruct (IH s1 Ho) as (s' & -> & Ho' & Hiff); [by eapply lookup_weaken|].
      exists s'. split_and!; [done..|]. rewrite Hiff, elem_of_cons. intuition discriminate.
    + destruct (Trigger_ok j h w Hs) as (s1 & -> & Ho & Em & Ec). cbn in *.
      destruct (decide (j = id)) as [->|Hne].
      * destruct (wait_run_closed ops s1 ch Ho) as (s' & -> & Ho' & Hc); [rewrite Ec; cbn in Hk; rewrite Hk; set_solver|].
        exists s'. split_and!; [done..|]. split; [intros _; apply elem_of_cons; by left|done].
      * destruct (IH s1 Ho) as (s' & -> & Ho' & Hiff); [by rewrite Em, lookup_delete_ne|].
        exists s'. split_and!; [done..|]. rewrite Hiff, elem_of_cons. split; [by right|].
        intros [[= ->]|?]; done.
Qed.

(** No write is woken early and none is forgotten: the channel that
    [Register] returns for an id is closed, after any further calls of
    [Register] and [Trigger] in any order, exactly if one of them was a
    trigger of that id; none of these calls closes a channel twice. *)
Theorem waiter_wakes h w id ch s ops :
  waiter_ok (h, w) -> waiter_Register id h w = (ch, s) ->
  exists s', wait_run ops s = Ok s' /\ waiter_ok s' /\ (ch ∈ ch_closed s'.1 <-> OpTrigger id ∈ ops).
Proof.
  intros Hs E. destruct (Register_ok _ _ _ _ _ Hs E) as (Ho & Hk & _). by apply wait_run_open.
Qed.

(** ** Reads: a channel is closed by the first trigger that reaches its deadline *)

Lemma trigger_loop_spec ord t h m :
  open_chans h m -> NoDup ord ->
  exists h' m', trigger_loop ord t h m = Ok (h', m') /\ open_chans h' m' /\ ch_next h' = ch_next h /\
    (forall k, m' !! k = if decide (k ∈ ord /\ k <= t) then None else m !! k) /\
    (forall ch, ch ∈ ch_closed h' <-> ch ∈ ch_closed h \/ exists k, k ∈ ord /\ k <= t /\ m !! k = Some ch).
Proof.
  intros Ho Hnd. revert h m Ho. induction Hnd as [|d ord Hd _ IH]; intros h m Ho; cbn.
  - exists h, m. split_and!; [done..| |].
    + intros k. rewrite decide_False; [done|]. by intros [?%not_elem_of_nil _].
    + intros ch. split; [by left|]. by intros [?|(k & ?%not_elem_of_nil & _)].
  - assert (Hskip : m !! d = None \/ t < d -> exists h' m', trigger_loop ord t h m = Ok (h', m') /\
      open_chans h' m' /\ ch_next h' = ch_next h /\
      (forall k, m' !! k = if decide (k ∈ d :: ord /\ k <= t) then None else m !! k) /\
      (forall ch, ch ∈ ch_closed h' <-> ch ∈ ch_closed h \/ exists k, k ∈ d :: ord /\ k <= t /\ m !! k = Some ch)).
    { intros Hs. destruct (IH h m Ho) as (h' & m' & E & Ho' & En & Em & Ec). exists h', m'.
      split_and!; [done..| |].
      - intros k. rewrite Em. destruct (decide (k = d)) as [->|Hne].
        + rewrite decide_False by tauto. case_decide; [|done]. destruct Hs; [done|lia].
        + apply decide_ext. rewrite elem_of_cons. tauto.
      - intros ch. etrans; [apply Ec|]. split; intros [?|(k & H1 & H2 & H3)]; try (by left); right.
        + exists k. rewrite elem_of_cons. tauto.
        + apply elem_of_cons in H1 as [->|H1]; [destruct Hs; [congruence|lia]|by exists k]. }
    destruct (m !! d) as [ch|] eqn:E; [|by apply Hskip; left].
    destruct (Z.leb_spec d t) as [Hle|Hgt]; [|by apply Hskip; right]. clear Hskip.
    destruct (close_open _ _ _ _ Ho E) as [-> Ho1]. cbn.
    destruct (IH _ _ Ho1) as (h' & m' & -> & Ho' & En & Em & Ec). exists h', m'. split_and!; [done..| |].
    + intros k. rewrite Em. destruct (decide (k = d)) as [->|Hne].
      * rewrite decide_False by tauto. rewrite decide_True by (split; [apply elem_of_cons; by left|done]).
        by rewrite lookup_delete_eq.
      * rewrite lookup_delete_ne by done. apply decide_ext. rewrite elem_of_cons. tauto.
    + intros c. etrans; [apply Ec|]. cbn. rewrite elem_of_union, elem_of_singleton. split.
      * intros [[->|?]|(k & H1 & H2 & [H3 H4]%lookup_delete_Some)]; [right|by left|right].
        -- exists d. rewrite elem_of_cons. tauto.
        -- exists k. rewrite elem_of_cons. tauto.
      * intros [?|(k & [->|H1]%elem_of_cons & H2 & H3)]; [by left; right|left; left; congruence|].
        right. exists k. rewrite lookup_delete_ne by congruence. done.
Qed.

Definition default_map_order {A} (m : gmap Z A) : list Z := (map_to_list m).*1.

Lemma default_map_order_ok {A} (m : gmap Z A) : map_order m (default_map_order m).
Proof.
  split; [apply NoDup_fst_map_to_list|]. intros k. unfold default_map_order. rewrite list_elem_of_fmap. split.
  - intros ([k' ch] & -> & Hk%elem_of_map_to_list). by eexists.
  - intros [ch Hk]. exists (k, ch). split; [done|by apply elem_of_map_to_list].
Qed.

(** The result of a trigger, and that it does not depend on the order in which
    Go ranges over the map. *)
Lemma waitTime_Trigger_ok ord t h w :
  open_chans h (wt_m w) -> map_order (wt_m w) ord ->
  exists h' w', waitTime_Trigger ord t h w = Ok (h', w') /\ open_chans h' (wt_m w') /\
    ch_next h' = ch_next h /\ lastTriggered w' = t /\
    (forall k, wt_m w' !! k = if decide (k <= t) then None else wt_m w !! k) /\
    (forall ch, ch ∈ ch_closed h' <-> ch ∈ ch_closed h \/ exists k, k <= t /\ wt_m w !! k = Some ch).
Proof.
  intros Ho [Hnd Hin]. unfold waitTime_Trigger.
  destruct (trigger_loop_spec ord t h (wt_m w) Ho Hnd) as (h' & m' & -> & Ho' & En & Em & Ec). cbn.
  eexists _, _. split; [done|]. cbn. split_and!; [done..| |].
  - intros k. rewrite Em. destruct (decide (k <= t)) as [Hk|Hk].
    + destruct (wt_m w !! k) eqn:E; [|by case_decide].
      rewrite decide_True; [done|]. split; [apply Hin; by eexists|done].
    + by rewrite decide_False by tauto.
  - intros ch. etrans; [apply Ec|]. split; intros [?|(k & H)]; try (by left); right; exists k.
    + tauto.
    + destruct H as [H1 H2]. split_and!; [apply Hin; by eexists|done..].
Qed.

Lemma trigger_any_order ord t h w :
  open_chans h (wt_m w) -> map_order (wt_m w) ord ->
  waitTime_Trigger ord t h w = waitTime_Trigger (default_map_order (wt_m w)) t h w.
Proof.
  intros Ho Hord.
  destruct (waitTime_Trigger_ok ord t h w Ho Hord) as ([n1 c1] & [t1 m1] & -> & _ & N1 & T1 & M1 & C1).
  destruct (waitTime_Trigger_ok _ t h w Ho (default_map_order_ok _)) as ([n2 c2] & [t2 m2] & -> & _ & N2 & T2 & M2 & C2).
  cbn in *. subst. assert (c1 = c2) as -> by (apply set_eq; intros ch; by rewrite C1, C2).
  assert (m1 = m2) as -> by (apply map_eq; intros k; by rewrite M1, M2). done.
Qed.

Inductive read_op :=
  | OpWait (deadline : Z)
  | OpWake (t : Z).

Definition read_exec (op : read_op) (s : chans * waitTime) : outcome (chans * waitTime) :=
  let '(h, w) := s in
  match op with
  | OpWait d => Ok (waitTime_Wait d h w).2
  | OpWake t => waitTime_Trigger (default_map_order (wt_m w)) t h w
  end.

Fixpoint read_run (ops : list read_op) (s : chans * waitTime) : outcome (chans * waitTime) :=
  match ops with
  | [] => Ok s
  | op :: ops => s ← read_exec op s; read_run ops s
  end.

Definition waitTime_ok (s : chans * waitTime) : Prop := open_chans s.1 (wt_m s.2).

Definition is_closed (c : option nat) (h : chans) : Prop :=
  match c with None => True | Some ch => ch ∈ ch_closed h end.

#[global] Instance is_closed_dec c h : Decision (is_closed c h).
Proof. destruct c; cbn; apply _. Defined.

Lemma Wait_ok d h w c s :
  waitTime_ok (h, w) -> waitTime_Wait d h w = (c, s) ->
  waitTime_ok s /\ wt_m w ⊆ wt_m s.2 /\ ch_closed s.1 = ch_closed h /\ lastTriggered s.2 = lastTriggered w /\
  match c with None => d <= lastTriggered w | Some ch => lastTriggered w < d /\ wt_m s.2 !! d = Some ch end.
Proof.
  unfold waitTime_ok, waitTime_Wait. cbn. intros Ho. destruct (Z.leb_spec d (lastTriggered w)); [by intros [= <- <-]|].
  destruct (wt_m w !! d) as [ch|] eqn:E; intros [= <- <-]; cbn; [done|].
  split_and!; [by apply open_chans_make|by apply insert_subseteq|done..|by rewrite lookup_insert_eq].
Qed.

Lemma read_run_closed ops s c :
  waitTime_ok s -> is_closed c s.1 ->
  exists s', read_run ops s = Ok s' /\ waitTime_ok s' /\ is_closed c s'.1.
Proof.
  revert s. induction ops as [|op ops IH]; intros [h w] Hs Hc; [by exists (h, w)|]. cbn.
  destruct op as [d|t]; cbn.
  - destruct (waitTime_Wait d h w) as [c1 s1] eqn:E. destruct (Wait_ok _ _ _ _ _ Hs E) as (Ho & _ & Ec & _).
    apply IH; [done|]. cbn. destruct c; [|done]. cbn in *. by rewrite Ec.
  - destruct (waitTime_Trigger_ok _ t h w Hs (default_map_order_ok _)) as (h' & w' & -> & Ho & _ & _ & _ & Ec).
    apply IH; [done|]. destruct c; [|done]. cbn in *. apply Ec. by left.
Qed.

Lemma read_run_open ops s d ch :
  waitTime_ok s -> wt_m s.2 !! d = Some ch ->
  exists s', read_run ops s = Ok s' /\ waitTime_ok s' /\
    (ch ∈ ch_closed s'.1 <-> exists t, OpWake t ∈ ops /\ d <= t).
Proof.
  revert s. induction ops as [|op ops IH]; intros [h w] Hs Hk.
  - exists (h, w). split_and!; [done..|]. cbn in Hk. split; [|by intros (t & ?%not_elem_of_nil & _)].
    intros Hc. by destruct (oc_open _ _ Hs d ch Hk).
  - cbn. destruct op as [d'|t]; cbn in *.
    + destruct (waitTime_Wait d' h w) as [c1 s1] eqn:E.
      destruct (Wait_ok _ _ _ _ _ Hs E) as (Ho & Hsub & _). cbn.
      destruct (IH s1 Ho) as (s' & -> & Ho' & Hiff); [by eapply lookup_weaken|].
      exists s'. split_and!; [done..|]. rewrite Hiff.
      split; intros (t & H1 & H2); exists t; rewrite ?elem_of_cons in *; intuition discriminate.
    + destruct (waitTime_Trigger_ok _ t h w Hs (default_map_order_ok _)) as (h' & w' & -> & Ho & _ & _ & Em & Ec).
      cbn in *. destruct (decide (d <= t)) as [Hle|Hgt].
      * destruct (read_run_closed ops (h', w') (Some ch) Ho) as (s' & -> & Ho' & Hc); [cbn; apply Ec; eauto|].
        exists s'. split_and!; [done..|]. split; [|done]. intros _. exists t. split; [apply elem_of_cons; by left|done].
      * destruct (IH (h', w') Ho) as (s' & -> & Ho' & Hiff); [cbn; by rewrite Em, decide_False|].
        exists s'. split_and!; [done..|]. rewrite Hiff. split.
        -- intros (t' & H1 & H2). exists t'. split; [by apply elem_of_cons; right|done].
        -- intros (t' & [[= ->]|H1]%elem_of_cons & H2); [done|by exists t'].
Qed.

(** A read is woken exactly when its deadline was reached: the channel that
    [Wait] returns is closed, after any further calls, if the last trigger
    before it, or one of the triggers after it, was at its deadline or later,
    and only then; none of these calls closes a channel twice. *)
Theorem reader_wakes h w d c s ops :
  waitTime_ok (h, w) -> waitTime_Wait d h w = (c, s) ->
  exists s', read_run ops s = Ok s' /\ waitTime_ok s' /\
    (is_closed c s'.1 <-> d <= lastTriggered w \/ exists t, OpWake t ∈ ops /\ d <= t).
Proof.
  intros Hs E. destruct (Wait_ok _ _ _ _ _ Hs E) as (Ho & _ & _ & _ & Hc). destruct c as [ch|].
  - destruct Hc as [Hlt Hk]. destruct (read_run_open ops s d ch Ho Hk) as (s' & Hr & Ho' & Hiff).
    exists s'. split_and!; [done..|]. cbn. rewrite Hiff. split; [by right|]. intros [?|?]; [lia|done].
  - destruct (read_run_closed ops s None Ho I) as (s' & Hr & Ho' & _). exists s'.
    split_and!; [done..|]. cbn. split; [by left|done].
Qed.

(** ** Witnesses *)

Lemma waiter_wakes_witness :
  exists s', wait_run [OpTrigger 8; OpRegister 9; OpTrigger 7] (mkChans 1 ∅, mkWaiter {[7 := 0%nat]}) = Ok s' /\
    0%nat ∈ ch_closed s'.1.
Proof.
  destruct (waiter_wakes (mkChans 0 ∅) newWaiter 7 0 (mkChans 1 ∅, mkWaiter {[7 := 0%nat]})
    [OpTrigger 8; OpRegister 9; OpTrigger 7] open_chans_new eq_refl) as (s' & Hr & _ & Hiff).
  exists s'. split; [exact Hr|]. apply Hiff. do 2 right. left.
Defined.

Lemma reader_wakes_witness :
  exists s', read_run [OpWake 4; OpWait 6; OpWake 5] (mkChans 1 ∅, mkWaitTime 0 {[5 := 0%nat]}) = Ok s' /\
    0%nat ∈ ch_closed s'.1.
Proof.
  destruct (reader_wakes (mkChans 0 ∅) newWaitTime 5 (Some 0%nat) (mkChans 1 ∅, mkWaitTime 0 {[5 := 0%nat]})
    [OpWake 4; OpWait 6; OpWake 5] open_chans_new eq_refl) as (s' & Hr & _ & Hiff).
  exists s'. split; [exact Hr|]. apply Hiff. right. exists 5. split; [do 2 right; left|lia].
Defined.
