(* ===== verification/Scheduler.v ===== *)
(** * The FIFO scheduler ([scheduler/scheduler.go])

    A job is a closure; [J] is the data it was built from and [work] what the
    closure does to the world, so that a queue of jobs is a list of data.  The
    zero [Job] has no closure: it is [None].  One turn of [run] is one step;
    it waits while the queue is empty. *)
From S2P Require Import Prelude.

Local Open Scope Z_scope.

Section scheduler.
Context {J World : Type} (work : J -> World -> outcome World).

Record Job := mkJob {
  job_name : string;
  job_do : option J;
}.

Definition NewJob (name : string) (j : J) : Job := mkJob name (Some j).

(** [s_cancel] tells whether [cancel] is not [nil] yet. *)
Record FifoScheduler := mkFifoScheduler {
  s_queue : list Job;
  s_cancelled : bool;
  s_cancel : bool;
}.

Definition NewFifoScheduler : FifoScheduler := mkFifoScheduler [] false true.

Definition AddTask (task : Job) (s : FifoScheduler) : FifoScheduler :=
  mkFifoScheduler (s_queue s ++ [task]) (s_cancelled s) (s_cancel s).

Definition nextTask (s : FifoScheduler) : Job * FifoScheduler :=
  match s_queue s with
  | [] => (mkJob "" None, s)
  | task :: q => (task, mkFifoScheduler q (s_cancelled s) (s_cancel s))
  end.

Definition do_job (task : Job) (w : World) : outcome World :=
  match job_do task with
  | Some j => work j w
  | None => Ok w
  end.

(** A turn of [run]; [None] while it waits. *)
Definition sched_run (s : FifoScheduler) (w : World) : outcome (option (FifoScheduler * World)) :=
  match s_queue s with
  | [] => Ok None
  | _ =>
      let '(task, s) := nextTask s in
      w ← do_job task w;
      Ok (Some (s, w))
  end.

Definition sched_stop (s : FifoScheduler) : outcome FifoScheduler :=
  if s_cancel s then Ok (mkFifoScheduler (s_queue s) true false) else Panic NilDeref.

(** ** Order *)

Inductive sched_event :=
  | SvAdd (task : Job)
  | SvTurn.

Fixpoint sched_events (evs : list sched_event) (s : FifoScheduler) (w : World)
    : outcome (option (FifoScheduler * World)) :=
  match evs with
  | [] => Ok (Some (s, w))
  | SvAdd task :: evs => sched_events evs (AddTask task s) w
  | SvTurn :: evs =>
      r ← sched_run s w;
      match r with Some (s, w) => sched_events evs s w | None => Ok None end
  end.

Fixpoint do_jobs (tasks : list Job) (w : World) : outcome World :=
  match tasks with
  | [] => Ok w
  | task :: tasks => w ← do_job task w; do_jobs tasks w
  end.

Definition added (evs : list sched_event) : list Job :=
  omap (fun e => match e with SvAdd task => Some task | SvTurn => None end) evs.
Definition turns (evs : list sched_event) : nat :=
  length (omap (fun e => match e with SvAdd _ => None | SvTurn => Some tt end) evs).

(** The jobs a run has to work through, from a queue on. *)
Definition workload (evs : list sched_event) (s : FifoScheduler) : list Job := s_queue s ++ added evs.

Lemma sched_run_cons task q c b w :
  sched_run (mkFifoScheduler (task :: q) c b) w =
  w ← do_job task w; Ok (Some (mkFifoScheduler q c b, w)).
Proof. reflexivity. Qed.

Lemma workload_add task evs s : workload evs (AddTask task s) = workload (SvAdd task :: evs) s.
Proof. unfold workload, added. cbn. by rewrite <- app_assoc. Qed.

(** Jobs run in the order they were added, one per turn, whatever the
    interleaving of [AddTask] with the turns of [run]: after [k] turns the world
    is what the first [k] jobs make of it, one after the other, and the queue
    holds the others. *)
Theorem fifo_order evs s w s' w' :
  sched_events evs s w = Ok (Some (s', w')) ->
  (turns evs <= length (workload evs s))%nat /\
  do_jobs (take (turns evs) (workload evs s)) w = Ok w' /\
  s_queue s' = drop (turns evs) (workload evs s).
Proof.
  revert s w. induction evs as [|[task|] evs IH]; intros s w.
  - intros [= <- <-]. unfold workload. cbn. rewrite app_nil_r, drop_0. split; [lia|done].
  - cbn [sched_events]. intros H. apply IH in H. by rewrite workload_add in H.
  - cbn [sched_events]. destruct s as [[|task q] c b]; [done|]. rewrite sched_run_cons.
    unfold workload, turns, added. cbn.
    destruct (do_job task w) as [w1| |] eqn:E; cbn; try done. intros (H1 & H2 & H3)%IH.
    unfold workload, turns, added in *. cbn in *. split; [lia|done].
Qed.

(** A turn waits exactly while the queue is empty, and otherwise ends as the
    job does. *)
Lemma sched_run_waits s w : sched_run s w = Ok None <-> s_queue s = [].
Proof.
  destruct s as [[|task q] c b]; [done|]. rewrite sched_run_cons.
  by destruct (do_job task w).
Qed.

(** [stop] says that it cancels the pending jobs.  It cancels the context, which
    [run] does not look at: the next turn is the one it was; and a second
    [stop] calls the function that the first one has set to [nil]. *)
Theorem stop_runs_on s s' w :
  sched_stop s = Ok s' ->
  (fun r => option_map (fun x => (s_queue x.1, x.2)) r) <$> sched_run s' w =
  (fun r => option_map (fun x => (s_queue x.1, x.2)) r) <$> sched_run s w /\
  sched_stop s' = Panic NilDeref.
Proof.
  destruct s as [q c b]. unfold sched_stop. cbn. destruct b; [|done]. intros [= <-]. split; [|done].
  destruct q as [|task q]; [done|]. rewrite !sched_run_cons. by destruct (do_job task w).
Qed.
End scheduler.
Arguments Job J : clear implicits.
Arguments FifoScheduler J : clear implicits.
Arguments sched_event J : clear implicits.

(** ** Witness: a list of numbers as the world, a number as a job *)

Definition note_job (n : Z) (w : list Z) : outcome (list Z) := Ok (w ++ [n]).

Definition note_events : list (sched_event Z) :=
  [SvAdd (NewJob "a" 1); SvAdd (NewJob "b" 2); SvTurn; SvAdd (NewJob "c" 3); SvTurn].

Lemma fifo_order_witness :
  exists s', sched_events note_job note_events NewFifoScheduler [] = Ok (Some (s', [1; 2])) /\
    s_queue s' = [NewJob "c" 3] /\ do_jobs note_job [NewJob "a" 1; NewJob "b" 2] [] = Ok [1; 2].
Proof.
  eexists. split; [reflexivity|].
  destruct (fifo_order note_job note_events NewFifoScheduler [] _ [1; 2] eq_refl) as (_ & H1 & H2).
  split; [exact H2|exact H1].
Defined.
