(* ===== verification/Replay.v ===== *)
(** * Replaying the log at start-up ([replay.go])

    [ReplayWAL] reads from the metadata file how far the tree had come, and
    puts the committed entries after that point.  It is proved against the
    interface of the log ([Storage], [StorageSpec] of [Wal.v]), not against the
    file-backed implementation.  The log messages are left out. *)
From S2P Require Import Prelude Keys Slice Codec Node Storage BTree TreeFrame Tree TreeMap TreeLimits Proto Wal RaftLog.

Local Open Scope Z_scope.

Section replay.
Context `{GrowPolicy} {W : Type} {HS : Storage W}.

(** The body of the loop for one entry that is in range; [n] is
    [appliedCount]. *)
Definition replay_entry (fuel : nat) (entry : Log) (b : BTree) (n : Z) : outcome (BTree * Z) :=
  match log_Data entry with
  | None => Ok (b, n)
  | Some cmd =>
      if decide (cmd_Op cmd = go_string "PUT") then
        b ← wrap_err "replay PUT entry" (put fuel (cmd_Key cmd) (cmd_Value cmd) b);
        Ok (b, n + 1)
      else Ok (b, n)
  end.

Fixpoint replay_loop (fuel : nat) (lastCommitIndex : Z) (entries : list Log) (b : BTree) (n : Z)
    : outcome (BTree * Z) :=
  match entries with
  | [] => Ok (b, n)
  | entry :: entries =>
      if lastCommitIndex <? log_Id entry then Ok (b, n)
      else
        '(b, n) ← replay_entry fuel entry b n;
        replay_loop fuel lastCommitIndex entries b n
  end.

Definition ReplayWAL (fuel : nat) (b : BTree) (walStorage : W) : outcome BTree :=
  '(lastCommitIndex, lastAppliedIndex) ← readMeta b;
  if lastCommitIndex <=? lastAppliedIndex then Ok b
  else
    let entriesToReplay := st_GetLogsAfter (i64 (lastAppliedIndex + 1)) walStorage in
    '(b, appliedCount) ← replay_loop fuel lastCommitIndex entriesToReplay b 0;
    if 0 <? appliedCount then updateMeta (i64 (lastAppliedIndex + appliedCount)) lastCommitIndex b
    else Ok b.

(** ** What is replayed *)

(** The entry is a put, as every entry that [DB.Put] proposes is. *)
Definition is_put (e : Log) : Prop := exists c, log_Data e = Some c /\ cmd_Op c = go_string "PUT".

Definition log_pair (e : Log) : bytes * bytes := (GetKey (log_Data e), GetValue (log_Data e)).

(** The entries with ids after [a], up to [c]. *)
Definition ids_between (a c : Z) (es : list Log) : list Log :=
  take (Z.to_nat (c - a)) (drop (Z.to_nat a) es).

Lemma sequential_drop n k es : sequential_from n es -> sequential_from (n + Z.of_nat k) (drop k es).
Proof. intros Hs i e Hi. rewrite lookup_drop in Hi. apply Hs in Hi. lia. Qed.

Lemma replay_loop_spec fuel c es n k b :
  sequential_from k es -> Forall is_put (take (Z.to_nat (c + 1 - k)) es) ->
  replay_loop fuel c es b n =
  b' ← wrap_err "replay PUT entry" (put_all fuel (log_pair <$> take (Z.to_nat (c + 1 - k)) es) b);
  Ok (b', n + zlen (take (Z.to_nat (c + 1 - k)) es)).
Proof.
  revert n k b. induction es as [|e es IH]; intros n k b Hs Hp.
  - rewrite take_nil. cbn. by rewrite Z.add_0_r.
  - pose proof (Hs 0%nat e eq_refl) as He. rewrite Z.add_0_r in He. cbn [replay_loop]. rewrite He.
    destruct (Z.ltb_spec c k) as [Hlt|Hge].
    + replace (Z.to_nat (c + 1 - k)) with O by lia. cbn. by rewrite Z.add_0_r.
    + replace (Z.to_nat (c + 1 - k)) with (S (Z.to_nat (c + 1 - (k + 1)))) in * by lia.
      cbn [take] in *. apply Forall_cons in Hp as [(cmd & Ed & Eo) Hp].
      assert (log_pair e = (cmd_Key cmd, cmd_Value cmd)) as Ep by (unfold log_pair; by rewrite Ed).
      unfold replay_entry. rewrite Ed, decide_True, fmap_cons, Ep by done. cbn [put_all fst snd].
      destruct (put fuel (cmd_Key cmd) (cmd_Value cmd) b) as [b1|?|?]; cbn; [|done..].
      rewrite (IH (n + 1) (k + 1)); [|exact (sequential_drop k 1 _ Hs)|done].
      destruct (put_all fuel _ b1); cbn; [|done..]. do 2 f_equal. unfold zlen. cbn. lia.
Qed.

Context {HSpec : StorageSpec W}.

Lemma ReplayWAL_eq fuel b wal a c :
  readMeta b = Ok (c, a) -> 0 <= a < c -> c < 2 ^ 63 -> sequential_from 1 (st_GetLogs wal) ->
  Forall is_put (ids_between a c (st_GetLogs wal)) ->
  ReplayWAL fuel b wal =
  let es := ids_between a c (st_GetLogs wal) in
  b' ← wrap_err "replay PUT entry" (put_all fuel (log_pair <$> es) b);
  if 0 <? zlen es then updateMeta (i64 (a + zlen es)) c b' else Ok b'.
Proof.
  intros Hm Ha Hc Hs Hp. unfold ReplayWAL. rewrite Hm. cbn [mbind outcome_bind].
  rewrite (proj2 (Z.leb_gt _ _)) by lia. rewrite i64_id, spec_GetLogsAfter by lia.
  replace (Z.to_nat (a + 1 - 1)) with (Z.to_nat a) by lia.
  pose proof (sequential_drop 1 (Z.to_nat a) _ Hs) as Hd.
  unfold ids_between in *. replace (c - a) with (c + 1 - (1 + Z.of_nat (Z.to_nat a))) in * by lia.
  rewrite (replay_loop_spec fuel c _ 0 _ b Hd Hp).
  by destruct (put_all fuel _ b).
Qed.

(** C22: replay puts exactly the committed entries that were not applied, in log
    order, and then records all of them as applied: for every log that is
    numbered from 1 without gaps and reaches the commit index, and metadata that
    says [a] of [c] were applied, when all of these entries are puts. *)
Theorem replay_applies_committed fuel b wal a c :
  readMeta b = Ok (c, a) -> 0 <= a < c -> c < 2 ^ 63 -> c <= zlen (st_GetLogs wal) ->
  sequential_from 1 (st_GetLogs wal) -> Forall is_put (ids_between a c (st_GetLogs wal)) ->
  ReplayWAL fuel b wal =
  b' ← wrap_err "replay PUT entry" (put_all fuel (log_pair <$> ids_between a c (st_GetLogs wal)) b);
  updateMeta c c b'.
Proof.
  intros Hm Ha Hc Hlen Hs Hp. rewrite (ReplayWAL_eq fuel b wal a c) by done. cbv zeta.
  assert (zlen (ids_between a c (st_GetLogs wal)) = c - a) as ->.
  { unfold ids_between, zlen in *. rewrite length_take, length_drop. lia. }
  destruct (put_all fuel _ b); cbn; [|done..]. rewrite (proj2 (Z.ltb_lt _ _)) by lia.
  replace (a + (c - a)) with c by lia. by rewrite i64_id by lia.
Qed.

(** Replay is idempotent: run again on the tree it returned, it changes
    nothing. *)
Theorem replay_idempotent fuel fuel' b wal a c b' :
  readMeta b = Ok (c, a) -> 0 <= a -> a <= c < 2 ^ 63 -> c <= zlen (st_GetLogs wal) ->
  sequential_from 1 (st_GetLogs wal) -> Forall is_put (ids_between a c (st_GetLogs wal)) ->
  ReplayWAL fuel b wal = Ok b' ->
  readMeta b' = Ok (c, c) /\ ReplayWAL fuel' b' wal = Ok b'.
Proof.
  intros Hm H0 Ha Hlen Hs Hp Hr.
  enough (readMeta b' = Ok (c, c)) as Hm'.
  { split; [done|]. unfold ReplayWAL. rewrite Hm'. cbn. by rewrite Z.leb_refl. }
  destruct (decide (a = c)) as [->|Hne].
  - unfold ReplayWAL in Hr. rewrite Hm in Hr. cbn in Hr. rewrite Z.leb_refl in Hr. congruence.
  - rewrite (ReplayWAL_eq fuel b wal a c) in Hr by (done || lia). cbv zeta in Hr.
    assert (zlen (ids_between a c (st_GetLogs wal)) = c - a) as E.
    { unfold ids_between, zlen in *. rewrite length_take, length_drop. lia. }
    rewrite E in Hr. apply bind_Ok_inv in Hr as (b1 & _ & Hr).
    rewrite (proj2 (Z.ltb_lt _ _)) in Hr by lia. rewrite i64_id in Hr by lia.
    apply updateMeta_inv in Hr as (rest & ->). apply (readMeta_read _ _ _ rest); [lia..|].
    replace (a + (c - a)) with c by lia. done.
Qed.

End replay.

(** ** Concrete runs *)

#[local] Existing Instance doubling.

Definition cmd_log (op k v : string) (id : Z) : Log :=
  mkLog 1 id (Some (mkCmd (go_string op) (go_string k) (go_string v) 0)).

Definition wal_of (logs : list Log) : LogManager := mkLogManager logs 10 [] 0 true.

Definition three_puts : LogManager :=
  wal_of [cmd_log "PUT" "a" "1" 1; cmd_log "PUT" "b" "2" 2; cmd_log "PUT" "c" "3" 3].

(** A new tree whose metadata file says that [a] of [c] were applied. *)
Definition tree_at (c a : Z) : BTree := empty_tree (le_bytes 8 c ++ le_bytes 8 a).

Lemma three_puts_sequential : sequential_from 1 (st_GetLogs three_puts).
Proof. intros [|[|[|i]]] e; cbn; by intros [= <-]. Defined.

Lemma three_puts_puts : Forall is_put (st_GetLogs three_puts).
Proof. repeat constructor; by eexists. Defined.

Lemma replay_applies_committed_witness :
  ReplayWAL 2 (tree_at 2 1) three_puts = put 2 (go_string "b") (go_string "2") (tree_at 2 1) ≫= updateMeta 2 2 /\
  is_ok (ReplayWAL 2 (tree_at 2 1) three_puts) = true.
Proof.
  assert (ReplayWAL 2 (tree_at 2 1) three_puts =
    b' ← wrap_err "replay PUT entry" (put_all 2 (log_pair <$> ids_between 1 2 (st_GetLogs three_puts)) (tree_at 2 1));
    updateMeta 2 2 b') as E.
  { apply (replay_applies_committed 2 (tree_at 2 1) three_puts 1 2);
      [reflexivity|lia|lia|vm_compute; discriminate|apply three_puts_sequential|].
    repeat constructor. by eexists. }
  rewrite E. split; vm_compute; reflexivity.
Defined.

Definition replayed_once : BTree :=
  match ReplayWAL 2 (tree_at 2 1) three_puts with Ok b => b | _ => tree_at 0 0 end.

Lemma replay_idempotent_witness :
  readMeta replayed_once = Ok (2, 2) /\ ReplayWAL 5 replayed_once three_puts = Ok replayed_once.
Proof.
  apply (replay_idempotent 2 5 (tree_at 2 1) three_puts 1 2);
    [reflexivity|lia|lia|vm_compute; discriminate|apply three_puts_sequential| |vm_compute; reflexivity].
  repeat constructor. by eexists.
Defined.

(** [appliedCount] counts puts, not positions: after an entry of another kind
    the metadata stays behind, and the last put is made again on the next
    start. *)
Definition odd_wal : LogManager := wal_of [cmd_log "DEL" "a" "" 1; cmd_log "PUT" "b" "2" 2].

Theorem replay_undercounts :
  (b ← ReplayWAL 2 (tree_at 2 0) odd_wal; readMeta b) = Ok (2, 1) /\
  (b ← ReplayWAL 2 (tree_at 2 0) odd_wal; ReplayWAL 2 b odd_wal) <> ReplayWAL 2 (tree_at 2 0) odd_wal.
Proof. split; [vm_compute; reflexivity|]. vm_compute. discriminate. Qed.
