(* ===== verification/Db.v ===== *)
(** * The database ([db.go])

    [DB] is the tree, the scheduler with its queue of apply jobs, the two
    waiters and the id generator.  [Put], [Get], the apply loop and the jobs run
    in goroutines of their own: an event is one step of one of them.  A job is
    interleaved with the others at each entry it applies, at the metadata, at
    the assignment of [lastCommitIndex] and at the trigger of the readers;
    [apply_job] is the closure run in one go.  Timeouts are a choice of the
    [select]; Raft is the source of the [ToApply] values ([System.v] connects
    it).  [db.lastCommitIndex] and the tree have no lock in the code: their
    reads and writes are taken to be atomic. *)
From S2P Require Import Prelude Proto Wal RaftNode.
From S2P Require Import Keys Slice Codec Node Storage BTree TreeFrame Tree TreeMap TreeLimits Generator Wait Scheduler Replay.

Local Open Scope Z_scope.

(** What the goroutine of the scheduler is doing: the entries of a job that are
    left, with [lastAppliedIdx]; or which of the last statements comes next. *)
Inductive running :=
  | Idle
  | Applying (ta : ToApply) (rest : list Log) (lastAppliedIdx : Z)
  | Committing (ta : ToApply)
  | Triggering (ta : ToApply).

Record DB := mkDB {
  kv_tree : BTree;
  scheduler : FifoScheduler ToApply;
  job : running;
  db_waiter : chans * waiter;
  applyWait : chans * waitTime;
  generator : Generator;
  lastCommitIndex : Z;
}.

Definition set_kv (b : BTree) (db : DB) : DB :=
  mkDB b (scheduler db) (job db) (db_waiter db) (applyWait db) (generator db) (lastCommitIndex db).
Definition set_scheduler (s : FifoScheduler ToApply) (db : DB) : DB :=
  mkDB (kv_tree db) s (job db) (db_waiter db) (applyWait db) (generator db) (lastCommitIndex db).
Definition set_job (j : running) (db : DB) : DB :=
  mkDB (kv_tree db) (scheduler db) j (db_waiter db) (applyWait db) (generator db) (lastCommitIndex db).
Definition set_waiter (w : chans * waiter) (db : DB) : DB :=
  mkDB (kv_tree db) (scheduler db) (job db) w (applyWait db) (generator db) (lastCommitIndex db).
Definition set_applyWait (w : chans * waitTime) (db : DB) : DB :=
  mkDB (kv_tree db) (scheduler db) (job db) (db_waiter db) w (generator db) (lastCommitIndex db).
Definition set_generator (g : Generator) (db : DB) : DB :=
  mkDB (kv_tree db) (scheduler db) (job db) (db_waiter db) (applyWait db) g (lastCommitIndex db).
Definition set_lastCommitIndex (i : Z) (db : DB) : DB :=
  mkDB (kv_tree db) (scheduler db) (job db) (db_waiter db) (applyWait db) (generator db) i.

Section db.
Context `{GrowPolicy}.

(** [Open], for the files that are found on disk; the node has started. *)
Definition Open {W} `{Storage W} (fuel : nat) (file meta : bytes) (nodeID now : Z) (walStorage : W)
    : outcome DB :=
  kv ← NewBTreeWithPath file meta;
  let db := mkDB kv NewFifoScheduler Idle (mkChans 0 ∅, newWaiter) (mkChans 0 ∅, newWaitTime)
              (NewGenerator (u16 nodeID) now) 0 in
  kv ← wrap_err "replay WAL" (ReplayWAL fuel kv walStorage);
  Ok (set_kv kv db).

(** ** Applying *)

(** One turn of the loop of the job. *)
Definition apply_entry (fuel : nat) (e : Log) (db : DB) : outcome DB :=
  kv ← panic_err "applier" (put fuel (GetKey (log_Data e)) (GetValue (log_Data e)) (kv_tree db));
  cmd ← deref (log_Data e);
  w ← waiter_Trigger (cmd_RequestId cmd) (db_waiter db).1 (db_waiter db).2;
  Ok (set_waiter w (set_kv kv db)).

Fixpoint apply_entries (fuel : nat) (es : list Log) (lastAppliedIdx : Z) (db : DB) : outcome (Z * DB) :=
  match es with
  | [] => Ok (lastAppliedIdx, db)
  | e :: es =>
      db ← apply_entry fuel e db;
      apply_entries fuel es (log_Id e) db
  end.

Definition apply_meta (ta : ToApply) (lastAppliedIdx : Z) (db : DB) : outcome DB :=
  if 0 <? zlen (ta_Entries ta) then
    kv ← updateMeta lastAppliedIdx (ta_CommitIndex ta) (kv_tree db);
    Ok (set_kv kv db)
  else Ok db.

Definition trigger_readers (ord : list Z) (ta : ToApply) (db : DB) : outcome DB :=
  w ← waitTime_Trigger ord (ta_CommitIndex ta) (applyWait db).1 (applyWait db).2;
  Ok (set_applyWait w db).

(** The closure of the job. *)
Definition apply_job (fuel : nat) (ord : list Z) (ta : ToApply) (db : DB) : outcome DB :=
  '(lastAppliedIdx, db) ← apply_entries fuel (ta_Entries ta) 0 db;
  db ← apply_meta ta lastAppliedIdx db;
  let db := set_lastCommitIndex (ta_CommitIndex ta) db in
  trigger_readers ord ta db.

(** The same, one step at a time. *)
Definition job_step (fuel : nat) (ord : list Z) (db : DB) : outcome (option DB) :=
  match job db with
  | Idle => Ok None
  | Applying ta (e :: rest) _ =>
      db ← apply_entry fuel e db;
      Ok (Some (set_job (Applying ta rest (log_Id e)) db))
  | Applying ta [] lastAppliedIdx =>
      db ← apply_meta ta lastAppliedIdx db;
      Ok (Some (set_job (Committing ta) db))
  | Committing ta => Ok (Some (set_job (Triggering ta) (set_lastCommitIndex (ta_CommitIndex ta) db)))
  | Triggering ta =>
      db ← trigger_readers ord ta db;
      Ok (Some (set_job Idle db))
  end.

(** The scheduler takes the next job. *)
Definition start_job (db : DB) : option DB :=
  match job db, s_queue (scheduler db) with
  | Idle, _ :: _ =>
      let '(task, s) := nextTask (scheduler db) in
      let j := match job_do task with Some ta => Applying ta (ta_Entries ta) 0 | None => Idle end in
      Some (set_job j (set_scheduler s db))
  | _, _ => None
  end.

(** [applyLoop] receives from the Raft node. *)
Definition applyLoop (ta : ToApply) (db : DB) : DB :=
  set_scheduler (AddTask (NewJob "applier" ta) (scheduler db)) db.

(** ** Put and Get *)

Record put_call := mkPutCall {
  pc_id : Z;
  pc_chan : nat;
  pc_key : bytes;
  pc_val : bytes;
}.

(** [Put] up to the proposal it hands to [Process]. *)
Definition Put_propose (key val : bytes) (db : DB) : put_call * Message * DB :=
  let '(id, g) := Next (generator db) in
  let '(ch, w) := waiter_Register id (db_waiter db).1 (db_waiter db).2 in
  (mkPutCall id ch key val, proposal (mkCmd (go_string "PUT") key val id),
   set_waiter w (set_generator g db)).

(** How a context ends: the timeout passes, or the caller's context is cancelled. *)
Inductive ctx_end := DeadlineExceeded | Canceled.

Definition ctx_Err (c : ctx_end) : goerr :=
  match c with
  | DeadlineExceeded => ErrMsg "context deadline exceeded"
  | Canceled => ErrMsg "context canceled"
  end.

(** The case of a [select] that is taken: the channel, or [mainCtx.Done()]. *)
Inductive select_case := SelWoken | SelDone (c : ctx_end).

(** The answer of [stepSM] by how its [select] ended, and of [Process]. *)
Definition stepSM_result (sent : select_case) : outcome unit :=
  match sent with
  | SelWoken => Ok tt
  | SelDone e => Err (ErrWrap "stepSM: context cancelled" (ctx_Err e))
  end.

Definition Process (sent : select_case) : outcome unit := wrap_err "stepsm" (stepSM_result sent).

(** The rest of [Put], by how the [select] of [stepSM] ended and the case its
    own [select] takes: [None] while it waits. *)
Definition Put_await (sent c : select_case) (call : put_call) (db : DB) : option (outcome unit) :=
  match wrap_err "consensus" (Process sent), c with
  | Ok _, SelWoken => if decide (pc_chan call ∈ ch_closed (db_waiter db).1) then Some (Ok tt) else None
  | Ok _, SelDone e => Some (Err (ErrWrap "put timeout" (ctx_Err e)))
  | res, _ => Some res
  end.

(** [Get] up to its [select]. *)
Definition Get_wait (db : DB) : option nat * DB :=
  let '(ch, w) := waitTime_Wait (lastCommitIndex db) (applyWait db).1 (applyWait db).2 in
  (ch, set_applyWait w db).

Definition Get_read (fuel : nat) (key : bytes) (db : DB) : outcome (bytes * DB) :=
  '(value, kv) ← wrap_err "get" (Get fuel key (kv_tree db));
  Ok (value, set_kv kv db).

(** The rest of [Get]: [None] while it waits. *)
Definition Get_await (fuel : nat) (c : select_case) (ch : option nat) (key : bytes) (db : DB)
    : option (outcome (bytes * DB)) :=
  match c with
  | SelWoken => if decide (is_closed ch (applyWait db).1) then Some (Get_read fuel key db) else None
  | SelDone e => Some (Err (ErrWrap "get timeout" (ctx_Err e)))
  end.

(** ** The steps of a job are the job *)

Fixpoint run_job (n : nat) (fuel : nat) (ord : list Z) (db : DB) : outcome (option DB) :=
  match n with
  | O => Ok (Some db)
  | S n =>
      r ← job_step fuel ord db;
      match r with Some db => run_job n fuel ord db | None => Ok None end
  end.

Lemma set_job_twice j j' db : set_job j (set_job j' db) = set_job j db.
Proof. done. Qed.

Lemma apply_entry_job fuel e j db : apply_entry fuel e (set_job j db) = set_job j <$> apply_entry fuel e db.
Proof.
  unfold apply_entry. change (kv_tree (set_job j db)) with (kv_tree db).
  change (db_waiter (set_job j db)) with (db_waiter db).
  destruct (panic_err _ _); cbn [mbind outcome_bind]; [|done..].
  destruct (deref _) as [cmd| |]; cbn [mbind outcome_bind]; [|done..]. by destruct (waiter_Trigger _ _ _).
Qed.

Lemma apply_meta_job ta i j db : apply_meta ta i (set_job j db) = set_job j <$> apply_meta ta i db.
Proof. unfold apply_meta. destruct (0 <? zlen (ta_Entries ta)); [|done].
  change (kv_tree (set_job j db)) with (kv_tree db). by destruct (updateMeta i (ta_CommitIndex ta) (kv_tree db)).
Qed.

Lemma trigger_readers_job ord ta j db :
  trigger_readers ord ta (set_job j db) = set_job j <$> trigger_readers ord ta db.
Proof. unfold trigger_readers. change (applyWait (set_job j db)) with (applyWait db). by destruct (waitTime_Trigger _ _ _ _). Qed.

(** The four kinds of step, whatever the job was before. *)
Lemma step_entry fuel ord ta e es i db :
  job_step fuel ord (set_job (Applying ta (e :: es) i) db) =
  (fun db => Some (set_job (Applying ta es (log_Id e)) db)) <$> apply_entry fuel e db.
Proof.
  transitivity (db' ← apply_entry fuel e (set_job (Applying ta (e :: es) i) db);
    Ok (Some (set_job (Applying ta es (log_Id e)) db'))); [done|].
  rewrite apply_entry_job. by destruct (apply_entry fuel e db).
Qed.

Lemma step_meta fuel ord ta i db :
  job_step fuel ord (set_job (Applying ta [] i) db) =
  (fun db => Some (set_job (Committing ta) db)) <$> apply_meta ta i db.
Proof.
  transitivity (db' ← apply_meta ta i (set_job (Applying ta [] i) db);
    Ok (Some (set_job (Committing ta) db'))); [done|].
  rewrite apply_meta_job. by destruct (apply_meta ta i db).
Qed.

Lemma step_trigger fuel ord ta db :
  job_step fuel ord (set_job (Triggering ta) db) =
  (fun db => Some (set_job Idle db)) <$> trigger_readers ord ta db.
Proof.
  transitivity (db' ← trigger_readers ord ta (set_job (Triggering ta) db); Ok (Some (set_job Idle db'))); [done|].
  rewrite trigger_readers_job. by destruct (trigger_readers ord ta db).
Qed.

Lemma run_job_S n fuel ord db :
  run_job (S n) fuel ord db =
  r ← job_step fuel ord db; match r with Some db => run_job n fuel ord db | None => Ok None end.
Proof. done. Qed.

Lemma run_entries n fuel ord ta es i db :
  run_job (length es + n) fuel ord (set_job (Applying ta es i) db) =
  '(i', db') ← apply_entries fuel es i db;
  run_job n fuel ord (set_job (Applying ta [] i') db').
Proof.
  revert i db. induction es as [|e es IH]; intros i db; [done|].
  cbn [length Nat.add apply_entries]. rewrite run_job_S, step_entry.
  by destruct (apply_entry fuel e db) as [db1| |]; [apply IH|..].
Qed.

(** A job that runs step by step, entry by entry, does what its closure
    does: with the three steps after its entries it ends, in the same state or
    with the same panic. *)
Theorem job_steps_equal fuel ord ta db :
  run_job (length (ta_Entries ta) + 3) fuel ord (set_job (Applying ta (ta_Entries ta) 0) db) =
  db' ← apply_job fuel ord ta db; Ok (Some (set_job Idle db')).
Proof.
  rewrite run_entries. unfold apply_job.
  destruct (apply_entries fuel _ 0 db) as [[i db1]| |]; cbn [mbind outcome_bind]; [|done..].
  rewrite run_job_S, step_meta. destruct (apply_meta ta i db1) as [db2| |]; [|done..].
  change (run_job 1 fuel ord (set_job (Triggering ta) (set_lastCommitIndex (ta_CommitIndex ta) db2)) =
    (db' ← trigger_readers ord ta (set_lastCommitIndex (ta_CommitIndex ta) db2); Ok (Some (set_job Idle db')))).
  rewrite run_job_S, step_trigger. by destruct (trigger_readers ord ta _).
Qed.

End db.
