(* ===== verification/DbSpec.v ===== *)
(** * What the database promises

    A [world] is the database with the history of what happened to it: the calls
    of [Put] that registered a waiter, and the entries that were applied, in
    their order.  Every reachable world satisfies: the waiter of a call is woken
    exactly by its entry; the readers' index is never ahead of what was
    applied; and, within the bounds of [Tree.v], the tree is the map that the
    applied entries make, however often the flusher writes pages in between. *)
From S2P Require Import Prelude Proto Wal RaftNode.
From S2P Require Import Keys Slice Codec Node Leaf Storage BTree TreeFrame Tree TreeMap TreeLimits Generator Wait Scheduler Replay Db.

Local Open Scope Z_scope.

Inductive happened :=
  | Called (c : put_call)
  | Applied (e : Log).

Record world := mkWorld {
  w_db : DB;
  w_hist : list happened;
}.

Inductive db_event :=
  | DbPut (key val : bytes)
  | DbGetWait
  | DbRead (key : bytes)
  | DbRecv (ta : ToApply)
  | DbStart
  | DbStep (ord : list Z)
  | DbFlush (ord : list Z).

(** The entry the next step of the job applies. *)
Definition next_entry (db : DB) : list happened :=
  match job db with Applying _ (e :: _) _ => [Applied e] | _ => [] end.

Section world.
Context `{GrowPolicy} (fuel : nat).

(** One event; [None] when it cannot happen now.  A failed read leaves the tree
    as it was. *)
Definition world_step (ev : db_event) (w : world) : outcome (option world) :=
  let db := w_db w in
  match ev with
  | DbPut key val =>
      let '(c, _, db) := Put_propose key val db in
      Ok (Some (mkWorld db (w_hist w ++ [Called c])))
  | DbGetWait => Ok (Some (mkWorld (Get_wait db).2 (w_hist w)))
  | DbRead key =>
      match Get_read fuel key db with
      | Ok (_, db) => Ok (Some (mkWorld db (w_hist w)))
      | Err _ => Ok (Some w)
      | Panic p => Panic p
      end
  | DbRecv ta => Ok (Some (mkWorld (applyLoop ta db) (w_hist w)))
  | DbStart => Ok (option_map (fun db => mkWorld db (w_hist w)) (start_job db))
  | DbStep ord =>
      r ← job_step fuel ord db;
      Ok (option_map (fun db' => mkWorld db' (w_hist w ++ next_entry db)) r)
  | DbFlush ord =>
      f ← flusher_tick ord (fs (kv_tree db));
      Ok (Some (mkWorld (set_kv (set_fs f (kv_tree db)) db) (w_hist w)))
  end.

(** The orders of the readers' map and of the cache are those a range can take. *)
Definition event_ok (ev : db_event) (w : world) : Prop :=
  match ev with
  | DbStep ord => map_order (wt_m (applyWait (w_db w)).2) ord
  | DbFlush ord => map_order (pages (kv_tree (w_db w))) ord
  | _ => True
  end.

Definition wstep (w w' : world) : Prop :=
  exists ev, event_ok ev w /\ world_step ev w = Ok (Some w').

Lemma flush_step ord w w' :
  world_step (DbFlush ord) w = Ok (Some w') ->
  exists f, flushPages ord (fs (kv_tree (w_db w))) = Ok f /\
    w' = mkWorld (set_kv (set_fs f (kv_tree (w_db w))) (w_db w)) (w_hist w).
Proof.
  cbn [world_step]. cbv zeta. intros (f & Hf & E)%bind_Ok_inv. injection E as <-.
  apply flusher_tick_Ok in Hf. by exists f.
Qed.

(** A database that was just opened. *)
Definition opened (db : DB) : Prop :=
  scheduler db = NewFifoScheduler /\ job db = Idle /\ db_waiter db = (mkChans 0 ∅, newWaiter) /\
  applyWait db = (mkChans 0 ∅, newWaitTime) /\ lastCommitIndex db = 0.

Lemma Open_opened {W} `{Storage W} file meta nodeID now (wal : W) db :
  Open fuel file meta nodeID now wal = Ok db -> opened db.
Proof.
  unfold Open. intros (kv & _ & E)%bind_Ok_inv. apply bind_Ok_inv in E as (kv' & _ & E).
  by injection E as <-.
Qed.

(** ** Acknowledged writes *)

Definition wait_ops (h : list happened) : list wait_op :=
  (fun x => match x with
            | Called c => OpRegister (pc_id c)
            | Applied e => OpTrigger (GetRequestId (log_Data e))
            end) <$> h.

Lemma wait_run_app ops1 ops2 s : wait_run (ops1 ++ ops2) s = wait_run ops1 s ≫= wait_run ops2.
Proof.
  revert s. induction ops1 as [|op ops1 IH]; intros s; [done|]. cbn.
  destruct (wait_exec op s); cbn; [apply IH|done..].
Qed.

Lemma wait_run_one op s : wait_run [op] s = wait_exec op s.
Proof. cbn. by destruct (wait_exec op s). Qed.

(** The waiter has seen exactly the history, and a call holds the channel it
    got when it registered. *)
Record ack_inv (w : world) : Prop := {
  ai_run : wait_run (wait_ops (w_hist w)) (mkChans 0 ∅, newWaiter) = Ok (db_waiter (w_db w));
  ai_ok : waiter_ok (db_waiter (w_db w));
  ai_calls h1 c h2 :
    w_hist w = h1 ++ Called c :: h2 ->
    exists s, wait_run (wait_ops h1) (mkChans 0 ∅, newWaiter) = Ok s /\ waiter_ok s /\
      (waiter_Register (pc_id c) s.1 s.2).1 = pc_chan c;
}.

(** Events that leave the waiter and the history alone. *)
Lemma ack_same w db' : ack_inv w -> db_waiter db' = db_waiter (w_db w) -> ack_inv (mkWorld db' (w_hist w)).
Proof. intros [H1 H2 H3] E. split; cbn; [by rewrite E|by rewrite E|done]. Qed.

(** Something happened to the waiter. *)
Lemma ack_more w db' x :
  ack_inv w ->
  wait_exec (match x with Called c => OpRegister (pc_id c) | Applied e => OpTrigger (GetRequestId (log_Data e)) end)
    (db_waiter (w_db w)) = Ok (db_waiter db') ->
  waiter_ok (db_waiter db') ->
  (forall c, x = Called c -> (waiter_Register (pc_id c) (db_waiter (w_db w)).1 (db_waiter (w_db w)).2).1 = pc_chan c) ->
  ack_inv (mkWorld db' (w_hist w ++ [x])).
Proof.
  intros [H1 H2 H3] E Hok Hc. split; cbn [w_hist w_db]; [|done|].
  - unfold wait_ops. rewrite fmap_app, wait_run_app. unfold wait_ops in H1. rewrite H1. cbn [fmap list_fmap mbind outcome_bind].
    by rewrite wait_run_one.
  - intros h1 c h2 Eh. destruct h2 as [|y h2 _] using rev_ind.
    + apply app_inj_tail in Eh as [<- ->]. exists (db_waiter (w_db w)). split_and!; [done|done|by apply Hc].
    + rewrite app_comm_cons, app_assoc in Eh. apply app_inj_tail in Eh as [Eh _]. by apply (H3 h1 c h2).
Qed.

Lemma apply_entry_inv e db db' :
  apply_entry fuel e db = Ok db' ->
  exists kv cmd w, put fuel (GetKey (log_Data e)) (GetValue (log_Data e)) (kv_tree db) = Ok kv /\
    log_Data e = Some cmd /\
    waiter_Trigger (cmd_RequestId cmd) (db_waiter db).1 (db_waiter db).2 = Ok w /\
    db' = set_waiter w (set_kv kv db).
Proof.
  unfold apply_entry. intros (kv & Hp & E)%bind_Ok_inv. apply bind_Ok_inv in E as (cmd & Hd & E).
  apply bind_Ok_inv in E as (w & Ht & E). injection E as <-. unfold panic_err in Hp.
  destruct (put _ _ _ _) as [kv'| |]; [injection Hp as ->|done..].
  unfold deref in Hd. destruct (log_Data e) as [cmd'|]; [injection Hd as ->|done]. by exists kv, cmd, w.
Qed.

Lemma world_step_ack ev w w' : ack_inv w -> world_step ev w = Ok (Some w') -> ack_inv w'.
Proof.
  intros Hi E. destruct ev as [key val| |key|ta| |ord|ord]; cbn [world_step] in E; cbv zeta in E.
  - unfold Put_propose in E. destruct (Next _) as [id g].
    destruct (waiter_Register id _ _) as [ch s] eqn:Er. injection E as <-.
    destruct (db_waiter (w_db w)) as [h wt] eqn:Ew. cbn in Er.
    pose proof (ai_ok _ Hi) as Hok. rewrite Ew in Hok.
    destruct (Register_ok _ _ _ _ _ Hok Er) as (Ho & _).
    apply (ack_more w); [done| |done|]; cbn; rewrite Ew; cbn.
    + by rewrite Er.
    + intros c [= <-]. cbn. by rewrite Er.
  - injection E as <-. apply ack_same; [done|]. unfold Get_wait. by destruct (waitTime_Wait _ _ _).
  - destruct (Get_read fuel key (w_db w)) as [[v db]| |] eqn:Er; [|by injection E as <-|done].
    injection E as <-. apply ack_same; [done|]. unfold Get_read in Er.
    apply bind_Ok_inv in Er as ([v' kv] & _ & Er). by injection Er as _ <-.
  - injection E as <-. by apply ack_same.
  - injection E as E. unfold start_job in E. destruct (job (w_db w)); try done.
    destruct (s_queue _); [done|]. destruct (nextTask _) as [task s]. injection E as <-. by apply ack_same.
  - apply bind_Ok_inv in E as (r & Er & E). injection E as E. destruct r as [db'|]; [|done].
    injection E as <-. unfold job_step in Er. unfold next_entry. destruct (job (w_db w)) as [|ta es i|ta|ta]; [done| | |].
    + destruct es as [|e es].
      * rewrite app_nil_r. apply ack_same; [done|]. apply bind_Ok_inv in Er as (db1 & Hm & Er). injection Er as <-.
        unfold apply_meta in Hm. follow; by subst.
      * apply bind_Ok_inv in Er as (db1 & Ha & Er). injection Er as <-.
        apply apply_entry_inv in Ha as (kv & cmd & s & _ & Ed & Ht & ->).
        destruct (db_waiter (w_db w)) as [h wt] eqn:Ew. pose proof (ai_ok _ Hi) as Hok. rewrite Ew in Hok. cbn in Ht.
        destruct (Trigger_ok (cmd_RequestId cmd) h wt Hok) as (s' & Ht' & Ho & _).
        rewrite Ht in Ht'. injection Ht' as <-.
        apply (ack_more w); [done| |done|done]. rewrite Ew, Ed. exact Ht.
    + rewrite app_nil_r. injection Er as <-. by apply ack_same.
    + rewrite app_nil_r. apply bind_Ok_inv in Er as (db1 & Ht & Er). injection Er as <-. apply ack_same; [done|].
      unfold trigger_readers in Ht. apply bind_Ok_inv in Ht as (x & _ & Ht). by injection Ht as <-.
  - apply flush_step in E as (f & _ & ->). by apply ack_same.
Qed.

Lemma opened_ack db : opened db -> ack_inv (mkWorld db []).
Proof.
  intros (_ & _ & Ew & _). split; cbn; rewrite ?Ew; [done|apply open_chans_new|].
  intros [|? h1] c h2; discriminate.
Qed.

Lemma run_ack db w : opened db -> rtc wstep (mkWorld db []) w -> ack_inv w.
Proof.
  intros Hd Hrun. apply opened_ack in Hd. remember (mkWorld db []) as w0 eqn:E. clear E.
  induction Hrun as [|w0 w1 w2 (ev & _ & Hs) _ IH]; [done|]. apply IH. by eapply world_step_ack.
Qed.

(** The case of the waiter can be taken once the entry is applied. *)
Lemma put_woken db w h1 c h2 :
  opened db -> rtc wstep (mkWorld db []) w -> w_hist w = h1 ++ Called c :: h2 ->
  Put_await SelWoken SelWoken c (w_db w) = Some (Ok tt) <->
  exists e, Applied e ∈ h2 /\ GetRequestId (log_Data e) = pc_id c.
Proof.
  intros Hd Hrun Eh. destruct (run_ack db w Hd Hrun) as [H1 _ H3].
  destruct (H3 h1 c h2 Eh) as ([h wt] & Hs & Hok & Hch). cbn in Hch.
  destruct (waiter_Register (pc_id c) h wt) as [ch s1] eqn:Er. cbn in Hch. subst ch.
  destruct (Register_ok _ _ _ _ _ Hok Er) as (Ho & Hk & _).
  destruct (wait_run_open (wait_ops h2) s1 (pc_id c) (pc_chan c) Ho Hk) as (s' & Hr & _ & Hiff).
  rewrite Eh in H1. unfold wait_ops in H1. rewrite fmap_app, wait_run_app in H1. fold (wait_ops h1) in H1.
  rewrite Hs in H1. cbn in H1. rewrite Er in H1. cbn in H1. unfold wait_ops in Hr. rewrite Hr in H1.
  injection H1 as ->. unfold Put_await.
  transitivity (pc_chan c ∈ ch_closed (db_waiter (w_db w)).1); [by case_decide|].
  etrans; [exact Hiff|]. unfold wait_ops. rewrite list_elem_of_fmap. split.
  - intros ([c'|e] & E & Hin); [done|]. injection E as E. by exists e.
  - intros (e & Hin & E). exists (Applied e). by rewrite E.
Qed.

(** C10: when a [Put] returns success.  In every reachable world, for every call
    in its history and however its two [select]s end: the call returns success
    exactly if the proposal was handed over, the select takes the case of the
    waiter, and an entry with the call's request id was applied after the call
    registered.  The case of the waiter is blocked exactly as long as no such
    entry was applied; then only a context that ends lets the call return, with
    an error, and it may do so although the entry was applied. *)
Theorem put_acknowledged db w h1 c h2 sent sel :
  opened db -> rtc wstep (mkWorld db []) w -> w_hist w = h1 ++ Called c :: h2 ->
  let applied := exists e, Applied e ∈ h2 /\ GetRequestId (log_Data e) = pc_id c in
  (Put_await sent sel c (w_db w) = Some (Ok tt) <-> sent = SelWoken /\ sel = SelWoken /\ applied) /\
  (Put_await sent sel c (w_db w) = None <-> sent = SelWoken /\ sel = SelWoken /\ ~ applied) /\
  (forall r, Put_await sent sel c (w_db w) = Some r -> r = Ok tt \/ exists e, r = Err e /\ (sent <> SelWoken \/ sel <> SelWoken)).
Proof.
  intros Hd Hrun Eh applied. pose proof (put_woken db w h1 c h2 Hd Hrun Eh) as Hiff. fold applied in Hiff.
  destruct sent as [|es], sel as [|e].
  - unfold Put_await in *. cbn in *. case_decide; naive_solver.
  - cbn. naive_solver.
  - cbn. naive_solver.
  - cbn. naive_solver.
Qed.

(** ** Reads *)

(** The index a reader waits for: what was triggered last, or is next. *)
Definition reader_index (db : DB) : Z :=
  match job db with
  | Triggering ta => ta_CommitIndex ta
  | _ => lastTriggered (applyWait db).2
  end.

Record read_inv (w : world) : Prop := {
  ri_ok : waitTime_ok (applyWait (w_db w));
  ri_index : lastCommitIndex (w_db w) = reader_index (w_db w);
}.

Lemma read_same w db' h :
  read_inv w -> applyWait db' = applyWait (w_db w) -> lastCommitIndex db' = lastCommitIndex (w_db w) ->
  reader_index db' = reader_index (w_db w) -> read_inv (mkWorld db' h).
Proof. intros [H1 H2] E1 E2 Ej. split; cbn; congruence. Qed.

Lemma world_step_read ev w w' :
  read_inv w -> event_ok ev w -> world_step ev w = Ok (Some w') -> read_inv w'.
Proof.
  intros Hi Hev E. destruct ev as [key val| |key|ta| |ord|ord]; cbn [world_step] in E; cbv zeta in E.
  - unfold Put_propose in E. destruct (Next _) as [id g].
    destruct (waiter_Register id _ _) as [ch s]. injection E as <-. by apply (read_same w).
  - injection E as <-. unfold Get_wait. destruct (applyWait (w_db w)) as [h wt] eqn:Ew.
    destruct (waitTime_Wait _ _ _) as [c s] eqn:Er. cbn in Er.
    destruct Hi as [H1 H2]. rewrite Ew in H1. destruct (Wait_ok _ _ _ _ _ H1 Er) as (Ho & _ & _ & El & _).
    split; [done|]. cbn [w_db]. unfold reader_index in *. cbn. rewrite El, H2, Ew. done.
  - destruct (Get_read fuel key (w_db w)) as [[v db]| |] eqn:Er; [|by injection E as <-|done].
    injection E as <-. unfold Get_read in Er.
    apply bind_Ok_inv in Er as ([v' kv] & _ & Er). injection Er as _ <-. by apply (read_same w).
  - injection E as <-. by apply (read_same w).
  - injection E as E. unfold start_job in E. destruct (job (w_db w)) eqn:Ej; try done.
    destruct (s_queue _); [done|]. destruct (nextTask _) as [task s]. injection E as <-.
    apply (read_same w); [done..|]. unfold reader_index. rewrite Ej. cbn. by destruct (job_do task).
  - apply bind_Ok_inv in E as (r & Er & E). injection E as E. destruct r as [db'|]; [|done].
    injection E as <-. unfold job_step in Er. destruct (job (w_db w)) as [|ta es i|ta|ta] eqn:Ej; [done| | |].
    + destruct es as [|e es].
      * apply bind_Ok_inv in Er as (db1 & Hm & Er). injection Er as <-.
        assert (db1 = set_kv (kv_tree db1) (w_db w)) as ->.
        { unfold apply_meta in Hm. follow; subst; [done|by destruct (w_db w)]. }
        apply (read_same w); [done..|]. unfold reader_index. by rewrite Ej.
      * apply bind_Ok_inv in Er as (db1 & Ha & Er). injection Er as <-.
        apply apply_entry_inv in Ha as (kv & cmd & s & _ & _ & _ & ->). apply (read_same w); [done..|].
        unfold reader_index. by rewrite Ej.
    + injection Er as <-. split; [apply Hi|done].
    + apply bind_Ok_inv in Er as (db1 & Ht & Er). injection Er as <-. unfold trigger_readers in Ht.
      destruct (applyWait (w_db w)) as [h wt] eqn:Ew. destruct Hi as [H1 H2]. rewrite Ew in H1.
      unfold reader_index in H2. rewrite Ej in H2. cbn [event_ok] in Hev. rewrite Ew in Hev. cbn in Hev, Ht.
      destruct (waitTime_Trigger_ok ord (ta_CommitIndex ta) h wt H1 Hev) as (h' & wt' & Et & Ho & _ & El & _).
      rewrite Et in Ht. injection Ht as <-. split; [done|]. cbn. by rewrite El.
  - apply flush_step in E as (f & _ & ->). by apply (read_same w).
Qed.

Lemma run_read db w : opened db -> rtc wstep (mkWorld db []) w -> read_inv w.
Proof.
  intros (_ & Hj & _ & Ea & El) Hrun.
  assert (read_inv (mkWorld db [])) as Hi.
  { split; cbn; unfold reader_index; rewrite ?Hj, ?Ea, ?El; [apply open_chans_new|done]. }
  clear Hj Ea El. remember (mkWorld db []) as w0 eqn:E. clear E.
  induction Hrun as [|w0 w1 w2 (ev & Hev & Hs) _ IH]; [done|]. apply IH. by eapply world_step_read.
Qed.

(** A read hardly ever waits: in every reachable world [Get] finds its
    channel closed on arrival, unless a job stands between the assignment of
    [lastCommitIndex] and the trigger; and then it is woken by that trigger,
    the next step of the job.  A read never waits for an entry that is
    committed and not applied yet. *)
Theorem read_never_waits db w key :
  opened db -> rtc wstep (mkWorld db []) w ->
  let '(ch, db') := Get_wait (w_db w) in
  match job (w_db w) with
  | Triggering ta =>
      forall ord, map_order (wt_m (applyWait db').2) ord ->
      exists db2, job_step fuel ord db' = Ok (Some db2) /\
        Get_await fuel SelWoken ch key db2 = Some (Get_read fuel key db2)
  | _ => Get_await fuel SelWoken ch key db' = Some (Get_read fuel key db')
  end.
Proof.
  intros Hd Hrun. destruct (run_read db w Hd Hrun) as [H1 H2].
  destruct (Get_wait (w_db w)) as [ch db'] eqn:Eg. unfold Get_wait in Eg.
  destruct (applyWait (w_db w)) as [h wt] eqn:Ew.
  destruct (waitTime_Wait _ _ _) as [c [h1 wt1]] eqn:Er. cbn in Er. injection Eg as <- <-.
  destruct (Wait_ok _ _ _ _ _ H1 Er) as (Ho & _ & _ & _ & Hc). unfold reader_index in H2. rewrite Ew in H2.
  destruct (job (w_db w)) as [| | |ta] eqn:Ej;
    try (destruct c; [destruct Hc; cbn in H2; lia|]; unfold Get_await; by rewrite decide_True).
  intros ord Hord. cbn in Hord. unfold job_step. cbn [job set_applyWait]. rewrite Ej.
  unfold trigger_readers. cbn [applyWait set_applyWait fst snd].
  destruct (waitTime_Trigger_ok ord (ta_CommitIndex ta) h1 wt1 Ho Hord) as (h' & wt' & -> & _ & _ & _ & _ & Ec).
  eexists. split; [done|]. unfold Get_await. rewrite decide_True; [done|]. cbn.
  destruct c as [ch|]; [|done]. apply Ec. right. exists (lastCommitIndex (w_db w)). split; [lia|by destruct Hc].
Qed.

(** ** The tree *)

Definition applied_entries (h : list happened) : list Log :=
  omap (fun x => match x with Called _ => None | Applied e => Some e end) h.

(** All that was put into the tree, before the start and since. *)
Definition all_puts (kvs0 : pair_list) (w : world) : pair_list :=
  kvs0 ++ (log_pair <$> applied_entries (w_hist w)).

Lemma holds_meta kvs b meta : holds kvs b -> holds kvs (mkBTree (fs b) (root b) (rootOffset b) meta).
Proof.
  intros (Hf & seps & flat & Ht & Hr). split; [done|]. exists seps, flat. split; [|done].
  destruct Ht as [[-> [H1 H2 H3]]|(es & [H1 H2 H3 H4 H5] & -> & ->)]; [left|right].
  - split; [done|]. by split.
  - exists es. split; [by split|done].
Qed.

Lemma applied_app h1 h2 : applied_entries (h1 ++ h2) = applied_entries h1 ++ applied_entries h2.
Proof. apply omap_app. Qed.

Lemma holds_entry kvs e db :
  holds kvs (kv_tree db) -> in_bounds (kvs ++ [log_pair e]) -> (1 <= fuel)%nat ->
  exists b', put fuel (GetKey (log_Data e)) (GetValue (log_Data e)) (kv_tree db) = Ok b' /\
    holds (kvs ++ [log_pair e]) b'.
Proof. intros Hh Hb Hf. destruct fuel as [|f]; [lia|]. by apply holds_put. Qed.

Lemma world_step_tree kvs0 ev w w' :
  (2 <= fuel)%nat -> world_step ev w = Ok (Some w') -> in_bounds (all_puts kvs0 w') ->
  holds (all_puts kvs0 w) (kv_tree (w_db w)) -> holds (all_puts kvs0 w') (kv_tree (w_db w')).
Proof.
  intros Hf E Hb Hi. destruct ev as [key val| |key|ta| |ord|ord]; cbn [world_step] in E; cbv zeta in E.
  - unfold Put_propose in E. destruct (Next _) as [id g].
    destruct (waiter_Register id _ _) as [ch s]. injection E as <-. unfold all_puts. cbn.
    by rewrite applied_app, app_nil_r.
  - injection E as <-. unfold Get_wait. by destruct (waitTime_Wait _ _ _).
  - unfold Get_read in E. rewrite (holds_get _ _ key fuel Hi Hf) in E.
    destruct (puts (all_puts kvs0 w) ∅ !! key); cbn in E; by simplify_eq.
  - by injection E as <-.
  - injection E as E. unfold start_job in E. destruct (job (w_db w)); try done.
    destruct (s_queue _); [done|]. destruct (nextTask _) as [task s]. by injection E as <-.
  - apply bind_Ok_inv in E as (r & Er & E). injection E as E. destruct r as [db'|]; [|done].
    injection E as <-. unfold all_puts in *. cbn [w_hist w_db] in *. rewrite applied_app in *.
    unfold job_step in Er. unfold next_entry in *. destruct (job (w_db w)) as [|ta es i|ta|ta]; [done| | |].
    + destruct es as [|e es]; cbn in Hb |- *; rewrite ?app_nil_r in *.
      * apply bind_Ok_inv in Er as (db1 & Hm & Er). injection Er as <-. unfold apply_meta in Hm.
        destruct (0 <? _); [|by injection Hm as <-]. apply bind_Ok_inv in Hm as (kv & Hu & Hm). injection Hm as <-.
        apply updateMeta_inv in Hu as (rest & ->). by apply holds_meta.
      * apply bind_Ok_inv in Er as (db1 & Ha & Er). injection Er as <-.
        apply apply_entry_inv in Ha as (kv & cmd & s & Hp & _ & _ & ->).
        rewrite fmap_app, app_assoc in *.
        destruct (holds_entry _ e (w_db w) Hi Hb ltac:(lia)) as (b' & Hp' & Hh). cbn. congruence.
    + cbn. rewrite app_nil_r. by injection Er as <-.
    + cbn. rewrite app_nil_r. apply bind_Ok_inv in Er as (db1 & Ht & Er). injection Er as <-.
      unfold trigger_readers in Ht. apply bind_Ok_inv in Ht as (x & _ & Ht). by injection Ht as <-.
  - apply flush_step in E as (f & Hfl & ->). by apply (holds_flush _ _ ord).
Qed.

Lemma world_step_hist ev w w' : world_step ev w = Ok (Some w') -> exists more, w_hist w' = w_hist w ++ more.
Proof.
  destruct ev as [key val| |key|ta| |ord|ord]; cbn [world_step]; cbv zeta; intros E.
  - destruct (Put_propose key val (w_db w)) as [[c m] db]. injection E as <-. by eexists.
  - injection E as <-. exists []. by rewrite app_nil_r.
  - exists []. rewrite app_nil_r. destruct (Get_read _ _ _) as [[]| |]; by simplify_eq.
  - injection E as <-. exists []. by rewrite app_nil_r.
  - destruct (start_job (w_db w)); [|done]. injection E as <-. exists []. by rewrite app_nil_r.
  - apply bind_Ok_inv in E as (r & _ & E). injection E as E. destruct r; [|done]. injection E as <-. by eexists.
  - apply flush_step in E as (f & _ & ->). exists []. by rewrite app_nil_r.
Qed.

Lemma run_hist w w' : rtc wstep w w' -> exists more, w_hist w' = w_hist w ++ more.
Proof.
  induction 1 as [w|w1 w2 w3 (ev & _ & Hs) _ (more & E)]; [exists []; by rewrite app_nil_r|].
  destruct (world_step_hist _ _ _ Hs) as (more' & E'). exists (more' ++ more). by rewrite E, E', app_assoc.
Qed.

Lemma in_bounds_run kvs0 w w' : rtc wstep w w' -> in_bounds (all_puts kvs0 w') -> in_bounds (all_puts kvs0 w).
Proof.
  intros (more & E)%run_hist Hb. unfold all_puts in *. rewrite E, applied_app, fmap_app, app_assoc in Hb.
  by eapply in_bounds_app.
Qed.

Lemma run_tree kvs0 w w' :
  (2 <= fuel)%nat -> rtc wstep w w' -> in_bounds (all_puts kvs0 w') ->
  holds (all_puts kvs0 w) (kv_tree (w_db w)) -> holds (all_puts kvs0 w') (kv_tree (w_db w')).
Proof.
  intros Hf Hrun Hb. induction Hrun as [w|w1 w2 w3 (ev & _ & Hs) Hrun IH]; [done|]. intros Hh.
  apply IH; [done|]. apply (world_step_tree kvs0 ev w1 w2); [done|done| |done]. by eapply in_bounds_run.
Qed.

(** What the tree of a reachable world gives for a key. *)
Lemma db_tree_map kvs0 db w :
  (2 <= fuel)%nat -> holds kvs0 (kv_tree db) -> rtc wstep (mkWorld db []) w -> in_bounds (all_puts kvs0 w) ->
  (forall key, Get_read fuel key (w_db w) =
     match puts (all_puts kvs0 w) ∅ !! key with
     | Some v => Ok (v, w_db w)
     | None => Err (ErrWrap "get" (ErrMsg "key not found"))
     end) /\
  holds (all_puts kvs0 w) (kv_tree (w_db w)).
Proof.
  intros Hf H0 Hrun Hb.
  assert (holds (all_puts kvs0 w) (kv_tree (w_db w))) as Hh.
  { apply (run_tree kvs0 (mkWorld db [])); [done|done|done|]. unfold all_puts. cbn. by rewrite app_nil_r. }
  split; [|done]. intros key. unfold Get_read. rewrite (holds_get _ _ key fuel Hh Hf).
  destruct (_ !! key); cbn; [|done]. by destruct (w_db w).
Qed.

(** ** What a job does *)

Lemma apply_entry_spec kvs e cmd db :
  (1 <= fuel)%nat -> holds kvs (kv_tree db) -> in_bounds (kvs ++ [log_pair e]) -> log_Data e = Some cmd ->
  waiter_ok (db_waiter db) ->
  exists kv w, apply_entry fuel e db = Ok (set_waiter w (set_kv kv db)) /\ holds (kvs ++ [log_pair e]) kv /\
    bt_meta kv = bt_meta (kv_tree db) /\ waiter_ok w /\
    wait_exec (OpTrigger (GetRequestId (log_Data e))) (db_waiter db) = Ok w.
Proof.
  intros Hf Hh Hb Ed Hok. destruct (holds_entry _ e db Hh Hb Hf) as (kv & Hp & Hh').
  destruct (db_waiter db) as [h wt] eqn:Ew. destruct (Trigger_ok (cmd_RequestId cmd) h wt Hok) as (w & Ht & Hw & _).
  exists kv, w. unfold apply_entry. rewrite Hp, Ed, Ew. cbn [panic_err deref mbind outcome_bind fst snd]. rewrite Ht.
  split_and!; [done|done| |done|exact Ht]. apply header_put in Hp. by injection Hp.
Qed.

Lemma apply_entries_spec es : forall kvs i db,
  (1 <= fuel)%nat -> holds kvs (kv_tree db) -> in_bounds (kvs ++ (log_pair <$> es)) ->
  Forall (fun e => is_Some (log_Data e)) es -> waiter_ok (db_waiter db) ->
  exists kv w, apply_entries fuel es i db = Ok (from_option log_Id i (last es), set_waiter w (set_kv kv db)) /\
    holds (kvs ++ (log_pair <$> es)) kv /\ bt_meta kv = bt_meta (kv_tree db) /\
    wait_run ((fun e => OpTrigger (GetRequestId (log_Data e))) <$> es) (db_waiter db) = Ok w.
Proof.
  induction es as [|e es IH]; intros kvs i db Hf Hh Hb Hd Hok.
  - exists (kv_tree db), (db_waiter db). rewrite app_nil_r. split_and!; [by destruct db|done..].
  - inversion_clear Hd as [|? ? [cmd Ed] Hd']. rewrite fmap_cons, cons_middle, app_assoc in Hb |- *.
    destruct (apply_entry_spec kvs e cmd db Hf Hh (in_bounds_app _ _ Hb) Ed Hok) as (kv & w & Ea & Hh1 & Hm & Hw & Et).
    destruct (IH _ (log_Id e) (set_waiter w (set_kv kv db)) Hf Hh1 Hb Hd' Hw) as (kv' & w' & Es & Hh' & Hm' & Hr).
    exists kv', w'. cbn [apply_entries]. rewrite Ea. cbn [mbind outcome_bind]. rewrite Es. split.
    + do 2 f_equal. destruct es as [|e' es]; [done|]. rewrite !last_cons. by destruct (last es).
    + split_and!; [done|etrans; [exact Hm'|exact Hm]|]. rewrite fmap_cons. cbn [wait_run]. rewrite Et. exact Hr.
Qed.

(** C24: what a job does, in steps as at once.  Take a database whose tree holds
    some puts, whose waiters are in order, and a job of entries that all carry a
    command and stay, with those puts, within the bounds of the tree.  The job
    ends without a panic, and then: the tree holds the puts of the entries too;
    unless there were none, the metadata says that the last one was applied and
    what is committed; [lastCommitIndex] is the index of the job; of the puts
    that were waiting exactly those with the id of an entry are woken, of the
    reads exactly those that waited for an index up to the job's; nothing else
    has changed. *)
Theorem apply_job_spec kvs ord ta db :
  (1 <= fuel)%nat -> holds kvs (kv_tree db) -> in_bounds (kvs ++ (log_pair <$> ta_Entries ta)) ->
  Forall (fun e => is_Some (log_Data e)) (ta_Entries ta) ->
  waiter_ok (db_waiter db) -> waitTime_ok (applyWait db) -> map_order (wt_m (applyWait db).2) ord ->
  exists db', apply_job fuel ord ta db = Ok db' /\
    run_job (length (ta_Entries ta) + 3) fuel ord (set_job (Applying ta (ta_Entries ta) 0) db) =
      Ok (Some (set_job Idle db')) /\
    holds (kvs ++ (log_pair <$> ta_Entries ta)) (kv_tree db') /\
    readMeta (kv_tree db') = match last (ta_Entries ta) with
                             | Some e => Ok (i64 (ta_CommitIndex ta), i64 (log_Id e))
                             | None => readMeta (kv_tree db)
                             end /\
    lastCommitIndex db' = ta_CommitIndex ta /\
    (forall id ch, w_chans (db_waiter db).2 !! id = Some ch ->
       ch ∈ ch_closed (db_waiter db').1 <-> exists e, e ∈ ta_Entries ta /\ GetRequestId (log_Data e) = id) /\
    (forall d ch, wt_m (applyWait db).2 !! d = Some ch ->
       ch ∈ ch_closed (applyWait db').1 <-> d <= ta_CommitIndex ta) /\
    (scheduler db', job db', generator db') = (scheduler db, job db, generator db).
Proof.
  intros Hf Hh Hb Hd Hok Hrd Hord.
  destruct (apply_entries_spec _ kvs 0 db Hf Hh Hb Hd Hok) as (kv & w & Ea & Hh' & Hm & Hr).
  destruct (applyWait db) as [h wt] eqn:Ew.
  destruct (waitTime_Trigger_ok ord (ta_CommitIndex ta) h wt Hrd Hord) as (h' & wt' & Et & _ & _ & _ & _ & Hcl).
  set (i := from_option log_Id 0 (last (ta_Entries ta))) in *.
  set (db1 := set_waiter w (set_kv kv db)) in *.
  assert (exists kv', apply_meta ta i db1 = Ok (set_kv kv' db1) /\ holds (kvs ++ (log_pair <$> ta_Entries ta)) kv' /\
    readMeta kv' = match last (ta_Entries ta) with
                   | Some e => Ok (i64 (ta_CommitIndex ta), i64 (log_Id e))
                   | None => readMeta (kv_tree db)
                   end) as (kv' & Em & Hh2 & Hrm).
  { unfold apply_meta. destruct (ta_Entries ta) as [|e es] eqn:Ee.
    - exists kv. split_and!; [done|done|]. unfold readMeta. by rewrite Hm.
    - rewrite (proj2 (Z.ltb_lt _ _)) by (unfold zlen; cbn; lia).
      destruct (updateMeta_total i (ta_CommitIndex ta) (kv_tree db1)) as (b' & Hu). rewrite Hu.
      exists b'. split; [done|]. apply updateMeta_inv in Hu as (rest & ->). split; [by apply holds_meta|].
      rewrite (readMeta_i64 i (ta_CommitIndex ta) _ rest) by done. subst i. clear -Ee.
      destruct (last (e :: es)) as [x|] eqn:El; [done|]. by apply last_None in El. }
  set (db2 := set_applyWait (h', wt') (set_lastCommitIndex (ta_CommitIndex ta) (set_kv kv' db1))).
  assert (apply_job fuel ord ta db = Ok db2) as Ej.
  { unfold apply_job. rewrite Ea. cbn [mbind outcome_bind]. rewrite Em. cbn [mbind outcome_bind].
    unfold trigger_readers, db1. cbn [applyWait set_lastCommitIndex set_kv set_waiter]. rewrite Ew.
    cbn [fst snd]. by rewrite Et. }
  exists db2. split; [done|]. split; [by rewrite job_steps_equal, Ej|].
  split_and!; [done|done|done| | |done].
  - intros id ch Hid. destruct (wait_run_open ((fun e => OpTrigger (GetRequestId (log_Data e))) <$> ta_Entries ta)
      (db_waiter db) id ch Hok Hid) as (s' & Hr' & _ & Hiff).
    assert (s' = w) as -> by congruence. etrans; [exact Hiff|]. rewrite list_elem_of_fmap. split.
    + intros (e & [= ->] & He). by exists e.
    + intros (e & He & <-). by exists e.
  - intros d ch Hd'. cbn. rewrite Hcl. destruct Hrd as [_ Hopen Hinj]. cbn in *. split.
    + intros [Hc|(k & Hk & Hk')]; [by destruct (Hopen d ch Hd')|]. by rewrite (Hinj d k ch).
    + intros Hle. right. by exists d.
Qed.
End world.
