(* ===== verification/Restart.v ===== *)
(** * Runs of the database, and restarts

    Concrete runs that use the theorems of [DbSpec.v], and what a restart leaves
    of the data: the tree does not survive it ([TreeLimits.v]), and the log is
    not replayed, since the metadata says that everything was applied. *)
From S2P Require Import Prelude Proto Wal RaftNode.
From S2P Require Import Keys Slice Codec Node Leaf Storage BTree TreeFrame Tree TreeMap TreeLimits Generator Wait Scheduler Replay Db DbSpec.

Local Open Scope Z_scope.

Section restart.
Context `{GrowPolicy}.

Lemma header_get fuel n key b v b' : get fuel n key b = Ok (v, b') -> header b' = header b.
Proof.
  revert n b. induction fuel as [|fuel IH]; cbn [get]; intros n b E; [done|]. unfold fetch in E.
  follow; subst; simplify_eq; try done. all: by match goal with H : get _ _ _ _ = Ok _ |- _ => apply IH in H end.
Qed.

Lemma header_Get fuel key b v b' : Get fuel key b = Ok (v, b') -> header b' = header b.
Proof. unfold Get. intros (pg & _ & E)%bind_Ok_inv. by eapply header_get. Qed.

(** The root offset that a flush would write. *)
Definition saved_root (w : world) : Z := fs_rootOffset (fs (kv_tree (w_db w))).

Lemma header_root b b' : header b' = header b -> fs_rootOffset (fs b') = fs_rootOffset (fs b).
Proof. unfold header. intros E. by simplify_eq. Qed.

Lemma world_step_root fuel ev w w' : world_step fuel ev w = Ok (Some w') -> saved_root w' = saved_root w.
Proof.
  unfold saved_root. destruct ev as [key val| |key|ta| |ord|ord]; cbn [world_step]; cbv zeta; intros E.
  - unfold Put_propose in E. destruct (Next _) as [id g].
    destruct (waiter_Register id _ _) as [ch s]. by injection E as <-.
  - injection E as <-. unfold Get_wait. by destruct (waitTime_Wait _ _ _).
  - destruct (Get_read _ _ _) as [[v db]| |] eqn:Er; simplify_eq; [|done].
    unfold Get_read, wrap_err in Er. destruct (Get fuel key _) as [[v' kv]| |] eqn:Eg; try done.
    injection Er as <- <-. apply header_Get in Eg. cbn. by apply header_root.
  - by injection E as <-.
  - injection E as E. unfold start_job in E. destruct (job (w_db w)); try done.
    destruct (s_queue _); [done|]. destruct (nextTask _) as [task s]. by injection E as <-.
  - apply bind_Ok_inv in E as (r & Er & E). injection E as E. destruct r as [db'|]; [|done].
    injection E as <-. unfold job_step in Er. destruct (job (w_db w)) as [|ta [|e es] i|ta|ta]; [done| | | |].
    + apply bind_Ok_inv in Er as (db1 & Hm & Er). injection Er as <-. unfold apply_meta in Hm.
      destruct (0 <? _); [|by injection Hm as <-]. apply bind_Ok_inv in Hm as (kv & Hu & Hm). injection Hm as <-.
      by apply updateMeta_inv in Hu as (rest & ->).
    + apply bind_Ok_inv in Er as (db1 & Ha & Er). injection Er as <-.
      apply apply_entry_inv in Ha as (kv & cmd & s & Hp & _ & _ & ->). by apply header_put, header_root in Hp.
    + by injection Er as <-.
    + apply bind_Ok_inv in Er as (db1 & Ht & Er). injection Er as <-.
      unfold trigger_readers in Ht. apply bind_Ok_inv in Ht as (x & _ & Ht). by injection Ht as <-.
  - apply (flush_step fuel) in E as (f & Hf & ->). by apply flushPages_root in Hf.
Qed.

Lemma run_root fuel w w' : rtc (wstep fuel) w w' -> saved_root w' = saved_root w.
Proof. induction 1 as [|w1 w2 w3 (ev & _ & Hs) _ IH]; [done|]. by rewrite IH, (world_step_root _ _ _ _ Hs). Qed.

(** With metadata that says that all was applied there is nothing to replay. *)
Lemma replay_nothing {W} `{Storage W} fuel b (wal : W) c a :
  readMeta b = Ok (c, a) -> c <= a -> ReplayWAL fuel b wal = Ok b.
Proof. intros E Hle. unfold ReplayWAL. rewrite E. cbn. by rewrite (proj2 (Z.leb_le _ _)). Qed.

Lemma readMeta_bytes b b' : bt_meta b = bt_meta b' -> readMeta b = readMeta b'.
Proof. unfold readMeta. by intros ->. Qed.

Lemma Open_new {W} `{Storage W} fuel nodeID now (wal : W) db :
  Open fuel [] [] nodeID now wal = Ok db -> kv_tree db = empty_tree [] /\ opened db.
Proof.
  intros E. split; [|by eapply Open_opened]. unfold Open in E. rewrite open_empty in E.
  cbn [mbind outcome_bind] in E. rewrite (replay_nothing fuel (empty_tree []) wal 0 0) in E by done.
  by injection E as <-.
Qed.

Lemma writes_lost {W W'} `{Storage W} `{Storage W'}
    fuel fuel' nodeID now now' (wal : W) (wal' : W') db w c a ord f :
  Open fuel [] [] nodeID now wal = Ok db -> rtc (wstep fuel) (mkWorld db []) w ->
  readMeta (kv_tree (w_db w)) = Ok (c, a) -> c <= a -> flushPages ord (fs (kv_tree (w_db w))) = Ok f ->
  exists db', Open fuel' (fs_file f) (bt_meta (kv_tree (w_db w))) nodeID now' wal' = Ok db' /\
    forall key n, Get_read (S n) key db' = Err (ErrWrap "get" (ErrMsg "key not found")).
Proof.
  intros Ho Hrun Hm Hle Hf. destruct (Open_new _ _ _ _ _ Ho) as [Ek _].
  pose proof (run_root _ _ _ Hrun) as Hr. unfold saved_root in Hr. cbn in Hr. rewrite Ek in Hr. cbn in Hr.
  destruct (flush_header _ _ _ Hf) as (next & Hn & Ht). rewrite Hr in Ht.
  unfold Open. rewrite (open_header _ _ next Hn Ht). cbn [mbind outcome_bind].
  rewrite (replay_nothing fuel' _ wal' c a); [|by rewrite <- Hm; apply readMeta_bytes|done].
  eexists. split; [done|]. intros key n. unfold Get_read. cbn [kv_tree set_kv]. by rewrite get_empty_root.
Qed.

(** A restart loses every write, acknowledged or not.  From new files, after
    any run of the database, as soon as the metadata says that what is
    committed is applied, which is what every job writes, and the pages have
    been flushed, in whatever order: the same files open as a database in which
    no key is found, whatever the write-ahead log holds. *)
Theorem restart_loses_writes {W W'} `{Storage W} `{Storage W'}
    fuel fuel' nodeID now now' (wal : W) (wal' : W') db w c a ord f :
  Open fuel [] [] nodeID now wal = Ok db -> rtc (wstep fuel) (mkWorld db []) w ->
  readMeta (kv_tree (w_db w)) = Ok (c, a) -> c <= a -> flushPages ord (fs (kv_tree (w_db w))) = Ok f ->
  exists db', Open fuel' (fs_file f) (bt_meta (kv_tree (w_db w))) nodeID now' wal' = Ok db' /\
    forall key n, Get_read (S n) key db' = Err (ErrWrap "get" (ErrMsg "key not found")).
Proof. apply writes_lost. Qed.

End restart.

(** ** Runs *)

#[local] Existing Instance doubling.

(** Runs a list of events, with the order of the map that it is listed in;
    [None] when one of them cannot happen. *)
Definition in_order (ev : db_event) (w : world) : db_event :=
  match ev with
  | DbStep _ => DbStep (default_map_order (wt_m (applyWait (w_db w)).2))
  | DbFlush _ => DbFlush (default_map_order (pages (kv_tree (w_db w))))
  | _ => ev
  end.

Fixpoint run_events (fuel : nat) (evs : list db_event) (w : world) : option world :=
  match evs with
  | [] => Some w
  | ev :: evs =>
      match world_step fuel (in_order ev w) w with
      | Ok (Some w') => run_events fuel evs w'
      | _ => None
      end
  end.

Lemma in_order_ok ev w : event_ok (in_order ev w) w.
Proof. destruct ev; try done; apply default_map_order_ok. Qed.

Lemma run_events_sound fuel evs w w' : run_events fuel evs w = Some w' -> rtc (wstep fuel) w w'.
Proof.
  revert w. induction evs as [|ev evs IH]; intros w E; [injection E as ->; apply rtc_refl|].
  cbn [run_events] in E. destruct (world_step fuel (in_order ev w) w) as [[w1|]| |] eqn:Es; try done.
  apply rtc_l with w1; [|by apply IH]. exists (in_order ev w). split; [apply in_order_ok|done].
Qed.

Definition new_db : DB :=
  match Open 2 [] [] 1 1700000000000000000 (wal_of []) with
  | Ok db => db
  | _ => mkDB (empty_tree []) NewFifoScheduler Idle (mkChans 0 ∅, newWaiter) (mkChans 0 ∅, newWaitTime)
           (mkGenerator 0 0) 0
  end.

Definition new_world : world := mkWorld new_db [].

(** The first id of node 1, and the entry its first [Put] leads to. *)
Definition first_id : Z := (Next (generator new_db)).1.
Definition first_entry : Log := mkLog 1 1 (Some (mkCmd (go_string "PUT") (go_string "a") (go_string "1") first_id)).

Definition the_steps (n : nat) : list db_event := replicate n (DbStep []).

Definition put_events : list db_event :=
  [DbPut (go_string "a") (go_string "1"); DbRecv (mkToApply [first_entry] 1); DbStart] ++
  the_steps 2 ++ [DbFlush []] ++ the_steps 2.

Definition after_events (evs : list db_event) : world := default new_world (run_events 2 evs new_world).

Lemma new_db_opened : Open 2 [] [] 1 1700000000000000000 (wal_of []) = Ok new_db.
Proof. vm_compute. reflexivity. Defined.

Definition put_world : world := after_events put_events.

Lemma put_world_reached : rtc (wstep 2) new_world put_world.
Proof. apply (run_events_sound 2 put_events). vm_compute. reflexivity. Qed.

Definition first_call : put_call :=
  match w_hist put_world with Called c :: _ => c | _ => mkPutCall 0 0 [] [] end.

Lemma put_acknowledged_witness :
  w_hist put_world = [] ++ Called first_call :: [Applied first_entry] /\
  Put_await SelWoken SelWoken first_call (w_db put_world) = Some (Ok tt).
Proof.
  assert (w_hist put_world = [] ++ Called first_call :: [Applied first_entry]) as E by (vm_compute; reflexivity).
  split; [exact E|].
  apply (put_acknowledged 2 new_db put_world [] first_call [Applied first_entry] SelWoken SelWoken
    (Open_opened 2 _ _ _ _ _ _ new_db_opened) put_world_reached E).
  split; [reflexivity|]. split; [reflexivity|]. exists first_entry. split; [left|vm_compute; reflexivity].
Defined.

(** A job of the first entry, for a database in which a put waits for it. *)
Definition waiting_db : DB := w_db (after_events (take 1 put_events)).
Definition first_job : ToApply := mkToApply [first_entry] 1.

Lemma apply_job_spec_witness :
  exists db', apply_job 2 [] first_job waiting_db = Ok db' /\ readMeta (kv_tree db') = Ok (1, 1) /\
    0%nat ∈ ch_closed (db_waiter db').1.
Proof.
  destruct (apply_job_spec 2 [] [] first_job waiting_db) as (db' & Ej & _ & _ & Em & _ & Hw & _).
  - lia.
  - exact (holds_empty []).
  - assert (log_pair <$> ta_Entries first_job = [(go_string "a", go_string "1")]) as -> by (vm_compute; reflexivity).
    split; [constructor|cbn; lia].
  - repeat constructor. vm_compute. by eexists.
  - apply (ai_ok (after_events (take 1 put_events))). apply (run_ack 2 new_db).
    + exact (Open_opened 2 _ _ _ _ _ _ new_db_opened).
    + apply (run_events_sound 2 (take 1 put_events)). vm_compute. reflexivity.
  - exact open_chans_new.
  - split; [constructor|]. intros k. split; [intros Hk; exfalso; by apply not_elem_of_nil in Hk|].
    intros [x Hx]. vm_compute in Hx. discriminate Hx.
  - exists db'. split; [exact Ej|]. split; [exact Em|].
    apply (Hw first_id); [vm_compute; reflexivity|].
    exists first_entry. split; [left|vm_compute; reflexivity].
Defined.


Definition put_flushed : fileStore :=
  match flushPages [0] (fs (kv_tree (w_db put_world))) with Ok f => f | _ => fs (empty_tree []) end.

(** The write-ahead log that holds the entry. *)
Definition put_wal : LogManager := wal_of [first_entry].

Lemma restart_loses_writes_witness :
  Put_await SelWoken SelWoken first_call (w_db put_world) = Some (Ok tt) /\
  exists db', Open 2 (fs_file put_flushed) (bt_meta (kv_tree (w_db put_world))) 1 1700000001000000000 put_wal = Ok db' /\
    Get_read 2 (go_string "a") db' = Err (ErrWrap "get" (ErrMsg "key not found")).
Proof.
  split; [vm_compute; reflexivity|].
  destruct (restart_loses_writes 2 2 1 1700000000000000000 1700000001000000000 (wal_of []) put_wal
    new_db put_world 1 1 [0] put_flushed new_db_opened put_world_reached) as (db' & Ho & Hg);
    [vm_compute; reflexivity|lia|vm_compute; reflexivity|].
  exists db'. split; [exact Ho|exact (Hg (go_string "a") 1%nat)].
Defined.

Lemma read_never_waits_witness :
  let '(ch, db') := Get_wait (w_db put_world) in
  Get_await 2 SelWoken ch (go_string "a") db' = Some (Get_read 2 (go_string "a") db').
Proof.
  exact (read_never_waits 2 new_db put_world (go_string "a") (Open_opened 2 _ _ _ _ _ _ new_db_opened)
    put_world_reached).
Defined.

(** A read does not see what is committed: the entry has been committed by Raft
    and received by the apply loop, its job is queued, and [Get] answers at
    once that the key is not there. *)
Theorem read_is_stale :
  exists w, rtc (wstep 2) new_world w /\
    s_queue (scheduler (w_db w)) = [NewJob "applier" (mkToApply [first_entry] 1)] /\
    (let '(ch, db') := Get_wait (w_db w) in Get_await 2 SelWoken ch (go_string "a") db') =
      Some (Err (ErrWrap "get" (ErrMsg "key not found"))).
Proof.
  exists (after_events (take 2 put_events)). split; [|split; vm_compute; reflexivity].
  apply (run_events_sound 2 (take 2 put_events)). vm_compute. reflexivity.
Qed.

(** An entry without a command stops the database: [GetData().RequestId] is a
    plain field access.  A follower in term 0 appends whatever entries it is
    sent, so such an entry can come from any client of the Raft port. *)
Theorem nil_command_panics `{GrowPolicy} fuel ord db ta e rest i :
  job db = Applying ta (e :: rest) i -> log_Data e = None ->
  exists p, job_step fuel ord db = Panic p.
Proof.
  intros Ej Ed. unfold job_step. rewrite Ej. unfold apply_entry. rewrite Ed. change (GetKey None) with (@nil Byte.byte).
  change (GetValue None) with (@nil Byte.byte). destruct (put fuel [] [] (kv_tree db)); cbn; by eexists.
Qed.
