(* ===== verification/System.v ===== *)
(** * One server: the Raft node and its database

    The run loop puts committed entries on [applyc]; [applyLoop] takes them off
    and queues jobs; the scheduler applies them.  Here the two state machines of
    [RaftNode.v] and [Db.v] run side by side, over any [Storage] that keeps its
    laws, and the theorems relate the tree to the Raft log. *)
From S2P Require Import Prelude Proto Wal RaftLog Raft Election Replication RaftNode.
From S2P Require Import Keys Slice Codec Node Leaf Storage BTree TreeFrame Tree TreeMap TreeLimits Generator Wait Scheduler Replay Db DbSpec Restart.

Local Open Scope Z_scope.

Record server (W : Type) := mkServer {
  sv_node : RaftNode.Node W;
  sv_world : world;
}.
Arguments mkServer {W} _ _.
Arguments sv_node {W} _.
Arguments sv_world {W} _.

Section system.
Context `{GrowPolicy} {W : Type} {HS : Storage W} {HSpec : StorageSpec W} (fuel : nat).

(** The events of the database that do not involve the node. *)
Definition internal (ev : db_event) : Prop :=
  match ev with DbPut _ _ | DbRecv _ => False | _ => True end.

(** The steps of the node that the database takes no part in, with a log that
    stays in order ([RaftNode.v]). *)
Definition node_alone (n n' : RaftNode.Node W) : Prop :=
  ((exists m, stepSM m n = Some n') \/ n' = node_Tick n \/ (exists c, run_turn c n = Ok (Some n'))) /\
  wf_log (r_raftLog (n_raft n')).

Inductive server_step (s : server W) : server W -> Prop :=
  | sv_node_step n' : node_alone (sv_node s) n' -> server_step s (mkServer n' (sv_world s))
  | sv_db_step ev w' :
      internal ev -> event_ok ev (sv_world s) -> world_step fuel ev (sv_world s) = Ok (Some w') ->
      server_step s (mkServer (sv_node s) w')
  | sv_put key val c m db' n' :
      Put_propose key val (w_db (sv_world s)) = (c, m, db') ->
      stepSM m (sv_node s) = Some n' \/ n' = sv_node s ->
      server_step s (mkServer n' (mkWorld db' (w_hist (sv_world s) ++ [Called c])))
  | sv_apply ap n' w' :
      receive_apply (sv_node s) = Some (ap, n') ->
      world_step fuel (DbRecv ap) (sv_world s) = Ok (Some w') -> server_step s (mkServer n' w').

(** ** What is on its way from the log to the tree *)

Definition ta_entries (j : Job ToApply) : list Log := from_option ta_Entries [] (job_do j).

Definition in_flight (db : DB) : list Log :=
  (match job db with Applying _ rest _ => rest | _ => [] end) ++
  concat (ta_entries <$> s_queue (scheduler db)).

Definition queued (n : RaftNode.Node W) : list Log := concat (ta_Entries <$> n_applyc n).

(** The entries of a hand-over end with the one at its commit index. *)
Definition good_ta (ta : ToApply) : Prop :=
  exists e, last (ta_Entries ta) = Some e /\ log_Id e = ta_CommitIndex ta.

Context (base : list Log).

Lemma last_between l a e cs :
  wf_log l -> 0 <= a -> entries_between l a (rl_commitIndex l) = e :: cs ->
  exists x, last (e :: cs) = Some x /\ log_Id x = rl_commitIndex l.
Proof.
  intros [W1 W2 W3 W4] Ha E. pose proof (lastIndex_sequential _ W1) as El. unfold zlen in El.
  unfold entries_between in E. rewrite <- E.
  assert (rl_commitIndex l - a > 0) as Hpos.
  { destruct (Z.to_nat (rl_commitIndex l - a)) eqn:En; [done|lia]. }
  destruct (lookup_lt_is_Some_2 (rl_entries l) (Z.to_nat (rl_commitIndex l - 1)) ltac:(lia)) as [x Hx].
  exists x. split; [|apply W1 in Hx; lia].
  rewrite last_lookup, length_take, length_drop, Nat.min_l by lia.
  rewrite lookup_take_lt, lookup_drop by lia. rewrite <- Hx. f_equal. lia.
Qed.

(** The hand-overs of a turn. *)
Lemma turn_delivers c n n' :
  loop_inv base n -> run_turn c n = Ok (Some n') ->
  exists tas, n_applyc n' = n_applyc n ++ tas /\
    n_delivered n' = n_delivered n ++ concat (ta_Entries <$> tas) /\ Forall good_ta tas.
Proof.
  intros Hn Ht. unfold run_turn in Ht. apply bind_Ok_inv in Ht as ([r1|] & Hc & Ht); [|done].
  assert (Hnone : forall q r k, n' = RaftNode.mkNode r (n_wal n) (n_members n) q (n_applyc n) k (n_sent n) (n_delivered n) ->
    exists tas, n_applyc n' = n_applyc n ++ tas /\
      n_delivered n' = n_delivered n ++ concat (ta_Entries <$> tas) /\ Forall good_ta tas).
  { intros q r k ->. exists []. cbn. rewrite !app_nil_r. split_and!; [done|done|constructor]. }
  destruct (callReady_inv base n r1 Hn Hc) as [Hn1 Hrd].
  destruct c as [ord|ds|ord|]; cbn in Ht.
  - destruct (n_propc n) as [|m q]; [done|].
    apply bind_Ok_inv in Ht as (r' & Hs & Ht). injection Ht as <-. by eapply Hnone.
  - destruct (readyc r1) as [rd|] eqn:Erd; [|done]. unfold processReady in Ht.
    apply bind_Ok_inv in Ht as (wal & Hw & Ht). cbv zeta in Ht.
    destruct (rd_CommittedEntries rd) as [|e cs] eqn:Ec.
    + injection Ht as <-. exists []. cbn. rewrite !app_nil_r. split_and!; [done|done|constructor].
    + destruct (_ <? _)%nat; [|done]. injection Ht as <-.
      exists [mkToApply (e :: cs) (hs_lastCommitIndex (rd_HardState rd))]. cbn. rewrite app_nil_r.
      split_and!; [done|done|]. apply Forall_singleton. unfold good_ta. cbn [ta_Entries ta_CommitIndex].
      rewrite callReady_eq in Hc by apply Hn. destruct (hasReady (n_raft n)) eqn:Eh.
      * destruct (readyc (n_raft n)); [done|]. injection Hc as <-. injection Erd as <-.
        apply (last_between (r_raftLog (n_raft n)) (rl_lastApplied (r_raftLog (n_raft n)))); [apply Hn| |exact Ec].
        by apply (wf_applied _ (nv_wf _ _ Hn)).
      * injection Hc as <-. destruct (Hrd rd eq_refl) as [_ E]. destruct (ready_of_all _ Eh (nv_wf _ _ Hn)) as [_ E'].
        cbv zeta in E. rewrite E', Ec in E. done.
  - destruct (n_tickc n) as [|k]; [done|].
    apply bind_Ok_inv in Ht as (r' & Hs & Ht). injection Ht as <-. by eapply Hnone.
  - destruct (n_propc n), (readyc r1), (n_tickc n); try done. injection Ht as <-. by eapply Hnone.
Qed.

(** A job under way: what is done and what is left are its entries, and the
    index it would record is that of the entry done last. *)
Definition good_running (j : running) : Prop :=
  match j with
  | Idle => True
  | Applying ta rest i =>
      good_ta ta /\ exists finished, ta_Entries ta = finished ++ rest /\
        (forall e, last finished = Some e -> i = log_Id e)
  | Committing ta | Triggering ta => good_ta ta
  end.

(** The metadata says that all that is committed was applied. *)
Definition meta_done (b : BTree) : Prop := exists c a, readMeta b = Ok (c, a) /\ c <= a.

Record server_inv (s : server W) : Prop := {
  si_node : loop_inv base (sv_node s);
  si_order : n_delivered (sv_node s) =
    applied_entries (w_hist (sv_world s)) ++ in_flight (w_db (sv_world s)) ++ queued (sv_node s);
  si_queued : Forall good_ta (n_applyc (sv_node s));
  si_jobs : Forall (fun j => exists ta, job_do j = Some ta /\ good_ta ta) (s_queue (scheduler (w_db (sv_world s))));
  si_running : good_running (job (w_db (sv_world s)));
  si_meta : meta_done (kv_tree (w_db (sv_world s)));
}.

(** Steps that move no entry. *)
Lemma server_same s n' db' h :
  server_inv s -> loop_inv base n' ->
  n_applyc n' = n_applyc (sv_node s) -> n_delivered n' = n_delivered (sv_node s) ->
  applied_entries h = applied_entries (w_hist (sv_world s)) ->
  job db' = job (w_db (sv_world s)) -> scheduler db' = scheduler (w_db (sv_world s)) ->
  bt_meta (kv_tree db') = bt_meta (kv_tree (w_db (sv_world s))) ->
  server_inv (mkServer n' (mkWorld db' h)).
Proof.
  intros [H1 H2 H3 H4 H5 H6] Hn Ea Ed Eh Ej Es Em.
  split; cbn [sv_node sv_world w_db w_hist]; unfold in_flight, queued in *.
  - done.
  - by rewrite Ed, Eh, Ej, Es, Ea.
  - by rewrite Ea.
  - by rewrite Es.
  - by rewrite Ej.
  - destruct H6 as (c & a & E & Hle). exists c, a. split; [|done]. by rewrite (readMeta_bytes _ _ Em).
Qed.

Lemma node_alone_inv n n' :
  loop_inv base n -> node_alone n n' ->
  loop_inv base n' /\ exists tas, n_applyc n' = n_applyc n ++ tas /\
    n_delivered n' = n_delivered n ++ concat (ta_Entries <$> tas) /\ Forall good_ta tas.
Proof.
  intros Hn [Hs Hwf]. split.
  - apply (node_step_inv base n); [done|]. split; [|done].
    destruct Hs as [(m & Hm)|[->|(c & Ht)]]; [by eapply ns_process|apply ns_tick|by eapply ns_turn].
  - assert (Hnone : n_applyc n' = n_applyc n -> n_delivered n' = n_delivered n ->
      exists tas, n_applyc n' = n_applyc n ++ tas /\
        n_delivered n' = n_delivered n ++ concat (ta_Entries <$> tas) /\ Forall good_ta tas).
    { intros -> ->. exists []. cbn. rewrite !app_nil_r. split_and!; [done|done|constructor]. }
    destruct Hs as [(m & Hm)|[->|(c & Ht)]]; [| |by eapply turn_delivers].
    + unfold stepSM in Hm. destruct (_ <? _)%nat; [|done]. injection Hm as <-. by apply Hnone.
    + unfold node_Tick. unfold node_Tick in Hnone. destruct (_ <? _)%nat; by apply Hnone.
Qed.

Lemma stepSM_inv m n n' :
  loop_inv base n -> stepSM m n = Some n' ->
  loop_inv base n' /\ n_applyc n' = n_applyc n /\ n_delivered n' = n_delivered n.
Proof.
  intros Hn Hm. split.
  - apply (node_step_inv base n); [done|]. split; [by eapply ns_process|].
    unfold stepSM in Hm. destruct (_ <? _)%nat; [|done]. injection Hm as <-. apply Hn.
  - unfold stepSM in Hm. destruct (_ <? _)%nat; [|done]. by injection Hm as <-.
Qed.

(** A step of the job takes the entry it applies off what is in flight. *)
Lemma job_step_inv ord db db' :
  good_running (job db) -> meta_done (kv_tree db) -> job_step fuel ord db = Ok (Some db') ->
  in_flight db = applied_entries (next_entry db) ++ in_flight db' /\ scheduler db' = scheduler db /\
  good_running (job db') /\ meta_done (kv_tree db').
Proof.
  intros Hr Hm E. unfold job_step in E. unfold in_flight, next_entry.
  destruct (job db) as [|ta [|e es] i|ta|ta] eqn:Ej; [done| | | |].
  - apply bind_Ok_inv in E as (db1 & Ha & E). injection E as <-. destruct Hr as [Hg (fin & Ef & Hi)].
    destruct Hg as (x & Hx & Eid). unfold apply_meta in Ha.
    assert ((0 <? zlen (ta_Entries ta)) = true) as Hlen.
    { apply Z.ltb_lt. unfold zlen. destruct (ta_Entries ta) eqn:El; [done|cbn; lia]. }
    rewrite Hlen in Ha. apply bind_Ok_inv in Ha as (kv & Hu & Ha). injection Ha as <-.
    split_and!; [done|done|by exists x|]. apply updateMeta_inv in Hu as (rest & ->). cbn [kv_tree set_job set_kv].
    exists (i64 (ta_CommitIndex ta)), (i64 i). split; [by apply (readMeta_i64 _ _ _ rest)|].
    rewrite app_nil_r in Ef. rewrite (Hi x); [by rewrite Eid|by rewrite <- Ef].
  - apply bind_Ok_inv in E as (db1 & Ha & E). injection E as <-.
    apply apply_entry_inv in Ha as (kv & cmd & s & Hp & _ & _ & ->). destruct Hr as [Hg (fin & Ef & Hi)].
    split_and!; [done|done| |].
    + split; [done|]. exists (fin ++ [e]). split; [by rewrite <- app_assoc|]. intros x.
      rewrite last_snoc. by intros [= ->].
    + destruct Hm as (c & a & Hm & Hle). exists c, a. split; [|done]. rewrite <- Hm. apply readMeta_bytes.
      apply header_put in Hp. unfold header in Hp. by simplify_eq.
  - injection E as <-. by split_and!.
  - apply bind_Ok_inv in E as (db1 & Ht & E). injection E as <-.
    unfold trigger_readers in Ht. apply bind_Ok_inv in Ht as (x & _ & Ht). injection Ht as <-. by split_and!.
Qed.

Lemma start_job_inv db db' :
  start_job db = Some db' -> Forall (fun j => exists ta, job_do j = Some ta /\ good_ta ta) (s_queue (scheduler db)) ->
  in_flight db' = in_flight db /\ kv_tree db' = kv_tree db /\ good_running (job db') /\
  Forall (fun j => exists ta, job_do j = Some ta /\ good_ta ta) (s_queue (scheduler db')).
Proof.
  intros E Hq. unfold start_job, nextTask in E. unfold in_flight. destruct (job db); try done.
  destruct (s_queue (scheduler db)) as [|task q]; [done|]. injection E as <-.
  apply Forall_cons in Hq as [(ta & Et & Hg) Hq]. rewrite Et. cbn [job set_job scheduler set_scheduler s_queue kv_tree].
  assert (ta_entries task = ta_Entries ta) as E by (unfold ta_entries; by rewrite Et).
  split_and!; [by cbn; rewrite E|done| |done]. split; [done|]. by exists [].
Qed.

Lemma server_step_inv s s' : server_inv s -> server_step s s' -> server_inv s'.
Proof.
  intros Hi Hs. destruct Hs as [n' Hn|ev w' Hin Hev E|key val c m db' n' Ep Hn|ap n' w' Hr E].
  - destruct (node_alone_inv _ _ (si_node _ Hi) Hn) as (Hn' & tas & Ea & Ed & Hg).
    destruct Hi as [H1 H2 H3 H4 H5 H6]. split; cbn [sv_node sv_world]; [done| | |done..].
    + unfold queued in *. by rewrite Ed, H2, Ea, fmap_app, concat_app, <- !app_assoc.
    + rewrite Ea. by apply Forall_app.
  - destruct ev as [key val| |key|ta| |ord|ord]; cbn [world_step internal] in *; cbv zeta in E; try done.
    + injection E as <-. apply (server_same s); try done; [apply Hi|..];
        unfold Get_wait; by destruct (waitTime_Wait _ _ _).
    + destruct (Get_read _ _ _) as [[v db]| |] eqn:Er; simplify_eq; [|by destruct s].
      unfold Get_read, wrap_err in Er. destruct (Get fuel key _) as [[v' kv]| |] eqn:Eg; try done.
      injection Er as <- <-. apply header_Get in Eg. unfold header in Eg. simplify_eq.
      apply (server_same s); try done. apply Hi.
    + destruct (start_job (w_db (sv_world s))) as [db'|] eqn:Es; [|done]. injection E as <-.
      destruct Hi as [H1 H2 H3 H4 H5 H6]. destruct (start_job_inv _ _ Es H4) as (Ef & Ek & Hr & Hq).
      split; cbn [sv_node sv_world w_db w_hist]; [done|by rewrite Ef|done|done|done|by rewrite Ek].
    + apply bind_Ok_inv in E as (r & Er & E). injection E as E. destruct r as [db'|]; [|done]. injection E as <-.
      destruct Hi as [H1 H2 H3 H4 H5 H6]. destruct (job_step_inv _ _ _ H5 H6 Er) as (Ef & Es & Hr & Hm).
      split; cbn [sv_node sv_world w_db w_hist]; [done| |done|by rewrite Es|done|done].
      by rewrite H2, Ef, applied_app, <- !app_assoc.
    + apply (flush_step fuel) in E as (f & _ & ->). apply (server_same s); try done. apply Hi.
  - assert (loop_inv base n' /\ n_applyc n' = n_applyc (sv_node s) /\ n_delivered n' = n_delivered (sv_node s))
      as (Hn' & Ea & Ed).
    { destruct Hn as [Hn| ->]; [|by split_and!; [apply Hi|..]]. by apply (stepSM_inv m); [apply Hi|]. }
    unfold Put_propose in Ep. destruct (Next _) as [id g].
    destruct (waiter_Register id _ _) as [ch x]. injection Ep as <- <- <-.
    apply (server_same s); try done. by rewrite applied_app, app_nil_r.
  - cbn [world_step] in E. injection E as <-. unfold receive_apply in Hr.
    destruct (n_applyc (sv_node s)) as [|a rest] eqn:Ea; [done|]. injection Hr as <- <-.
    destruct Hi as [H1 H2 H3 H4 H5 H6]. rewrite Ea in H3. apply Forall_cons in H3 as [Hg H3].
    split; cbn [sv_node sv_world w_db w_hist].
    + by destruct H1.
    + rewrite H2. unfold queued, in_flight. rewrite Ea. cbn. rewrite fmap_app, concat_app. cbn.
      by rewrite app_nil_r, <- !app_assoc.
    + done.
    + cbn. apply Forall_app. split; [done|]. apply Forall_singleton. by exists a.
    + done.
    + done.
Qed.

(** ** A server from the start *)

Lemma server_inv_start id peerIDs wal nodeID now db :
  st_GetLogs wal = base -> Open fuel [] [] nodeID now wal = Ok db ->
  server_inv (mkServer (bootstrapRaftNode id peerIDs wal) (mkWorld db [])).
Proof.
  intros Hw Ho. destruct (Open_new _ _ _ _ _ Ho) as [Ek (Es & Ej & _)].
  split; cbn [sv_node sv_world w_db w_hist].
  - by apply bootstrap_inv.
  - unfold in_flight, queued. by rewrite Ej, Es.
  - constructor.
  - rewrite Es. constructor.
  - by rewrite Ej.
  - exists 0, 0. split; [|lia]. by rewrite Ek.
Qed.

Lemma server_run_inv s s' : rtc server_step s s' -> server_inv s -> server_inv s'.
Proof. induction 1 as [|s1 s2 s3 Hs _ IH]; [done|]. intros Hi. apply IH. by eapply server_step_inv. Qed.

(** The database of a server makes the steps of [DbSpec.v]. *)
Lemma server_run_world s s' : rtc server_step s s' -> rtc (wstep fuel) (sv_world s) (sv_world s').
Proof.
  induction 1 as [|s1 s2 s3 Hs _ IH]; [done|]. transitivity (sv_world s2); [|done].
  destruct Hs as [n' Hn|ev w' _ Hev E|key val c m db' n' Ep _|ap n' w' _ E]; cbn.
  - done.
  - apply rtc_once. by exists ev.
  - apply rtc_once. exists (DbPut key val). split; [done|]. cbn [world_step]. by rewrite Ep.
  - apply rtc_once. by exists (DbRecv ap).
Qed.

(** What was applied is a prefix of what Raft has committed and handed over. *)
Lemma applied_prefix s :
  server_inv s ->
  let l := r_raftLog (n_raft (sv_node s)) in
  applied_entries (w_hist (sv_world s)) `prefix_of` take (Z.to_nat (rl_lastApplied l)) (rl_entries l).
Proof.
  intros [H1 H2 _ _ _ _] l. rewrite (nv_delivered _ _ H1) in H2. fold l in H2.
  eexists. exact H2.
Qed.

Lemma prefix_of_take {A} (l1 l2 : list A) n :
  l1 `prefix_of` take n l2 -> (length l1 <= n)%nat /\ l1 = take (length l1) l2.
Proof.
  intros Hp. split; [apply prefix_length in Hp; rewrite length_take in Hp; lia|].
  destruct Hp as [rest E]. rewrite <- (take_drop n l2), E, <- app_assoc. by rewrite take_app_length.
Qed.

(** C14: a server applies its log: from a new page file and metadata file and any
    write-ahead log, in every state a server reaches by steps of its node that
    all leave the Raft log well formed, and any steps of its database, the
    entries that were ever put into the tree are a prefix of the committed part
    of the Raft log: each was committed first, and each was applied once and in
    log order. *)
Theorem server_applies_log id peerIDs wal nodeID now db s :
  st_GetLogs wal = base -> Open fuel [] [] nodeID now wal = Ok db ->
  rtc server_step (mkServer (bootstrapRaftNode id peerIDs wal) (mkWorld db [])) s ->
  let l := r_raftLog (n_raft (sv_node s)) in
  exists k, (k <= Z.to_nat (rl_commitIndex l))%nat /\
    applied_entries (w_hist (sv_world s)) = take k (rl_entries l).
Proof.
  intros Hw Ho Hrun l. pose proof (server_run_inv _ _ Hrun (server_inv_start _ _ _ _ _ _ Hw Ho)) as Hi.
  pose proof (applied_prefix s Hi) as Hp. pose proof (wf_applied _ (nv_wf _ _ (si_node _ Hi))) as Ha.
  fold l in Hp, Ha. apply prefix_of_take in Hp as [Hlen E]. eexists. split; [|exact E]. lia.
Qed.

(** What a read finds: what was applied. *)
Lemma server_reads_applied n nodeID now (wal : W) db s key :
  (2 <= fuel)%nat -> Open fuel [] [] nodeID now wal = Ok db ->
  server_inv (mkServer n (mkWorld db [])) -> rtc server_step (mkServer n (mkWorld db [])) s ->
  in_bounds (log_pair <$> applied_entries (w_hist (sv_world s))) ->
  Get_read fuel key (w_db (sv_world s)) =
    match puts (log_pair <$> applied_entries (w_hist (sv_world s))) ∅ !! key with
    | Some v => Ok (v, w_db (sv_world s))
    | None => Err (ErrWrap "get" (ErrMsg "key not found"))
    end.
Proof.
  intros Hf Ho H0 Hrun Hb. destruct (Open_new _ _ _ _ _ Ho) as [Ek Hop].
  destruct (db_tree_map fuel [] db (sv_world s) Hf) as [Hr _]; [|by apply server_run_world in Hrun|done|exact (Hr key)].
  rewrite Ek. apply holds_empty.
Qed.

Lemma server_reads n nodeID now (wal : W) db s key :
  (2 <= fuel)%nat -> Open fuel [] [] nodeID now wal = Ok db ->
  server_inv (mkServer n (mkWorld db [])) -> rtc server_step (mkServer n (mkWorld db [])) s ->
  let l := r_raftLog (n_raft (sv_node s)) in
  in_bounds (log_pair <$> take (Z.to_nat (rl_commitIndex l)) (rl_entries l)) ->
  exists k, (k <= Z.to_nat (rl_commitIndex l))%nat /\
    Get_read fuel key (w_db (sv_world s)) =
    match puts (log_pair <$> take k (rl_entries l)) ∅ !! key with
    | Some v => Ok (v, w_db (sv_world s))
    | None => Err (ErrWrap "get" (ErrMsg "key not found"))
    end.
Proof.
  intros Hf Ho H0 Hrun l Hb. pose proof (server_run_inv _ _ Hrun H0) as Hi.
  pose proof (applied_prefix s Hi) as Hp. pose proof (wf_applied _ (nv_wf _ _ (si_node _ Hi))) as Ha.
  fold l in Hp, Ha. pose proof Hp as [Hlen E]%prefix_of_take. eexists. split; [|rewrite <- E].
  { lia. }
  eapply server_reads_applied; [done..|].
  assert (applied_entries (w_hist (sv_world s)) `prefix_of` take (Z.to_nat (rl_commitIndex l)) (rl_entries l)) as [more Em].
  { etransitivity; [exact Hp|]. exists (drop (Z.to_nat (rl_lastApplied l)) (take (Z.to_nat (rl_commitIndex l)) (rl_entries l))).
    rewrite <- (take_drop (Z.to_nat (rl_lastApplied l)) (take (Z.to_nat (rl_commitIndex l)) _)) at 1.
    rewrite take_take, Nat.min_l by lia. done. }
  rewrite Em, fmap_app in Hb. by eapply in_bounds_app.
Qed.

(** What a read of a server returns: the value of the last put to the key
    in a prefix of the committed entries of its own Raft log, or the error that
    there is none, as long as these puts are within the bounds of the tree. *)
Theorem server_reads_log id peerIDs wal nodeID now db s key :
  (2 <= fuel)%nat -> st_GetLogs wal = base -> Open fuel [] [] nodeID now wal = Ok db ->
  rtc server_step (mkServer (bootstrapRaftNode id peerIDs wal) (mkWorld db [])) s ->
  let l := r_raftLog (n_raft (sv_node s)) in
  in_bounds (log_pair <$> take (Z.to_nat (rl_commitIndex l)) (rl_entries l)) ->
  exists k, (k <= Z.to_nat (rl_commitIndex l))%nat /\
    Get_read fuel key (w_db (sv_world s)) =
    match puts (log_pair <$> take k (rl_entries l)) ∅ !! key with
    | Some v => Ok (v, w_db (sv_world s))
    | None => Err (ErrWrap "get" (ErrMsg "key not found"))
    end.
Proof. intros Hf Hw Ho. eapply server_reads; [done|done|by eapply server_inv_start]. Qed.

(** A server loses every write in a restart: whatever a server did since it
    started on new files, once its pages are flushed, the files open as a
    database in which no key is found, although the write-ahead log still has
    the entries. *)
Theorem server_restart_loses id peerIDs wal nodeID now db s ord f now' (wal' : W) :
  st_GetLogs wal = base -> Open fuel [] [] nodeID now wal = Ok db ->
  rtc server_step (mkServer (bootstrapRaftNode id peerIDs wal) (mkWorld db [])) s ->
  let kv := kv_tree (w_db (sv_world s)) in
  flushPages ord (fs kv) = Ok f ->
  exists db', Open fuel (fs_file f) (bt_meta kv) nodeID now' wal' = Ok db' /\
    forall key n, Get_read (S n) key db' = Err (ErrWrap "get" (ErrMsg "key not found")).
Proof.
  intros Hw Ho Hrun kv Hf. pose proof (server_run_inv _ _ Hrun (server_inv_start _ _ _ _ _ _ Hw Ho)) as Hi.
  destruct (si_meta _ Hi) as (c & a & Hm & Hle).
  apply server_run_world in Hrun. by apply (writes_lost fuel fuel nodeID now now' wal wal' db (sv_world s) c a ord f).
Qed.

End system.

(** ** A run of a server *)

#[local] Existing Instance doubling.

Inductive server_event :=
  | SeNode (e : event)
  | SeDb (ev : db_event)
  | SePut (key val : list Byte.byte)
  | SeApply.

Section runs.
Context {W : Type} {HS : Storage W}.

Definition in_order_log (n : RaftNode.Node W) : option (RaftNode.Node W) :=
  if wf_logb (r_raftLog (n_raft n)) then Some n else None.

Definition is_internal (ev : db_event) : bool :=
  match ev with DbPut _ _ | DbRecv _ => false | _ => true end.

Definition exec_server (se : server_event) (s : server W) : option (server W) :=
  match se with
  | SeNode e =>
      n ← (match e with EvApply => None | _ => exec_event e (sv_node s) end) ≫= in_order_log;
      Some (mkServer n (sv_world s))
  | SeDb ev =>
      if is_internal ev
      then match world_step 2 (in_order ev (sv_world s)) (sv_world s) with
           | Ok (Some w) => Some (mkServer (sv_node s) w)
           | _ => None
           end
      else None
  | SePut key val =>
      let '(c, m, db) := Put_propose key val (w_db (sv_world s)) in
      n ← stepSM m (sv_node s);
      Some (mkServer n (mkWorld db (w_hist (sv_world s) ++ [Called c])))
  | SeApply =>
      '(ap, n) ← receive_apply (sv_node s);
      match world_step 2 (DbRecv ap) (sv_world s) with
      | Ok (Some w) => Some (mkServer n w)
      | _ => None
      end
  end.

Fixpoint run_server (ses : list server_event) (s : server W) : option (server W) :=
  match ses with
  | [] => Some s
  | se :: ses => exec_server se s ≫= run_server ses
  end.

Lemma in_order_log_sound n n' : in_order_log n = Some n' -> n' = n /\ wf_log (r_raftLog (n_raft n)).
Proof.
  unfold in_order_log. destruct (wf_logb _) eqn:E; [|done]. intros [= <-]. split; [done|by apply wf_logb_sound].
Qed.

Lemma exec_server_sound se s s' : exec_server se s = Some s' -> server_step 2 s s'.
Proof.
  destruct se as [e|ev|key val|]; cbn [exec_server].
  - intros (n & Hn & E)%bind_Some. injection E as <-. apply bind_Some in Hn as (n1 & H1 & H2).
    apply in_order_log_sound in H2 as [-> Hwf]. constructor. split; [|done].
    destruct e as [m| | |c]; [left; by exists m|right; left; by injection H1 as ->|done|right; right].
    cbn in H1. exists c. by destruct (run_turn c (sv_node s)) as [[n2|]| |]; simplify_eq.
  - destruct (is_internal ev) eqn:Ei; [|done].
    destruct (world_step _ _ _) as [[w|]| |] eqn:E; try done. intros [= <-].
    apply (sv_db_step _ _ (in_order ev (sv_world s))); [by destruct ev|apply in_order_ok|done].
  - destruct (Put_propose _ _ _) as [[c m] db] eqn:E. intros (n & Hn & Es)%bind_Some. injection Es as <-.
    eapply sv_put; [exact E|by left].
  - intros ([ap n] & Hn & E)%bind_Some. destruct (world_step _ _ _) as [[w|]| |] eqn:Ew; try done.
    injection E as <-. by apply (sv_apply _ _ ap).
Qed.

Lemma run_server_sound ses s s' : run_server ses s = Some s' -> rtc (server_step 2) s s'.
Proof.
  revert s. induction ses as [|se ses IH]; intros s; cbn; [by intros [= <-]|].
  intros (s1 & H1 & H2)%bind_Some. apply rtc_l with s1; [by apply (exec_server_sound se)|by apply IH].
Qed.

End runs.

(** Node 1 of three is elected, takes a [Put], node 2 acknowledges it, and the
    scheduler applies it. *)
Definition server_events : list server_event :=
  (SeNode <$> (concat (repeat tick_turn 9) ++ ready_turn ++ step_turn (granted_by 2))) ++
  [SePut (go_string "a") (go_string "1")] ++
  (SeNode <$> ([EvTurn (ChProp [2; 3])] ++ ready_turn ++ step_turn (acked_by 2) ++ ready_turn)) ++
  [SeApply] ++ (SeDb <$> (DbStart :: the_steps 4 ++ [DbFlush []])).

Definition new_server : server LogManager := mkServer (bootstrapRaftNode 1 [2; 3] fresh_wal) new_world.
Definition ran_server : server LogManager := default new_server (run_server server_events new_server).

Lemma ran_server_reached : rtc (server_step 2) new_server ran_server.
Proof. apply (run_server_sound server_events). vm_compute. reflexivity. Qed.

Lemma fresh_wal_empty : st_GetLogs fresh_wal = [].
Proof. reflexivity. Qed.

Lemma new_server_db : Open 2 [] [] 1 1700000000000000000 fresh_wal = Ok new_db.
Proof. vm_compute. reflexivity. Qed.

Lemma server_applies_log_witness :
  rl_entries (r_raftLog (n_raft (sv_node ran_server))) = [first_entry] /\
  applied_entries (w_hist (sv_world ran_server)) = [first_entry] /\
  exists k, (k <= 1)%nat /\ applied_entries (w_hist (sv_world ran_server)) = take k [first_entry].
Proof.
  assert (E : rl_entries (r_raftLog (n_raft (sv_node ran_server))) = [first_entry]) by (vm_compute; reflexivity).
  split; [exact E|]. split; [vm_compute; reflexivity|].
  destruct (server_applies_log 2 [] 1 [2; 3] fresh_wal 1 1700000000000000000 new_db ran_server fresh_wal_empty
    new_server_db ran_server_reached) as (k & Hk & Ek).
  exists k. split; [|rewrite <- E; exact Ek].
  transitivity (Z.to_nat (rl_commitIndex (r_raftLog (n_raft (sv_node ran_server))))); [exact Hk|].
  vm_compute. constructor.
Defined.

Lemma server_reads_log_witness :
  exists k, (k <= 1)%nat /\
    Get_read 2 (go_string "a") (w_db (sv_world ran_server)) =
    match puts (log_pair <$> take k [first_entry]) ∅ !! go_string "a" with
    | Some v => Ok (v, w_db (sv_world ran_server))
    | None => Err (ErrWrap "get" (ErrMsg "key not found"))
    end.
Proof.
  assert (E : rl_entries (r_raftLog (n_raft (sv_node ran_server))) = [first_entry]) by (vm_compute; reflexivity).
  assert (Ec : rl_commitIndex (r_raftLog (n_raft (sv_node ran_server))) = 1) by (vm_compute; reflexivity).
  destruct (server_reads_log 2 [] 1 [2; 3] fresh_wal 1 1700000000000000000 new_db ran_server (go_string "a")
    ltac:(lia) fresh_wal_empty new_server_db ran_server_reached) as (k & Hk & Ek).
  - rewrite E, Ec.
    enough (log_pair <$> take (Z.to_nat 1) [first_entry] = [(go_string "a", go_string "1")]) as ->
      by (split; [repeat constructor|cbn]; lia).
    vm_compute. reflexivity.
  - exists k. rewrite Ec in Hk. rewrite <- E. split; [lia|exact Ek].
Defined.

Definition server_flushed : fileStore :=
  match flushPages [0] (fs (kv_tree (w_db (sv_world ran_server)))) with Ok f => f | _ => fs (empty_tree []) end.

Lemma server_restart_loses_witness :
  Get_read 2 (go_string "a") (w_db (sv_world ran_server)) = Ok (go_string "1", w_db (sv_world ran_server)) /\
  exists db', Open 2 (fs_file server_flushed) (bt_meta (kv_tree (w_db (sv_world ran_server)))) 1
      1700000001000000000 (n_wal (sv_node ran_server)) = Ok db' /\
    Get_read 2 (go_string "a") db' = Err (ErrWrap "get" (ErrMsg "key not found")).
Proof.
  split; [vm_compute; reflexivity|].
  destruct (server_restart_loses 2 [] 1 [2; 3] fresh_wal 1 1700000000000000000 new_db ran_server [0] server_flushed
    1700000001000000000 (n_wal (sv_node ran_server)) fresh_wal_empty new_server_db ran_server_reached)
    as (db' & Ho & Hg); [vm_compute; reflexivity|].
  exists db'. split; [exact Ho|exact (Hg (go_string "a") 1%nat)].
Defined.
