(* ===== verification/Replicas.v ===== *)
(** * A cluster of servers

    Several servers of [System.v] and the network between them: the messages a
    run loop sends travel on the wire, and [Process] puts those that arrive on
    the queue of the node they are addressed to; clients put and read at the
    servers.  A run of the servers is a run of the bare Raft nodes of
    [Cluster.v], so that what is proved there holds of the servers; and under
    the conditions of [Steady.v] the databases of all the servers read one log. *)
From S2P Require Import Prelude Proto Wal RaftLog Raft Election Replication RaftNode Cluster Steady Agreement.
From S2P Require Import Keys Slice Codec Node Leaf Storage BTree TreeFrame Tree TreeMap TreeLimits Generator Wait Scheduler Replay Db DbSpec Restart System.

Local Open Scope Z_scope.

(** [lost] is a history: the messages that will not arrive. *)
Record replicas (W : Type) := mkReplicas {
  servers : gmap Z (server W);
  wire : list Message;
  lost : list Message;
}.
Arguments mkReplicas {W} _ _ _.
Arguments servers {W} _.
Arguments wire {W} _.
Arguments lost {W} _.

Section replicas.
Context `{GrowPolicy} {W : Type} {HS : Storage W} (fuel : nat).

(** What a turn of the loop puts on the wire. *)
Definition new_messages (n n' : RaftNode.Node W) : list Message :=
  drop (length (n_sent n)) (n_sent n').

(** What a turn throws away: messages to no peer, and a message whose handling
    returns an error, which is only logged. *)
Definition discarded (c : choice) (n : RaftNode.Node W) : list Message :=
  match callReady (n_raft n), c with
  | Ok (Some r), ChProp ord =>
      match n_propc n with
      | m :: _ => match Step ord m r with Err _ => filter (fun m => msg_To m <> 0) [m] | _ => [] end
      | [] => []
      end
  | Ok (Some r), ChReady _ =>
      from_option (fun rd => filter (fun m => ~ (msg_To m <> 0 /\ msg_To m ∈ n_members n)) (ready_messages rd))
        [] (readyc r)
  | _, _ => []
  end.

(** The order in which a turn ranges over the peers. *)
Definition turn_order (c : choice) (r : Raft) : Prop :=
  match c with ChProp ord | ChTick ord => range_order r ord | _ => True end.

(** What the environment may do: repeat a message, give a turn to a server, and
    put at a server. *)
Record discipline := mkDiscipline {
  may_repeat : Prop;
  may_turn : replicas W -> Z -> choice -> Prop;
  may_put : Z -> Prop;
}.

Definition with_node (id : Z) (sv : server W) (n : RaftNode.Node W) (s : replicas W) : gmap Z (server W) :=
  <[id := mkServer n (sv_world sv)]> (servers s).

Inductive rep_step (d : discipline) (s : replicas W) : replicas W -> Prop :=
  | rep_deliver m rest sv n' :
      wire s ≡ₚ m :: rest -> servers s !! msg_To m = Some sv -> stepSM m (sv_node sv) = Some n' ->
      rep_step d s (mkReplicas (with_node (msg_To m) sv n' s) rest (lost s))
  | rep_repeat m sv n' :
      may_repeat d -> m ∈ wire s -> servers s !! msg_To m = Some sv -> stepSM m (sv_node sv) = Some n' ->
      rep_step d s (mkReplicas (with_node (msg_To m) sv n' s) (wire s) (lost s))
  | rep_lose m rest :
      wire s ≡ₚ m :: rest -> rep_step d s (mkReplicas (servers s) rest (m :: lost s))
  | rep_tick id sv :
      servers s !! id = Some sv ->
      rep_step d s (mkReplicas (with_node id sv (node_Tick (sv_node sv)) s) (wire s) (lost s))
  | rep_turn id sv c n' :
      servers s !! id = Some sv -> may_turn d s id c -> turn_order c (n_raft (sv_node sv)) ->
      run_turn c (sv_node sv) = Ok (Some n') ->
      rep_step d s (mkReplicas (with_node id sv n' s) (wire s ++ new_messages (sv_node sv) n')
                      (discarded c (sv_node sv) ++ lost s))
  | rep_db id sv ev w' :
      servers s !! id = Some sv -> internal ev -> event_ok ev (sv_world sv) ->
      world_step fuel ev (sv_world sv) = Ok (Some w') ->
      rep_step d s (mkReplicas (<[id := mkServer (sv_node sv) w']> (servers s)) (wire s) (lost s))
  | rep_put id sv key val c m db' n' :
      servers s !! id = Some sv -> may_put d id -> Put_propose key val (w_db (sv_world sv)) = (c, m, db') ->
      stepSM m (sv_node sv) = Some n' \/ n' = sv_node sv ->
      rep_step d s (mkReplicas
        (<[id := mkServer n' (mkWorld db' (w_hist (sv_world sv) ++ [Called c]))]> (servers s)) (wire s) (lost s))
  | rep_apply id sv ap n' w' :
      servers s !! id = Some sv -> receive_apply (sv_node sv) = Some (ap, n') ->
      world_step fuel (DbRecv ap) (sv_world sv) = Ok (Some w') ->
      rep_step d s (mkReplicas (<[id := mkServer n' w']> (servers s)) (wire s) (lost s)).

(** ** The bare cluster *)

Definition rafts (s : replicas W) : gmap Z Raft := (fun sv => n_raft (sv_node sv)) <$> servers s.

(** The queued messages that came from the network; a proposal is addressed to
    no one. *)
Definition inbox (sv : server W) : list Message := filter (fun m => msg_To m <> 0) (n_propc (sv_node sv)).

Definition under_way (s : replicas W) : list Message :=
  wire s ++ lost s ++ (map_to_list (servers s) ≫= fun kv => inbox kv.2).

Definition bare (s : replicas W) : cluster := mkCluster (rafts s) (under_way s).

(** Where messages may be: the wire carries none to nobody, and a queue holds
    what was sent to its node and proposals of clients that may put there. *)
Record sorted (d : discipline) (s : replicas W) : Prop := {
  so_wire m : m ∈ wire s -> msg_To m <> 0;
  so_queue id sv m : servers s !! id = Some sv -> m ∈ n_propc (sv_node sv) ->
    (msg_To m = id /\ msg_To m <> 0) \/ (may_put d id /\ exists c, m = proposal c);
}.

Lemma rafts_insert s id sv w l :
  rafts (mkReplicas (<[id := sv]> (servers s)) w l) = <[id := n_raft (sv_node sv)]> (rafts s).
Proof. unfold rafts. cbn [servers]. by rewrite fmap_insert. Qed.

Lemma rafts_same s id sv sv' w l :
  servers s !! id = Some sv -> n_raft (sv_node sv') = n_raft (sv_node sv) ->
  rafts (mkReplicas (<[id := sv']> (servers s)) w l) = rafts s.
Proof.
  intros Hs E. rewrite rafts_insert, E. apply insert_id. unfold rafts. by rewrite lookup_fmap, Hs.
Qed.

Lemma rafts_lookup s id sv : servers s !! id = Some sv -> rafts s !! id = Some (n_raft (sv_node sv)).
Proof. intros Hs. unfold rafts. by rewrite lookup_fmap, Hs. Qed.

(** One server apart from the others. *)
Lemma under_way_split s id sv :
  servers s !! id = Some sv ->
  exists rest, under_way s ≡ₚ wire s ++ lost s ++ inbox sv ++ rest /\
    forall sv' w l, under_way (mkReplicas (<[id := sv']> (servers s)) w l) ≡ₚ w ++ l ++ inbox sv' ++ rest.
Proof.
  intros Hs. destruct (map_bind_split (servers s) id sv inbox Hs) as (rest & E & E').
  exists rest. unfold under_way. cbn [wire lost servers]. split; [by rewrite E|].
  intros sv' w l. by rewrite E'.
Qed.

(** ** A turn *)

Lemma run_turn_cases c (n n' : RaftNode.Node W) :
  run_turn c n = Ok (Some n') ->
  exists r1, callReady (n_raft n) = Ok (Some r1) /\ n_members n' = n_members n /\
    match c with
    | ChProp ord => exists m, n_propc n = m :: n_propc n' /\
        log_err r1 (Step ord m r1) = Ok (n_raft n') /\ n_sent n' = n_sent n
    | ChReady _ => exists rd, readyc r1 = Some rd /\ n_raft n' = consumeReady r1 /\
        n_propc n' = n_propc n /\ n_sent n' = n_sent n ++ send n (ready_messages rd)
    | ChTick ord => Tick ord r1 = Ok (n_raft n') /\ n_propc n' = n_propc n /\ n_sent n' = n_sent n
    | ChDefault => n_raft n' = r1 /\ n_propc n' = n_propc n /\ n_sent n' = n_sent n
    end.
Proof.
  unfold run_turn. intros ([r1|] & Hc & Ht)%bind_Ok_inv; [|done]. exists r1. split; [done|].
  destruct c as [ord|ds|ord|]; cbn [run_case set_n_raft n_propc n_raft n_tickc n_members] in Ht.
  - destruct (n_propc n) as [|m rest]; [done|]. apply bind_Ok_inv in Ht as (r' & Hs & [= <-]).
    cbn. split; [done|]. by exists m.
  - destruct (readyc r1) as [rd|] eqn:Erd; [|done]. unfold processReady in Ht.
    apply bind_Ok_inv in Ht as (wal & Hw & Ht). cbv zeta in Ht.
    assert (Hsend : n_sent n ++ send (set_n_raft r1 n) (rd_Messages rd) ++ send (set_n_raft r1 n) (rd_MessagesAfterAppend rd)
      = n_sent n ++ send n (ready_messages rd)).
    { unfold send, ready_messages. by rewrite filter_app. }
    destruct (rd_CommittedEntries rd); [|destruct (_ <? _)%nat; [|done]]; injection Ht as <-;
      (split; [done|]; exists rd; split_and!; [done|done|done|exact Hsend]).
  - destruct (n_tickc n) as [|k]; [done|]. apply bind_Ok_inv in Ht as (r' & Hs & [= <-]). by cbn.
  - destruct (n_propc n) eqn:Ep, (readyc r1), (n_tickc n); try done. injection Ht as <-. by split_and!.
Qed.

(** ** What stays in place *)

Lemma stepSM_queue m (n n' : RaftNode.Node W) :
  stepSM m n = Some n' -> n_raft n' = n_raft n /\ n_propc n' = n_propc n ++ [m].
Proof. unfold stepSM. destruct (_ <? _)%nat; [|done]. by intros [= <-]. Qed.

Lemma node_Tick_queue (n : RaftNode.Node W) :
  n_raft (node_Tick n) = n_raft n /\ n_propc (node_Tick n) = n_propc n.
Proof. unfold node_Tick. by destruct (_ <? _)%nat. Qed.

Lemma receive_queue (n n' : RaftNode.Node W) ap :
  receive_apply n = Some (ap, n') -> n_raft n' = n_raft n /\ n_propc n' = n_propc n.
Proof. unfold receive_apply. destruct (n_applyc n); [done|]. by intros [= <- <-]. Qed.

Lemma put_queue key val db c m db' :
  Put_propose key val db = (c, m, db') -> exists x, m = proposal x.
Proof.
  unfold Put_propose. destruct (Next _) as [id g], (waiter_Register _ _ _) as [ch x]. intros [= _ <- _]. eauto.
Qed.

Lemma sorted_update d s id sv sv' w l :
  sorted d s -> servers s !! id = Some sv ->
  (forall m, m ∈ w -> m ∈ wire s \/ msg_To m <> 0) ->
  (forall m, m ∈ n_propc (sv_node sv') -> m ∈ n_propc (sv_node sv) \/ (msg_To m = id /\ msg_To m <> 0) \/
    (may_put d id /\ exists c, m = proposal c)) ->
  sorted d (mkReplicas (<[id := sv']> (servers s)) w l).
Proof.
  intros [Hw Hq] Hs Hw' Hq'. split; cbn [wire servers].
  - intros m Hm. destruct (Hw' m Hm); auto.
  - intros i x m. destruct (decide (i = id)) as [->|Hne].
    + rewrite lookup_insert_eq. intros [= <-] Hm. destruct (Hq' m Hm); [by eapply Hq|done].
    + rewrite lookup_insert_ne by done. apply Hq.
Qed.

Lemma sorted_step d s s' : sorted d s -> rep_step d s s' -> sorted d s'.
Proof.
  intros Hso Hs. pose proof Hso as [Hw Hq].
  destruct Hs as [m rest sv n' Hp Hsv Hm|m sv n' Hrep Hm Hsv Hn|m rest Hp|id sv Hsv|id sv c n' Hsv Hmay Hord Ht
    |id sv ev w' Hsv|id sv key val c m db' n' Hsv Hput Hc Hn|id sv ap n' w' Hsv Hap].
  - destruct (stepSM_queue _ _ _ Hm) as [_ Eq]. eapply sorted_update; [done..| |]; cbn [sv_node].
    + intros x Hx. left. rewrite Hp. by right.
    + intros x. rewrite Eq, elem_of_app, list_elem_of_singleton. intros [?| ->]; [by left|right; left].
      split; [done|]. apply Hw. rewrite Hp. by left.
  - destruct (stepSM_queue _ _ _ Hn) as [_ Eq]. eapply sorted_update; [done..| |]; cbn [sv_node]; [by left|].
    intros x. rewrite Eq, elem_of_app, list_elem_of_singleton. intros [?| ->]; [by left|right; left].
    split; [done|by apply Hw].
  - split; cbn [wire servers]; [|done]. intros x Hx. apply Hw. rewrite Hp. by right.
  - eapply sorted_update; [done..| |]; [by left|]. cbn [sv_node].
    rewrite (proj2 (node_Tick_queue _)). by left.
  - destruct (run_turn_cases _ _ _ Ht) as (r1 & _ & _ & Hc). eapply sorted_update; [done..| |]; cbn [sv_node].
    + intros x [Hx|Hx]%elem_of_app; [by left|right]. unfold new_messages in Hx.
      destruct c as [ord|ds|ord|].
      * destruct Hc as (m & _ & _ & E). rewrite E, drop_all in Hx. by apply not_elem_of_nil in Hx.
      * destruct Hc as (rd & _ & _ & _ & E). rewrite E, drop_app_length in Hx.
        by apply list_elem_of_filter in Hx as [[? _] _].
      * destruct Hc as (_ & _ & E). rewrite E, drop_all in Hx. by apply not_elem_of_nil in Hx.
      * destruct Hc as (_ & _ & E). rewrite E, drop_all in Hx. by apply not_elem_of_nil in Hx.
    + intros x Hx. left. destruct c as [ord|ds|ord|].
      * destruct Hc as (m & -> & _). by right.
      * by destruct Hc as (rd & _ & _ & <- & _).
      * by destruct Hc as (_ & <- & _).
      * by destruct Hc as (_ & <- & _).
  - eapply sorted_update; [done..| |]; by left.
  - eapply sorted_update; [done..| |]; [by left|]. cbn [sv_node]. intros x Hx.
    destruct Hn as [Hn| ->]; [|by left]. destruct (stepSM_queue _ _ _ Hn) as [_ Eq].
    rewrite Eq, elem_of_app, list_elem_of_singleton in Hx. destruct Hx as [?| ->]; [by left|].
    right; right. split; [done|]. by eapply put_queue.
  - eapply sorted_update; [done..| |]; [by left|]. cbn [sv_node].
    destruct (receive_queue _ _ _ Hap) as [_ ->]. by left.
Qed.

(** ** The servers make the steps of the bare nodes *)

(** The network of [Cluster.v] keeps all messages, those taken included. *)
Record follows (s : replicas W) (c : cluster) : Prop := {
  fl_nodes : nodes c = rafts s;
  fl_wire : wire s ⊆ net c;
  fl_queue id sv m : servers s !! id = Some sv -> m ∈ n_propc (sv_node sv) -> msg_To m <> 0 -> m ∈ net c;
}.

Lemma follows_update s c id sv sv' w l c' :
  follows s c -> servers s !! id = Some sv ->
  nodes c' = <[id := n_raft (sv_node sv')]> (nodes c) -> net c ⊆ net c' -> w ⊆ net c' ->
  (forall m, m ∈ n_propc (sv_node sv') -> msg_To m <> 0 -> m ∈ n_propc (sv_node sv) \/ m ∈ net c') ->
  follows (mkReplicas (<[id := sv']> (servers s)) w l) c'.
Proof.
  intros [Hn Hw Hq] Hs En Hnet Hw' Hq'. split; cbn [wire servers].
  - by rewrite rafts_insert, En, Hn.
  - done.
  - intros i x m. destruct (decide (i = id)) as [->|Hne].
    + rewrite lookup_insert_eq. intros [= <-] Hm Hto. destruct (Hq' m Hm Hto); [|done]. eapply Hnet, Hq; done.
    + rewrite lookup_insert_ne by done. intros Hx Hm Hto. by eapply Hnet, Hq.
Qed.

(** A step in which no node does anything but queue a message. *)
Lemma follows_idle s c id sv sv' w l :
  follows s c -> servers s !! id = Some sv -> n_raft (sv_node sv') = n_raft (sv_node sv) -> w ⊆ net c ->
  (forall m, m ∈ n_propc (sv_node sv') -> msg_To m <> 0 -> m ∈ n_propc (sv_node sv) \/ m ∈ net c) ->
  follows (mkReplicas (<[id := sv']> (servers s)) w l) c.
Proof.
  intros Hf Hs E Hw Hq. eapply follows_update; try done. rewrite E, insert_id; [done|].
  rewrite (fl_nodes _ _ Hf). by apply rafts_lookup.
Qed.

(** The turn of a server: [Ready] first, and one step more at most. *)
Lemma turn_cluster d s c id sv ch n' :
  sorted d s -> follows s c -> servers s !! id = Some sv -> turn_order ch (n_raft (sv_node sv)) ->
  run_turn ch (sv_node sv) = Ok (Some n') ->
  exists k c', (k <= 2)%nat /\ nsteps cluster_step k c c' /\
    follows (mkReplicas (with_node id sv n' s) (wire s ++ new_messages (sv_node sv) n')
      (discarded ch (sv_node sv) ++ lost s)) c'.
Proof.
  intros Hso Hf Hsv Hord Ht. destruct (run_turn_cases _ _ _ Ht) as (r1 & Hr1 & _ & Hc).
  pose proof (rafts_lookup _ _ _ Hsv) as Hr. rewrite <- (fl_nodes _ _ Hf) in Hr.
  assert (Hp1 : peers r1 = peers (n_raft (sv_node sv))).
  { unfold callReady in Hr1. destruct (hasReady _); [|by injection Hr1 as <-].
    apply bind_Ok_inv in Hr1 as (rd & _ & Hr1). cbv zeta in Hr1.
    destruct (readyc _); [done|]. by injection Hr1 as <-. }
  set (c1 := mkCluster (<[id := r1]> (nodes c)) (net c)).
  assert (S1 : cluster_step c c1) by by eapply cs_ready.
  assert (L1 : nodes c1 !! id = Some r1) by apply lookup_insert_eq.
  assert (Hset : forall r', <[id := r']> (nodes c1) = <[id := r']> (nodes c)) by (intros; apply insert_insert_eq).
  pose proof (fl_wire _ _ Hf) as Hw.
  destruct ch as [ord|ds|ord|]; unfold new_messages; cbn [turn_order] in Hord.
  - destruct Hc as (m & Eq & Hs & E). rewrite E, drop_all, app_nil_r.
    assert (Hrest : forall c', net c ⊆ net c' -> nodes c' = <[id := n_raft n']> (nodes c) ->
      follows (mkReplicas (with_node id sv n' s) (wire s) (discarded (ChProp ord) (sv_node sv) ++ lost s)) c').
    { intros c' Hn Ec. eapply follows_update; [done|done|done|done|set_solver|]. cbn [sv_node].
      intros x Hx _. left. rewrite Eq. by right. }
    destruct (Step ord m r1) as [r'|e|p] eqn:Es; [|injection Hs as Er'|done].
    + injection Hs as Er'. subst r'. set (c2 := mkCluster (<[id := n_raft n']> (nodes c1)) (net c)).
      exists 2%nat, c2. split; [done|]. split; [|apply Hrest; [done|apply Hset]].
      apply (nsteps_l _ _ _ c1); [done|]. apply (nsteps_l _ _ _ c2); [|constructor].
      unfold range_order in Hord. rewrite <- Hp1 in Hord.
      destruct (so_queue _ _ Hso id sv m Hsv ltac:(rewrite Eq; by left)) as [[Hto Hto0]|[_ [x ->]]].
      * apply (cs_deliver c1 id r1 m ord); try done.
        apply (fl_queue _ _ Hf id sv); [done|rewrite Eq; by left|done].
      * by apply (cs_propose c1 id r1 x ord).
    + exists 1%nat, c1. split; [lia|]. split; [by apply nsteps_once|]. apply Hrest; [done|]. by subst r1.
  - destruct Hc as (rd & Erd & Er' & Eq & E). rewrite E, drop_app_length.
    set (c2 := mkCluster (<[id := consumeReady r1]> (nodes c1)) (net c ++ ready_messages rd)).
    exists 2%nat, c2. split; [done|]. split.
    + apply (nsteps_l _ _ _ c1); [done|]. apply (nsteps_l _ _ _ c2); [|constructor]. by eapply (cs_send c1).
    + eapply follows_update; [done|done| | | |]; cbn [nodes net c2 sv_node].
      * by rewrite Hset, Er'.
      * set_solver.
      * intros x [Hx|Hx]%elem_of_app; apply elem_of_app; [left; by apply Hw|right; by eapply send_elem].
      * rewrite Eq. by left.
  - destruct Hc as (Htick & Eq & E). rewrite E, drop_all, app_nil_r.
    set (c2 := mkCluster (<[id := n_raft n']> (nodes c1)) (net c)). exists 2%nat, c2. split; [done|]. split.
    + apply (nsteps_l _ _ _ c1); [done|]. apply (nsteps_l _ _ _ c2); [|constructor].
      apply (cs_tick c1 id r1 ord); [done| |done]. unfold range_order. by rewrite Hp1.
    + eapply follows_update; [done|done|apply Hset|done|done|]. cbn [sv_node]. rewrite Eq. by left.
  - destruct Hc as (Er' & Eq & E). rewrite E, drop_all, app_nil_r. exists 1%nat, c1. split; [lia|].
    split; [by apply nsteps_once|].
    eapply follows_update; [done|done| |done|done|]; cbn [sv_node nodes c1].
    + by rewrite Er'.
    + rewrite Eq. by left.
Qed.

Lemma rep_step_cluster d s s' c :
  sorted d s -> follows s c -> rep_step d s s' ->
  exists k c', (k <= 2)%nat /\ nsteps cluster_step k c c' /\ follows s' c'.
Proof.
  intros Hso Hf Hs. pose proof Hf as [Hn Hw Hq].
  assert (Hidle : forall s', follows s' c -> exists k c', (k <= 2)%nat /\ nsteps cluster_step k c c' /\ follows s' c').
  { intros x Hx. exists 0%nat, c. split; [lia|]. split; [constructor|done]. }
  assert (Hqueue : forall id sv n' m w l, servers s !! id = Some sv -> stepSM m (sv_node sv) = Some n' ->
    m ∈ net c \/ msg_To m = 0 -> w ⊆ net c -> forall w', follows (mkReplicas (<[id := mkServer n' w']> (servers s)) w l) c).
  { intros id sv n' m w l Hsv Hm Hin Hw' w'. destruct (stepSM_queue _ _ _ Hm) as [Er Eq].
    eapply follows_idle; [done|done|done|done|]. cbn [sv_node]. intros x.
    rewrite Eq, elem_of_app, list_elem_of_singleton. intros [?| ->]; [by left|]. destruct Hin; [by right|done]. }
  destruct Hs as [m rest sv n' Hp Hsv Hm|m sv n' _ Hm Hsv Hn'|m rest Hp|id sv Hsv|id sv ch n' Hsv _ Hord Ht
    |id sv ev w' Hsv|id sv key val x m db' n' Hsv _ Hc Hn'|id sv ap n' w' Hsv Hap].
  - apply Hidle, (Hqueue _ sv _ m); [done|done| |].
    + left. apply Hw. rewrite Hp. by left.
    + intros y Hy. apply Hw. rewrite Hp. by right.
  - apply Hidle, (Hqueue _ sv _ m); [done|done|left; by apply Hw|done].
  - apply Hidle. split; cbn [wire servers]; [done| |done]. intros y Hy. apply Hw. rewrite Hp. by right.
  - apply Hidle. destruct (node_Tick_queue (sv_node sv)) as [Er Eq].
    eapply follows_idle; [done|done|done|done|]. cbn [sv_node]. rewrite Eq. by left.
  - by eapply turn_cluster.
  - apply Hidle. eapply follows_idle; [done|done|done|done|]. by left.
  - apply Hidle. destruct Hn' as [Hn'| ->].
    + eapply (Hqueue id sv _ m); [done|done| |done]. right. by destruct (put_queue _ _ _ _ _ _ Hc) as [y ->].
    + eapply follows_idle; [done|done|done|done|]. by left.
  - apply Hidle. destruct (receive_queue _ _ _ Hap) as [Er Eq].
    eapply follows_idle; [done|done|done|done|]. cbn [sv_node]. rewrite Eq. by left.
Qed.

Lemma rep_run_cluster d n s s' c :
  nsteps (rep_step d) n s s' -> sorted d s -> follows s c ->
  exists k c', (k <= 2 * n)%nat /\ nsteps cluster_step k c c' /\ follows s' c'.
Proof.
  intros Hrun. revert c. induction Hrun as [s|n s s1 s' Hs _ IH]; intros c Hso Hf.
  - exists 0%nat, c. split; [lia|]. split; [constructor|done].
  - destruct (rep_step_cluster d s s1 c Hso Hf Hs) as (k1 & c1 & Hk1 & Hc1 & Hf1).
    destruct (IH c1 (sorted_step d s s1 Hso Hs) Hf1) as (k & c' & Hk & Hc & Hf').
    exists (k1 + k)%nat, c'. split; [lia|]. split; [by eapply nsteps_trans|done].
Qed.

(** ** From start-up *)

(** The servers of a new cluster: each with its own write-ahead log and
    database, and nothing sent. *)
Definition new_node (ids : list Z) (wal : Z -> W) (id : Z) : RaftNode.Node W :=
  bootstrapRaftNode id (filter (fun p => p <> id) ids) (wal id).

Definition boot (ids : list Z) (wal : Z -> W) (db : Z -> world) : replicas W :=
  mkReplicas (list_to_map ((fun id => (id, mkServer (new_node ids wal id) (db id))) <$> ids)) [] [].

Lemma boot_server ids wal db id sv :
  servers (boot ids wal db) !! id = Some sv -> sv = mkServer (new_node ids wal id) (db id).
Proof.
  intros (x & [= <- <-] & _)%elem_of_list_to_map_2%list_elem_of_fmap. done.
Qed.

Lemma boot_sorted d ids wal db : sorted d (boot ids wal db).
Proof.
  split; cbn [wire boot].
  - intros m Hm. by apply not_elem_of_nil in Hm.
  - intros id sv m ->%boot_server Hm. by apply not_elem_of_nil in Hm.
Qed.

Lemma boot_follows ids wal db : follows (boot ids wal db) (init_cluster ids).
Proof.
  split; [|done|].
  - unfold rafts, boot, init_cluster. cbn [servers nodes]. rewrite <- list_to_map_fmap. f_equal.
    by rewrite <- list_fmap_compose.
  - intros id sv m ->%boot_server Hm. by apply not_elem_of_nil in Hm.
Qed.

(** C4: election safety of the servers.  From start-up, whatever the servers,
    their databases, the clients and the network do, messages being lost,
    repeated and overtaken, and queues being full, two servers that lead in the
    same term are the same. *)
Theorem servers_election_safety d ids wal db n s id1 id2 sv1 sv2 :
  NoDup ids -> 2 * Z.of_nat n < 2 ^ 63 -> nsteps (rep_step d) n (boot ids wal db) s ->
  servers s !! id1 = Some sv1 -> servers s !! id2 = Some sv2 ->
  let r1 := n_raft (sv_node sv1) in
  let r2 := n_raft (sv_node sv2) in
  state r1 = StateLeader -> state r2 = StateLeader -> currentTerm r1 = currentTerm r2 -> id1 = id2.
Proof.
  intros Hnd Hn Hrun H1 H2 r1 r2.
  destruct (rep_run_cluster d n _ _ _ Hrun (boot_sorted d ids wal db) (boot_follows ids wal db))
    as (k & c & Hk & Hc & Hf).
  apply (one_leader (Z.of_nat k) c).
  - apply (cluster_run_inv ids); [done|lia|done].
  - rewrite (fl_nodes _ _ Hf). by apply rafts_lookup.
  - rewrite (fl_nodes _ _ Hf). by apply rafts_lookup.
Qed.

(** ** Each server makes the steps of [System.v] *)

Lemma server_step_at s id sv sv' w l i x' :
  servers s !! id = Some sv -> server_step fuel sv sv' ->
  servers (mkReplicas (<[id := sv']> (servers s)) w l) !! i = Some x' ->
  exists x, servers s !! i = Some x /\ rtc (server_step fuel) x x'.
Proof.
  cbn [servers]. intros Hs Hstep. destruct (decide (i = id)) as [->|Hne].
  - rewrite lookup_insert_eq. intros [= <-]. exists sv. split; [done|by apply rtc_once].
  - rewrite lookup_insert_ne by done. intros Hx. by exists x'.
Qed.

Lemma rep_step_server d s s' id sv' :
  rep_step d s s' -> (forall i r, rafts s' !! i = Some r -> wf_log (r_raftLog r)) ->
  servers s' !! id = Some sv' ->
  exists sv, servers s !! id = Some sv /\ rtc (server_step fuel) sv sv'.
Proof.
  intros Hs Hwf.
  assert (Hnode : forall i x n' w l, servers s !! i = Some x ->
    s' = mkReplicas (with_node i x n' s) w l ->
    (exists m, stepSM m (sv_node x) = Some n') \/ n' = node_Tick (sv_node x) \/
      (exists c, run_turn c (sv_node x) = Ok (Some n')) ->
    servers s' !! id = Some sv' -> exists sv, servers s !! id = Some sv /\ rtc (server_step fuel) sv sv').
  { intros i x n' w l Hx -> Hn. apply server_step_at with x; [done|]. apply sv_node_step. split; [done|].
    apply (Hwf i). unfold with_node. rewrite rafts_insert. apply lookup_insert_eq. }
  destruct Hs as [m rest sv n' Hp Hsv Hn|m sv n' _ _ Hsv Hn|m rest Hp|i sv Hsv|i sv ch n' Hsv Hmay Hord Ht
    |i sv ev w' Hsv Hin Hev E|i sv key val x m db' n' Hsv Hput Hc Hn|i sv ap n' w' Hsv Hap E].
  - eapply Hnode; [done|done|eauto].
  - eapply Hnode; [done|done|eauto].
  - cbn [servers]. intros Hx. by exists sv'.
  - eapply Hnode; [done|done|eauto].
  - eapply Hnode; [done|done|eauto].
  - eapply server_step_at; [done|]. by eapply sv_db_step.
  - eapply server_step_at; [done|]. by eapply sv_put.
  - eapply server_step_at; [done|]. by eapply sv_apply.
Qed.

End replicas.

(** ** Runs *)

#[local] Existing Instance doubling.

Inductive rep_event :=
  | ReDeliver (i : nat)
  | ReLose (i : nat)
  | ReTick (id : Z)
  | ReTurn (id : Z) (c : choice)
  | ReDb (id : Z) (ev : db_event)
  | RePut (id : Z) (key val : list Byte.byte)
  | ReApply (id : Z).

Section runs.
Context {W : Type} {HS : Storage W}.

(** Peers in the order of the set. *)
Definition ranged (c : choice) (r : Raft) : choice :=
  match c with
  | ChProp _ => ChProp (elements (peers r))
  | ChTick _ => ChTick (elements (peers r))
  | _ => c
  end.

Lemma ranged_order c r : turn_order (ranged c r) r.
Proof. destruct c; cbn; done || apply default_order. Qed.

Definition exec_rep (e : rep_event) (s : replicas W) : option (replicas W) :=
  match e with
  | ReDeliver i =>
      m ← wire s !! i; sv ← servers s !! msg_To m; n ← stepSM m (sv_node sv);
      Some (mkReplicas (with_node (msg_To m) sv n s) (take i (wire s) ++ drop (S i) (wire s)) (lost s))
  | ReLose i =>
      m ← wire s !! i; Some (mkReplicas (servers s) (take i (wire s) ++ drop (S i) (wire s)) (m :: lost s))
  | ReTick id =>
      sv ← servers s !! id; Some (mkReplicas (with_node id sv (node_Tick (sv_node sv)) s) (wire s) (lost s))
  | ReTurn id c =>
      sv ← servers s !! id;
      let c := ranged c (n_raft (sv_node sv)) in
      match run_turn c (sv_node sv) with
      | Ok (Some n) =>
          Some (mkReplicas (with_node id sv n s) (wire s ++ new_messages (sv_node sv) n)
            (discarded c (sv_node sv) ++ lost s))
      | _ => None
      end
  | ReDb id ev =>
      sv ← servers s !! id;
      sv' ← exec_server (SeDb ev) sv;
      Some (mkReplicas (<[id := mkServer (sv_node sv) (sv_world sv')]> (servers s)) (wire s) (lost s))
  | RePut id key val =>
      sv ← servers s !! id;
      sv' ← exec_server (SePut key val) sv;
      Some (mkReplicas (<[id := sv']> (servers s)) (wire s) (lost s))
  | ReApply id =>
      sv ← servers s !! id;
      sv' ← exec_server SeApply sv;
      Some (mkReplicas (<[id := sv']> (servers s)) (wire s) (lost s))
  end.

(** What a discipline has to allow for an event. *)
Definition allowed (d : discipline) (s : replicas W) (e : rep_event) : Prop :=
  match e with
  | ReTurn id c => forall sv, servers s !! id = Some sv -> may_turn d s id (ranged c (n_raft (sv_node sv)))
  | RePut id _ _ => may_put d id
  | _ => True
  end.

Lemma taken_out (l : list Message) i m : l !! i = Some m -> l ≡ₚ m :: take i l ++ drop (S i) l.
Proof. intros H. rewrite <- (take_drop_middle l i m H) at 1. by rewrite <- Permutation_middle. Qed.

Lemma exec_rep_sound d e s s' : allowed d s e -> exec_rep e s = Some s' -> rep_step 2 d s s'.
Proof.
  destruct e as [i|i|id|id c|id ev|id key val|id]; cbn [exec_rep allowed]; intros Hd H.
  - apply bind_Some in H as (m & Hm & (sv & Hsv & (n & Hn & [= <-])%bind_Some)%bind_Some).
    by apply rep_deliver; [apply taken_out| |].
  - apply bind_Some in H as (m & Hm & [= <-]). by apply rep_lose, taken_out.
  - apply bind_Some in H as (sv & Hsv & [= <-]). by apply rep_tick.
  - apply bind_Some in H as (sv & Hsv & H). cbv zeta in H.
    destruct (run_turn _ _) as [[n|]| |] eqn:E; try done. injection H as <-.
    apply rep_turn; [done|by apply Hd|apply ranged_order|done].
  - apply bind_Some in H as (sv & Hsv & (sv' & Hs & [= <-])%bind_Some). cbn [exec_server] in Hs.
    destruct (is_internal ev) eqn:Ei; [|done].
    destruct (world_step _ _ _) as [[w|]| |] eqn:E; try done. injection Hs as <-.
    apply (rep_db _ _ _ _ _ (in_order ev (sv_world sv))); [done|by destruct ev|apply in_order_ok|done].
  - apply bind_Some in H as (sv & Hsv & (sv' & Hs & [= <-])%bind_Some). cbn [exec_server] in Hs.
    destruct (Put_propose _ _ _) as [[x m] db] eqn:E. apply bind_Some in Hs as (n & Hn & [= <-]).
    eapply rep_put; [done|done|exact E|by left].
  - apply bind_Some in H as (sv & Hsv & (sv' & Hs & [= <-])%bind_Some). cbn [exec_server] in Hs.
    apply bind_Some in Hs as ([ap n] & Hn & Hs).
    destruct (world_step _ _ _) as [[w|]| |] eqn:E; try done. injection Hs as <-. by eapply rep_apply.
Qed.

(** Runs the events that [ok] admits, and checks the logs of every state. *)
Definition logs_wfb (s : replicas W) : bool := forallb (fun kr => wf_logb (r_raftLog kr.2)) (map_to_list (rafts s)).

Fixpoint exec_reps (ok : replicas W -> rep_event -> bool) (es : list rep_event) (s : replicas W) : option (replicas W) :=
  match es with
  | [] => Some s
  | e :: es =>
      s' ← if ok s e then exec_rep e s else None;
      if logs_wfb s' then exec_reps ok es s' else None
  end.

Lemma logs_wfb_sound s i r : logs_wfb s = true -> rafts s !! i = Some r -> wf_log (r_raftLog r).
Proof.
  intros Hs Hr. apply wf_logb_sound. unfold logs_wfb in Hs. rewrite forallb_forall in Hs.
  apply (Hs (i, r)), list_elem_of_In. by apply elem_of_map_to_list.
Qed.

Lemma exec_reps_sound d ok es s s' :
  (forall s e, ok s e = true -> allowed d s e) -> exec_reps ok es s = Some s' ->
  nsteps (rep_step 2 d) (length es) s s' /\
  forall id sv', servers s' !! id = Some sv' ->
    exists sv, servers s !! id = Some sv /\ rtc (server_step 2) sv sv'.
Proof.
  intros Hok. revert s. induction es as [|e es IH]; intros s; cbn [exec_reps length].
  - intros [= <-]. split; [constructor|]. intros id sv' Hsv. by exists sv'.
  - intros (s1 & H1 & H2)%bind_Some. destruct (ok s e) eqn:Eok; [|done].
    destruct (logs_wfb s1) eqn:Ewf; [|done]. destruct (IH s1 H2) as [Hrun Hsv].
    apply (exec_rep_sound d) in H1; [|by apply Hok]. split; [by apply (nsteps_l _ _ _ s1)|].
    intros id sv' Hid. destruct (Hsv id sv' Hid) as (sv1 & Hid1 & Hr1).
    destruct (rep_step_server 2 d s s1 id sv1 H1) as (sv & Hid0 & Hr0); [|done|].
    { intros i r. by apply logs_wfb_sound. }
    exists sv. split; [done|by etrans].
Qed.

End runs.

(** Three servers elect server 1. *)
Definition any_discipline : discipline (W := LogManager) := mkDiscipline True (fun _ _ _ => True) (fun _ => True).

Definition db_of (id : Z) : DB := match Open 2 [] [] id 1700000000000000000 fresh_wal with Ok db => db | _ => new_db end.

Definition three_servers : replicas LogManager :=
  boot [1; 2; 3] (fun _ => fresh_wal) (fun id => mkWorld (db_of id) []).

Definition receive (id : Z) (i : nat) : list rep_event := [ReDeliver i; ReTurn id (ChProp [])].

Definition electing : list rep_event :=
  concat (repeat [ReTick 1; ReTurn 1 (ChTick [])] 9) ++ [ReTurn 1 (ChReady [])] ++
  receive 3 0 ++ receive 2 0 ++ [ReTurn 2 (ChReady []); ReTurn 3 (ChReady [])] ++ receive 1 0 ++ receive 1 0.

Definition elected_servers : replicas LogManager :=
  default three_servers (exec_reps (fun _ _ => true) electing three_servers).

Lemma elected_servers_run :
  nsteps (rep_step 2 any_discipline) (length electing) three_servers elected_servers /\
  forall id sv', servers elected_servers !! id = Some sv' ->
    exists sv, servers three_servers !! id = Some sv /\ rtc (server_step 2) sv sv'.
Proof.
  apply (exec_reps_sound any_discipline (fun _ _ => true)).
  - intros s e _. by destruct e; cbn.
  - vm_compute. reflexivity.
Qed.

Example elected_roles :
  (fun r => (state r, currentTerm r)) <$> rafts elected_servers =
  {[1 := (StateLeader, 1); 2 := (StateFollower, 1); 3 := (StateFollower, 1)]}.
Proof. vm_compute. reflexivity. Qed.

Lemma servers_election_safety_witness :
  exists sv, servers elected_servers !! 1 = Some sv /\ state (n_raft (sv_node sv)) = StateLeader /\
    forall id sv', servers elected_servers !! id = Some sv' -> state (n_raft (sv_node sv')) = StateLeader ->
      currentTerm (n_raft (sv_node sv')) = 1 -> 1 = id.
Proof.
  assert (from_option (fun sv => bool_decide (state (n_raft (sv_node sv)) = StateLeader /\
    currentTerm (n_raft (sv_node sv)) = 1)) false (servers elected_servers !! 1) = true) as E by (vm_compute; reflexivity).
  destruct (servers elected_servers !! 1) as [sv|] eqn:Hsv; [|discriminate E].
  apply bool_decide_eq_true in E as [El Et]. exists sv. split; [reflexivity|]. split; [exact El|].
  intros id sv' Hsv' El' Et'.
  refine (servers_election_safety 2 any_discipline [1; 2; 3] (fun _ => fresh_wal) (fun id => mkWorld (db_of id) [])
    (length electing) elected_servers 1 id sv sv' nodup_123 _ (proj1 elected_servers_run) Hsv Hsv' El El' _).
  - vm_compute. reflexivity.
  - rewrite Et. symmetry. exact Et'.
Defined.
