(* ===== verification/OneLog.v ===== *)
(** * One log for all servers

    While one leader stays, no message arrives twice and the leader takes one
    proposal at a time ([Steady.v]), the databases of all the servers of
    [Replicas.v] read prefixes of one log, and a majority of the nodes stores
    what is committed. *)
From S2P Require Import Prelude Proto Wal RaftLog Raft Election Replication RaftNode Cluster Steady Agreement.
From S2P Require Import Keys Slice Codec Node Leaf Storage BTree TreeFrame Tree TreeMap TreeLimits Generator Wait Scheduler Replay Db DbSpec Restart System Replicas.

Local Open Scope Z_scope.

Section one_log.
Context `{GrowPolicy} {W : Type} {HS : Storage W} (fuel : nat).

(** ** One leader stays *)

(** The steps [Steady.v] asks for: no message arrives twice; clients put at the
    leader, which takes a proposal only when every append message was
    answered; no follower's election timer runs out. *)
Definition steady_discipline (L : Z) : discipline (W := W) := mkDiscipline False
  (fun s id c => forall sv, servers s !! id = Some sv ->
    match c with
    | ChProp _ => forall m, head (n_propc (sv_node sv)) = Some m -> msg_To m = 0 -> answered L (bare s)
    | ChTick _ => id <> L -> electionTick (n_raft (sv_node sv)) + 1 < randomizedTimeout (n_raft (sv_node sv))
    | _ => True
    end)
  (fun id => id = L).

(** Now the network is known message for message. *)
Record mirrors (s : replicas W) (c : cluster) : Prop := {
  mi_nodes : nodes c = rafts s;
  mi_net : net c ≡ₚ under_way s;
}.

Lemma mirrors_update s c id sv sv' w l c' rest :
  mirrors s c -> servers s !! id = Some sv ->
  (forall sv' w l, under_way (mkReplicas (<[id := sv']> (servers s)) w l) ≡ₚ w ++ l ++ inbox sv' ++ rest) ->
  nodes c' = <[id := n_raft (sv_node sv')]> (nodes c) -> net c' ≡ₚ w ++ l ++ inbox sv' ++ rest ->
  mirrors (mkReplicas (<[id := sv']> (servers s)) w l) c'.
Proof.
  intros [Hn _] Hs Hu En Hnet. split.
  - by rewrite rafts_insert, En, Hn.
  - by rewrite Hu.
Qed.

Lemma mirrors_idle s c id sv sv' w l rest :
  mirrors s c -> servers s !! id = Some sv ->
  (forall sv' w l, under_way (mkReplicas (<[id := sv']> (servers s)) w l) ≡ₚ w ++ l ++ inbox sv' ++ rest) ->
  n_raft (sv_node sv') = n_raft (sv_node sv) -> under_way s ≡ₚ w ++ l ++ inbox sv' ++ rest ->
  mirrors (mkReplicas (<[id := sv']> (servers s)) w l) c.
Proof.
  intros Hm Hs Hu E Hnet. eapply mirrors_update; [done..| |].
  - rewrite E, insert_id; [done|]. rewrite (mi_nodes _ _ Hm). by apply rafts_lookup.
  - by rewrite (mi_net _ _ Hm).
Qed.

Lemma flight_mirrors s c : mirrors s c -> flight c ≡ₚ flight (bare s).
Proof. intros [Hn Hm]. unfold flight, bare. cbn [nodes net]. by rewrite Hn, Hm. Qed.

Lemma steady_mirrors L t s c : mirrors s c -> steady L t (bare s) -> steady L t c.
Proof.
  intros Hm [rL Hat]. exists rL. rewrite (flight_mirrors s c Hm), (mi_nodes _ _ Hm). exact Hat.
Qed.

Lemma mirrors_steady L t s c : mirrors s c -> steady L t c -> steady L t (bare s).
Proof.
  intros Hm [rL Hat]. exists rL. rewrite (flight_mirrors s c Hm), (mi_nodes _ _ Hm) in Hat. exact Hat.
Qed.

Lemma answered_perm L c c' :
  dom (nodes c') = dom (nodes c) -> flight c' ≡ₚ flight c -> answered L c -> answered L c'.
Proof.
  intros Ed Ef Ha p Hp Hin. rewrite Ed in Hin. specialize (Ha p Hp Hin).
  apply Permutation_nil_r. rewrite <- Ha. by rewrite Ef.
Qed.

Lemma inbox_filter (sv : server W) m rest (n' : RaftNode.Node W) w' :
  n_propc (sv_node sv) = m :: rest -> n_propc n' = rest ->
  inbox sv = filter (fun m => msg_To m <> 0) [m] ++ inbox (mkServer n' w').
Proof. intros E E'. unfold inbox. cbn [sv_node]. rewrite E, E'. apply (filter_app _ [m]). Qed.

(** The first message of a queue: it arrives from the network, or a client
    proposes it. *)
Lemma take_message L t s c c1 id sv ord m (n' : RaftNode.Node W) r1 rest :
  sorted (steady_discipline L) s -> mirrors s c -> steady L t c ->
  c1 = mkCluster (<[id := r1]> (nodes c)) (net c) -> flight c1 ≡ₚ flight c -> range_order r1 ord ->
  servers s !! id = Some sv -> may_turn (steady_discipline L) s id (ChProp ord) ->
  callReady (n_raft (sv_node sv)) = Ok (Some r1) ->
  n_propc (sv_node sv) = m :: n_propc n' -> log_err r1 (Step ord m r1) = Ok (n_raft n') ->
  under_way s ≡ₚ wire s ++ lost s ++ inbox sv ++ rest ->
  (forall sv' w l, under_way (mkReplicas (<[id := sv']> (servers s)) w l) ≡ₚ w ++ l ++ inbox sv' ++ rest) ->
  exists c', rtc (steady_step L) c1 c' /\
    mirrors (mkReplicas (with_node id sv n' s) (wire s) (discarded (ChProp ord) (sv_node sv) ++ lost s)) c'.
Proof.
  intros Hso Hm Hst -> Hflight Hord Hsv Hmay Hr1 Eq Hstep Hu Hu'.
  set (c1 := mkCluster (<[id := r1]> (nodes c)) (net c)) in *.
  assert (L1 : nodes c1 !! id = Some r1) by apply lookup_insert_eq.
  assert (Hdom : dom (nodes c1) = dom (nodes c)).
  { cbn. apply dom_insert_lookup_L. rewrite (mi_nodes _ _ Hm), (rafts_lookup _ _ _ Hsv). by eexists. }
  pose proof (inbox_filter sv m _ n' (sv_world sv) Eq eq_refl) as Ein. set (sv' := mkServer n' (sv_world sv)) in *.
  assert (Hnet : net c1 ≡ₚ filter (fun m => msg_To m <> 0) [m] ++ wire s ++ lost s ++ inbox sv' ++ rest).
  { cbn [net c1]. rewrite (mi_net _ _ Hm), Hu, Ein. by solve_Permutation. }
  unfold discarded. rewrite Hr1, Eq.
  destruct (Step ord m r1) as [r'|e|p] eqn:Es; [injection Hstep as Er'|injection Hstep as Er'|done].
  - destruct (so_queue _ _ Hso id sv m Hsv ltac:(rewrite Eq; by left)) as [[Hto Hto0]|[Hput [x ->]]].
    + rewrite filter_cons_True in Hnet by done.
      destruct (list_elem_of_split (net c1) m) as (pre & post & Esp); [rewrite Hnet; by left|].
      exists (mkCluster (<[id := r']> (nodes c1)) (pre ++ post)). split.
      * apply rtc_once. rewrite <- Hto. apply (ss_deliver L c1 pre m post r1 ord); try done. by rewrite Hto.
      * eapply mirrors_update; [done..| |]; cbn [nodes net sv_node].
        -- cbn [c1 nodes]. by rewrite insert_insert_eq, Er'.
        -- rewrite Esp, <- Permutation_middle in Hnet. cbn in Hnet. by apply Permutation_cons_inv in Hnet.
    + cbn in Hput. subst id. exists (mkCluster (<[L := r']> (nodes c1)) (net c1)). split.
      * apply rtc_once. apply (ss_propose L c1 r1 x ord); try done.
        apply (answered_perm L (bare s)); [by rewrite Hdom, (mi_nodes _ _ Hm)|by rewrite Hflight, (flight_mirrors s c Hm)|].
        apply (Hmay sv Hsv (proposal x)); [by rewrite Eq|done].
      * eapply mirrors_update; [done..| |]; cbn [nodes net sv_node].
        -- cbn [c1 nodes]. by rewrite insert_insert_eq, Er'.
        -- exact Hnet.
  - exists c1. split; [constructor|]. eapply mirrors_update; [done..| |].
    + cbn [c1 nodes sv_node]. by rewrite Er'.
    + rewrite Hnet. by solve_Permutation.
Qed.

Lemma callReady_peers r r1 : callReady r = Ok (Some r1) ->
  peers r1 = peers r /\ electionTick r1 = electionTick r /\ randomizedTimeout r1 = randomizedTimeout r.
Proof.
  unfold callReady. destruct (hasReady _); [|by intros [= <-]].
  intros (rd & _ & Hr)%bind_Ok_inv. cbv zeta in Hr. destruct (readyc _); [done|]. by injection Hr as <-.
Qed.

Lemma turn_steady L t s c id sv ch n' :
  sorted (steady_discipline L) s -> mirrors s c -> steady L t c -> servers s !! id = Some sv ->
  may_turn (steady_discipline L) s id ch -> turn_order ch (n_raft (sv_node sv)) ->
  run_turn ch (sv_node sv) = Ok (Some n') ->
  exists c', rtc (steady_step L) c c' /\
    mirrors (mkReplicas (with_node id sv n' s) (wire s ++ new_messages (sv_node sv) n')
      (discarded ch (sv_node sv) ++ lost s)) c'.
Proof.
  intros Hso Hm Hst Hsv Hmay Hord Ht. destruct (run_turn_cases _ _ _ Ht) as (r1 & Hr1 & _ & Hc).
  destruct (under_way_split s id sv Hsv) as (rest & Hu & Hu').
  pose proof (rafts_lookup _ _ _ Hsv) as Hr. rewrite <- (mi_nodes _ _ Hm) in Hr.
  destruct (callReady_peers _ _ Hr1) as (Hp1 & Hel & Hrt).
  set (c1 := mkCluster (<[id := r1]> (nodes c)) (net c)).
  assert (S1 : steady_step L c c1) by by eapply ss_ready.
  assert (L1 : nodes c1 !! id = Some r1) by apply lookup_insert_eq.
  assert (Hset : forall r', <[id := r']> (nodes c1) = <[id := r']> (nodes c)) by (intros; apply insert_insert_eq).
  assert (Hnet : net c1 ≡ₚ wire s ++ lost s ++ inbox sv ++ rest) by by rewrite <- Hu, <- (mi_net _ _ Hm).
  destruct ch as [ord|ds|ord|]; unfold new_messages; cbn [turn_order] in Hord.
  - destruct Hc as (m & Eq & Hs & E). rewrite E, drop_all, app_nil_r.
    assert (flight c1 ≡ₚ flight c) as Hflight.
    { destruct Hst as [rL Hst]. destruct (callReady_moves _ _ (node_log _ _ _ _ _ _ _ Hst Hr) Hr1) as [_ Hout].
      unfold c1. by rewrite (flight_step c id _ r1 (flight c) [] Hr). }
    destruct (take_message L t s c c1 id sv ord m n' r1 rest) as (c' & Hc' & Hm'); try done.
    { unfold range_order. by rewrite Hp1. }
    exists c'. split; [by eapply rtc_l|done].
  - destruct Hc as (rd & Erd & Er' & Eq & E). rewrite E, drop_app_length.
    exists (mkCluster (<[id := consumeReady r1]> (nodes c1)) (net c1 ++ ready_messages rd)). split.
    + apply rtc_l with c1; [done|]. apply rtc_once. by apply (ss_send L c1).
    + eapply mirrors_update; [done..| |]; cbn [nodes net sv_node].
      * by rewrite Hset, Er'.
      * unfold discarded. rewrite Hr1, Erd. cbn [from_option]. rewrite Hnet.
        replace (inbox (mkServer n' (sv_world sv))) with (inbox sv) by (unfold inbox; cbn [sv_node]; by rewrite Eq).
        rewrite <- (filter_app_complement (fun m => msg_To m <> 0 /\ msg_To m ∈ n_members (sv_node sv)) (ready_messages rd)) at 1.
        unfold send. by solve_Permutation.
  - destruct Hc as (Htick & Eq & E). rewrite E, drop_all, app_nil_r.
    exists (mkCluster (<[id := n_raft n']> (nodes c1)) (net c1)). split.
    + apply rtc_l with c1; [done|]. apply rtc_once. apply (ss_tick L c1 id r1 ord); [done| | |done].
      * rewrite Hel, Hrt. by apply (Hmay sv Hsv).
      * unfold range_order. by rewrite Hp1.
    + eapply mirrors_update; [done..|by apply Hset|]. cbn [net]. rewrite Hnet. unfold discarded. rewrite Hr1.
      unfold inbox. cbn [sv_node]. by rewrite Eq.
  - destruct Hc as (Er' & Eq & E). rewrite E, drop_all, app_nil_r.
    exists c1. split; [by apply rtc_once|].
    eapply mirrors_update; [done..| |]; cbn [sv_node nodes c1].
    + by rewrite Er'.
    + rewrite Hnet. unfold discarded. rewrite Hr1. unfold inbox. cbn [sv_node]. by rewrite Eq.
Qed.

Lemma rep_step_steady L t s s' c :
  sorted (steady_discipline L) s -> mirrors s c -> steady L t c -> rep_step fuel (steady_discipline L) s s' ->
  exists c', rtc (steady_step L) c c' /\ mirrors s' c'.
Proof.
  intros Hso Hm Hst Hs.
  assert (Hidle : forall s', mirrors s' c -> exists c', rtc (steady_step L) c c' /\ mirrors s' c').
  { intros x Hx. by exists c. }
  assert (Hcalm : forall id sv sv', servers s !! id = Some sv -> n_raft (sv_node sv') = n_raft (sv_node sv) ->
    inbox sv' = inbox sv -> mirrors (mkReplicas (<[id := sv']> (servers s)) (wire s) (lost s)) c).
  { intros id sv sv' Hsv Er Eq. destruct (under_way_split s id sv Hsv) as (rest & Hu & Hu').
    eapply mirrors_idle; [done..|]. by rewrite Eq. }
  destruct Hs as [m rest sv n' Hp Hsv Hn|m sv n' []|m rest Hp|id sv Hsv|id sv ch n' Hsv Hmay Hord Ht
    |id sv ev w' Hsv|id sv key val x m db' n' Hsv Hput Hc Hn|id sv ap n' w' Hsv Hap].
  - apply Hidle. destruct (stepSM_queue _ _ _ Hn) as [Er Eq].
    destruct (under_way_split s _ sv Hsv) as (more & Hu & Hu'). eapply mirrors_idle; [done..|].
    assert (msg_To m <> 0) as Hto by (apply (so_wire _ _ Hso); rewrite Hp; by left).
    rewrite Hu, Hp. unfold inbox. cbn [sv_node]. rewrite Eq, filter_app, (filter_cons_True _ m []) by done.
    by solve_Permutation.
  - apply Hidle. destruct Hm as [Hn Hnet]. split; [done|]. rewrite Hnet. unfold under_way.
    cbn [wire lost servers]. rewrite Hp. by solve_Permutation.
  - apply Hidle. destruct (node_Tick_queue (sv_node sv)) as [Er Eq]. eapply Hcalm; [done|done|].
    unfold inbox. cbn [sv_node]. by rewrite Eq.
  - by eapply turn_steady.
  - apply Hidle. by eapply Hcalm.
  - apply Hidle. destruct Hn as [Hn| ->]; [|by eapply Hcalm].
    destruct (stepSM_queue _ _ _ Hn) as [Er Eq]. eapply Hcalm; [done|done|].
    destruct (put_queue _ _ _ _ _ _ Hc) as [y ->].
    unfold inbox. cbn [sv_node]. by rewrite Eq, filter_app, app_nil_r.
  - apply Hidle. destruct (receive_queue _ _ _ Hap) as [Er Eq]. eapply Hcalm; [done|done|].
    unfold inbox. cbn [sv_node]. by rewrite Eq.
Qed.

(** ** The run and its servers *)

Lemma steady_wf L t (s : replicas W) id r : steady L t (bare s) -> rafts s !! id = Some r -> wf_log (r_raftLog r).
Proof. intros [rL Hat] Hr. by eapply node_log. Qed.

Lemma rep_run_steady L t s s' :
  rtc (rep_step fuel (steady_discipline L)) s s' -> sorted (steady_discipline L) s -> steady L t (bare s) ->
  steady L t (bare s') /\
  forall id sv', servers s' !! id = Some sv' ->
    exists sv, servers s !! id = Some sv /\ rtc (server_step fuel) sv sv'.
Proof.
  induction 1 as [s|s s1 s' Hs _ IH]; intros Hso Hst.
  - split; [done|]. intros id sv' Hsv. by exists sv'.
  - destruct (rep_step_steady L t s s1 (bare s) Hso) as (c1 & Hc1 & Hm1); [done|done|done|].
    assert (steady L t (bare s1)) as Hst1.
    { eapply mirrors_steady; [done|]. by eapply steady_run_inv. }
    destruct (IH (sorted_step fuel _ _ _ Hso Hs) Hst1) as [Hst' Hrun]. split; [done|].
    intros id sv' Hsv'. destruct (Hrun id sv' Hsv') as (sv1 & Hsv1 & Hrun1).
    destruct (rep_step_server fuel _ _ _ id sv1 Hs) as (sv & Hsv & Hrun0); [|done|].
    { intros i r. by apply steady_wf with L t. }
    exists sv. split; [done|]. by etrans.
Qed.

(** ** One log *)

(** A server that was started on new files. *)
Definition started (sv : server W) : Prop :=
  exists id peerIDs wal nodeID now db,
    Open fuel [] [] nodeID now wal = Ok db /\
    rtc (server_step fuel) (mkServer (bootstrapRaftNode id peerIDs wal) (mkWorld db [])) sv.

(** The entries a node knows to be committed. *)
Definition committed_entries (r : Raft) : list Log :=
  take (Z.to_nat (rl_commitIndex (r_raftLog r))) (rl_entries (r_raftLog r)).

Definition applied (sv : server W) : list Log := applied_entries (w_hist (sv_world sv)).

Context {HSpec : StorageSpec W}.

Lemma started_run sv sv' : started sv -> rtc (server_step fuel) sv sv' -> started sv'.
Proof.
  intros (i & ps & wal & nodeID & now & db & Ho & Hr) Hrun.
  exists i, ps, wal, nodeID, now, db. split; [done|by etrans].
Qed.

Lemma started_applied sv :
  started sv -> applied sv `prefix_of` committed_entries (n_raft (sv_node sv)).
Proof.
  intros (id & ps & wal & nodeID & now & db & Ho & Hrun).
  pose proof (server_run_inv fuel _ _ _ Hrun (server_inv_start _ _ _ _ _ _ _ _ eq_refl Ho)) as Hi.
  pose proof (wf_applied _ (nv_wf _ _ (si_node _ _ Hi))) as Ha.
  etransitivity; [by apply (applied_prefix (st_GetLogs wal))|]. unfold committed_entries.
  replace (take (Z.to_nat (rl_lastApplied _)) _) with (take (Z.to_nat (rl_lastApplied (r_raftLog (n_raft (sv_node sv)))))
    (take (Z.to_nat (rl_commitIndex (r_raftLog (n_raft (sv_node sv))))) (rl_entries (r_raftLog (n_raft (sv_node sv))))))
    by (rewrite take_take; f_equal; lia).
  eexists. symmetry. apply take_drop.
Qed.

Lemma started_reads sv key :
  (2 <= fuel)%nat -> started sv -> in_bounds (log_pair <$> applied sv) ->
  Get_read fuel key (w_db (sv_world sv)) =
    match puts (log_pair <$> applied sv) ∅ !! key with
    | Some v => Ok (v, w_db (sv_world sv))
    | None => Err (ErrWrap "get" (ErrMsg "key not found"))
    end.
Proof.
  intros Hf (id & ps & wal & nodeID & now & db & Ho & Hrun).
  apply (server_reads_applied fuel (st_GetLogs wal) (bootstrapRaftNode id ps wal) nodeID now wal db); try done.
  by eapply server_inv_start.
Qed.

(** A longer log of which more is committed. *)
Lemma committed_prefix r r' :
  wf_log (r_raftLog r) -> rl_entries (r_raftLog r) `prefix_of` rl_entries (r_raftLog r') ->
  rl_commitIndex (r_raftLog r) <= rl_commitIndex (r_raftLog r') ->
  committed_entries r `prefix_of` committed_entries r'.
Proof.
  intros Hwf [more E] Hc. pose proof (wf_last _ Hwf) as El. destruct Hwf as [_ _ Hw _]. unfold committed_entries.
  rewrite E. rewrite <- (take_app_le _ more) by (unfold zlen in El; lia). rewrite <- E.
  exists (drop (Z.to_nat (rl_commitIndex (r_raftLog r)))
    (take (Z.to_nat (rl_commitIndex (r_raftLog r'))) (rl_entries (r_raftLog r')))).
  rewrite <- (take_drop (Z.to_nat (rl_commitIndex (r_raftLog r))) (take (Z.to_nat (rl_commitIndex (r_raftLog r'))) _)) at 1.
  rewrite take_take, Nat.min_l by lia. done.
Qed.

(** The leader knows of every commit. *)
Lemma steady_committed L t (s : replicas W) rL id r :
  steady L t (bare s) -> rafts s !! L = Some rL -> rafts s !! id = Some r ->
  committed_entries r `prefix_of` committed_entries rL.
Proof.
  intros [x Hat] HL Hr. assert (x = rL) as -> by (pose proof (sa_lookup _ _ _ _ _ Hat); cbn in *; congruence).
  destruct (decide (id = L)) as [->|Hne]; [by simplify_eq|].
  destruct (sa_follower _ _ _ _ _ Hat id r Hne Hr). by apply committed_prefix.
Qed.

Lemma run_started L t s0 s :
  sorted (steady_discipline L) s0 -> steady L t (bare s0) ->
  (forall id sv, servers s0 !! id = Some sv -> started sv) ->
  rtc (rep_step fuel (steady_discipline L)) s0 s ->
  steady L t (bare s) /\ forall id sv, servers s !! id = Some sv -> started sv.
Proof.
  intros Hso Hst0 Hstart Hrun. destruct (rep_run_steady L t s0 s Hrun Hso Hst0) as [Hst Hsv].
  split; [done|]. intros id sv Hid. destruct (Hsv id sv Hid) as (sv0 & Hsv0 & Hrun0).
  by eapply started_run, Hrun0; eauto.
Qed.

Lemma stored_by_majority L t (s : replicas W) svL i e :
  steady L t (bare s) -> servers s !! L = Some svL ->
  committed_entries (n_raft (sv_node svL)) !! i = Some e ->
  Z.of_nat (size (servers s)) < 2 * Z.of_nat (size (storing (rafts s) i e)).
Proof.
  intros Hst HsL [He Hi]%lookup_take_Some.
  destruct (steady_agreed L t (bare s) L _ i e Hst (rafts_lookup _ _ _ HsL) He ltac:(lia)) as [Hm _].
  cbn [nodes bare] in Hm. unfold rafts in Hm at 1. by rewrite map_size_fmap in Hm.
Qed.

Lemma applied_committed L t (s : replicas W) svL id sv :
  steady L t (bare s) -> servers s !! L = Some svL -> servers s !! id = Some sv -> started sv ->
  applied sv `prefix_of` committed_entries (n_raft (sv_node svL)).
Proof.
  intros Hst HL Hid Hs. etransitivity; [by apply started_applied|].
  by eapply steady_committed; [done|apply rafts_lookup..].
Qed.

(** One log.  While one leader stays, no message arrives twice and the
    leader takes a proposal only when its append messages were answered, each
    committed entry of the leader is stored at its index by a majority of the
    nodes, what any server has applied is a prefix of these entries, and a read
    of any server returns what the puts of its prefix wrote last. *)
Theorem replicas_read_one_log L t s0 s svL :
  (2 <= fuel)%nat -> sorted (steady_discipline L) s0 -> steady L t (bare s0) ->
  (forall id sv, servers s0 !! id = Some sv -> started sv) ->
  rtc (rep_step fuel (steady_discipline L)) s0 s -> servers s !! L = Some svL ->
  let es := committed_entries (n_raft (sv_node svL)) in
  (forall i e, es !! i = Some e ->
    Z.of_nat (size (servers s)) < 2 * Z.of_nat (size (storing (rafts s) i e))) /\
  forall id sv, servers s !! id = Some sv ->
    applied sv `prefix_of` es /\
    (in_bounds (log_pair <$> es) -> forall key,
      Get_read fuel key (w_db (sv_world sv)) =
      match puts (log_pair <$> applied sv) ∅ !! key with
      | Some v => Ok (v, w_db (sv_world sv))
      | None => Err (ErrWrap "get" (ErrMsg "key not found"))
      end).
Proof.
  intros Hf Hso Hst0 Hstart Hrun HsL es. destruct (run_started L t s0 s Hso Hst0 Hstart Hrun) as [Hst Hs]. split.
  - intros i e He. by apply (stored_by_majority L t s svL).
  - intros id sv Hid. pose proof (applied_committed L t s svL id sv Hst HsL Hid (Hs id sv Hid)) as Hp.
    split; [done|]. intros Hb key. apply started_reads; [done|by eapply Hs|].
    destruct Hp as [more E]. unfold es in Hb. rewrite E, fmap_app in Hb. by eapply in_bounds_app.
Qed.

(** An entry that woke a put is committed, and a majority stores it. *)
Lemma acknowledged_committed L t (s : replicas W) svL id sv h1 c h2 :
  steady L t (bare s) -> servers s !! L = Some svL -> servers s !! id = Some sv -> started sv ->
  w_hist (sv_world sv) = h1 ++ Called c :: h2 ->
  Put_await SelWoken SelWoken c (w_db (sv_world sv)) = Some (Ok tt) ->
  exists i e, committed_entries (n_raft (sv_node svL)) !! i = Some e /\
    GetRequestId (log_Data e) = pc_id c /\ Applied e ∈ h2 /\
    Z.of_nat (size (servers s)) < 2 * Z.of_nat (size (storing (rafts s) i e)).
Proof.
  intros Hst HsL Hid Hs Eh Hack.
  pose proof (applied_committed L t s svL id sv Hst HsL Hid Hs) as [more E].
  destruct Hs as (i & ps & wal & nodeID & now & db & Ho & Hr).
  apply (put_woken fuel db (sv_world sv) h1 c h2) in Hack as (e & He & Eid);
    [|by eapply Open_opened|by apply server_run_world in Hr|done].
  assert (e ∈ applied sv) as [k Hk]%list_elem_of_lookup.
  { unfold applied, applied_entries. rewrite Eh, omap_app, elem_of_app. right.
    apply list_elem_of_omap. exists (Applied e). split; [by right|done]. }
  assert (committed_entries (n_raft (sv_node svL)) !! k = Some e) as Hc by (rewrite E; by apply lookup_app_l_Some).
  exists k, e. split; [done|]. split; [done|]. split; [done|]. by apply (stored_by_majority L t s svL).
Qed.

(** What a client is told is replicated.  Under the same conditions, when a put
    returns success at a server, an entry with its request id is committed and a
    majority of the nodes stores it. *)
Theorem acknowledged_put_replicated L t s0 s svL id sv h1 c h2 :
  sorted (steady_discipline L) s0 -> steady L t (bare s0) ->
  (forall id sv, servers s0 !! id = Some sv -> started sv) ->
  rtc (rep_step fuel (steady_discipline L)) s0 s -> servers s !! L = Some svL ->
  servers s !! id = Some sv -> w_hist (sv_world sv) = h1 ++ Called c :: h2 ->
  Put_await SelWoken SelWoken c (w_db (sv_world sv)) = Some (Ok tt) ->
  exists i e, committed_entries (n_raft (sv_node svL)) !! i = Some e /\
    GetRequestId (log_Data e) = pc_id c /\
    Z.of_nat (size (servers s)) < 2 * Z.of_nat (size (storing (rafts s) i e)).
Proof.
  intros Hso Hst0 Hstart Hrun HsL Hid Eh Hack.
  destruct (run_started L t s0 s Hso Hst0 Hstart Hrun) as [Hst Hs].
  destruct (acknowledged_committed L t s svL id sv h1 c h2) as (i & e & ? & ? & _ & ?); eauto.
Qed.

End one_log.

(** ** A run *)

#[local] Existing Instance doubling.

Definition steady_okb (L : Z) (s : replicas LogManager) (e : rep_event) : bool :=
  match e with
  | ReTurn id c =>
      match servers s !! id, c with
      | Some sv, ChProp _ =>
          match head (n_propc (sv_node sv)) with
          | Some m => bool_decide (msg_To m = 0 ->
              set_Forall (fun p => p = L \/ exchange p (flight (bare s)) = []) (dom (rafts s)))
          | None => true
          end
      | Some sv, ChTick _ =>
          bool_decide (id = L \/ electionTick (n_raft (sv_node sv)) + 1 < randomizedTimeout (n_raft (sv_node sv)))
      | _, _ => true
      end
  | RePut id _ _ => bool_decide (id = L)
  | _ => true
  end.

Lemma steady_okb_sound L s e : steady_okb L s e = true -> allowed (steady_discipline L) s e.
Proof.
  destruct e as [i|i|id|id c|id ev|id key val|id]; cbn -[exchange flight]; try done.
  - destruct (servers s !! id) as [sv|]; [|done]. intros Hok ? [= <-] ? [= <-].
    destruct c; cbn [ranged]; try done.
    + intros m Hm Hto p Hp Hin. rewrite Hm in Hok. apply bool_decide_eq_true in Hok.
      by destruct (Hok Hto p Hin).
    + apply bool_decide_eq_true in Hok. by destruct Hok.
  - intros Hok. by apply bool_decide_eq_true in Hok.
Qed.

(** Server 1 replicates a put to the others, commits and applies it; server 2
    learns of the commit by a heartbeat and applies it too; server 3 does not
    hear of it. *)
Definition apply_all (id : Z) : list rep_event := ReApply id :: (ReDb id <$> (DbStart :: the_steps 4)).

Definition replicating : list rep_event :=
  [RePut 1 (go_string "a") (go_string "1"); ReTurn 1 (ChProp []); ReTurn 1 (ChReady [])] ++
  receive 3 0 ++ receive 2 0 ++ [ReTurn 2 (ChReady []); ReTurn 3 (ChReady [])] ++ receive 1 0 ++
  [ReTurn 1 (ChReady [])] ++ receive 1 0 ++ apply_all 1 ++
  [ReTick 1; ReTurn 1 (ChTick []); ReTurn 1 (ChReady []); ReLose 0] ++ receive 2 0 ++ [ReTurn 2 (ChReady [])] ++
  apply_all 2.

Definition replicated_servers : replicas LogManager :=
  default elected_servers (exec_reps (steady_okb 1) replicating elected_servers).

Lemma elected_started id sv : servers elected_servers !! id = Some sv -> started 2 sv.
Proof.
  intros Hsv. destruct (proj2 elected_servers_run id sv Hsv) as (sv0 & Hsv0 & Hrun).
  assert (id ∈ [1; 2; 3]) as Hid.
  { apply elem_of_list_to_map_2, list_elem_of_fmap in Hsv0 as (x & [= -> _] & Hx). exact Hx. }
  apply boot_server in Hsv0 as ->.
  exists id, (filter (fun p => p <> id) [1; 2; 3]), fresh_wal, id, 1700000000000000000, (db_of id).
  split; [|exact Hrun]. rewrite !elem_of_cons in Hid.
  destruct Hid as [-> | [-> | [-> | Hid]]]; [vm_compute; reflexivity..|by apply not_elem_of_nil in Hid].
Qed.

Lemma elected_sorted : sorted (steady_discipline 1) elected_servers.
Proof.
  assert (wire elected_servers = []) as Hw by (vm_compute; reflexivity).
  assert (map_Forall (fun _ sv => n_propc (sv_node sv) = []) (servers elected_servers)) as Hq.
  { apply (bool_decide_eq_true_1 _). vm_compute. reflexivity. }
  split.
  - intros m. rewrite Hw. intros Hm. destruct (not_elem_of_nil _ Hm).
  - intros id sv m Hsv. rewrite (Hq id sv Hsv). intros Hm. destruct (not_elem_of_nil _ Hm).
Qed.

Lemma elected_servers_steady : steady 1 1 (bare elected_servers).
Proof. apply fresh_clusterb_sound. vm_compute. reflexivity. Qed.

Lemma replicated_run : rtc (rep_step 2 (steady_discipline 1)) elected_servers replicated_servers.
Proof.
  destruct (exec_reps_sound (steady_discipline 1) (steady_okb 1) replicating elected_servers replicated_servers)
    as [Hrun _]; [apply steady_okb_sound|vm_compute; reflexivity|].
  apply rtc_nsteps. eexists. exact Hrun.
Qed.

(** Server 2 reads what was put at server 1; server 3 has not applied it. *)
Lemma replicas_read_one_log_witness :
  exists sv1 sv2 sv3, servers replicated_servers !! 1 = Some sv1 /\ servers replicated_servers !! 2 = Some sv2 /\
    servers replicated_servers !! 3 = Some sv3 /\
    let es := committed_entries (n_raft (sv_node sv1)) in
    length es = 1%nat /\ applied sv2 `prefix_of` es /\ applied sv3 `prefix_of` es /\ applied sv3 = [] /\
    Get_read 2 (go_string "a") (w_db (sv_world sv2)) = Ok (go_string "1", w_db (sv_world sv2)).
Proof.
  destruct (servers replicated_servers !! 1) as [sv1|] eqn:H1; [|by vm_compute in H1].
  destruct (servers replicated_servers !! 2) as [sv2|] eqn:H2; [|by vm_compute in H2].
  destruct (servers replicated_servers !! 3) as [sv3|] eqn:H3; [|by vm_compute in H3].
  exists sv1, sv2, sv3. split; [reflexivity|]. split; [reflexivity|]. split; [reflexivity|]. cbv zeta.
  destruct (replicas_read_one_log 2 1 1 elected_servers replicated_servers sv1 ltac:(lia) elected_sorted
    elected_servers_steady elected_started replicated_run H1) as [_ Hall].
  destruct (Hall 2 sv2 H2) as [Hp2 Hr2]. destruct (Hall 3 sv3 H3) as [Hp3 _].
  assert (log_pair <$> committed_entries (n_raft (sv_node sv1)) = [(go_string "a", go_string "1")]) as Es.
  { vm_compute in H1. injection H1 as <-. vm_compute. reflexivity. }
  assert (log_pair <$> applied sv2 = [(go_string "a", go_string "1")]) as E2.
  { vm_compute in H2. injection H2 as <-. vm_compute. reflexivity. }
  assert (applied sv3 = []) as E3.
  { vm_compute in H3. injection H3 as <-. vm_compute. reflexivity. }
  split; [|split; [exact Hp2|split; [exact Hp3|split; [exact E3|]]]].
  - rewrite <- (length_fmap log_pair), Es. reflexivity.
  - rewrite Hr2, E2; [|rewrite Es; split; [repeat constructor|cbn]; lia]. reflexivity.
Defined.

Lemma acknowledged_put_replicated_witness :
  exists sv1 c h2, servers replicated_servers !! 1 = Some sv1 /\ w_hist (sv_world sv1) = Called c :: h2 /\
    pc_key c = go_string "a" /\
    exists i e, committed_entries (n_raft (sv_node sv1)) !! i = Some e /\ GetRequestId (log_Data e) = pc_id c /\
      3 < 2 * Z.of_nat (size (storing (rafts replicated_servers) i e)).
Proof.
  destruct (servers replicated_servers !! 1) as [sv1|] eqn:H1; [|by vm_compute in H1].
  assert (exists c h2, w_hist (sv_world sv1) = Called c :: h2 /\ pc_key c = go_string "a" /\
    Put_await SelWoken SelWoken c (w_db (sv_world sv1)) = Some (Ok tt)) as (c & h2 & Eh & Ek & Ea).
  { vm_compute in H1. injection H1 as <-. do 2 eexists. split; [vm_compute; reflexivity|].
    split; vm_compute; reflexivity. }
  exists sv1, c, h2. split; [reflexivity|]. split; [exact Eh|]. split; [exact Ek|].
  assert (Z.of_nat (size (servers replicated_servers)) = 3) as E3 by (vm_compute; reflexivity).
  rewrite <- E3. exact (acknowledged_put_replicated 2 1 1 elected_servers replicated_servers sv1 1 sv1 [] c h2
    elected_sorted elected_servers_steady elected_started replicated_run H1 H1 Eh Ea).
Defined.
