(* ===== verification/Succession.v ===== *)
(** * One log under all leaders

    [OneLog] is about the servers while one leader stays; [Reigns] about bare
    nodes whose leaders change.  Here the servers of [Replicas] go from one
    leader to the next: their run loops make the steps of an election of
    [Reigns], and what the databases have applied and what clients were told
    stays true under every leader that follows. *)
From S2P Require Import Prelude Proto Wal RaftLog Raft Election Replication RaftNode Cluster Steady Agreement Progress Reigns.
From S2P Require Import Keys Slice Codec Node Leaf Storage BTree TreeFrame Tree TreeMap TreeLimits Generator Wait Scheduler Replay Db DbSpec Restart System Replicas OneLog.

Local Open Scope Z_scope.

Section succession.
Context `{GrowPolicy} {W : Type} {HS : Storage W} (fuel : nat).

(** ** An election among the servers *)

(** No client puts, and a run loop takes only messages of the election. *)
Definition election_discipline : discipline (W := W) := mkDiscipline False
  (fun s id c => forall sv, servers s !! id = Some sv ->
    match c with
    | ChProp _ => forall m, head (n_propc (sv_node sv)) = Some m -> electoral (n_raft (sv_node sv)) m
    | _ => True
    end)
  (fun _ => False).

(** The history of lost messages is forgotten. *)
Definition settle (s : replicas W) : replicas W := mkReplicas (servers s) (wire s) [].
Definition live (s : replicas W) : cluster := bare (settle s).

Lemma live_reached s s' c :
  rtc election_step (live s) c -> nodes c = rafts s' -> under_way (settle s') ⊆+ net c ->
  rtc election_step (live s) (live s').
Proof.
  intros Hrun Hn Hnet. eapply rtc_r; [exact Hrun|].
  replace (live s') with (mkCluster (nodes c) (under_way (settle s'))) by by rewrite Hn.
  by apply el_lose.
Qed.

(** No node moves. *)
Lemma live_idle s s' :
  rafts s' = rafts s -> under_way (settle s') ⊆+ under_way (settle s) -> rtc election_step (live s) (live s').
Proof. intros Hr Hu. eapply live_reached; [constructor|done|done]. Qed.

(** One server changes, but not its node. *)
Lemma live_server s id sv sv' w l :
  servers s !! id = Some sv -> n_raft (sv_node sv') = n_raft (sv_node sv) ->
  w ++ inbox sv' ⊆+ wire s ++ inbox sv ->
  rtc election_step (live s) (live (mkReplicas (<[id := sv']> (servers s)) w l)).
Proof.
  intros Hsv Er Hin. apply live_idle; [by eapply rafts_same|].
  destruct (under_way_split (settle s) id sv Hsv) as (rest & Hu & Hu').
  change (settle (mkReplicas (<[id := sv']> (servers s)) w l)) with (mkReplicas (<[id := sv']> (servers (settle s))) w []).
  rewrite Hu, Hu'. cbn. rewrite !app_assoc. by apply submseteq_app.
Qed.

Lemma electoral_same r r1 m :
  step r1 = step r -> currentTerm r1 = currentTerm r -> electoral r m -> electoral r1 m.
Proof. unfold electoral. by intros -> ->. Qed.

Lemma callReady_role r r1 :
  callReady r = Ok (Some r1) -> step r1 = step r /\ currentTerm r1 = currentTerm r /\ peers r1 = peers r.
Proof.
  unfold callReady. destruct (hasReady _); [|by intros [= <-]].
  intros (rd & _ & Hr)%bind_Ok_inv. cbv zeta in Hr. destruct (readyc _); [done|]. by injection Hr as <-.
Qed.

Lemma turn_election s id sv ch n' l :
  sorted election_discipline s -> servers s !! id = Some sv ->
  may_turn election_discipline s id ch -> turn_order ch (n_raft (sv_node sv)) ->
  run_turn ch (sv_node sv) = Ok (Some n') ->
  rtc election_step (live s)
    (live (mkReplicas (with_node id sv n' s) (wire s ++ new_messages (sv_node sv) n') l)).
Proof.
  intros Hso Hsv Hmay Hord Ht. destruct (run_turn_cases _ _ _ Ht) as (r1 & Hr1 & _ & Hc).
  destruct (under_way_split (settle s) id sv Hsv) as (rest & Hu & Hu').
  destruct (callReady_role _ _ Hr1) as (Es & Et & Ep).
  set (c1 := mkCluster (<[id := r1]> (nodes (live s))) (net (live s))).
  assert (S1 : rtc election_step (live s) c1) by (apply rtc_once; eapply el_ready; [by apply rafts_lookup|done]).
  assert (L1 : nodes c1 !! id = Some r1) by apply lookup_insert_eq.
  assert (Hset : forall r' w l, r' = n_raft n' ->
    <[id := r']> (nodes c1) = rafts (mkReplicas (with_node id sv n' s) w l)).
  { intros r' w l' ->. unfold with_node. rewrite rafts_insert. apply insert_insert_eq. }
  assert (Hnet : net c1 ≡ₚ wire s ++ inbox sv ++ rest) by exact Hu.
  assert (Hgoal : forall w, under_way (settle (mkReplicas (with_node id sv n' s) w l)) ≡ₚ
    w ++ inbox (mkServer n' (sv_world sv)) ++ rest) by exact (fun w => Hu' _ w []).
  destruct ch as [ord|ds|ord|]; unfold new_messages; cbn [turn_order] in Hord.
  - destruct Hc as (m & Eq & Hs & E). rewrite E, drop_all, app_nil_r.
    pose proof (inbox_filter sv m _ n' (sv_world sv) Eq eq_refl) as Ein.
    destruct (so_queue _ _ Hso id sv m Hsv ltac:(rewrite Eq; by left)) as [[Hto Hto0]|[[] _]].
    rewrite filter_cons_True in Ein by done. rewrite Ein in Hnet.
    destruct (Step ord m r1) as [r'|e|p] eqn:Est; [injection Hs as Er'|injection Hs as Er'|done].
    + destruct (list_elem_of_split (net c1) m) as (pre & post & Esp); [rewrite Hnet; set_solver|].
      eapply (live_reached s _ (mkCluster (<[id := r']> (nodes c1)) (pre ++ post))); [|by apply Hset|].
      * eapply rtc_r; [exact S1|]. rewrite <- Hto.
        apply (el_deliver c1 pre m post r1 ord); [done|by rewrite Hto| | |done].
        -- unfold range_order. by rewrite Ep.
        -- apply (electoral_same (n_raft (sv_node sv))); [done..|].
           apply (Hmay sv Hsv m). by rewrite Eq.
      * rewrite Hgoal. cbn [net]. rewrite Esp in Hnet. rewrite <- Permutation_middle in Hnet.
        assert (pre ++ post ≡ₚ wire s ++ inbox (mkServer n' (sv_world sv)) ++ rest) as ->; [|done].
        apply (Permutation_cons_inv (a := m)). rewrite Hnet. cbn. by rewrite <- Permutation_middle.
    + eapply (live_reached s _ c1); [exact S1| |].
      * rewrite <- (insert_id (nodes c1) id r1 L1). by apply Hset.
      * rewrite Hgoal, Hnet. cbn. rewrite <- Permutation_middle. by apply submseteq_cons.
  - destruct Hc as (rd & Erd & Er' & Eq & E). rewrite E, drop_app_length.
    eapply (live_reached s _ (mkCluster (<[id := consumeReady r1]> (nodes c1)) (net c1 ++ ready_messages rd)));
      [eapply rtc_r; [exact S1|by apply (el_send c1)]|by apply Hset|].
    rewrite Hgoal. cbn [net]. rewrite Hnet.
    replace (inbox (mkServer n' (sv_world sv))) with (inbox sv) by (unfold inbox; cbn [sv_node]; by rewrite Eq).
    transitivity (send (sv_node sv) (ready_messages rd) ++ wire s ++ inbox sv ++ rest).
    { apply Permutation_submseteq. by solve_Permutation. }
    rewrite (Permutation_app_comm _ (ready_messages rd)). apply submseteq_app; [|done].
    apply sublist_submseteq, sublist_filter.
  - destruct Hc as (Htick & Eq & E). rewrite E, drop_all, app_nil_r.
    eapply (live_reached s _ (mkCluster (<[id := n_raft n']> (nodes c1)) (net c1))); [|by apply Hset|].
    + eapply rtc_r; [exact S1|]. apply (el_tick c1 id r1 ord); [done| |done]. unfold range_order. by rewrite Ep.
    + rewrite Hgoal. cbn [net]. rewrite Hnet. unfold inbox. cbn [sv_node]. by rewrite Eq.
  - destruct Hc as (Er' & Eq & E). rewrite E, drop_all, app_nil_r.
    eapply (live_reached s _ c1); [exact S1| |].
    + rewrite <- (insert_id (nodes c1) id r1 L1). by apply Hset.
    + rewrite Hgoal, Hnet. unfold inbox. cbn [sv_node]. by rewrite Eq.
Qed.

Lemma rep_step_election s s' :
  sorted election_discipline s -> rep_step fuel election_discipline s s' -> rtc election_step (live s) (live s').
Proof.
  intros Hso Hs. destruct Hs as [m rest sv n' Hp Hsv Hn|m sv n' []|m rest Hp|id sv Hsv|id sv ch n' Hsv Hmay Hord Ht
    |id sv ev w' Hsv|id sv key val x m db' n' Hsv []|id sv ap n' w' Hsv Hap].
  - destruct (stepSM_queue _ _ _ Hn) as [Er Eq]. eapply live_server; [done|done|].
    assert (msg_To m <> 0) as Hto by (apply (so_wire _ _ Hso); rewrite Hp; by left).
    rewrite Hp. unfold inbox. cbn [sv_node]. rewrite Eq, filter_app, (filter_cons_True _ m []) by done.
    apply Permutation_submseteq. cbn. by solve_Permutation.
  - apply live_idle; [done|]. unfold under_way. cbn. rewrite Hp. by apply submseteq_cons.
  - destruct (node_Tick_queue (sv_node sv)) as [Er Eq]. eapply live_server; [done|done|].
    unfold inbox. cbn [sv_node]. by rewrite Eq.
  - by eapply turn_election.
  - by eapply live_server.
  - destruct (receive_queue _ _ _ Hap) as [Er Eq]. eapply live_server; [done|done|].
    unfold inbox. cbn [sv_node]. by rewrite Eq.
Qed.

Lemma rep_run_election s s' :
  rtc (rep_step fuel election_discipline) s s' -> sorted election_discipline s -> logs_wf (live s) ->
  rtc election_step (live s) (live s') /\ sorted election_discipline s' /\
  forall id sv', servers s' !! id = Some sv' ->
    exists sv, servers s !! id = Some sv /\ rtc (server_step fuel) sv sv'.
Proof.
  induction 1 as [s|s s1 s' Hs _ IH]; intros Hso Hwf.
  - split_and!; [done|done|]. intros id sv Hsv. by exists sv.
  - pose proof (rep_step_election s s1 Hso Hs) as H1.
    assert (logs_wf (live s1)) as Hwf1 by (eapply campaigns_wf; [exact Hwf|by apply election_campaigns]).
    destruct (IH (sorted_step fuel _ _ _ Hso Hs) Hwf1) as (H2 & Hso' & Hrun). split_and!; [by etrans|done|].
    intros id sv' Hsv'. destruct (Hrun id sv' Hsv') as (sv1 & Hsv1 & Hrun1).
    destruct (rep_step_server fuel _ _ _ id sv1 Hs) as (sv & Hsv & Hrun0); [exact Hwf1|done|].
    exists sv. split; [done|]. by etrans.
Qed.

(** ** One leader after another *)

(** When the election begins no proposal waits in a queue; when it has been won,
    nothing but messages of votes is under way. *)
Inductive rep_reign : Z * Z * replicas W -> Z * Z * replicas W -> Prop :=
  | rr_on L t s s' :
      rep_step fuel (steady_discipline L) s s' -> rep_reign (L, t, s) (L, t, s')
  | rr_change L t s s' L' t' rL :
      sorted election_discipline s -> rtc (rep_step fuel election_discipline) s s' ->
      t < t' -> takes_over L' t' (live s') rL -> rep_reign (L, t, s) (L', t', settle s').

Record rep_ok (L t : Z) (s : replicas W) : Prop := {
  ro_sorted : sorted (steady_discipline L) s;
  ro_steady : steady L t (bare s);
  ro_tidy : tidy (bare s);
  ro_started id sv : servers s !! id = Some sv -> started fuel sv;
}.

Definition rep_reign_ok (x : Z * Z * replicas W) : Prop := rep_ok x.1.1 x.1.2 x.2.

Definition bare_of (x : Z * Z * replicas W) : Z * Z * cluster := (x.1, bare x.2).

Lemma steady_run_tidy L t c c' : rtc (steady_step L) c c' -> steady L t c -> tidy c -> tidy c' /\ logs_grow c c'.
Proof.
  induction 1 as [c|c c1 c' Hs _ IH]; intros Hst Ht; [done|].
  destruct (IH (steady_step_inv _ _ _ _ Hst Hs) (steady_step_tidy _ _ _ _ Hst Hs Ht)) as [H1 H2].
  split; [done|]. transitivity c1; [by eapply steady_step_grows|done].
Qed.

Lemma tidy_nodes c c' : nodes c' = nodes c -> tidy c -> tidy c'.
Proof. unfold tidy. by intros ->. Qed.

Lemma sorted_election L s : sorted election_discipline s -> sorted (steady_discipline L) s.
Proof. intros [Hw Hq]. split; [done|]. intros id sv m Hsv Hm. by destruct (Hq id sv m Hsv Hm) as [?|[[] _]]; left. Qed.

Lemma rep_reign_step_ok x x' :
  rep_reign_ok x -> rep_reign x x' -> rep_reign_ok x' /\ logs_grow (bare x.2) (bare x'.2).
Proof.
  intros Hx Hs. destruct Hs as [L t s s' Hs|L t s s' L' t' rL Hso Hs Hlt Hto];
    destruct Hx as [Hsorted Hst Ht Hstart]; cbn in *.
  - destruct (rep_step_steady fuel L t s s' (bare s) Hsorted) as (c' & Hc' & Hm); [done|done|done|].
    destruct (steady_run_tidy L t _ _ Hc' Hst Ht) as [Ht' Hg].
    assert (steady L t (bare s')) as Hst' by (eapply mirrors_steady; [done|by eapply steady_run_inv]).
    pose proof (mi_nodes _ _ Hm) as En. split.
    + split; cbn; [by eapply sorted_step|done|by eapply tidy_nodes, Ht'|].
      intros id sv' Hsv'. destruct (rep_step_server fuel _ _ _ id sv' Hs) as (sv & Hsv & Hrun); [|done|].
      { intros i r. by apply steady_wf with L t. }
      eapply started_run; [by eapply Hstart|done].
    + intros id r Hr. destruct (Hg id r Hr) as (r' & Hr' & Hp). exists r'. cbn. by rewrite <- En.
  - assert (logs_wf (live s)) as Hwf by exact (steady_wf_logs L t _ Hst).
    destruct (rep_run_election s s' Hs Hso Hwf) as (Hrun & Hso' & Hsv).
    assert (campaigns_all (bare s) (bare (settle s'))) as Hc by exact (election_campaigns _ _ Hwf Hrun).
    split; [|by apply campaigns_grow]. split; cbn.
    + apply (sorted_election L'). destruct Hso' as [Hw Hq]. split; [exact Hw|exact Hq].
    + by eapply handover_steady.
    + by eapply tidy_campaigns.
    + intros id sv' Hsv'. destruct (Hsv id sv' Hsv') as (sv & Hsv0 & Hr). eapply started_run; [by eapply Hstart|done].
Qed.

Lemma rep_reign_run_ok x x' :
  rep_reign_ok x -> rtc rep_reign x x' -> rep_reign_ok x' /\ logs_grow (bare x.2) (bare x'.2).
Proof.
  intros Hx Hs. induction Hs as [x|x x1 x' Hs _ IH]; [done|].
  destruct (rep_reign_step_ok x x1 Hx Hs) as [H1 G1]. destruct (IH H1) as [H2 G2]. split; [done|by etrans].
Qed.

Context {HSpec : StorageSpec W}.

(** What a server knew to be committed it still does. *)
Lemma committed_grow (s s' : replicas W) id sv :
  logs_grow (bare s) (bare s') -> logs_wf (bare s) -> servers s !! id = Some sv ->
  exists sv', servers s' !! id = Some sv' /\
    committed_entries (n_raft (sv_node sv)) `prefix_of` committed_entries (n_raft (sv_node sv')).
Proof.
  intros Hg Hwf Hsv. pose proof (rafts_lookup _ _ _ Hsv) as Hr.
  destruct (Hg id _ Hr) as (r' & Hr' & Hp & Hc). cbn in Hr'. unfold rafts in Hr'.
  rewrite lookup_fmap in Hr'. destruct (servers s' !! id) as [sv'|] eqn:Hsv'; [|done].
  cbn in Hr'. injection Hr' as <-. exists sv'. split; [done|]. apply committed_prefix; [exact (Hwf id _ Hr)|done|done].
Qed.



End succession.

(** ** Two leaders *)

#[local] Existing Instance doubling.

Definition electionb (s : replicas LogManager) (e : rep_event) : bool :=
  match e with
  | ReTurn id (ChProp _) =>
      match servers s !! id with
      | Some sv =>
          match head (n_propc (sv_node sv)) with
          | Some m => bool_decide (electoral (n_raft (sv_node sv)) m)
          | None => true
          end
      | None => true
      end
  | RePut _ _ _ => false
  | _ => true
  end.

Lemma electionb_sound s e : electionb s e = true -> allowed election_discipline s e.
Proof.
  destruct e as [i|i|id|id c|id ev|id key val|id]; cbn; try done. intros Hok sv Hsv sv' Hsv'.
  assert (sv' = sv) as -> by congruence. destruct c; cbn [ranged]; try done. intros m Hm.
  rewrite Hsv, Hm in Hok. by apply bool_decide_eq_true in Hok.
Qed.

(** After the run of [OneLog] under server 1, which put "a" there, server 2 is
    elected; server 1 learns of it from the refusal of a heartbeat.  A client
    puts "b" at server 2, and servers 1 and 2 apply it. *)
Definition electing_2 : list rep_event :=
  concat (repeat [ReTick 2; ReTurn 2 (ChTick [])] 10) ++ [ReTurn 2 (ChReady [])] ++
  receive 1 1 ++ receive 3 0 ++ [ReTurn 3 (ChReady [])] ++ receive 2 0 ++
  [ReTick 1; ReTurn 1 (ChTick []); ReTurn 1 (ChReady [])] ++
  receive 3 0 ++ [ReLose 0; ReTurn 3 (ChReady [])] ++ receive 1 0.

Definition replicating_2 : list rep_event :=
  [RePut 2 (go_string "b") (go_string "2"); ReTurn 2 (ChProp []); ReTurn 2 (ChReady [])] ++
  receive 1 1 ++ receive 3 0 ++ [ReTurn 1 (ChReady []); ReTurn 3 (ChReady [])] ++ receive 2 0 ++
  [ReTurn 2 (ChReady [])] ++ receive 2 0 ++ apply_all 2 ++
  [ReTick 2; ReTurn 2 (ChTick []); ReTurn 2 (ChReady [])] ++ receive 1 1 ++ [ReTurn 1 (ChReady [])] ++ apply_all 1.

Definition servers_won_by_2 : replicas LogManager :=
  default elected_servers (exec_reps electionb electing_2 replicated_servers).
Definition servers_of_2 : replicas LogManager :=
  default elected_servers (exec_reps (steady_okb 2) replicating_2 (settle servers_won_by_2)).

Lemma rr_on_run L t s s' :
  rtc (rep_step 2 (steady_discipline L)) s s' -> rtc (rep_reign (W := LogManager) 2) (L, t, s) (L, t, s').
Proof. intros Hs. induction Hs; [constructor|]. eapply rtc_l; [by apply rr_on|done]. Qed.

Lemma elected_ok : rep_ok 2 1 1 elected_servers.
Proof.
  split; [exact elected_sorted|exact elected_servers_steady| |exact elected_started].
  apply tidyb_sound. vm_compute. reflexivity.
Qed.

Lemma replicated_idle : sorted (W := LogManager) election_discipline replicated_servers.
Proof.
  assert (wire replicated_servers = []) as Hw by (vm_compute; reflexivity).
  assert (map_Forall (fun _ sv => n_propc (sv_node sv) = []) (servers replicated_servers)) as Hq.
  { apply (bool_decide_eq_true_1 _). vm_compute. reflexivity. }
  split.
  - intros m. rewrite Hw. intros Hm. destruct (not_elem_of_nil _ Hm).
  - intros id sv m Hsv. rewrite (Hq id sv Hsv). intros Hm. destruct (not_elem_of_nil _ Hm).
Qed.

Lemma succession_run : rtc (rep_reign 2) (1, 1, elected_servers) (2, 2, servers_of_2).
Proof.
  etrans; [exact (rr_on_run 1 1 _ _ replicated_run)|]. eapply rtc_l.
  - destruct (nodes (live servers_won_by_2) !! 2) as [rL|] eqn:HL; [|vm_compute in HL; discriminate HL].
    apply (rr_change 2 1 1 replicated_servers servers_won_by_2 2 2 rL); [exact replicated_idle| |reflexivity|].
    + destruct (exec_reps_sound election_discipline electionb electing_2 replicated_servers servers_won_by_2)
        as [Hrun _]; [exact electionb_sound|vm_compute; reflexivity|].
      apply rtc_nsteps. eexists. exact Hrun.
    + apply (takes_overb_sound _ _ _ _ HL). vm_compute in HL. injection HL as <-. vm_compute. reflexivity.
  - apply rr_on_run.
    destruct (exec_reps_sound (steady_discipline 2) (steady_okb 2) replicating_2 (settle servers_won_by_2) servers_of_2)
      as [Hrun _]; [apply steady_okb_sound|vm_compute; reflexivity|].
    apply rtc_nsteps. eexists. exact Hrun.
Qed.


