(* ===== verification/Lone.v ===== *)
(** * A cluster of one server

    A node alone makes itself leader without a vote ([campaign], "Single node
    cluster - become leader immediately").  But entries are committed only when
    an answer of a peer arrives ([handleAppendResponse]), and a node alone gets
    none: it commits nothing, and no put at it ever returns success. *)
From S2P Require Import Prelude Proto Wal RaftLog Raft Election Replication RaftNode Cluster.
From S2P Require Import Keys Slice Codec Node Leaf Storage BTree TreeFrame Tree TreeMap TreeLimits Generator Wait Scheduler Replay Db DbSpec Restart System Replicas.

Local Open Scope Z_scope.

(** ** The node *)

Definition uncommitted (l : raftLog) : Prop := rl_commitIndex l = 0 /\ rl_lastApplied l = 0.

Record lone (r : Raft) : Prop := {
  ln_peers : peers r = ∅;
  ln_size : clusterSize r = 1;
  ln_log : uncommitted (r_raftLog r);
  ln_ready rd : readyc r = Some rd -> rd_CommittedEntries rd = [];
}.

(** What neither the peers nor the log, but for its entries, is touched by. *)
Lemma lone_same r r' :
  peers r' = peers r -> clusterSize r' = clusterSize r -> readyc r' = readyc r ->
  uncommitted (r_raftLog r') -> lone r -> lone r'.
Proof. intros Ep Es Er Hl [H1 H2 _ H4]. split; [congruence|congruence|done|by rewrite Er]. Qed.

Lemma lone_order r ord : lone r -> range_order r ord -> ord = [].
Proof. unfold range_order. intros Hr. rewrite (ln_peers _ Hr), elements_empty. apply Permutation_nil_r. Qed.

Lemma lone_campaign r : lone r -> lone (campaign [] r).
Proof.
  intros Hr. pose proof (ln_log _ Hr). unfold campaign, becomeCandidate, resetTimeout.
  destruct (0 <? _); destruct (_ =? 1); by apply (lone_same r).
Qed.

Lemma lone_proposal c r r' : lone r -> handleAppendEntries (proposal c) r = Ok r' -> lone r'.
Proof.
  intros Hr. unfold handleAppendEntries. cbn -[append Z.ltb zlen].
  destruct (0 <? currentTerm r); [intros [= <-]; by apply (lone_same r); [..|apply Hr|]|].
  set (r1 := if currentTerm r <? 0 then _ else _).
  assert (peers r1 = peers r /\ clusterSize r1 = clusterSize r /\ readyc r1 = readyc r /\ r_raftLog r1 = r_raftLog r)
    as (Ep & Es & Er & El) by (unfold r1, becomeFollower, resetTimeout; destruct (_ <? 0); [destruct (0 <? _)|]; done).
  pose proof (ln_log _ Hr) as [Hc Ha].
  cbn -[append Z.ltb]. change (0 <? zlen [mkLog 0 0 (Some c)]) with true. cbv beta iota.
  set (r2 := set_r_raftLog _ r1). rewrite <- El in Hc, Ha.
  assert (uncommitted (r_raftLog r2)) as Hl by done. rewrite (proj1 Hl). intros [= <-].
  by apply (lone_same r).
Qed.

(** The messages a node alone handles: proposals, and the triggers of its timers. *)
Lemma lone_Step m r r' :
  m = bare_message MSG_VOTE \/ m = bare_message MSG_HEARTBEAT \/ (exists c, m = proposal c) ->
  lone r -> Step [] m r = Ok r' -> lone r'.
Proof.
  intros Hm Hr. assert (lone (set_electionTick 0 r)) as Hr0 by (apply (lone_same r); try done; apply Hr).
  assert (Hbeat : forall r', broadcastHeartbeat [] r = Ok r' -> lone r').
  { intros x [= <-]. apply (lone_same r); try done. apply Hr. }
  assert (Hrep : forall c r', replicate [] (proposal c) r = Ok r' -> lone r').
  { intros c x. unfold replicate. destruct (isLead r); [|done]. intros [= <-].
    apply (lone_same r); try done. apply Hr. }
  assert (Hnone : forall r', handleAppendEntries (bare_message MSG_HEARTBEAT) (set_electionTick 0 r) = Ok r' -> lone r').
  { by intros x [= <-]. }
  unfold Step. destruct (step r) as [[]|]; [| | |done];
    (destruct Hm as [->|[->|[c ->]]]; cbn [msg_Type bare_message proposal stepFollower stepCandidate stepLeader]);
    try (by apply Hnone); try (by apply lone_proposal); try (by apply Hbeat); try (by intros [= <-]; apply lone_campaign).
  - by intros [= <-].
  - destruct (replicate [] (proposal c) r) as [x| |] eqn:E; try done. intros [= <-]. by eapply Hrep.
Qed.

Lemma lone_logged m r r' :
  m = bare_message MSG_VOTE \/ m = bare_message MSG_HEARTBEAT \/ (exists c, m = proposal c) ->
  lone r -> log_err r (Step [] m r) = Ok r' -> lone r'.
Proof.
  intros Hm Hr. destruct (Step [] m r) as [x| |] eqn:E; cbn; [|by intros [= <-]|done].
  intros [= <-]. by eapply lone_Step.
Qed.

Lemma lone_Tick r r' : lone r -> Tick [] r = Ok r' -> lone r'.
Proof.
  intros Hr. pose proof (ln_log _ Hr) as Hl.
  unfold Tick, tickCandidate, tickElection, tickLeader. destruct (tick r) as [[]|]; [| | |done];
    (destruct (_ <=? _); [|intros [= <-]; by apply (lone_same r)]; apply lone_logged; [auto|by apply (lone_same r)]).
Qed.

Lemma lone_callReady r r' : lone r -> callReady r = Ok (Some r') -> lone r'.
Proof.
  intros Hr. unfold callReady. destruct (hasReady r); [|by intros [= <-]].
  intros (rd & Hrd & H)%bind_Ok_inv. cbv zeta in H. destruct (readyc _); [done|]. injection H as <-.
  pose proof (ln_log _ Hr) as [Hc Ha]. split; [apply Hr|apply Hr|done|]. intros x [= <-].
  unfold makeReady in Hrd. apply bind_Ok_inv in Hrd as (es & _ & Hrd).
  apply bind_Ok_inv in Hrd as (cs & Hcs & [= <-]). unfold committedEntries in Hcs.
  rewrite Hc, Ha in Hcs. by injection Hcs as <-.
Qed.

Lemma lone_consume r : lone r -> lone (consumeReady r).
Proof.
  intros Hr. pose proof (ln_log _ Hr) as [Hc Ha]. split; [apply Hr|apply Hr| |done].
  unfold consumeReady, Advance, markStableTill, markAppliedTill. cbn [r_raftLog set_readyc set_r_raftLog].
  destruct (_ <? lastIndex _); [destruct (_ && _)|]; cbn [rl_lastApplied rl_commitIndex]; by rewrite Hc, Ha.
Qed.

(** ** The server *)

Section lone.
Context `{GrowPolicy} {W : Type} {HS : Storage W} (fuel : nat).
Context (db0 : DB).

(** Nothing was applied, and nothing is on its way to be. *)
Record lone_server (sv : server W) : Prop := {
  lv_raft : lone (n_raft (sv_node sv));
  lv_members : n_members (sv_node sv) = [];
  lv_queue m : m ∈ n_propc (sv_node sv) -> exists c, m = proposal c;
  lv_applyc : n_applyc (sv_node sv) = [];
  lv_jobs : job (w_db (sv_world sv)) = Idle /\ s_queue (scheduler (w_db (sv_world sv))) = [];
  lv_applied e : Applied e ∉ w_hist (sv_world sv);
  lv_world : rtc (wstep fuel) (mkWorld db0 []) (sv_world sv);
}.

Record lone_cluster (s : replicas W) : Prop := {
  lc_wire : wire s = [];
  lc_server id sv : servers s !! id = Some sv -> lone_server sv;
}.

Lemma lone_at s id sv w l :
  lone_cluster s -> lone_server sv -> w = [] -> lone_cluster (mkReplicas (<[id := sv]> (servers s)) w l).
Proof.
  intros [_ Hs] Hsv Hw. split; [done|]. cbn [servers]. intros i x.
  destruct (decide (i = id)) as [->|Hne]; [rewrite lookup_insert_eq; by intros [= <-]|].
  rewrite lookup_insert_ne by done. apply Hs.
Qed.

(** The node moves, and the database does not. *)
Lemma lone_node sv n' :
  lone_server sv -> lone (n_raft n') -> n_members n' = n_members (sv_node sv) ->
  (forall m, m ∈ n_propc n' -> m ∈ n_propc (sv_node sv) \/ exists c, m = proposal c) ->
  n_applyc n' = n_applyc (sv_node sv) -> lone_server (mkServer n' (sv_world sv)).
Proof.
  intros [? ? Hq ? ? ? ?] Hr Em Hq' Ea. split; cbn [sv_node sv_world]; try done; [congruence| |congruence].
  intros m Hm. destruct (Hq' m Hm); auto.
Qed.

(** The database moves. *)
Lemma lone_world sv n' ev w' :
  lone_server sv -> lone (n_raft n') -> n_members n' = n_members (sv_node sv) ->
  (forall m, m ∈ n_propc n' -> m ∈ n_propc (sv_node sv) \/ exists c, m = proposal c) ->
  n_applyc n' = n_applyc (sv_node sv) ->
  event_ok ev (sv_world sv) -> world_step fuel ev (sv_world sv) = Ok (Some w') ->
  job (w_db w') = Idle -> s_queue (scheduler (w_db w')) = [] -> (forall e, Applied e ∉ w_hist w') ->
  lone_server (mkServer n' w').
Proof.
  intros Hsv Hr Em Hq Ea Hev Hw Hj Hs Ha. pose proof (lone_node sv n' Hsv Hr Em Hq Ea) as [? ? ? ? _ _ Hrun].
  split; try done. cbn [sv_world] in *. eapply rtc_r; [exact Hrun|]. by exists ev.
Qed.

Lemma lone_internal sv ev w' :
  lone_server sv -> internal ev -> event_ok ev (sv_world sv) ->
  world_step fuel ev (sv_world sv) = Ok (Some w') -> lone_server (mkServer (sv_node sv) w').
Proof.
  intros Hsv Hin Hev Hw. pose proof Hsv as [? ? ? ? [Hj Hq] Ha _].
  assert (Hsame : job (w_db w') = Idle -> s_queue (scheduler (w_db w')) = [] -> w_hist w' = w_hist (sv_world sv) ->
    lone_server (mkServer (sv_node sv) w')).
  { intros Hj' Hq' Eh. eapply lone_world; try done; [by left|by rewrite Eh]. }
  destruct ev as [key val| |key|ta| |ord|ord]; cbn [world_step internal] in *; cbv zeta in Hw; try done.
  - injection Hw as <-. unfold Get_wait in *. destruct (waitTime_Wait _ _ _) as [x y] eqn:E. by apply Hsame.
  - destruct (Get_read _ _ _) as [[v db]| |] eqn:Er; [|by injection Hw as <-; destruct sv|done].
    injection Hw as <-. unfold Get_read, wrap_err in Er. destruct (Get fuel key _) as [[v' kv]| |]; try done.
    injection Er as <- <-. by apply Hsame.
  - unfold start_job in Hw. by rewrite Hj, Hq in Hw.
  - unfold job_step in Hw. by rewrite Hj in Hw.
  - apply bind_Ok_inv in Hw as (f & _ & [= <-]). by apply Hsame.
Qed.

Lemma lone_turn sv c n' :
  lone_server sv -> turn_order c (n_raft (sv_node sv)) -> run_turn c (sv_node sv) = Ok (Some n') ->
  lone_server (mkServer n' (sv_world sv)) /\ n_sent n' = n_sent (sv_node sv).
Proof.
  intros Hsv Hord Ht. pose proof Hsv as [Hr Hm Hq Ha _ _ _].
  destruct (run_turn_cases _ _ _ Ht) as (r1 & Hr1 & Em & Hc). pose proof (lone_callReady _ _ Hr Hr1) as Hl1.
  assert (Happ : n_applyc n' = n_applyc (sv_node sv)).
  { unfold run_turn in Ht. rewrite Hr1 in Ht. cbn [mbind outcome_bind] in Ht.
    destruct c as [ord|ds|ord|]; cbn [run_case set_n_raft n_propc n_raft n_tickc n_members] in Ht.
    - destruct (n_propc (sv_node sv)); [done|]. by apply bind_Ok_inv in Ht as (r' & _ & [= <-]).
    - destruct (readyc r1) as [rd|] eqn:Erd; [|done]. unfold processReady in Ht.
      rewrite (ln_ready _ Hl1 rd Erd) in Ht. by apply bind_Ok_inv in Ht as (wal & _ & [= <-]).
    - destruct (n_tickc (sv_node sv)); [done|]. by apply bind_Ok_inv in Ht as (r' & _ & [= <-]).
    - destruct (n_propc (sv_node sv)), (readyc r1), (n_tickc (sv_node sv)); try done. by injection Ht as <-. }
  destruct c as [ord|ds|ord|]; cbn [turn_order] in Hord.
  - destruct Hc as (m & Eq & Hs & E). split; [|done]. rewrite (lone_order _ _ Hr Hord) in Hs.
    apply lone_node; try done.
    + apply (lone_logged m r1); [|done|done]. right; right. apply Hq. rewrite Eq. by left.
    + intros x Hx. left. rewrite Eq. by right.
  - destruct Hc as (rd & Erd & Er' & Eq & E). split.
    + apply lone_node; try done; [rewrite Er'; by apply lone_consume|]. rewrite Eq. by left.
    + rewrite E. unfold send. rewrite Hm. rewrite filter_none; [by rewrite app_nil_r|].
      intros x _ [_ Hx]. by apply not_elem_of_nil in Hx.
  - destruct Hc as (Hs & Eq & E). split; [|done]. rewrite (lone_order _ _ Hr Hord) in Hs.
    apply lone_node; try done; [by apply (lone_Tick r1)|]. rewrite Eq. by left.
  - destruct Hc as (Er' & Eq & E). split; [|done]. apply lone_node; try done; [by rewrite Er'|]. rewrite Eq. by left.
Qed.

Lemma lone_step d s s' : lone_cluster s -> rep_step fuel d s s' -> lone_cluster s'.
Proof.
  intros Hs Hstep. pose proof (lc_wire _ Hs) as Hw.
  destruct Hstep as [m rest sv n' Hp|m sv n' _ Hm|m rest Hp|id sv Hsv|id sv c n' Hsv _ Hord Ht
    |id sv ev w' Hsv Hin Hev E|id sv key val c m db' n' Hsv _ Hc Hn|id sv ap n' w' Hsv Hap].
  - rewrite Hw in Hp. by apply Permutation_nil_cons in Hp.
  - rewrite Hw in Hm. by apply not_elem_of_nil in Hm.
  - rewrite Hw in Hp. by apply Permutation_nil_cons in Hp.
  - pose proof (lc_server _ Hs id sv Hsv) as Hl. destruct (node_Tick_queue (sv_node sv)) as [Er Eq].
    apply lone_at; [done| |done]. apply lone_node; [done|rewrite Er; apply Hl|..].
    + unfold node_Tick. by destruct (_ <? _)%nat.
    + rewrite Eq. by left.
    + unfold node_Tick. by destruct (_ <? _)%nat.
  - destruct (lone_turn sv c n' (lc_server _ Hs id sv Hsv) Hord Ht) as [Hl E].
    apply lone_at; [done|done|]. unfold new_messages. by rewrite Hw, E, drop_all.
  - apply lone_at; [done| |done]. eapply lone_internal; [by eapply lc_server|done..].
  - pose proof (lc_server _ Hs id sv Hsv) as Hl. pose proof Hl as [Hr ? ? ? [Hj Hq] Ha _].
    apply lone_at; [done| |done].
    assert (job db' = Idle /\ s_queue (scheduler db') = []) as [Hj' Hq'].
    { unfold Put_propose in Hc. destruct (Next _) as [i g], (waiter_Register _ _ _) as [ch x].
      injection Hc as _ _ <-. done. }
    assert (n_raft n' = n_raft (sv_node sv) /\ n_members n' = n_members (sv_node sv) /\
      n_applyc n' = n_applyc (sv_node sv) /\
      forall x, x ∈ n_propc n' -> x ∈ n_propc (sv_node sv) \/ exists c, x = proposal c) as (Er & Em & Ea & Ex).
    { destruct Hn as [Hn| ->]; [|by split_and!; [..|left]].
      destruct (put_queue _ _ _ _ _ _ Hc) as [y ->]. unfold stepSM in Hn. destruct (_ <? _)%nat; [|done].
      injection Hn as <-. split_and!; try done. cbn [n_propc]. intros x [?|?%list_elem_of_singleton]%elem_of_app; eauto. }
    eapply (lone_world sv n' (DbPut key val)); try done; [by rewrite Er|cbn [world_step]; by rewrite Hc|].
    intros e [?|He]%elem_of_app; [by eapply Ha|]. by apply list_elem_of_singleton in He.
  - pose proof (lv_applyc _ (lc_server _ Hs id sv Hsv)) as Ea. unfold receive_apply in Hap. by rewrite Ea in Hap.
Qed.

Lemma lone_boot id wal nodeID now (wal0 : W) :
  Open fuel [] [] nodeID now wal0 = Ok db0 -> lone_cluster (boot [id] wal (fun _ => mkWorld db0 [])).
Proof.
  intros Ho. split; [done|]. intros i sv Hsv.
  assert (i = id) as ->.
  { apply elem_of_list_to_map_2, list_elem_of_fmap in Hsv as (x & [= -> _] & Hx). by apply list_elem_of_singleton in Hx. }
  apply boot_server in Hsv as ->.
  destruct (Open_new _ _ _ _ _ Ho) as [_ (Es & Ej & _)].
  assert (filter (fun p => p <> id) [id] = []) as Ef.
  { apply filter_none. intros x ->%list_elem_of_singleton. by intros []. }
  split; cbn [sv_node sv_world w_db w_hist new_node]; unfold new_node, bootstrapRaftNode;
    cbn [n_raft n_members n_propc n_applyc]; rewrite ?Ef; try done.
  - intros m Hm. by apply not_elem_of_nil in Hm.
  - by rewrite Es.
  - intros e He. by apply not_elem_of_nil in He.
Qed.

(** A cluster of one server answers no put: whatever clients, timers and the run
    loop do, from start-up on, no [Put] returns success.  It ends with its
    timeout, although the server is its own leader. *)
Theorem lone_server_never_answers d id wal nodeID now wal0 s sv h1 c h2 sent sel :
  Open fuel [] [] nodeID now wal0 = Ok db0 ->
  rtc (rep_step fuel d) (boot [id] wal (fun _ => mkWorld db0 [])) s -> servers s !! id = Some sv ->
  w_hist (sv_world sv) = h1 ++ Called c :: h2 ->
  Put_await sent sel c (w_db (sv_world sv)) <> Some (Ok tt).
Proof.
  intros Ho Hrun Hsv Eh Hack.
  assert (lone_cluster s) as Hs.
  { assert (forall s0, rtc (rep_step fuel d) s0 s -> lone_cluster s0 -> lone_cluster s) as Hall
      by (clear; induction 1; eauto using lone_step).
    eapply Hall; [exact Hrun|by eapply lone_boot]. }
  destruct (lc_server _ Hs id sv Hsv) as [_ _ _ _ _ Ha Hw].
  assert (Put_await SelWoken SelWoken c (w_db (sv_world sv)) = Some (Ok tt)) as Hok.
  { unfold Put_await in *. destruct (wrap_err _ (Process sent)); [|done|done]. destruct sel; [exact Hack|done]. }
  apply (put_woken fuel db0 (sv_world sv) h1 c h2) in Hok as (e & He & _); [|by eapply Open_opened|done|done].
  apply (Ha e). rewrite Eh, elem_of_app. right. by right.
Qed.

End lone.

(** A run: the server makes itself leader, takes a put, logs it and waits. *)

#[local] Existing Instance doubling.

Definition lone_events : list rep_event :=
  concat (repeat [ReTick 1; ReTurn 1 (ChTick [])] 9) ++
  [RePut 1 (go_string "a") (go_string "1"); ReTurn 1 (ChProp []); ReTurn 1 (ChReady [])] ++
  concat (repeat [ReTick 1; ReTurn 1 (ChTick [])] 3).

Definition lone_run : replicas LogManager :=
  default (boot [] (fun _ => fresh_wal) (fun _ => new_world))
    (exec_reps (fun _ _ => true) lone_events (boot [1] (fun _ => fresh_wal) (fun _ => mkWorld (db_of 1) []))).

Example lone_run_state :
  (fun sv => (state (n_raft (sv_node sv)), length (st_GetLogs (n_wal (sv_node sv))),
     rl_commitIndex (r_raftLog (n_raft (sv_node sv))), length (w_hist (sv_world sv)))) <$> servers lone_run =
  {[1 := (StateLeader, 1%nat, 0, 1%nat)]}.
Proof. vm_compute. reflexivity. Qed.

Lemma lone_server_never_answers_witness :
  exists sv c, servers lone_run !! 1 = Some sv /\ w_hist (sv_world sv) = [Called c] /\
    Put_await SelWoken SelWoken c (w_db (sv_world sv)) <> Some (Ok tt).
Proof.
  destruct (servers lone_run !! 1) as [sv|] eqn:Hsv; [|by vm_compute in Hsv].
  assert (exists c, w_hist (sv_world sv) = [Called c]) as [c Hc].
  { vm_compute in Hsv. injection Hsv as <-. eexists. vm_compute. reflexivity. }
  exists sv, c. split; [reflexivity|]. split; [exact Hc|].
  refine (lone_server_never_answers 2 (db_of 1) any_discipline 1 (fun _ => fresh_wal) 1 1700000000000000000 fresh_wal
    lone_run sv [] c [] SelWoken SelWoken _ _ Hsv Hc).
  - vm_compute. reflexivity.
  - apply rtc_nsteps. exists (length lone_events).
    refine (proj1 (exec_reps_sound any_discipline (fun _ _ => true) lone_events _ _ _ _)).
    + intros s e _. by destruct e; cbn.
    + vm_compute. reflexivity.
Defined.
