(* ===== verification/Config.v ===== *)
(** * Ports, configuration and start of a node ([cmd/server.go], [db.go],
    [repl/bootstrap.go])

    The environment variables, the files, the dialling of a peer and the
    listening socket answer as the arguments say.  The YAML parser is a library
    and an argument too; the theorems hold for any. *)
From stdpp Require Export pretty.
From Stdlib Require Import Ascii.
From S2P Require Import Prelude Proto Wal RaftLog Raft Election Replication Growth RaftNode Cluster.

Local Open Scope Z_scope.

(** ** [strconv.Atoi] *)

Definition digit (c : Ascii.ascii) : option Z :=
  let n := Z.of_nat (Ascii.nat_of_ascii c) - 48 in
  if (0 <=? n) && (n <=? 9) then Some n else None.

Fixpoint digits_value (s : string) (v : Z) : option Z :=
  match s with
  | EmptyString => Some v
  | String c s => d ← digit c; digits_value s (v * 10 + d)
  end.

Definition in_int (z : Z) : option Z :=
  if (- 2 ^ 63 <=? z) && (z <? 2 ^ 63) then Some z else None.

(** [None] is an error: no digits, another character, or out of range. *)
Definition Atoi (s : string) : option Z :=
  let '(sign, ds) :=
    match s with
    | String "-"%char ds => (-1, ds)
    | String "+"%char ds => (1, ds)
    | _ => (1, s)
    end in
  match ds with
  | EmptyString => None
  | _ => v ← digits_value ds 0; in_int (sign * v)
  end.

(** ** [cmd/server.go] *)

Definition getPortFromEnv (Getenv : string -> string) : Z :=
  let portStr := Getenv "PORT" in
  let portStr := if decide (portStr = "") then "8080" else portStr in
  default 8080 (Atoi portStr).

Definition getRaftPortFromEnv (Getenv : string -> string) : Z :=
  let portStr := Getenv "RAFT_PORT" in
  let portStr := if decide (portStr = "") then "9091" else portStr in
  default 9091 (Atoi portStr).

(** ** [repl/raft.go], [repl/bootstrap.go] *)

Record NodeInfo := mkNodeInfo {
  ni_ID : Z;
  ni_Address : string;
}.

Record ClusterConfig := mkClusterConfig {
  cc_Nodes : list NodeInfo;
  cc_ThisNodeID : Z;
}.

(** [fmt.Errorf] with a number in the text. *)
Definition not_in_config (id : Z) : goerr :=
  ErrMsg ("node ID " +:+ pretty id +:+ " not found in cluster config").

Definition answer_of {A} (r : goerr + A) : outcome A :=
  match r with inl e => Err e | inr a => Ok a end.

Section config.
Context (ReadFile : string -> goerr + bytes) (Unmarshal : bytes -> goerr + ClusterConfig).
Context (Dial Listen : string -> option goerr).
Context {W : Type} (NewWal : string -> outcome W).

Definition loadConfig (path : string) : outcome ClusterConfig :=
  data ← wrap_err "failed to read config file" (answer_of (ReadFile path));
  wrap_err "failed to parse config" (answer_of (Unmarshal data)).

(** The address of the first entry with the id; empty when there is none. *)
Fixpoint find_address (id : Z) (ns : list NodeInfo) : string :=
  match ns with
  | [] => ""
  | n :: ns => if ni_ID n =? id then ni_Address n else find_address id ns
  end.

Fixpoint peer_ids (id : Z) (ns : list NodeInfo) : list Z :=
  match ns with
  | [] => []
  | n :: ns => if negb (ni_ID n =? id) then ni_ID n :: peer_ids id ns else peer_ids id ns
  end.

(** The keys of [node.members], a map: a repeated id is dialled again and
    kept once. *)
Fixpoint dial_peers (id : Z) (ns : list NodeInfo) (members : list Z) : outcome (list Z) :=
  match ns with
  | [] => Ok members
  | n :: ns =>
      if ni_ID n =? id then dial_peers id ns members
      else
        match Dial (ni_Address n) with
        | Some e =>
            Err (ErrWrap ("failed to connect to peer " +:+ pretty (ni_ID n) +:+ " at " +:+ ni_Address n) e)
        | None => dial_peers id ns (if decide (ni_ID n ∈ members) then members else members ++ [ni_ID n])
        end
  end.

(** [Node.start]. *)
Definition start (address : string) : outcome unit :=
  match Listen address with
  | Some e => Err (ErrWrap ("failed to listen on " +:+ address) e)
  | None => Ok tt
  end.

(** [NodeOptions]: the only one is [WithWal]. *)
Definition NodeOptions : Type := RaftNode.Node W -> RaftNode.Node W.

Definition WithWal (wal : W) : NodeOptions := fun n =>
  mkNode (n_raft n) wal (n_members n) (n_propc n) (n_applyc n) (n_tickc n) (n_sent n) (n_delivered n).

Definition set_members (ms : list Z) : NodeOptions := fun n =>
  mkNode (n_raft n) (n_wal n) ms (n_propc n) (n_applyc n) (n_tickc n) (n_sent n) (n_delivered n).

Definition wal_path (id : Z) : string := "./data/node_" +:+ pretty id +:+ "_wal.log".

(** [bootstrapRaftNode] with its configuration; the node and its [ID]. *)
Definition NewRaftNode (configPath : string) (options : list NodeOptions) : outcome (Z * RaftNode.Node W) :=
  config ← wrap_err "failed to load config" (loadConfig configPath);
  let id := cc_ThisNodeID config in
  let thisNodeAddr := find_address id (cc_Nodes config) in
  if decide (thisNodeAddr = "") then Err (not_in_config id) else
  let peers := peer_ids id (cc_Nodes config) in
  walStorage ← NewWal (wal_path id);
  let node := set_members [] (bootstrapRaftNode id peers walStorage) in
  let node := foldl (fun n opt => opt n) node options in
  members ← dial_peers id (cc_Nodes config) [];
  _ ← wrap_err "failed to start node" (start thisNodeAddr);
  Ok (id, set_members members node).

(** ** [db.go]: the file [Open] takes its configuration from *)

Definition config_path (raftPort : Z) : string :=
  "./repl/cluster-node" +:+ pretty (i64 (raftPort - 5001 + 1)) +:+ ".yaml".

Definition open_node (raftPort : Z) : outcome (Z * RaftNode.Node W) :=
  wrap_err "opendb with config" (NewRaftNode (config_path raftPort) []).

(** ** Properties *)

Definition node_ids (c : ClusterConfig) : list Z := ni_ID <$> cc_Nodes c.

Lemma peer_ids_filter id ns : peer_ids id ns = filter (fun p => p <> id) (ni_ID <$> ns).
Proof.
  induction ns as [|n ns IH]; [done|]. cbn [peer_ids]. rewrite fmap_cons, filter_cons, IH.
  destruct (Z.eqb_spec (ni_ID n) id), (decide (ni_ID n <> id)); tauto.
Qed.

Lemma find_address_Some id ns a :
  NoDup (ni_ID <$> ns) -> mkNodeInfo id a ∈ ns -> find_address id ns = a.
Proof.
  induction ns as [|n ns IH]; intros Hnd Hin; [by apply not_elem_of_nil in Hin|].
  apply NoDup_cons in Hnd as [Hn Hnd]. cbn. apply elem_of_cons in Hin as [<-|Hin].
  - cbn. by rewrite Z.eqb_refl.
  - destruct (Z.eqb_spec (ni_ID n) id) as [E|]; [|by apply IH].
    destruct Hn. rewrite E. apply list_elem_of_fmap. by exists (mkNodeInfo id a).
Qed.

Lemma find_address_None id ns : id ∉ (ni_ID <$> ns) -> find_address id ns = "".
Proof.
  induction ns as [|n ns IH]; [done|]. cbn. rewrite not_elem_of_cons. intros [H1 H2].
  destruct (Z.eqb_spec (ni_ID n) id); [by subst|by apply IH].
Qed.

Definition can_dial (id : Z) (ns : list NodeInfo) : Prop :=
  forall n, n ∈ ns -> ni_ID n <> id -> Dial (ni_Address n) = None.

Lemma dial_peers_Ok id ns ms :
  can_dial id ns -> NoDup (ms ++ peer_ids id ns) ->
  dial_peers id ns ms = Ok (ms ++ peer_ids id ns).
Proof.
  revert ms. induction ns as [|n ns IH]; intros ms Hd Hnd; cbn in *; [by rewrite app_nil_r|].
  assert (can_dial id ns) as Hd' by (intros m Hm; apply Hd; by right).
  destruct (Z.eqb_spec (ni_ID n) id) as [E|E]; cbn in *; [by apply IH|].
  rewrite (Hd n (list_elem_of_here n ns) E). rewrite decide_False.
  - rewrite IH; [by rewrite <- app_assoc|done|by rewrite <- app_assoc].
  - intros Hin. apply NoDup_app in Hnd as (_ & Hnd & _). apply (Hnd _ Hin). by left.
Qed.

Lemma dial_peers_cases id ns ms :
  (can_dial id ns /\ exists ms', dial_peers id ns ms = Ok ms') \/
  (~ can_dial id ns /\ exists e, dial_peers id ns ms = Err e).
Proof.
  revert ms. induction ns as [|n ns IH]; intros ms; cbn [dial_peers].
  { left. split; [by intros n Hn%not_elem_of_nil|by eexists]. }
  assert (Hc : can_dial id (n :: ns) <-> (ni_ID n <> id -> Dial (ni_Address n) = None) /\ can_dial id ns).
  { unfold can_dial. setoid_rewrite elem_of_cons. naive_solver. }
  rewrite Hc. destruct (Z.eqb_spec (ni_ID n) id) as [E|E].
  - destruct (IH ms); [left|right]; tauto.
  - destruct (Dial (ni_Address n)); [right|destruct (IH (if decide (ni_ID n ∈ ms) then ms else ms ++ [ni_ID n])); [left|right]; tauto].
    split; [|by eexists]. intros [Hn _]. by specialize (Hn E).
Qed.

(** C36: a node starts as its configuration file says: when the file is read and
    names every node once, this one with an address, and the peers can be
    dialled and the socket opened, the bootstrap returns the node with the
    file's id, whose state machine is that of a node of a cluster with the ids of
    the file, and which can send to exactly the other ids. *)
Theorem bootstrap_as_configured path data cfg addr wal :
  ReadFile path = inr data -> Unmarshal data = inr cfg ->
  NoDup (node_ids cfg) -> mkNodeInfo (cc_ThisNodeID cfg) addr ∈ cc_Nodes cfg -> addr <> "" ->
  NewWal (wal_path (cc_ThisNodeID cfg)) = Ok wal ->
  can_dial (cc_ThisNodeID cfg) (cc_Nodes cfg) -> Listen addr = None ->
  exists node, NewRaftNode path [] = Ok (cc_ThisNodeID cfg, node) /\
    n_raft node = init_node (node_ids cfg) (cc_ThisNodeID cfg) /\ n_wal node = wal /\
    forall p, p ∈ n_members node <-> p ∈ node_ids cfg /\ p <> cc_ThisNodeID cfg.
Proof.
  intros Hr Hu Hnd Hin Ha Hw Hd Hl. unfold NewRaftNode, loadConfig. rewrite Hr. cbn. rewrite Hu. cbn.
  rewrite (find_address_Some _ _ addr) by done. rewrite decide_False by done.
  rewrite Hw. cbn. rewrite dial_peers_Ok; [|done|]; cbn [app].
  - unfold start. rewrite Hl. cbn. eexists. split; [done|]. split_and!.
    + unfold init_node. cbn. by rewrite peer_ids_filter.
    + done.
    + intros p. cbn. rewrite peer_ids_filter, list_elem_of_filter. unfold node_ids. tauto.
  - rewrite peer_ids_filter. by apply NoDup_filter.
Qed.

(** What a node needs from its environment to start. *)
Definition startable (path : string) : Prop :=
  exists data cfg, ReadFile path = inr data /\ Unmarshal data = inr cfg /\
    let id := cc_ThisNodeID cfg in
    let addr := find_address id (cc_Nodes cfg) in
    addr <> "" /\ Listen addr = None /\ can_dial id (cc_Nodes cfg).

(** When a node starts: with a write-ahead log that opens, the bootstrap
    returns a node exactly if the file can be read and parsed, has an address
    for this node, all its peers can be dialled and the socket opened; in every
    other case it returns an error. *)
Theorem bootstrap_starts_or_fails path options :
  (forall p, exists wal, NewWal p = Ok wal) ->
  (startable path -> exists r, NewRaftNode path options = Ok r) /\
  (~ startable path -> exists e, NewRaftNode path options = Err e).
Proof.
  intros Hw. enough ((startable path /\ exists r, NewRaftNode path options = Ok r) \/
    (~ startable path /\ exists e, NewRaftNode path options = Err e)) by tauto.
  unfold NewRaftNode, loadConfig, startable. destruct (ReadFile path) as [e|data]; cbn.
  { right. split; [by intros (? & ? & ? & _)|by eexists]. }
  destruct (Unmarshal data) as [e|cfg] eqn:Eu; cbn.
  { right. split; [|by eexists]. intros (? & ? & [= <-] & E & _). congruence. }
  set (id := cc_ThisNodeID cfg). set (addr := find_address id (cc_Nodes cfg)).
  assert (Hs : (exists data' cfg', inr data = inr data' :> goerr + bytes /\ Unmarshal data' = inr cfg' /\
      find_address (cc_ThisNodeID cfg') (cc_Nodes cfg') <> "" /\
      Listen (find_address (cc_ThisNodeID cfg') (cc_Nodes cfg')) = None /\
      can_dial (cc_ThisNodeID cfg') (cc_Nodes cfg')) <->
    addr <> "" /\ Listen addr = None /\ can_dial id (cc_Nodes cfg)).
  { split; [|by exists data, cfg]. intros (? & ? & [= <-] & E & H). rewrite Eu in E. by injection E as <-. }
  rewrite Hs. destruct (decide (addr = "")) as [Ea|Ea]; [right; split; [tauto|by eexists]|].
  destruct (Hw (wal_path id)) as [wal ->]. cbn.
  destruct (dial_peers_cases id (cc_Nodes cfg) []) as [[Hd [ms ->]]|[Hd [e ->]]]; cbn;
    [|right; split; [tauto|by eexists]].
  unfold start. destruct (Listen addr); cbn; [right|left]; (split; [|by eexists]); [|tauto]. by intros (_ & ? & _).
Qed.

End config.

(** ** Ports *)

Lemma digit_pretty n : (n < 10)%N -> digit (pretty_N_char n) = Some (Z.of_N n).
Proof.
  assert (Hd : Forall (fun i => digit (pretty_N_char (N.of_nat i)) = Some (Z.of_nat i)) (seq 0 10))
    by (vm_compute; repeat constructor).
  intros Hn. rewrite Forall_forall in Hd. specialize (Hd (N.to_nat n)). rewrite N2Nat.id, N_nat_Z in Hd.
  apply Hd, elem_of_seq. lia.
Qed.

Lemma digits_value_pretty x s :
  exists k, forall v, digits_value (pretty_N_go x s) v = digits_value s (v * k + Z.of_N x).
Proof.
  revert s. induction (N.lt_wf_0 x) as [x _ IH]; intros s. destruct (decide (0 < x)%N) as [Hx|Hx].
  - rewrite pretty_N_go_step by done. destruct (IH (x `div` 10)%N) with (s := String (pretty_N_char (x `mod` 10)) s) as [k Hk].
    { by apply N.div_lt. }
    exists (10 * k). intros v. rewrite Hk. cbn [digits_value]. rewrite digit_pretty by (by apply N.mod_lt). cbn.
    f_equal. pose proof (N.div_mod x 10 ltac:(done)). lia.
  - assert (x = 0%N) as -> by lia. exists 1. intros v. rewrite pretty_N_go_0. f_equal. lia.
Qed.

(** The decimal digits of a number start with a digit. *)
Lemma pretty_N_head (n : N) : exists c s d, pretty n = String c s /\ digit c = Some d.
Proof.
  unfold pretty, pretty_N. destruct (decide (n = 0%N)); [by eexists _, _, _|].
  enough (Hh : forall s, (exists c s' d, s = String c s' /\ digit c = Some d) \/ n <> 0%N ->
    exists c s' d, pretty_N_go n s = String c s' /\ digit c = Some d) by (apply Hh; by right).
  clear. induction (N.lt_wf_0 n) as [n _ IH]; intros s Hs. destruct (decide (0 < n)%N) as [Hn|Hn].
  - rewrite pretty_N_go_step by done. apply IH; [by apply N.div_lt|]. left.
    eexists _, _, _. split; [done|]. apply digit_pretty. by apply N.mod_lt.
  - assert (n = 0%N) as -> by lia. rewrite pretty_N_go_0. by destruct Hs.
Qed.

Lemma Atoi_pretty z : - 2 ^ 63 <= z < 2 ^ 63 -> Atoi (pretty z) = Some z.
Proof.
  intros Hz. assert (Hp : forall n : N, digits_value (pretty n) 0 = Some (Z.of_N n)).
  { intros n. unfold pretty, pretty_N. case_decide as E; [by subst|].
    destruct (digits_value_pretty n "") as [k ->]. done. }
  assert (Hi : in_int z = Some z).
  { unfold in_int. by rewrite (proj2 (Z.leb_le _ _)), (proj2 (Z.ltb_lt _ _)) by lia. }
  destruct z as [|p|p]; [done|..].
  - change (pretty (Z.pos p)) with (pretty (N.pos p)). destruct (pretty_N_head (N.pos p)) as (c & s & d & E & Hd).
    unfold Atoi. specialize (Hp (N.pos p)). rewrite E in *.
    assert (c <> "-"%char /\ c <> "+"%char) as [H1 H2] by (split; intros ->; done).
    destruct c as [[] [] [] [] [] [] [] []]; first [done|by rewrite Hp; cbn [mbind option_bind]; rewrite Z.mul_1_l].
  - change (pretty (Z.neg p)) with ("-" +:+ pretty (N.pos p)). destruct (pretty_N_head (N.pos p)) as (c & s & d & E & Hd).
    specialize (Hp (N.pos p)). unfold Atoi. cbn [String.append]. rewrite E in *.
    change ("-" +:+ String c s) with (String "-"%char (String c s)). cbv beta iota zeta. by rewrite Hp.
Qed.

(** A port in the environment is the port that is used: the decimal number
    of any [int], negative ones too, is read back as that number; without a
    number, or with one out of range, the default is used. *)
Theorem port_read_back (Getenv : string -> string) z :
  - 2 ^ 63 <= z < 2 ^ 63 ->
  (Getenv "PORT" = pretty z -> getPortFromEnv Getenv = z) /\
  (Getenv "RAFT_PORT" = pretty z -> getRaftPortFromEnv Getenv = z) /\
  (Atoi (Getenv "PORT") = None -> getPortFromEnv Getenv = 8080) /\
  (Atoi (Getenv "RAFT_PORT") = None -> getRaftPortFromEnv Getenv = 9091).
Proof.
  intros Hz. assert (Hne : pretty z <> "").
  { intros E. apply Atoi_pretty in Hz. rewrite E in Hz. done. }
  unfold getPortFromEnv, getRaftPortFromEnv. split_and!; intros E.
  1, 2: rewrite E, decide_False by done; by rewrite Atoi_pretty.
  all: case_decide; [done|]. all: by rewrite E.
Qed.

(** ** The cluster of the repository *)

Definition three_nodes : list NodeInfo :=
  [mkNodeInfo 1 "localhost:5001"; mkNodeInfo 2 "localhost:5002"; mkNodeInfo 3 "localhost:5003"].

Definition newline : string := String (Ascii.ascii_of_nat 10) "".

Definition quoted (s : string) : string :=
  let quote := String (Ascii.ascii_of_nat 34) "" in quote +:+ s +:+ quote.

(** The files [repl/cluster-node1.yaml] to [repl/cluster-node3.yaml]. *)
Definition node_file (k : Z) : bytes :=
  go_string (String.concat newline
    ["cluster:"; "  nodes:";
     "    - id: 1"; ("      address: " +:+ quoted "localhost:5001");
     "    - id: 2"; ("      address: " +:+ quoted "localhost:5002");
     "    - id: 3"; ("      address: " +:+ quoted "localhost:5003");
     ""; ("this_node_id: " +:+ pretty k)]).

Definition repo_files (path : string) : goerr + bytes :=
  if decide (path = "./repl/cluster-node1.yaml") then inr (node_file 1)
  else if decide (path = "./repl/cluster-node2.yaml") then inr (node_file 2)
  else if decide (path = "./repl/cluster-node3.yaml") then inr (node_file 3)
  else inl (ErrMsg "no such file or directory").

(** What a YAML parser makes of these files. *)
Definition repo_yaml (data : bytes) : goerr + ClusterConfig :=
  if decide (data = node_file 1) then inr (mkClusterConfig three_nodes 1)
  else if decide (data = node_file 2) then inr (mkClusterConfig three_nodes 2)
  else if decide (data = node_file 3) then inr (mkClusterConfig three_nodes 3)
  else inl (ErrMsg "yaml: unmarshal errors").

Definition open_repo (raftPort : Z) : outcome (Z * RaftNode.Node LogManager) :=
  open_node repo_files repo_yaml (fun _ => None) (fun _ => None) (fun _ => Ok fresh_wal) raftPort.

Lemma bootstrap_as_configured_witness :
  exists node, open_repo 5002 = Ok (2, node) /\ n_raft node = init_node [1; 2; 3] 2 /\
    2 ∉ n_members node /\ 3 ∈ n_members node.
Proof.
  destruct (bootstrap_as_configured repo_files repo_yaml (fun _ => None) (fun _ => None) (fun _ => Ok fresh_wal)
    (config_path 5002) (node_file 2) (mkClusterConfig three_nodes 2) "localhost:5002" fresh_wal)
    as (node & E & Er & _ & Hm).
  - vm_compute. reflexivity.
  - vm_compute. reflexivity.
  - unfold node_ids. cbn. by repeat (apply NoDup_cons; split; [set_solver|]); apply NoDup_nil.
  - right. left.
  - discriminate.
  - reflexivity.
  - intros n _ _. reflexivity.
  - reflexivity.
  - exists node. split; [unfold open_repo, open_node; rewrite E; reflexivity|].
    split; [exact Er|]. split; [rewrite Hm; cbn; tauto|]. apply Hm. cbn. split; [set_solver|lia].
Defined.

(** The port a server uses by default has no file: with the files of the
    repository and no environment variable, the node does not start. *)
Theorem default_port_fails :
  open_repo (getRaftPortFromEnv (fun _ => "")) =
  Err (ErrWrap "opendb with config" (ErrWrap "failed to load config"
    (ErrWrap "failed to read config file" (ErrMsg "no such file or directory")))).
Proof. vm_compute. reflexivity. Qed.

Lemma bootstrap_starts_or_fails_witness :
  (exists r, open_repo 5003 = Ok r) /\
  exists e, NewRaftNode repo_files repo_yaml (fun _ => Some (ErrMsg "refused")) (fun _ => None)
    (fun _ => Ok fresh_wal) (config_path 5003) [] = Err e.
Proof.
  split; [unfold open_repo, open_node|].
  - destruct (bootstrap_starts_or_fails repo_files repo_yaml (fun _ => None) (fun _ => None) (fun _ => Ok fresh_wal)
      (config_path 5003) []) as [Ho _]; [by eexists|].
    destruct Ho as [r E]; [|rewrite E; by eexists].
    exists (node_file 3), (mkClusterConfig three_nodes 3). split_and!; [vm_compute; reflexivity|vm_compute; reflexivity|].
    cbn. split_and!; [done|done|by intros ? _ _].
  - apply (bootstrap_starts_or_fails repo_files repo_yaml _ _ (fun _ => Ok fresh_wal)); [by eexists|].
    intros (data & cfg & Hr & Hu & _ & _ & Hd).
    assert (data = node_file 3) as -> by (vm_compute in Hr |- *; by injection Hr as <-).
    assert (cfg = mkClusterConfig three_nodes 3) as -> by (vm_compute in Hu |- *; by injection Hu as <-).
    specialize (Hd (mkNodeInfo 1 "localhost:5001") ltac:(left) ltac:(done)). done.
Defined.

Definition port_env (v : string) : string := if decide (v = "RAFT_PORT") then "5002" else "".

Lemma port_read_back_witness :
  getRaftPortFromEnv port_env = 5002 /\ config_path (getRaftPortFromEnv port_env) = "./repl/cluster-node2.yaml".
Proof.
  assert (E : getRaftPortFromEnv port_env = 5002).
  { apply (port_read_back port_env 5002 ltac:(lia)). vm_compute. reflexivity. }
  split; [exact E|]. rewrite E. vm_compute. reflexivity.
Defined.
