(* ===== verification/Api.v ===== *)
(** * The HTTP interface ([api/server.go])

    A handler checks its request, calls the database, and answers.  The JSON
    decoder is an argument and the theorems hold for any; a JSON answer is kept
    as its [Response] value, an answer of [http.Error] as its text.  The
    database's operations are arguments of the handlers; a handler gives [None]
    while the operation waits.  A panic of the database ends the request
    ([net/http] recovers it); it is passed on here. *)
From stdpp Require Import pretty.
From S2P Require Import Prelude Proto Wal RaftLog Raft Election Replication RaftNode Cluster Config.
From S2P Require Import Keys Slice Codec Node Leaf Storage BTree TreeFrame Tree TreeMap TreeLimits Generator Wait Scheduler Replay Db DbSpec Restart System.

Local Open Scope Z_scope.

(** [err.Error()]. *)
Fixpoint error_text (e : goerr) : string :=
  match e with
  | ErrEOF => "EOF"
  | ErrUnexpectedEOF => "unexpected EOF"
  | ErrMsg s => s
  | ErrWrap s e => s +:+ ": " +:+ error_text e
  end.

Record PutRequest := mkPutRequest {
  put_Key : bytes;
  put_Value : bytes;
}.

Record GetRequest := mkGetRequest { get_Key : bytes }.

Record Response := mkResponse {
  Success : bool;
  Message : bytes;
  Value : bytes;
  Error : bytes;
}.

Inductive answer_body :=
  | PlainText (s : string)
  | Json (r : Response).

(** Status and body; [200] when the handler sets no status. *)
Record answer := mkAnswer {
  status : Z;
  body : answer_body;
}.

(** A request: its method and its body. *)
Record request := mkRequest {
  rq_Method : string;
  rq_Body : bytes;
}.

Definition method_not_allowed : answer := mkAnswer 405 (PlainText "Method not allowed").

Definition failed (code : Z) (error : bytes) : answer := mkAnswer code (Json (mkResponse false [] [] error)).
Definition stored (key : bytes) : answer :=
  mkAnswer 200 (Json (mkResponse true (go_string "Successfully stored key: " ++ key) [] [])).
Definition found (val : bytes) : answer := mkAnswer 200 (Json (mkResponse true [] val [])).

Definition handleHealth (r : request) : answer :=
  if negb (String.eqb (rq_Method r) "GET") then method_not_allowed
  else mkAnswer 200 (Json (mkResponse true (go_string "healthy") [] [])).

Section handlers.
Context (DecodePut : bytes -> goerr + PutRequest) (DecodeGet : bytes -> goerr + GetRequest).

(** The checks of [handlePut] and [handleGet]: an answer, or what to do. *)
Definition check_put (r : request) : answer + PutRequest :=
  if negb (String.eqb (rq_Method r) "POST") then inl method_not_allowed else
  match DecodePut (rq_Body r) with
  | inl _ => inl (failed 400 (go_string "Invalid JSON body"))
  | inr req =>
      if decide (put_Key req = []) then inl (failed 400 (go_string "Key cannot be empty"))
      else inr req
  end.

Definition check_get (r : request) : answer + GetRequest :=
  if negb (String.eqb (rq_Method r) "POST") then inl method_not_allowed else
  match DecodeGet (rq_Body r) with
  | inl _ => inl (failed 400 (go_string "Invalid JSON body"))
  | inr req =>
      if decide (get_Key req = []) then inl (failed 400 (go_string "Key cannot be empty"))
      else inr req
  end.

Definition put_answer (key : bytes) (res : outcome unit) : outcome answer :=
  match res with
  | Ok _ => Ok (stored key)
  | Err e => Ok (failed 500 (go_string (error_text e)))
  | Panic p => Panic p
  end.

Definition get_answer (res : outcome bytes) : outcome answer :=
  match res with
  | Ok val => Ok (found val)
  | Err e => Ok (failed 500 (go_string ("Get failed: " +:+ error_text e)))
  | Panic p => Panic p
  end.

Definition handlePut (db_Put : bytes -> bytes -> option (outcome unit)) (r : request) : option (outcome answer) :=
  match check_put r with
  | inl a => Some (Ok a)
  | inr req => put_answer (put_Key req) <$> db_Put (put_Key req) (put_Value req)
  end.

Definition handleGet (db_Get : bytes -> option (outcome bytes)) (r : request) : option (outcome answer) :=
  match check_get r with
  | inl a => Some (Ok a)
  | inr req => get_answer <$> db_Get (get_Key req)
  end.

(** What the checks let through. *)
Lemma check_put_spec r :
  match check_put r with
  | inl a => (status a = 405 /\ rq_Method r <> "POST") \/
      (status a = 400 /\ rq_Method r = "POST" /\ forall req, DecodePut (rq_Body r) = inr req -> put_Key req = [])
  | inr req => rq_Method r = "POST" /\ DecodePut (rq_Body r) = inr req /\ put_Key req <> []
  end.
Proof.
  unfold check_put. destruct (String.eqb_spec (rq_Method r) "POST"); cbn; [|by left].
  destruct (DecodePut (rq_Body r)) as [er|req]; cbn; [by right; split_and!|].
  case_decide; cbn; [right; split_and!; [done|done|by intros ? [= <-]]|by split_and!].
Qed.

Lemma check_get_spec r :
  match check_get r with
  | inl a => (status a = 405 /\ rq_Method r <> "POST") \/
      (status a = 400 /\ rq_Method r = "POST" /\ forall req, DecodeGet (rq_Body r) = inr req -> get_Key req = [])
  | inr req => rq_Method r = "POST" /\ DecodeGet (rq_Body r) = inr req /\ get_Key req <> []
  end.
Proof.
  unfold check_get. destruct (String.eqb_spec (rq_Method r) "POST"); cbn; [|by left].
  destruct (DecodeGet (rq_Body r)) as [er|req]; cbn; [by right; split_and!|].
  case_decide; cbn; [right; split_and!; [done|done|by intros ? [= <-]]|by split_and!].
Qed.

Lemma check_put_ok r req :
  rq_Method r = "POST" -> DecodePut (rq_Body r) = inr req -> put_Key req <> [] -> check_put r = inr req.
Proof. intros Em Ed Hk. unfold check_put. rewrite Em, Ed. cbn. by rewrite decide_False. Qed.

Lemma check_get_ok r req :
  rq_Method r = "POST" -> DecodeGet (rq_Body r) = inr req -> get_Key req <> [] -> check_get r = inr req.
Proof. intros Em Ed Hk. unfold check_get. rewrite Em, Ed. cbn. by rewrite decide_False. Qed.

(** C33: what the status of a put says: the answer is 405 exactly for a method
    other than POST, 400 exactly for a POST whose body does not decode to a
    request with a key; otherwise it is 200 if the database stored the pair and
    500 if it returned an error, and only then was the database called. *)
Theorem put_status db_Put r a :
  handlePut db_Put r = Some (Ok a) ->
  (status a = 405 <-> rq_Method r <> "POST") /\
  (status a = 400 <-> rq_Method r = "POST" /\ forall req, DecodePut (rq_Body r) = inr req -> put_Key req = []) /\
  (status a = 200 <-> exists req, check_put r = inr req /\ db_Put (put_Key req) (put_Value req) = Some (Ok tt)) /\
  (status a = 500 <-> exists req e, check_put r = inr req /\ db_Put (put_Key req) (put_Value req) = Some (Err e)).
Proof.
  unfold handlePut. pose proof (check_put_spec r) as Hs. destruct (check_put r) as [b|req].
  - intros [= <-]. destruct Hs as [[-> Hm]|(-> & Hm & Hd)]; split_and!; naive_solver.
  - destruct Hs as (Hm & Hd & Hk). intros (res & Er & E)%fmap_Some.
    destruct res as [[]|er|p]; cbn in E; simplify_eq; cbn [status stored failed]; split_and!; naive_solver.
Qed.

(** What the status of a get says, likewise. *)
Theorem get_status db_Get r a :
  handleGet db_Get r = Some (Ok a) ->
  (status a = 405 <-> rq_Method r <> "POST") /\
  (status a = 400 <-> rq_Method r = "POST" /\ forall req, DecodeGet (rq_Body r) = inr req -> get_Key req = []) /\
  (status a = 200 <-> exists req val, check_get r = inr req /\ db_Get (get_Key req) = Some (Ok val) /\ a = found val) /\
  (status a = 500 <-> exists req e, check_get r = inr req /\ db_Get (get_Key req) = Some (Err e)).
Proof using Type.
  clear DecodePut.
  unfold handleGet. pose proof (check_get_spec r) as Hs. destruct (check_get r) as [b|req].
  - intros [= <-]. destruct Hs as [[-> Hm]|(-> & Hm & Hd)]; split_and!; naive_solver.
  - destruct Hs as (Hm & Hd & Hk). intros (res & Er & E)%fmap_Some.
    destruct res as [v|er|p]; cbn in E; simplify_eq; cbn [status found failed]; split_and!; naive_solver.
Qed.

End handlers.

(** The last put to a key is what the map gives. *)
Lemma last_put (kvs1 kvs2 : pair_list) k v m :
  (forall v', (k, v') ∉ kvs2) -> puts (kvs1 ++ (k, v) :: kvs2) m !! k = Some v.
Proof.
  intros Hlast. change ((k, v) :: kvs2) with ([(k, v)] ++ kvs2). rewrite !puts_app. cbn.
  set (m1 := <[k := v]> _). assert (m1 !! k = Some v) as Hm by apply lookup_insert_eq. clearbody m1.
  revert m1 Hm. induction kvs2 as [|[k' v'] kvs2 IH]; intros m1 Hm; [done|]. cbn. apply IH.
  - intros v2 Hin. apply (Hlast v2). by right.
  - cbn. rewrite lookup_insert_ne; [done|]. intros ->. apply (Hlast v'). left.
Qed.

(** ** Starting a server *)

Section start.
Context `{GrowPolicy} {W : Type} {HS : Storage W} {HSpec : StorageSpec W} (fuel : nat).
Context (ReadFile : string -> goerr + bytes) (Unmarshal : bytes -> goerr + ClusterConfig).
Context (Dial Listen : string -> option goerr) (NewWal : string -> outcome W).
(** What the files of the tree hold, empty when they are created. *)
Context (disk : string -> bytes).

Definition db_path (id : Z) : string := "./data/node_" +:+ pretty id +:+ ".db".

(** [Open] with the start of the node. *)
Definition OpenDB (raftPort now : Z) : outcome (server W) :=
  '(id, rn) ← open_node ReadFile Unmarshal Dial Listen NewWal raftPort;
  db ← Open fuel (disk (db_path id)) (disk (db_path id +:+ ".meta")) id now (n_wal rn);
  Ok (mkServer rn (mkWorld db [])).

Definition NewHTTPServerWithRaftPort (httpPort raftPort now : Z) : outcome (Z * server W) :=
  db ← panic_err "open db" (OpenDB raftPort now);
  Ok (httpPort, db).

Definition NewHTTPServer (port now : Z) : outcome (Z * server W) :=
  NewHTTPServerWithRaftPort port (i64 (port + 1010)) now.

(** A node that the bootstrap returned is one that [System.v] starts with. *)
Lemma NewRaftNode_inv path id rn :
  NewRaftNode ReadFile Unmarshal Dial Listen NewWal path [] = Ok (id, rn) ->
  exists peers wal, NewWal (wal_path id) = Ok wal /\
    exists ms, rn = RaftNode.mkNode (NewRaft id peers) wal ms [] [] 0 [] [].
Proof.
  unfold NewRaftNode. intros (cfg & _ & E)%bind_Ok_inv. cbv zeta in E.
  destruct (decide _); [done|]. apply bind_Ok_inv in E as (wal & Hw & E).
  apply bind_Ok_inv in E as (ms & _ & E). apply bind_Ok_inv in E as ([] & _ & E). injection E as <- <-.
  exists (peer_ids (cc_ThisNodeID cfg) (cc_Nodes cfg)), wal. split; [done|]. by eexists.
Qed.

Lemma OpenDB_inv raftPort now s0 :
  OpenDB raftPort now = Ok s0 ->
  exists id peers wal ms db,
    NewWal (wal_path id) = Ok wal /\
    Open fuel (disk (db_path id)) (disk (db_path id +:+ ".meta")) id now wal = Ok db /\
    s0 = mkServer (RaftNode.mkNode (NewRaft id peers) wal ms [] [] 0 [] []) (mkWorld db []).
Proof.
  unfold OpenDB, open_node. intros ([id rn] & E & Ho)%bind_Ok_inv. apply bind_Ok_inv in Ho as (db & Ho & Es).
  injection Es as <-. destruct (NewRaftNode _ _ _ _ _ _ _) as [r| |] eqn:En; try done.
  injection E as ->. apply NewRaftNode_inv in En as (peers & wal & Hw & ms & ->).
  by exists id, peers, wal, ms, db.
Qed.

(** The node may know its peers by another list: the invariants do not say. *)
Lemma started_inv base id peers ms wal nodeID now db :
  st_GetLogs wal = base -> Open fuel [] [] nodeID now wal = Ok db ->
  server_inv base (mkServer (RaftNode.mkNode (NewRaft id peers) wal ms [] [] 0 [] []) (mkWorld db [])).
Proof.
  intros Hw Ho. destruct (server_inv_start fuel base id peers wal nodeID now db Hw Ho) as [[] H2 H3 H4 H5 H6].
  by split; [split|..].
Qed.

Context (DecodePut : bytes -> goerr + PutRequest) (DecodeGet : bytes -> goerr + GetRequest).

(** The [Get] of a database in a state in which its [select] is taken. *)
Definition db_Get (ch : option nat) (c : select_case) (db : DB) (key : bytes) : option (outcome bytes) :=
  (fun r : outcome (bytes * DB) => fst <$> r) <$> Get_await fuel c ch key db.

Lemma Get_await_woken ch key db r : Get_await fuel SelWoken ch key db = Some r -> r = Get_read fuel key db.
Proof. unfold Get_await. destruct (decide _); [by intros [= <-]|done]. Qed.

(** C5: what a server answers to a get.  A server was started on new files and has
    made any steps that left its Raft log in order ([server_step]), and the puts
    of its committed entries are within the bounds of the tree.  Then a
    [POST /get] with a key whose [select] takes the case of the index is answered
    200 with the value that the puts of a prefix of the committed entries wrote
    last, or 500 with the error that the key was not found, and with nothing
    else; if the context ends first, it is answered 500. *)
Theorem http_get_committed raftPort now s0 s ch sel rq key r :
  (2 <= fuel)%nat -> (forall p, disk p = []) -> OpenDB raftPort now = Ok s0 -> rtc (server_step fuel) s0 s ->
  let l := r_raftLog (n_raft (sv_node s)) in
  in_bounds (log_pair <$> take (Z.to_nat (rl_commitIndex l)) (rl_entries l)) ->
  check_get DecodeGet rq = inr (mkGetRequest key) ->
  handleGet DecodeGet (db_Get ch sel (w_db (sv_world s))) rq = Some r ->
  match sel with
  | SelWoken => exists k, (k <= Z.to_nat (rl_commitIndex l))%nat /\
      r = Ok (match puts (log_pair <$> take k (rl_entries l)) ∅ !! key with
              | Some v => found v
              | None => failed 500 (go_string "Get failed: get: key not found")
              end)
  | SelDone _ => exists a, r = Ok a /\ status a = 500
  end.
Proof.
  intros Hf Hnew Ho Hrun l Hb Hc Hr. apply OpenDB_inv in Ho as (id & peers & wal & ms & db & Hw & Ho & ->).
  rewrite !Hnew in Ho. destruct sel as [|e].
  2: { unfold handleGet in Hr. rewrite Hc in Hr. injection Hr as <-. by eexists. }
  pose proof (started_inv (st_GetLogs wal) id peers ms wal id now db eq_refl Ho) as Hi.
  destruct (server_reads fuel (st_GetLogs wal) _ id now wal db s key Hf Ho Hi Hrun Hb) as (k & Hk & Eg).
  exists k. split; [done|]. unfold handleGet in Hr. rewrite Hc in Hr. cbn [get_Key] in Hr.
  apply fmap_Some in Hr as (x & Hr & ->). apply fmap_Some in Hr as (y & Hr & ->).
  apply Get_await_woken in Hr as ->. rewrite Eg. by destruct (puts _ _ !! key).
Qed.

(** C13: a client reads what it stored.  In a database opened on new files, whose
    applied puts are within the bounds of the tree, the entry of a put was
    applied after the put registered, and no entry applied since writes the same
    key.  Then the put request is answered 200 if its [select]s take the cases
    of the proposal and of the waiter, and a get request for the key is answered
    200 with the stored value if its [select] takes the case of the index; a
    request whose context ends first is answered 500, stored or not. *)
Theorem http_put_then_get db w h1 c h2 e h3 prq grq :
  (2 <= fuel)%nat -> opened db -> holds [] (kv_tree db) -> rtc (wstep fuel) (mkWorld db []) w ->
  w_hist w = h1 ++ Called c :: h2 ++ Applied e :: h3 ->
  GetRequestId (log_Data e) = pc_id c -> log_pair e = (pc_key c, pc_val c) ->
  (forall e', Applied e' ∈ h3 -> GetKey (log_Data e') <> pc_key c) ->
  in_bounds (all_puts [] w) ->
  check_put DecodePut prq = inr (mkPutRequest (pc_key c) (pc_val c)) ->
  check_get DecodeGet grq = inr (mkGetRequest (pc_key c)) ->
  (forall sent sel, exists a,
     handlePut DecodePut (fun _ _ => Put_await sent sel c (w_db w)) prq = Some (Ok a) /\
     (sent = SelWoken /\ sel = SelWoken -> a = stored (pc_key c)) /\
     (sent <> SelWoken \/ sel <> SelWoken -> status a = 500)) /\
  (forall ch sel r, handleGet DecodeGet (db_Get ch sel (w_db w)) grq = Some r ->
     exists a, r = Ok a /\ (sel = SelWoken -> a = found (pc_val c)) /\ (sel <> SelWoken -> status a = 500)).
Proof.
  intros Hf Hd H0 Hrun Eh Eid Ep Hlast Hb Hcp Hcg. split.
  - intros sent sel. unfold handlePut. rewrite Hcp. cbn [put_Key put_Value].
    destruct sent as [|es]; [|by eexists; split; [done|naive_solver]].
    destruct sel as [|es]; [|by eexists; split; [done|naive_solver]].
    rewrite (proj2 (put_woken fuel db w h1 c _ Hd Hrun Eh)).
    + eexists. split; [done|]. naive_solver.
    + exists e. split; [|done]. apply elem_of_app. right. left.
  - intros ch [|es] r Hr.
    2: { unfold handleGet in Hr. rewrite Hcg in Hr. injection Hr as <-. eexists. split; [done|]. naive_solver. }
    exists (found (pc_val c)). split; [|naive_solver]. unfold handleGet in Hr. rewrite Hcg in Hr. cbn [get_Key] in Hr.
    apply fmap_Some in Hr as (x & Hr & ->). apply fmap_Some in Hr as (y & Hr & ->).
    apply Get_await_woken in Hr as ->.
    destruct (db_tree_map fuel [] db w Hf H0 Hrun Hb) as [-> _].
    assert (all_puts [] w = (log_pair <$> applied_entries (h1 ++ Called c :: h2)) ++
      (pc_key c, pc_val c) :: (log_pair <$> applied_entries h3)) as ->.
    { unfold all_puts. rewrite Eh, <- Ep. change (Called c :: h2 ++ Applied e :: h3) with ((Called c :: h2) ++ [Applied e] ++ h3).
      by rewrite app_assoc, (applied_app (h1 ++ _)), (applied_app [_]), fmap_app. }
    rewrite last_put; [done|].
    intros v Hin. apply list_elem_of_fmap in Hin as (e' & E' & Hin). unfold log_pair in E'. injection E' as E' _.
    apply list_elem_of_omap in Hin as ([c'|e''] & Hin & [= ->]). by apply (Hlast e').
Qed.

End start.

(** ** Requests *)

#[local] Existing Instance doubling.

Definition json_field (name value : string) : string := quoted name +:+ ":" +:+ quoted value.

(** The bodies of [POST /put] and [POST /get], and what a decoder makes of them. *)
Definition put_body : bytes :=
  go_string ("{" +:+ json_field "key" "a" +:+ "," +:+ json_field "value" "1" +:+ "}").
Definition get_body : bytes := go_string ("{" +:+ json_field "key" "a" +:+ "}").

Definition sample_put_decoder (b : bytes) : goerr + PutRequest :=
  if decide (b = put_body) then inr (mkPutRequest (go_string "a") (go_string "1")) else inl ErrEOF.
Definition sample_get_decoder (b : bytes) : goerr + GetRequest :=
  if decide (b = get_body) then inr (mkGetRequest (go_string "a")) else inl ErrEOF.

Definition put_request : request := mkRequest "POST" put_body.
Definition get_request : request := mkRequest "POST" get_body.

Lemma put_status_witness :
  handlePut sample_put_decoder (fun _ _ => Some (Err (ErrMsg "put timeout"))) put_request =
    Some (Ok (failed 500 (go_string "put timeout"))) /\
  exists req e, check_put sample_put_decoder put_request = inr req /\ e = ErrMsg "put timeout".
Proof.
  assert (E : handlePut sample_put_decoder (fun _ _ => Some (Err (ErrMsg "put timeout"))) put_request =
    Some (Ok (failed 500 (go_string "put timeout")))) by (vm_compute; reflexivity).
  split; [exact E|]. destruct (put_status _ _ _ _ E) as (_ & _ & _ & Hs).
  destruct (proj1 Hs eq_refl) as (req & e & Hc & He). exists req, e. split; [exact Hc|]. by injection He.
Defined.

Lemma get_status_witness :
  handleGet sample_get_decoder (fun _ => None) (mkRequest "POST" []) =
    Some (Ok (failed 400 (go_string "Invalid JSON body"))) /\
  forall req, sample_get_decoder [] = inr req -> get_Key req = [].
Proof.
  assert (E : handleGet sample_get_decoder (fun _ => None) (mkRequest "POST" []) =
    Some (Ok (failed 400 (go_string "Invalid JSON body")))) by (vm_compute; reflexivity).
  split; [exact E|]. destruct (get_status _ _ _ _ E) as (_ & Hs & _). exact (proj2 (proj1 Hs eq_refl)).
Defined.

Definition repo_server (raftPort : Z) : outcome (server LogManager) :=
  OpenDB 2 repo_files repo_yaml (fun _ => None) (fun _ => None) (fun _ => Ok fresh_wal) (fun _ => [])
    raftPort 1700000000000000000.

Lemma http_get_committed_witness :
  repo_server 5001 = Ok new_server /\
  handleGet sample_get_decoder (db_Get 2 None SelWoken (w_db (sv_world ran_server))) get_request =
    Some (Ok (found (go_string "1"))) /\
  exists k, (k <= 1)%nat /\
    (puts (log_pair <$> take k [first_entry]) ∅ !! go_string "a" : option bytes) = Some (go_string "1").
Proof.
  assert (Eo : repo_server 5001 = Ok new_server) by (vm_compute; reflexivity).
  assert (Eg : handleGet sample_get_decoder (db_Get 2 None SelWoken (w_db (sv_world ran_server))) get_request =
    Some (Ok (found (go_string "1")))) by (vm_compute; reflexivity).
  assert (E : rl_entries (r_raftLog (n_raft (sv_node ran_server))) = [first_entry]) by (vm_compute; reflexivity).
  assert (Ec : rl_commitIndex (r_raftLog (n_raft (sv_node ran_server))) = 1) by (vm_compute; reflexivity).
  split; [exact Eo|]. split; [exact Eg|].
  destruct (http_get_committed 2 repo_files repo_yaml (fun _ => None) (fun _ => None) (fun _ => Ok fresh_wal)
    (fun _ => []) sample_get_decoder 5001 1700000000000000000 new_server ran_server None SelWoken get_request (go_string "a")
    (Ok (found (go_string "1"))) ltac:(lia) ltac:(reflexivity) Eo ran_server_reached) as (k & Hk & Ek).
  - rewrite E, Ec.
    enough (log_pair <$> take (Z.to_nat 1) [first_entry] = [(go_string "a", go_string "1")]) as ->
      by (split; [repeat constructor|cbn]; lia).
    vm_compute. reflexivity.
  - vm_compute. reflexivity.
  - exact Eg.
  - exists k. rewrite Ec in Hk. split; [lia|]. rewrite E in Ek.
    destruct (puts (log_pair <$> take k [first_entry]) ∅ !! go_string "a"); [|discriminate Ek].
    injection Ek as ->. reflexivity.
Defined.

Lemma http_put_then_get_witness :
  handlePut sample_put_decoder (fun _ _ => Put_await SelWoken SelWoken first_call (w_db put_world)) put_request =
    Some (Ok (stored (go_string "a"))) /\
  handleGet sample_get_decoder (db_Get 2 None SelWoken (w_db put_world)) get_request =
    Some (Ok (found (go_string "1"))).
Proof.
  assert (Eg : handleGet sample_get_decoder (db_Get 2 None SelWoken (w_db put_world)) get_request =
    Some (Ok (found (go_string "1")))) by (vm_compute; reflexivity).
  assert (Ek : pc_key first_call = go_string "a") by (vm_compute; reflexivity).
  assert (Ev : pc_val first_call = go_string "1") by (vm_compute; reflexivity).
  destruct (http_put_then_get 2 sample_put_decoder sample_get_decoder new_db put_world [] first_call [] first_entry []
    put_request get_request ltac:(lia) (Open_opened 2 _ _ _ _ _ _ new_db_opened)
    (holds_empty []) put_world_reached) as [Hp Hg].
  - vm_compute. reflexivity.
  - vm_compute. reflexivity.
  - vm_compute. reflexivity.
  - intros e' Hin. exact (False_ind _ (not_elem_of_nil _ Hin)).
  - assert (all_puts [] put_world = [(go_string "a", go_string "1")]) as -> by (vm_compute; reflexivity).
    split; [constructor|cbn; lia].
  - vm_compute. reflexivity.
  - vm_compute. reflexivity.
  - destruct (Hp SelWoken SelWoken) as (a & Ea & Hw & _). rewrite Ek in Hw.
    rewrite (Hw (conj eq_refl eq_refl)) in Ea. split; [exact Ea|].
    destruct (Hg None SelWoken _ Eg) as (a' & _ & Hw' & _). rewrite Ev in Hw'.
    rewrite <- (Hw' eq_refl). rewrite (Hw' eq_refl). exact Eg.
Defined.

(** The port that [NewHTTPServer] and the image choose have no configuration. *)
Theorem default_server_panics :
  exists e, NewHTTPServer 2 repo_files repo_yaml (fun _ => None) (fun _ => None) (fun _ => Ok fresh_wal) (fun _ => [])
    8080 1700000000000000000 = Panic (PanicErr "open db" e).
Proof. eexists. vm_compute. reflexivity. Qed.
