(* ===== verification/HttpServer.v ===== *)
(** * The HTTP server and the program ([api/server.go], [cmd/server.go])

    The routes, and the life of the server: [Start] serves until
    [ListenAndServe] returns, which always is with an error, and [main] turns
    that error into the exit code.  A [ServeMux] answers a canonical path
    without escapes by the handler registered for exactly that path, and any
    other with 404; it redirects the paths that are not canonical, which is not
    modelled, as are the time-outs of the connection. *)
From stdpp Require Import pretty.
From S2P Require Import Prelude Proto Wal RaftLog Raft Election Replication RaftNode Cluster Config.
From S2P Require Import Keys Slice Codec Node Leaf Storage BTree TreeFrame Tree TreeMap Wait Scheduler Replay Db DbSpec Restart System Api.

Local Open Scope Z_scope.

(** ** Routes *)

Definition handler : Type := request -> option (outcome answer).

(** [http.NewServeMux], [HandleFunc] for patterns that end in no slash, and the
    answer for a path. *)
Definition ServeMux : Type := list (string * handler).

Definition not_found : answer := mkAnswer 404 (PlainText "404 page not found").

Fixpoint serve (mux : ServeMux) (path : string) : handler :=
  match mux with
  | [] => fun _ => Some (Ok not_found)
  | (pattern, h) :: mux => if decide (pattern = path) then h else serve mux path
  end.

(** A server: its database, the port, and the address and routes once started. *)
Record HTTPServer (D : Type) := mkHTTPServer {
  hs_db : D;
  hs_server : option (string * ServeMux);
  hs_port : Z;
}.
Arguments mkHTTPServer {D} _ _ _.
Arguments hs_db {D} _.
Arguments hs_server {D} _.
Arguments hs_port {D} _.

Definition NewHTTPServerWithDB {D} (db : D) (port : Z) : HTTPServer D := mkHTTPServer db None port.

Section server.
Context {D : Type} (DecodePut : bytes -> goerr + PutRequest) (DecodeGet : bytes -> goerr + GetRequest).
(** The operations of the database as a handler sees them. *)
Context (db_Put : D -> bytes -> bytes -> option (outcome unit)) (db_Get : D -> bytes -> option (outcome bytes)).

Definition routes (db : D) : ServeMux :=
  [("/health", fun r => Some (Ok (handleHealth r)));
   ("/put", handlePut DecodePut (db_Put db));
   ("/get", handleGet DecodeGet (db_Get db))].

Definition addr (port : Z) : string := ":" +:+ pretty port.

(** [Start] up to [ListenAndServe], and what it returns. *)
Definition Start (ListenAndServe : string -> option goerr) (h : HTTPServer D) : HTTPServer D * option goerr :=
  let h := mkHTTPServer (hs_db h) (Some (addr (hs_port h), routes (hs_db h))) (hs_port h) in
  (h, ListenAndServe (addr (hs_port h))).

(** [Shutdown] is asked only if the server was started. *)
Definition Stop (Shutdown : option goerr) (h : HTTPServer D) : option goerr :=
  match hs_server h with
  | Some _ => Shutdown
  | None => None
  end.

(** The answer of a started server to a request. *)
Definition respond (h : HTTPServer D) (path : string) (r : request) : option (outcome answer) :=
  match hs_server h with
  | Some (_, mux) => serve mux path r
  | None => None
  end.

(** A started server answers a request by its path, with the operations of the
    database it was made with; every other path is 404, and the status of a
    known path is never 404. *)
Theorem server_routes ListenAndServe db port path r :
  let h := (Start ListenAndServe (NewHTTPServerWithDB db port)).1 in
  hs_server h = Some (addr port, routes db) /\
  respond h path r =
    (if decide (path = "/health") then Some (Ok (handleHealth r))
     else if decide (path = "/put") then handlePut DecodePut (db_Put db) r
     else if decide (path = "/get") then handleGet DecodeGet (db_Get db) r
     else Some (Ok not_found)) /\
  ((exists a, respond h path r = Some (Ok a) /\ status a = 404) <->
     path ∉ ["/health"; "/put"; "/get"]).
Proof.
  intros h. split; [done|].
  assert (Hput : forall a, handlePut DecodePut (db_Put db) r = Some (Ok a) -> status a <> 404).
  { unfold handlePut. pose proof (check_put_spec DecodePut r) as Hs. destruct (check_put DecodePut r) as [b|req].
    - intros a [= <-]. destruct Hs as [[-> _]|[-> _]]; done.
    - intros a (res & _ & E)%fmap_Some. by destruct res as [[]| |]; simplify_eq/=. }
  assert (Hget : forall a, handleGet DecodeGet (db_Get db) r = Some (Ok a) -> status a <> 404).
  { unfold handleGet. pose proof (check_get_spec DecodeGet r) as Hs. destruct (check_get DecodeGet r) as [b|req].
    - intros a [= <-]. destruct Hs as [[-> _]|[-> _]]; done.
    - intros a (res & _ & E)%fmap_Some. by destruct res; simplify_eq/=. }
  assert (Hhealth : status (handleHealth r) <> 404) by (unfold handleHealth; by case_match).
  assert (Hin : path ∉ ["/health"; "/put"; "/get"] <-> path <> "/health" /\ path <> "/put" /\ path <> "/get")
    by set_solver.
  rewrite Hin. clear Hin. split; cbn; repeat case_decide; subst; try done; naive_solver.
Qed.
End server.

(** ** The program *)

Section main.
Context `{GrowPolicy} {W : Type} {HS : Storage W} {HSpec : StorageSpec W} (fuel : nat).
Context (ReadFile : string -> goerr + bytes) (Unmarshal : bytes -> goerr + ClusterConfig).
Context (Dial Listen : string -> option goerr) (NewWal : string -> outcome W) (disk : string -> bytes).
Context (Getenv : string -> string) (ListenAndServe : string -> option goerr) (now : Z).
Context (DecodePut : bytes -> goerr + PutRequest) (DecodeGet : bytes -> goerr + GetRequest).
Context (db_Put : server W -> bytes -> bytes -> option (outcome unit)) (db_Get : server W -> bytes -> option (outcome bytes)).

(** The exit code. *)
Definition main : outcome Z :=
  let httpPort := getPortFromEnv Getenv in
  let raftPort := getRaftPortFromEnv Getenv in
  '(port, db) ← NewHTTPServerWithRaftPort fuel ReadFile Unmarshal Dial Listen NewWal disk httpPort raftPort now;
  let '(_, err) := Start DecodePut DecodeGet db_Put db_Get ListenAndServe (NewHTTPServerWithDB db port) in
  Ok match err with Some _ => 1 | None => 0 end.

(** The program never ends well: it panics when the node cannot start, and
    otherwise exits with 1, because [ListenAndServe] only returns with an error
    and nothing calls [Stop]. *)
Theorem main_fails :
  (forall a, is_Some (ListenAndServe a)) ->
  main = Ok 1 \/ (exists p, main = Panic p).
Proof.
  intros Hl. unfold main, NewHTTPServerWithRaftPort. cbn [Start fst snd].
  destruct (OpenDB _ _ _ _ _ _ _ _ _) as [s|e|p]; cbn; [|by right; eexists..].
  destruct (Hl (addr (getPortFromEnv Getenv))) as [e ->]. by left.
Qed.
End main.
