(* ===== verification/Logging.v ===== *)
(** * The logger ([logger.go])

    The debug mode read from the environment, the component filter around a zap
    core, the choice of a log file and the cleaning of test logs.  A zap core is
    an argument: [Check] answers with the cores that will write the entry, and
    the one documented fact the theorems use is that a core adds itself (or the
    cores inside it) there.  Encoders, sinks and time stamps are not modelled. *)
From stdpp Require Export pretty.
From Stdlib Require Import Ascii.
From S2P Require Import Prelude.

Local Open Scope Z_scope.

(** ** The functions of package [strings] that the logger calls *)

Definition lower_ascii (c : Ascii.ascii) : Ascii.ascii :=
  let n := Ascii.nat_of_ascii c in
  if (Nat.leb 65 n) && (Nat.leb n 90) then Ascii.ascii_of_nat (n + 32) else c.

Fixpoint lower (s : string) : string :=
  match s with
  | EmptyString => EmptyString
  | String c s => String (lower_ascii c) (lower s)
  end.

(** [strings.ToLower(s) == "true"]: no character outside ASCII has a letter of
    ["true"] as its lower case. *)
Definition is_true (s : string) : bool := bool_decide (lower s = "true").

(** What is left of [s] after the prefix. *)
Fixpoint CutPrefix (s p : string) : option string :=
  match p, s with
  | EmptyString, _ => Some s
  | String a p, String b s => if decide (a = b) then CutPrefix s p else None
  | String _ _, EmptyString => None
  end.

Definition CutSuffix (s p : string) : option string :=
  String.rev <$> CutPrefix (String.rev s) (String.rev p).

Definition HasSuffix (s p : string) : bool := bool_decide (is_Some (CutSuffix s p)).
Definition TrimSuffix (s p : string) : string := default s (CutSuffix s p).

Fixpoint Contains (s p : string) : bool :=
  bool_decide (is_Some (CutPrefix s p)) ||
  match s with EmptyString => false | String _ s => Contains s p end.

(** Never empty. *)
Fixpoint Split (sep : Ascii.ascii) (s : string) : list string :=
  match s with
  | EmptyString => [""]
  | String c s =>
      if decide (c = sep) then "" :: Split sep s
      else match Split sep s with p :: ps => String c p :: ps | [] => [String c ""] end
  end.

Fixpoint str (l : list nat) : string :=
  match l with [] => "" | n :: l => String (Ascii.ascii_of_nat n) (str l) end.

(** The UTF-8 encodings of the characters for which [unicode.IsSpace] holds. *)
Definition spaces : list string :=
  str <$> [[9]; [10]; [11]; [12]; [13]; [32]; [194; 133]; [194; 160]; [225; 154; 128];
           [226; 128; 128]; [226; 128; 129]; [226; 128; 130]; [226; 128; 131]; [226; 128; 132];
           [226; 128; 133]; [226; 128; 134]; [226; 128; 135]; [226; 128; 136]; [226; 128; 137];
           [226; 128; 138]; [226; 128; 168]; [226; 128; 169]; [226; 128; 175]; [226; 129; 159];
           [227; 128; 128]]%nat.

(** The fuel is the length: every round drops a character. *)
Fixpoint trim_left (fuel : nat) (sp : list string) (s : string) : string :=
  match fuel with
  | O => s
  | S fuel => match list_find (fun p => is_Some (CutPrefix s p)) sp with
              | Some (_, p) => trim_left fuel sp (default s (CutPrefix s p))
              | None => s
              end
  end.

Definition TrimSpace (s : string) : string :=
  let s := trim_left (String.length s) spaces s in
  String.rev (trim_left (String.length s) (String.rev <$> spaces) (String.rev s)).

(** ** Debug mode *)

Record DebugConfig := mkDebugConfig {
  Enabled : bool;
  Components : gmap string bool;
  PerformanceMonitoring : bool;
}.

Fixpoint add_components (comps : list string) (m : gmap string bool) : gmap string bool :=
  match comps with
  | [] => m
  | c :: comps => add_components comps (<[TrimSpace c := true]> m)
  end.

Definition detectDebugMode (Getenv : string -> string) : DebugConfig :=
  let debug := Getenv "HARMONYDB_DEBUG" in
  let components := Getenv "HARMONYDB_DEBUG_COMPONENTS" in
  let perf := Getenv "HARMONYDB_DEBUG_PERF" in
  mkDebugConfig
    (if decide (debug = "") then false else is_true debug)
    (if decide (components = "") then ∅ else add_components (Split ","%char components) ∅)
    (if decide (perf = "") then false else is_true perf).

(** [debugConfig] is the package variable, nil before [InitLogger]. *)
Definition isDebugEnabledForComponent (debugConfig : option DebugConfig) (component : string) : bool :=
  match debugConfig with
  | None => false
  | Some c =>
      if Enabled c && Nat.eqb (size (Components c)) 0 then true
      else default false (Components c !! component)
  end.

(** ** The filter around a zap core *)

Inductive FieldType := StringType | Int64Type | OtherType.

Record Field := mkField { f_Key : string; f_Type : FieldType; f_Integer : Z; f_String : string }.

(** [zap.String] and [zap.Int64]. *)
Definition zap_String (key value : string) : Field := mkField key StringType 0 value.
Definition zap_Int64 (key : string) (value : Z) : Field := mkField key Int64Type value "".

Definition DebugLevel : Z := -1.
Definition InfoLevel : Z := 0.

Fixpoint extractComponentFromFields (fields : list Field) : string :=
  match fields with
  | [] => ""
  | f :: fields =>
      if decide (f_Key f = "component") then
        match f_Type f with StringType => f_String f | _ => extractComponentFromFields fields end
      else extractComponentFromFields fields
  end.

Definition isDebugEntryEnabled (debugConfig : option DebugConfig) : bool :=
  match debugConfig with
  | None => false
  | Some c => if Enabled c && Nat.eqb (size (Components c)) 0 then true else Enabled c
  end.

Section filter.
Context {core entry sink : Type} (Level : entry -> Z).

Record DebugFilterCore := mkFilter { fc_Core : core; fc_debugConfig : option DebugConfig }.

Definition NewDebugFilterCore (c : core) (config : DebugConfig) : DebugFilterCore :=
  mkFilter c (Some config).

(** The values of type [zapcore.Core]. *)
Inductive Core := LibCore (c : core) | FilterCore (c : DebugFilterCore).

(** A checked entry is the list of the cores that will write it; nil is []. *)
Context (Check : core -> entry -> list Core -> list Core).
Context (Write : core -> entry -> list Field -> sink -> sink * option goerr).
Context (With : core -> list Field -> core).

Definition filter_Check (c : DebugFilterCore) (e : entry) (ce : list Core) : list Core :=
  if (Level e =? DebugLevel) && negb (isDebugEntryEnabled (fc_debugConfig c)) then ce
  else Check (fc_Core c) e ce.

Definition filter_Write (debugConfig : option DebugConfig) (c : DebugFilterCore) (e : entry)
    (fields : list Field) (s : sink) : sink * option goerr :=
  let component := extractComponentFromFields fields in
  if (Level e =? DebugLevel) && negb (bool_decide (component = ""))
     && negb (isDebugEnabledForComponent debugConfig component)
  then (s, None)
  else Write (fc_Core c) e fields s.

Definition filter_With (c : DebugFilterCore) (fields : list Field) : DebugFilterCore :=
  mkFilter (With (fc_Core c) fields) (fc_debugConfig c).

Context (Sync : core -> sink -> sink * option goerr).

Definition filter_Sync (c : DebugFilterCore) (s : sink) : sink * option goerr := Sync (fc_Core c) s.

(** Logging an entry: the core says who writes it, and each of them does. *)
Definition core_Check (c : Core) : entry -> list Core -> list Core :=
  match c with LibCore c => Check c | FilterCore c => filter_Check c end.

Definition core_Write (debugConfig : option DebugConfig) (c : Core) (e : entry) (fields : list Field)
    (s : sink) : sink :=
  match c with
  | LibCore c => (Write c e fields s).1
  | FilterCore c => (filter_Write debugConfig c e fields s).1
  end.

Definition log_entry (debugConfig : option DebugConfig) (c : Core) (e : entry) (fields : list Field)
    (s : sink) : sink :=
  foldl (fun s c => core_Write debugConfig c e fields s) s (core_Check c e []).

(** Documented of [zapcore.Core]: a core that logs an entry adds itself to it. *)
Definition adds_library_cores : Prop :=
  forall c e ce, exists cs, Check c e ce = ce ++ (LibCore <$> cs).

(** The second case of [isDebugEntryEnabled] cannot matter. *)
Lemma isDebugEntryEnabled_Enabled c : isDebugEntryEnabled (Some c) = Enabled c.
Proof. simpl. destruct (Enabled c); simpl; [by case_match | done]. Qed.

(** The filter that a debug configuration installs drops no entry, whatever its
    component: the cores inside it add themselves, and [filter_Write] is never
    called. *)
Theorem component_filter_unused debugConfig config c e fields s :
  adds_library_cores -> Enabled config = true ->
  exists cs, Check c e [] = LibCore <$> cs /\
    log_entry debugConfig (FilterCore (NewDebugFilterCore c config)) e fields s
    = foldl (fun s c => (Write c e fields s).1) s cs.
Proof.
  intros Ha He. destruct (Ha c e []) as [cs Hc]. exists cs. split; [done |].
  unfold log_entry. simpl. unfold filter_Check. simpl fc_debugConfig. simpl fc_Core.
  rewrite isDebugEntryEnabled_Enabled, He, andb_false_r, Hc.
  clear Hc. simpl. revert s. induction cs as [|x cs IH]; intros s; [done | simpl; apply IH].
Qed.
End filter.

(** ** The names of components, and the choice of the log file *)

Definition allowedComponents : gmap string bool :=
  list_to_map ((., true) <$> ["btree"; "raft"; "api"; "db"; "storage"; "server"]).

Definition ValidateComponent (component : string) : string :=
  if default false (allowedComponents !! component) then component else "unknown".

Definition GetStructuredLogger (component : string) : list Field :=
  [zap_String "component" (ValidateComponent component)].

Definition CreateOperationLogger (component operation : string) (additional : list Field) : list Field :=
  [zap_String "component" (ValidateComponent component); zap_String "operation" operation] ++ additional.

Definition CorrelationID (id : string) : Field := zap_String "correlation_id" id.
Definition NodeID (id : string) : Field := zap_String "node_id" id.
Definition Duration (duration : string) : Field := zap_String "duration_ms" duration.
Definition PageID (id : string) : Field := zap_String "page_id" id.
Definition Term (term : Z) : Field := zap_Int64 "term" term.
Definition PeerID (id : string) : Field := zap_String "peer_id" id.

Definition HTTPRequestLogger (component operation RemoteAddr UserAgent : string) : list Field :=
  CreateOperationLogger component operation
    [zap_String "remote_addr" RemoteAddr; zap_String "user_agent" UserAgent].

(** [GetLogger]: the package variable is set on the first call. *)
Definition GetLogger {L : Type} (nop : L) (Logger : option L) : L * option L :=
  match Logger with
  | None => (nop, Some nop)
  | Some l => (l, Some l)
  end.

(** [Sync]: its error is dropped; with no logger set nothing happens. *)
Definition sync_logger {L S : Type} (logger_Sync : L -> S -> S * option goerr) (Logger : option L) (s : S) : S :=
  match Logger with
  | None => s
  | Some l => (logger_Sync l s).1
  end.

(** [zap.Error] and the method [Error] are of the library. *)
Definition LogErrorWithContext {L E S : Type} (zap_Error : E -> Field) (Error : L -> string -> list Field -> S -> S)
    (logger : L) (msg : string) (err : E) (fields : list Field) (s : S) : S :=
  let allFields := fields ++ [zap_Error err] in
  Error logger msg allFields s.

(** A frame of the call stack: the function's name, if it is known, and the
    file. *)
Definition frame : Type := option string * string.

Definition test_name (file : string) : option string :=
  match CutSuffix file "_test.go" with
  | Some baseName => Some (List.last (Split "/"%char baseName) "" +:+ "_test")
  | None => None
  end.

Fixpoint scan_frames (frames : list frame) : bool * string :=
  match frames with
  | [] => (false, "")
  | (fn, file) :: frames =>
      let in_test := match fn with Some n => Contains n ".Test" || Contains n ".Benchmark" | None => false end in
      match test_name file with
      | Some n => (true, n)
      | None => if in_test then (true, "test") else scan_frames frames
      end
  end.

(** Ten callers at most. *)
Definition detectTestContext (frames : list frame) : bool * string := scan_frames (take 10 frames).

Definition log_path (logDir : string) (test_ctx : bool * string) (port : Z) : string :=
  let '(isTest, testName) := test_ctx in
  if isTest && negb (bool_decide (testName = "")) then logDir +:+ "/" +:+ testName +:+ ".log"
  else logDir +:+ "/harmony_" +:+ pretty port +:+ ".log".

(** ** Loggers of zap *)

(** The fields of [zapcore.EncoderConfig] that are set; the encoders of single
    fields are functions of the library. *)
Record EncoderConfig (F : Type) := mkEncoderConfig {
  TimeKey : string;
  LevelKey : string;
  NameKey : string;
  CallerKey : string;
  FunctionKey : string;
  MessageKey : string;
  StacktraceKey : string;
  LineEnding : string;
  EncodeLevel : F;
  EncodeTime : F;
  EncodeDuration : F;
  EncodeCaller : F;
}.
Arguments mkEncoderConfig {F} _ _ _ _ _ _ _ _ _ _ _ _.

(** What [zap.New] and [With] are given: the core, whether callers are added,
    the level from which stack traces are, and the fields of every entry. *)
Record zapLogger (core : Type) := mkLogger {
  z_core : Core (core := core);
  z_AddCaller : bool;
  z_AddStacktrace : Z;
  z_With : list Field;
}.
Arguments mkLogger {core} _ _ _ _.

Definition ErrorLevel : Z := 2.

Section zap.
Context {F core encoder writer : Type}.
Context (LowercaseLevelEncoder ISO8601TimeEncoder SecondsDurationEncoder ShortCallerEncoder : F).
Context (OmitKey DefaultLineEnding : string).
Context (NewConsoleEncoder NewJSONEncoder : EncoderConfig F -> encoder).
Context (NewCore : encoder -> writer -> Z -> core) (NewTee : core -> core -> core).
Context (Stdout : writer) (OpenFile : string -> goerr + writer).

Definition encoderConfig : EncoderConfig F :=
  mkEncoderConfig "timestamp" "level" "logger" "caller" OmitKey "message" "stacktrace" DefaultLineEnding
    LowercaseLevelEncoder ISO8601TimeEncoder SecondsDurationEncoder ShortCallerEncoder.

Definition wrap_core (config : DebugConfig) (c : core) : Core (core := core) :=
  if Enabled config then FilterCore (NewDebugFilterCore c config) else LibCore c.

(** The new [debugConfig], and the new [Logger] or the error of opening the file.
    The [zap.Config] it also makes is never used. *)
Definition InitLogger (Getenv : string -> string) (homebrew : bool) (frames : list frame)
    (port : Z) (test : bool) : DebugConfig * (goerr + zapLogger core) :=
  let config := detectDebugMode Getenv in
  let logLevel := if Enabled config then DebugLevel else InfoLevel in
  let logDir := if homebrew then "/opt/homebrew/var/log" else "/var/log/harmonydb" in
  let logDir := if test then "." else logDir in
  let logPath := log_path logDir (detectTestContext frames) port in
  (config, match OpenFile logPath with
           | inl e => inl e
           | inr logFile =>
               let teeCore := NewTee (NewCore (NewConsoleEncoder encoderConfig) Stdout logLevel)
                                (NewCore (NewJSONEncoder encoderConfig) logFile logLevel) in
               inr (mkLogger (wrap_core config teeCore) true ErrorLevel [])
           end).

(** Like [InitLogger], for a node of a test: to a file only, and the package's
    debug configuration is left alone. *)
Definition CreateNodeSpecificLogger (Getenv : string -> string) (nodeID : Z) (testName : string)
    : goerr + zapLogger core :=
  let config := detectDebugMode Getenv in
  let logLevel := if Enabled config then DebugLevel else InfoLevel in
  let logPath := "./" +:+ testName +:+ "_node_" +:+ pretty nodeID +:+ ".log" in
  match OpenFile logPath with
  | inl e => inl e
  | inr logFile =>
      let fileCore := NewCore (NewConsoleEncoder encoderConfig) logFile logLevel in
      inr (mkLogger (wrap_core config fileCore) true ErrorLevel [zap_Int64 "node_id" nodeID])
  end.

(** With debugging on, what either makes logs the entries of every component: the
    core of the logger hands an entry to the cores of the library. *)
Lemma wrap_core_unfiltered {entry sink : Type} (Level : entry -> Z)
    (Check : core -> entry -> list (Core (core := core)) -> list (Core (core := core)))
    (Write : core -> entry -> list Field -> sink -> sink * option goerr) config c e ce :
  Enabled config = true -> core_Check Level Check (wrap_core config c) e ce = Check c e ce.
Proof.
  intros He. unfold wrap_core. rewrite He. unfold core_Check, filter_Check, NewDebugFilterCore.
  cbn [fc_debugConfig fc_Core].
  by rewrite isDebugEntryEnabled_Enabled, He, andb_false_r.
Qed.
End zap.

Definition GetTestLogPath (frames : list frame) : string :=
  let '(isTest, testName) := detectTestContext frames in
  if isTest && negb (bool_decide (testName = "")) then "./" +:+ testName +:+ ".log" else "".

(** ** Old test logs *)

(** The names that are removed; a file is its name and, if [Info] answers, the
    time of its last change in nanoseconds. *)
Fixpoint remove_old (logDir : string) (now : Z) (files : list (string * option Z)) : list string :=
  match files with
  | [] => []
  | (name, info) :: files =>
      if HasSuffix name "_test.log" then
        match info with
        | None => remove_old logDir now files
        | Some t =>
            if (t + 24 * 60 * 60 * 1000 * 1000 * 1000 <? now)
            then (logDir +:+ "/" +:+ name) :: remove_old logDir now files
            else remove_old logDir now files
        end
      else remove_old logDir now files
  end.

Definition CleanupTestLogs (ReadDir : string -> goerr + list (string * option Z)) (now : Z)
    (logDir : string) : outcome (list string) :=
  let logDir := if decide (logDir = "") then "." else logDir in
  match ReadDir logDir with
  | inl e => Err e
  | inr files => Ok (remove_old logDir now files)
  end.

Definition removed (logDir : string) (now : Z) (files : list (string * option Z)) (p : string) : Prop :=
  exists name t, (name, Some t) ∈ files /\ HasSuffix name "_test.log" = true /\
    t + 86400 * 10 ^ 9 < now /\ p = logDir +:+ "/" +:+ name.

Definition sample_env (k : string) : string :=
  if decide (k = "HARMONYDB_DEBUG_COMPONENTS") then " btree ,raft" else "".

(** ** Theorems *)

Lemma add_components_lookup comps m c :
  add_components comps m !! c =
  if decide (c ∈ TrimSpace <$> comps) then Some true else m !! c.
Proof.
  revert m. induction comps as [|x comps IH]; intros m.
  - by rewrite decide_False by set_solver.
  - cbn [add_components]. rewrite IH, lookup_insert. repeat case_decide; set_solver.
Qed.

Lemma Split_nonempty sep s : Split sep s <> [].
Proof. destruct s; simpl; [done |]. repeat case_match; done. Qed.

Lemma add_components_size sep s m : size (add_components (Split sep s) m) <> 0%nat.
Proof.
  rewrite map_size_ne_0_lookup. destruct (Split sep s) as [|x l] eqn:E; [by apply Split_nonempty in E |].
  exists (TrimSpace x), true. rewrite add_components_lookup. rewrite decide_True; [done | set_solver].
Qed.

(** Debugging is on for a component exactly if it is named in
    HARMONYDB_DEBUG_COMPONENTS, between commas and white space, or nothing is
    named there and HARMONYDB_DEBUG is ["true"] in any case. *)
Theorem debug_components Getenv c :
  isDebugEnabledForComponent (Some (detectDebugMode Getenv)) c = true <->
  (if decide (Getenv "HARMONYDB_DEBUG_COMPONENTS" = "")
   then lower (Getenv "HARMONYDB_DEBUG") = "true"
   else c ∈ TrimSpace <$> Split ","%char (Getenv "HARMONYDB_DEBUG_COMPONENTS")).
Proof.
  unfold isDebugEnabledForComponent, detectDebugMode. simpl.
  set (d := Getenv "HARMONYDB_DEBUG"). set (cs := Getenv "HARMONYDB_DEBUG_COMPONENTS").
  destruct (decide (cs = "")) as [-> | Hc].
  - rewrite map_size_empty, lookup_empty. simpl. rewrite andb_true_r.
    destruct (decide (d = "")) as [-> |]; [done |]. unfold is_true.
    case_bool_decide; naive_solver.
  - destruct (Nat.eqb_spec (size (add_components (Split ","%char cs) ∅)) 0) as [E|_];
      [by apply add_components_size in E |].
    rewrite andb_false_r, add_components_lookup, lookup_empty.
    case_decide; simpl; naive_solver.
Qed.

(** The files removed are the test logs last changed more than a day ago. *)
Theorem remove_old_spec logDir now files p :
  p ∈ remove_old logDir now files <->
  removed logDir now files p.
Proof.
  assert (Hskip : forall f fs, (f.2 = None \/ HasSuffix f.1 "_test.log" = false \/
      exists t, f.2 = Some t /\ now <= t + 86400 * 10 ^ 9) ->
    (removed logDir now (f :: fs) p <-> removed logDir now fs p)).
  { intros [n i] fs Hf. unfold removed. setoid_rewrite elem_of_cons. split.
    - intros (n' & t & [[= <- <-] | Hin] & ?); [| by eauto].
      destruct Hf as [[=] | [Hf | (t' & [= <-] & Hf)]]; cbn [fst snd] in *; [destruct_and?; congruence | lia].
    - intros (n' & t & Hin & ?). exists n', t. auto. }
  induction files as [|[name [t|]] files IH]; cbn [remove_old].
  - unfold removed. set_solver.
  - destruct (HasSuffix name "_test.log") eqn:Hs; [| rewrite Hskip by auto; exact IH].
    destruct (Z.ltb_spec (t + 24 * 60 * 60 * 1000 * 1000 * 1000) now).
    + rewrite elem_of_cons, IH. unfold removed. setoid_rewrite elem_of_cons. split.
      * intros [-> | (n' & t' & ? & ?)]; [exists name, t | exists n', t']; auto with lia.
      * intros (n' & t' & [[= -> ->] | Hin] & ?); [left; tauto | right; eauto].
    + rewrite Hskip by (right; right; exists t; split; [done | simpl; lia]). exact IH.
  - rewrite Hskip by auto. by case_match.
Qed.

Example sample_components :
  (fun c => isDebugEnabledForComponent (Some (detectDebugMode sample_env)) c) <$> ["btree"; "raft"; "db"]
  = [true; true; false].
Proof. vm_compute. reflexivity. Qed.

Example sample_frames :
  detectTestContext [(Some "harmonydb.Open", "/src/db.go"); (Some "harmonydb.TestPut", "/src/db_test.go")]
  = (true, "db_test").
Proof. vm_compute. reflexivity. Qed.

(** The test's own logger is not named after it. *)
Example db_test_component : f_String <$> GetStructuredLogger "db_test" = ["unknown"].
Proof. vm_compute. reflexivity. Qed.
